(* ===== verification/_CoqProject ===== *)
-Q . S2P
Prelude.v
Common.v
Json.v
Version.v
BufferOp.v
Buffer.v
BufferWords.v
BufferLayout.v
BufferSpec.v
BufferProps.v
BufferPartial.v
Prompt.v
Treedoc.v
TreedocInv.v
TreedocWf.v
TreedocRemote.v
TreedocSpec.v
TreedocConv.v
TreedocLocal.v
TreedocInsert.v
TreedocCausal.v
NodeIds.v
OperationLog.v
OperationQueue.v
DocumentModel.v
DocumentProps.v
DocumentSync.v
EditorSystem.v
EditorConverges.v
OperationCopies.v
EditorSync.v
EditorCatchUp.v
DocumentWire.v
EditorIds.v
GoText.v
Md5.v
Fortune.v
FortuneProps.v
FortuneSystem.v
Framing.v
Utf8.v
KvNode.v
KvMeta.v
KvJson.v
KvFrontEnd.v
KvConn.v
KvFrontProps.v
KvCommands.v
KvSystem.v
KvUtf8.v
KvInvariant.v
KvTurns.v
KvConsistency.v
NetMeta.v
NodePool.v
Session.v
NetworkProps.v
Handshake.v
Conn.v
Link.v
LinkProps.v
Manager.v
Threads.v
Gui.v
GuiProps.v
GuiSync.v
NetworkUpdates.v
NetworkQueues.v
GuiQueues.v
EditorNetwork.v
EditorNetworkProps.v
EditorNetworkRun.v
Leader.v
LeaderProps.v
JoinProtocol.v
LeaderRoles.v
UnitTests.v
