(* ===== verification/Prelude.v ===== *)
(** * Verification of the course programs under src/CPSC418

    The repository holds coursework. The code verified here is its Go code:
    a text editor replicated between sites without a server
    (src/CPSC418/project_o7l8_s7l8_u4o8_y5q8, "project" below), a replicated
    key-value store (assignment4_f5l8_u4o8, "assignment4"), a leader protocol
    over a key-value service (assignment3_u4o8_v6q8, "assignment3") and a
    client and two servers that tell a fortune to who knows a secret
    (assignment1_u4o8 and assignment2_u4o8, "assignment1" and "assignment2").

    ** The programs

    *** The editor

    - common, version: identifiers of 16 bytes, 32-bit counters, maps from
      sites to counters with their partial order.
    - treedoc: the text as a tree of nodes, each with an array of atoms, whose
      positions have names every site agrees on. Local edits produce an
      operation, remote operations are replayed; both report the edit of the
      text.
    - buffer: the same text as lines wrapped to the width of the window, with
      the cursor. The prompt is a second, one-line text.
    - documentmanager: one document of each kind, kept equal; the log of what
      was applied and the queue of what waits for its causes. The handlers
      run under one lock.
    - network: who takes part and who has left, the pool of nodes with their
      connections, broadcasts that stop at nodes already visited, the
      dialogues that open a connection, the threads that send, receive, poke
      and serve.
    - util: messages with a length prefix on a byte stream.
    - gui: the menu, the prompts and the editor in the terminal, and the
      handlers it gives to the network: what to do with an operation that
      arrives, what this site has, and what another site misses.

    *** The key-value store

    A front end keeps a set of nodes per key, sends every change to all of
    them, answers a client when one has answered, replicates a key again when
    a node is lost, and obeys KILL commands. A node is a map from keys to
    versioned values behind a loop that reads a line and writes a line.

    *** The leader protocol

    Nodes elect the lowest bidder through one key of a key-value service, and
    the leader keeps the list of active nodes in another one. A key can become
    unavailable for good; a value is then written under the next name.

    *** The fortune

    A client gets a nonce, answers with the MD5 hash of the nonce and the
    secret, is given the address of the fortune server and a second nonce, and
    sends that one for the fortune.

    ** The files

    Shared: [Prelude] (results, tactics, list lemmas, the Go slice
    operations), [GoText] (strconv and strings), [Json] (encoding/json as a
    class with its law), [Utf8] (what encoding/json does to strings that are
    not UTF-8). Each model file says which source it translates; the
    definitions carry the names of the source.

    - [Common], [Version]: project/common/def.go, version/version.go.
      [Compare_correct]: the loop decides the partial order, in any range
      order. The JSON form of a vector round-trips.
    - [BufferOp], [Buffer], [Prompt]: project/buffer. [BufferWords] and
      [BufferLayout] prove the layout against a reference tokenizer, through
      an interface for the two sequences of words; [BufferSpec] is the
      contract of each operation on the text and the cursor; [BufferProps]
      has the properties and the places where they fail; [BufferPartial]
      drops the assumptions on the cursor.
    - [Treedoc], [NodeIds]: project/treedoc, on an explicit heap.
      [TreedocInv] and [TreedocWf]: the invariant (a forest, sizes that add
      up, identifiers that name nodes) and how the elementary changes keep
      it. [TreedocRemote] and [TreedocSpec]: an operation whose precondition
      holds returns, edits the text as it reports, keeps the invariant, and
      otherwise panics. [TreedocConv]: two documents that applied the same
      operations in causal orders show the same text. [TreedocLocal],
      [TreedocInsert], [TreedocCausal]: where local edits put and remove an
      atom, that they always return, and that their operation is a valid
      remote operation elsewhere.
    - [OperationLog], [OperationQueue]: project/documentmanager. Delivery of
      the queue is causal, complete and loses nothing.
    - [DocumentModel], [DocumentProps], [DocumentSync]: documentmanager.go.
      When a local edit returns, it did to the text what the user means; it
      panics when a deletion empties a line after a word, and it may when a
      slot of the tree is reused. A site sends another one exactly what it
      misses, in order.
    - [EditorSystem], [EditorConverges]: the whole editor without its network:
      a step relation whose steps are the handlers, where an operation that
      was broadcast reaches any site at any time, in any order, any number of
      times. A handler that panics has no step. Every reachable state keeps
      the invariant of each site, what a site has received with its causes is
      applied, and sites that applied the same operations show the same text.
    - [OperationCopies], [EditorSync], [EditorCatchUp]: the sites when
      broadcasts get lost and a site asks another one for what it misses, as
      the version check does. That system refines the one above, although the
      answers carry no vectors, and two sites that caught up show the same
      text.
    - [DocumentWire]: remoteop.go and the JSON of version.go, with their
      round trips.
    - [Manager], [Gui], [GuiProps], [GuiSync]: network.go and project/gui. A
      key event or a turn of the main loop is a function of the state. The
      states of the interface are well formed, the menu does what it shows,
      and nothing is drawn outside the window. What the user does in the
      editor, and what the handlers do over the wire format, are steps of the
      system of [EditorSync].
    - [Framing]: the message readers and writers of project/util and
      assignment4/util. Round trips exactly for the messages that fit;
      termination; what a message that does not fit does to the next ones.
    - [KvNode]: assignment4/kv-node.go. Two nodes that got the same writes in
      any order agree, unless a TEST_PUT is among them; versions only grow.
      Requests are served in order while each is a line that the reader takes
      (shorter than 4096 bytes), and answered up to the one that kills it.
    - [KvMeta], [KvFrontEnd]: assignment4/kv-front-end.go. The metadata is a
      store of shared objects (keys, nodes, queues, filters) with the locks
      and the channels as values. [KvFrontProps], [KvCommands]: a filter
      answers its client exactly once, merges keep the newest value,
      partitions give every key the nodes it lacks, the KILL commands kill
      the nodes they name, and the calls that panic or wait for ever.
      [KvJson]: the JSON between the front end and the nodes, which changes
      keys and values that are not UTF-8; a client with such a key makes the
      front end dereference nil.
      [KvSystem]: clients, the main routine, the filters, the routines of the
      nodes, replication and the nodes themselves as one transition system,
      where a routine that gives up the lock of the metadata can be overtaken.
      [KvUtf8]: while the strings of clients are UTF-8, so are all others.
      [KvInvariant] and [KvTurns] prove its invariant, step by step.
      [KvConsistency]: in every state that is reachable with such clients the
      replicas of a key that can be reached agree, and their answers are those
      of a single copy. [KvConn]: over the connection of one node each answer
      finds the channel of its request, or is dropped when that has no room;
      when the routine of the node learns that the node is lost, it tells those
      whose request it had received. A request that is on the queue behind that
      word is never answered.
    - [NetMeta], [NodePool], [Session], [NetworkProps], [NetworkUpdates],
      [Handshake]: project/network. Metadata converges under gossip, and in it
      a node that has left never returns (a node that dials again is put back
      into the pool all the same, [left_node_comes_back]); a broadcast reaches
      what the topology lets it reach and ends; both ends of a dialogue agree
      on the connection.
    - [Conn], [Link], [LinkProps], [Threads]: conn.go and the threads of
      nodethread.go and session.go. One direction of a connection, from the
      queue of the node to the other side's channel, with breaks, failed sends
      and threads of older connections, delivers in order as long as the bytes
      that GoVector makes of a message are not empty and do not end with a
      newline. A session that ends delivers all that is queued and then its
      farewell, unless the connection breaks or is closed before that. A thread
      that pokes backs off and stops when it should; messages are served in
      order.
    - [EditorIds], [NetworkQueues], [GuiQueues], [EditorNetwork],
      [EditorNetworkProps], [EditorNetworkRun]: the network of editors as one
      system: each with its interface, its manager with the pool and the
      queues, its message channel and its goroutines, and connections that may
      lose, delay and repeat messages. An editor is followed from the opening of
      its document until it closes it, exits or panics. The system refines that
      of [EditorSync]:
      a message is always one of an operation that was broadcast, of an answer
      for the site it reaches, of a question of its source, or about the
      network. So the documents that are open show the same text when they
      count the same operations. A run of two editors shows that the steps can
      be taken.
    - [Leader], [LeaderProps]: assignment3/node.go. At most one leader value is
      agreed on in an election among candidates that replace the same leader
      and bid at the same nonce, while the key stays available (if it does not,
      two can win, [election_can_split]); a turn of the leader updates the list
      of active nodes, and unavailable keys are skipped. [JoinProtocol]: while
      the key stays available, a request to join is in the key, held by a
      routine that took it, or received by a leader, however the calls
      interleave; and a process that is left alone is done with the key after
      two calls. [LeaderRoles]: main with the leader or the
      follower that it runs and the routines they start, as a transition
      system; channels connect the right routines in every reachable state,
      and requests that a routine took are stuck when its leadership ends.
    - [Md5], [Fortune], [FortuneProps]: assignment1/client.go and
      assignment2, with the hash written out. The fortune is told only to an
      address that proved the secret, whatever datagrams are sent.
      [FortuneSystem]: the client, both servers, other addresses and the
      datagrams under way as one system. A client alone at its address can
      always finish with the fortune while there is no fault; under any fault
      it does not panic and prints nothing else, but may exit or wait; and it is
      starved by two datagrams from elsewhere.
    - [UnitTests]: the Go tests of buffer, version, documentmanager and
      treedoc, translated and run on the definitions above; all pass.

    ** How Go is modelled

    - A call is a function into [res]: a value, a panic with its reason, or
      [OutOfFuel]. Fuel bounds loops and recursions that are not structural.
      Each fuel is computed from the input (the number of nodes of the heap,
      of characters of the text, of messages in the queue), and the theorems
      say that a result is reached, so never that the fuel ran out. A loop
      that can really run for ever is a relation or has its fuel as an
      argument, with a theorem that some fuel is enough, or that none is.
    - Fixed-width integers are [Z] with [wrap8], [wrap16], [wrap32] where the
      code converts or counts in the width. [int] is unbounded.
    - Pointers that are shared are locations of a store: tree nodes, the
      metadata of the front end, the sets of visited nodes. Slices are lists;
      the capacity of a slice is taken to be its length, except in
      [removeId], where the array behind the slice matters.
    - The order of a [range] over a map, [rand.Intn], the key-value service,
      the network and the GoVector clock are arguments of the definitions.
      encoding/json is an argument with its round trip as a hypothesis, which
      the witnesses instantiate; between the front end and the nodes of the
      key-value store it is written out, as far as it changes what is sent.
    - Goroutines: a handler that holds its lock from start to end is one
      step. Where a routine gives up its lock the model splits it.
    - GoVector is a class, [GoLog], with the law that a value survives it.
      That its bytes are neither empty nor end with a newline, as MessageReader
      needs, is not a law but a condition on the messages of a run.

    ** Not modelled

    The drawing of termbox itself, the argument parsing of the main functions
    of the assignments (that of editor.go is [editor_main] in [Gui]), logging
    and debug output, opening sockets and accepting connections, the RPC
    library, sleeping, and what a third-party package does with a message.
    The race of the unlocked map [Visited] of a broadcast, and that of the
    editor's document closed while a handler runs, are findings, not models. *)
From Stdlib Require Export ZArith Lia.
From Stdlib Require Export Init.Byte.
From Stdlib Require Strings.Byte.
From stdpp Require Export base tactics numbers list gmap sorting.

(** * Results of Go computations *)

(** The run-time panics the modelled code can raise. *)
Inductive panic : Type :=
  | NilPointer
  | IndexOutOfRange
  | SliceOutOfRange
  | MakeSliceOutOfRange
  | ExplicitPanic.

(** A Go computation returns, panics, or (for the loops that are bounded by
    an explicit amount of fuel here) is cut off. *)
Inductive res (A : Type) : Type :=
  | Ok (a : A)
  | Panic (p : panic)
  | OutOfFuel.
Arguments Ok {A} a.
Arguments Panic {A} p.
Arguments OutOfFuel {A}.

#[export] Instance panic_eq_dec : EqDecision panic.
Proof. solve_decision. Defined.
#[export] Instance res_eq_dec {A} `{EqDecision A} : EqDecision (res A).
Proof. solve_decision. Defined.

#[export] Instance res_ret : MRet res := @Ok.
#[export] Instance res_bind : MBind res := λ A B f m,
  match m with
  | Ok a => f a
  | Panic p => Panic p
  | OutOfFuel => OutOfFuel
  end.

Lemma bind_Ok {A B} (a : A) (f : A → res B) : (Ok a ≫= f) = f a.
Proof. reflexivity. Qed.

Lemma bind_Ok_inv {A B} (m : res A) (f : A → res B) b :
  (m ≫= f) = Ok b → ∃ a, m = Ok a ∧ f a = Ok b.
Proof. destruct m; simpl; intros ?; try discriminate; eauto. Qed.

(** Dereferencing what may be absent: a map entry that is nil, an index out
    of range. *)
Definition require {A} (p : panic) (o : option A) : res A :=
  match o with Some a => Ok a | None => Panic p end.

Lemma require_Some {A} (p : panic) (a : A) : require p (Some a) = Ok a.
Proof. reflexivity. Qed.

Lemma require_Ok_inv {A} (p : panic) (o : option A) a :
  require p o = Ok a → o = Some a.
Proof. destruct o; simpl; congruence. Qed.

(** The value of a computation that is known to return. *)
Definition or_else {A} (d : A) (r : res A) : A := match r with Ok a => a | _ => d end.
Definition is_Ok {A} (r : res A) : bool := match r with Ok _ => true | _ => false end.

Lemma or_else_Ok {A} (d : A) (r : res A) : is_Ok r = true → r = Ok (or_else d r).
Proof. by destruct r. Qed.

Lemma default_Some {A} (d : A) (o : option A) :
  match o with Some _ => true | None => false end = true → o = Some (default d o).
Proof. by destruct o. Qed.

(** [for _, x := range l]: the loop body threads an accumulator. *)
Fixpoint foldM {A S} (f : S → A → res S) (s : S) (l : list A) : res S :=
  match l with
  | [] => Ok s
  | a :: l => s' ← f s a; foldM f s' l
  end.

Lemma foldM_app {A S} (f : S → A → res S) (l1 l2 : list A) s :
  foldM f s (l1 ++ l2) = (s' ← foldM f s l1; foldM f s' l2).
Proof.
  revert s; induction l1 as [|a l1 IH]; intros s; simpl; [done|].
  destruct (f s a); simpl; [apply IH|done|done].
Qed.

(** A range loop whose body only appends to the accumulator. *)
Lemma foldM_append {A B} (f : list B → A → res (list B)) (g : A → list B)
    (l : list A) (s : list B) :
  (∀ s a, a ∈ l → f s a = Ok (s ++ g a)) →
  foldM f s l = Ok (s ++ concat (map g l)).
Proof.
  revert s; induction l as [|a l IH]; intros s Hf; simpl.
  - by rewrite app_nil_r.
  - rewrite Hf by set_solver. rewrite bind_Ok, IH by (intros; apply Hf; set_solver).
    by rewrite app_assoc.
Qed.

(** * Machine integers *)

Definition w8 : Z := 256.
Definition w16 : Z := 65536.
Definition w32 : Z := 4294967296.
Definition wrap8 (z : Z) : Z := z `mod` w8.
Definition wrap16 (z : Z) : Z := z `mod` w16.
Definition wrap32 (z : Z) : Z := z `mod` w32.

Lemma wrap16_small z : (0 ≤ z < w16)%Z → wrap16 z = z.
Proof. apply Z.mod_small. Qed.
Lemma wrap32_small z : (0 ≤ z < w32)%Z → wrap32 z = z.
Proof. apply Z.mod_small. Qed.
Lemma wrap32_range z : (0 ≤ wrap32 z < w32)%Z.
Proof. by apply Z.mod_pos_bound. Qed.

(** * Bytes *)

#[export] Instance byte_eq_dec : EqDecision byte := Byte.byte_eq_dec.
#[export] Program Instance byte_countable : Countable byte :=
  inj_countable Byte.to_N Byte.of_N _.
Next Obligation. intros b. apply Byte.of_to_N. Qed.
#[export] Instance byte_inhabited : Inhabited byte := populate x00.

Definition byte_val (b : byte) : Z := Z.of_N (Byte.to_N b).
(** Conversion to [byte]: the low eight bits. *)
Definition byte_of (z : Z) : byte := default x00 (Byte.of_N (Z.to_N (wrap8 z))).

Lemma byte_val_range b : (0 ≤ byte_val b < 256)%Z.
Proof. unfold byte_val. pose proof (Byte.to_N_bounded b). lia. Qed.

Lemma byte_val_inj b1 b2 : byte_val b1 = byte_val b2 → b1 = b2.
Proof.
  unfold byte_val. intros H%N2Z.inj.
  apply (f_equal Byte.of_N) in H. rewrite !Byte.of_to_N in H. congruence.
Qed.

Lemma byte_val_of z : byte_val (byte_of z) = wrap8 z.
Proof.
  unfold byte_val, byte_of.
  assert (0 ≤ wrap8 z < 256)%Z as Hr by (by apply Z.mod_pos_bound).
  destruct (Byte.of_N (Z.to_N (wrap8 z))) as [b|] eqn:Hb.
  - simpl. apply Byte.to_of_N in Hb. rewrite Hb. lia.
  - apply Byte.of_N_None_iff in Hb. lia.
Qed.

(** [bytes.Compare] on unsigned bytes, lexicographically. *)
Fixpoint bytes_Compare (a b : list byte) : comparison :=
  match a, b with
  | [], [] => Eq
  | [], _ => Lt
  | _, [] => Gt
  | x :: a, y :: b =>
      match (byte_val x ?= byte_val y)%Z with
      | Eq => bytes_Compare a b
      | c => c
      end
  end.

Definition bytes_le (a b : list byte) : Prop := bytes_Compare a b ≠ Gt.

Lemma bytes_Compare_refl a : bytes_Compare a a = Eq.
Proof. induction a as [|x a IH]; simpl; [done|]. by rewrite Z.compare_refl. Qed.

Lemma bytes_Compare_eq a b : bytes_Compare a b = Eq → a = b.
Proof.
  revert b; induction a as [|x a IH]; intros [|y b]; simpl; try done.
  destruct (Z.compare_spec (byte_val x) (byte_val y)) as [H|H|H]; try done.
  intros ?. f_equal; eauto using byte_val_inj.
Qed.

Lemma bytes_Compare_antisym a b : bytes_Compare b a = CompOpp (bytes_Compare a b).
Proof.
  revert b; induction a as [|x a IH]; intros [|y b]; simpl; try done.
  rewrite (Z.compare_antisym (byte_val x) (byte_val y)).
  destruct (byte_val x ?= byte_val y)%Z; simpl; auto.
Qed.

Lemma bytes_le_trans a b c : bytes_le a b → bytes_le b c → bytes_le a c.
Proof.
  unfold bytes_le. revert b c.
  induction a as [|x a IH]; intros [|y b] [|z c]; simpl; try done.
  destruct (Z.compare_spec (byte_val x) (byte_val y));
    destruct (Z.compare_spec (byte_val y) (byte_val z));
    destruct (Z.compare_spec (byte_val x) (byte_val z)); try done; try lia.
  apply IH.
Qed.

#[export] Instance bytes_le_transitive : Transitive bytes_le.
Proof. intros a b c. apply bytes_le_trans. Qed.

Lemma bytes_le_total a b : bytes_le a b ∨ bytes_le b a.
Proof.
  unfold bytes_le. rewrite (bytes_Compare_antisym a b).
  destruct (bytes_Compare a b); simpl; auto.
Qed.

Lemma bytes_le_antisym a b : bytes_le a b → bytes_le b a → a = b.
Proof.
  unfold bytes_le. rewrite (bytes_Compare_antisym a b).
  destruct (bytes_Compare a b) eqn:E; simpl; try done.
  by intros _ _; apply bytes_Compare_eq.
Qed.

(** * Slices *)

(** [copy(dst[off:], src)]. *)
Definition go_copy {A} (off : nat) (dst src : list A) : list A :=
  let n := Nat.min (length src) (length dst - off) in
  take off dst ++ take n src ++ drop (off + n) dst.

(** The idiom [l = append(l, z); copy(l[a+1:], l[a:]); l[a] = x]. *)
Definition slice_insert {A} (z : A) (a : nat) (x : A) (l : list A) : list A :=
  let l1 := l ++ [z] in
  <[a := x]> (go_copy (a + 1) l1 (drop a l1)).

Lemma slice_insert_spec {A} (z : A) a x (l : list A) :
  a ≤ length l → slice_insert z a x l = take a l ++ x :: drop a l.
Proof.
  intros Ha. apply list_eq; intros i. unfold slice_insert, go_copy.
  rewrite !length_drop, !length_app; simpl.
  replace (_ `min` _) with (length l - a) by lia.
  destruct (decide (i = a)) as [->|Hia].
  { rewrite list_lookup_insert_eq.
    - rewrite lookup_app_r by (rewrite length_take; lia).
      rewrite length_take. by replace (a - a `min` length l) with 0 by lia.
    - rewrite !length_app, !length_take, !length_drop, !length_app; simpl; lia. }
  rewrite list_lookup_insert_ne by done.
  destruct (decide (i < a)) as [Hlt|Hge].
  { rewrite lookup_app_l by (rewrite length_take, length_app; simpl; lia).
    rewrite (lookup_app_l (take a l)) by (rewrite length_take; lia).
    rewrite !lookup_take_lt by lia. by rewrite lookup_app_l by lia. }
  rewrite lookup_app_r by (rewrite length_take, length_app; simpl; lia).
  rewrite (lookup_app_r (take a l)) by (rewrite length_take; lia).
  rewrite !length_take, !length_app; simpl.
  replace ((a + 1) `min` (length l + 1)) with (a + 1) by lia.
  replace (i - a `min` length l) with (S (i - (a + 1))) by lia; simpl.
  rewrite lookup_drop.
  destruct (decide (i - (a + 1) < length l - a)) as [Hin|Hout].
  - rewrite lookup_app_l
      by (rewrite length_take, length_drop, length_app; simpl; lia).
    rewrite lookup_take_lt, lookup_drop, lookup_app_l by lia. done.
  - rewrite (lookup_ge_None_2 l) by lia. apply lookup_ge_None_2.
    rewrite !length_app, !length_take, !length_drop, !length_app; simpl; lia.
Qed.

(** [l[i] = x], with the bounds check. *)
Definition slice_set {A} (i : nat) (x : A) (l : list A) : res (list A) :=
  if decide (i < length l) then Ok (<[i := x]> l) else Panic IndexOutOfRange.

Lemma slice_set_Ok {A} i (x : A) l : i < length l → slice_set i x l = Ok (<[i := x]> l).
Proof. unfold slice_set. intros. by rewrite decide_True. Qed.

(** * Text edits *)

(** What an insertion or a deletion at a position means for a text. *)
Definition text_insert {A} (pos : Z) (ch : A) (s : list A) : list A :=
  take (Z.to_nat pos) s ++ ch :: drop (Z.to_nat pos) s.
Definition text_delete {A} (pos : Z) (s : list A) : list A :=
  take (Z.to_nat pos) s ++ drop (S (Z.to_nat pos)) s.

Definition zlen {A} (l : list A) : Z := Z.of_nat (length l).

Lemma zlen_app {A} (l1 l2 : list A) : zlen (l1 ++ l2) = (zlen l1 + zlen l2)%Z.
Proof. unfold zlen. rewrite length_app. lia. Qed.
Lemma zlen_cons {A} (x : A) l : zlen (x :: l) = (1 + zlen l)%Z.
Proof. unfold zlen. simpl. lia. Qed.
Lemma zlen_nil {A} : zlen (@nil A) = 0%Z.
Proof. done. Qed.
Lemma zlen_nonneg {A} (l : list A) : (0 ≤ zlen l)%Z.
Proof. unfold zlen. lia. Qed.
Lemma zlen_zero {A} (l : list A) : zlen l = 0%Z → l = [].
Proof. destruct l; unfold zlen; simpl; [done|lia]. Qed.

Lemma text_insert_app {A} (ch : A) pre post pos :
  pos = zlen pre → text_insert pos ch (pre ++ post) = pre ++ ch :: post.
Proof.
  intros ->. unfold text_insert, zlen. rewrite Nat2Z.id.
  by rewrite take_app_length, drop_app_length.
Qed.

Lemma text_delete_app {A} (ch : A) pre post pos :
  pos = zlen pre → text_delete pos (pre ++ ch :: post) = pre ++ post.
Proof.
  intros ->. unfold text_delete, zlen. rewrite Nat2Z.id.
  rewrite take_app_length. f_equal.
  replace (S (length pre)) with (length (pre ++ [ch])) by (rewrite length_app; simpl; lia).
  change (ch :: post) with ([ch] ++ post). rewrite (app_assoc pre).
  apply drop_app_length.
Qed.

Lemma length_text_insert {A} pos (ch : A) s :
  zlen (text_insert pos ch s) = (zlen s + 1)%Z.
Proof.
  unfold text_insert, zlen. rewrite length_app; simpl.
  rewrite length_take, length_drop. lia.
Qed.

(** Sums of sizes. *)
Definition sumZ {A} (f : A → Z) (l : list A) : Z := foldr (λ a z, (f a + z)%Z) 0%Z l.

Lemma sumZ_app {A} (f : A → Z) l1 l2 : sumZ f (l1 ++ l2) = (sumZ f l1 + sumZ f l2)%Z.
Proof. induction l1 as [|a l1 IH]; simpl; lia. Qed.

Lemma sumZ_ext {A} (f g : A → Z) l :
  (∀ a, a ∈ l → f a = g a) → sumZ f l = sumZ g l.
Proof.
  induction l as [|a l IH]; simpl; intros H; [done|].
  rewrite (H a), IH by set_solver. done.
Qed.

Lemma sumZ_concat_zlen {A B} (f : A → list B) l :
  sumZ (λ a, zlen (f a)) l = zlen (concat (map f l)).
Proof. induction l as [|a l IH]; simpl; [done|]. rewrite zlen_app. lia. Qed.

Lemma sumZ_insert {A} (f : A → Z) (l : list A) i a b :
  l !! i = Some a → sumZ f (<[i := b]> l) = (sumZ f l - f a + f b)%Z.
Proof.
  revert i; induction l as [|x l IH]; intros [|i] Hi; simpl in *; try done.
  - simplify_eq. lia.
  - rewrite (IH _ Hi). lia.
Qed.

Lemma sumZ_replicate {A} (f : A → Z) n a : sumZ f (replicate n a) = (Z.of_nat n * f a)%Z.
Proof. induction n as [|n IH]; simpl sumZ; [done|]. rewrite IH. lia. Qed.

Lemma sumZ_nonneg {A} (f : A → Z) l : (∀ a, a ∈ l → 0 ≤ f a)%Z → (0 ≤ sumZ f l)%Z.
Proof.
  induction l as [|a l IH]; simpl; intros H; [done|].
  specialize (H a) as Ha. specialize (Ha ltac:(set_solver)).
  specialize (IH ltac:(intros; apply H; set_solver)). lia.
Qed.

(** * Automation *)

Create HintDb go discriminated.
Create Rewrite HintDb golen.
Create Rewrite HintDb gores.
Create Rewrite HintDb gover.
#[export] Hint Resolve zlen_nonneg byte_val_range wrap32_range bytes_le_total : go.
#[export] Hint Rewrite @zlen_app @zlen_cons @zlen_nil @sumZ_app : golen.
#[export] Hint Rewrite @bind_Ok @require_Some : gores.

(** Take apart a hypothesis [m = Ok a] whose [m] is a chain of binds. *)
Ltac res_inv :=
  repeat match goal with
  | H : _ ≫= _ = Ok _ |- _ =>
      apply bind_Ok_inv in H; destruct H as (? & ? & H)
  | H : require _ _ = Ok _ |- _ => apply require_Ok_inv in H
  | H : Ok _ = Ok _ |- _ => injection H as H
  | H : Panic _ = Ok _ |- _ => discriminate H
  | H : OutOfFuel = Ok _ |- _ => discriminate H
  end; subst.

(** Compute with the next step of a chain of binds, given an equation for it. *)
Ltac res_step := autorewrite with gores; cbn [mbind mret res_bind res_ret require].

(** Length goals over appended lists. *)
Ltac len := autorewrite with golen in *; unfold zlen in *; simpl length in *; lia.
