(* ===== verification/Common.v ===== *)
(** The [common] package: site identifiers and the byte encoding of 32-bit
    integers (CPSC418/project/common/def.go). *)
From S2P Require Import Prelude.

(** A Go array [[16]byte] is a list of 16 bytes; [site_id_wf] says so. *)
Abbreviation SiteId := (list byte).
Definition site_id_wf (id : SiteId) : Prop := length id = 16.

(** Strings are byte sequences. *)
Definition ToString (id : SiteId) : list byte := id.

Definition StringToSiteId (id : list byte) : SiteId :=
  let b := replicate 16 x00 in
  go_copy 0 b id.

Definition EqualSiteId (id id2 : SiteId) : bool := bool_decide (id = id2).

(** [binary.BigEndian.PutUint32] into a fresh slice of four bytes. *)
Definition Uint32ToBytes (num : Z) : list byte :=
  [byte_of (Z.shiftr num 24); byte_of (Z.shiftr num 16);
   byte_of (Z.shiftr num 8); byte_of num].

(** [binary.BigEndian.Uint32]: panics on fewer than four bytes. *)
Definition BytesToUint32 (bytes : list byte) : res Z :=
  match bytes with
  | b0 :: b1 :: b2 :: b3 :: _ =>
      Ok (Z.lor (byte_val b3)
            (Z.lor (Z.shiftl (byte_val b2) 8)
              (Z.lor (Z.shiftl (byte_val b1) 16) (Z.shiftl (byte_val b0) 24))))
  | _ => Panic IndexOutOfRange
  end.

Lemma length_StringToSiteId s : length (StringToSiteId s) = 16.
Proof.
  unfold StringToSiteId, go_copy.
  rewrite !length_app, !length_take, length_drop, length_replicate. lia.
Qed.

Lemma StringToSiteId_prefix s :
  16 ≤ length s → StringToSiteId s = take 16 s.
Proof.
  intros H. unfold StringToSiteId, go_copy. rewrite length_replicate.
  replace (length s `min` (16 - 0)) with 16 by lia.
  change (take 0 _) with (@nil byte). change (drop (0 + 16) _) with (@nil byte).
  by rewrite app_nil_r.
Qed.

Lemma StringToSiteId_ToString id : site_id_wf id → StringToSiteId (ToString id) = id.
Proof.
  intros H. rewrite StringToSiteId_prefix by (unfold site_id_wf, ToString in *; lia).
  apply take_ge. unfold site_id_wf, ToString in *. lia.
Qed.

Lemma Uint32ToBytes_length n : length (Uint32ToBytes n) = 4.
Proof. done. Qed.

Lemma Uint32_decompose n :
  (0 ≤ n < w32)%Z →
  Z.lor (wrap8 n)
    (Z.lor (Z.shiftl (wrap8 (Z.shiftr n 8)) 8)
       (Z.lor (Z.shiftl (wrap8 (Z.shiftr n 16)) 16)
          (Z.shiftl (wrap8 (Z.shiftr n 24)) 24))) = n.
Proof.
  intros Hn. unfold wrap8. change w8 with (2 ^ 8)%Z.
  rewrite <-!Z.land_ones by lia.
  apply Z.bits_inj'; intros i Hi.
  rewrite !Z.lor_spec, !Z.shiftl_spec, !Z.land_spec by lia.
  destruct (decide (i < 32)%Z) as [Hlt|Hge].
  - rewrite !Z.testbit_ones by lia.
    destruct (decide (i < 8)%Z); [|destruct (decide (i < 16)%Z);
      [|destruct (decide (i < 24)%Z)]];
    repeat match goal with
    | |- context [(?a <=? ?b)%Z] =>
        first [ replace (a <=? b)%Z with true by lia
              | replace (a <=? b)%Z with false by lia ]
    | |- context [(?a <? ?b)%Z] =>
        first [ replace (a <? b)%Z with true by lia
              | replace (a <? b)%Z with false by lia ]
    end; rewrite ?andb_true_r, ?andb_false_r, ?orb_false_l, ?orb_false_r;
    rewrite ?Z.shiftr_spec by lia; try done; f_equal; lia.
  - rewrite !Z.testbit_ones by lia.
    repeat match goal with
    | |- context [(?a <? ?b)%Z] => replace (a <? b)%Z with false by lia
    end; rewrite ?andb_false_r; simpl.
    symmetry. destruct (decide (n = 0)%Z) as [->|]; [apply Z.bits_0|].
    apply Z.bits_above_log2; [lia|].
    assert (Z.log2 n < 32)%Z; [|lia]. apply Z.log2_lt_pow2; [lia|].
    change (2 ^ 32)%Z with w32. lia.
Qed.

(** The big-endian encoding is a bijection on 32-bit values. *)
Lemma BytesToUint32_Uint32ToBytes n :
  (0 ≤ n < w32)%Z → BytesToUint32 (Uint32ToBytes n) = Ok n.
Proof.
  intros Hn. unfold BytesToUint32, Uint32ToBytes. rewrite !byte_val_of.
  by rewrite Uint32_decompose.
Qed.
