(* ===== verification/Json.v ===== *)
(** The interface of encoding/json: what [json.Marshal] gives, and what
    [json.Unmarshal] leaves in a variable that held the zero value, with
    whether it reports an error. A pointer that stays nil is [None]. *)
From S2P Require Import Prelude.

Class Json (A : Type) : Type := {
  Marshal : A → list byte;
  Unmarshal : list byte → A * bool
}.

(** Values that survive their text. Go writes strings as UTF-8, so that the
    keys of a map have to be valid. *)
Class JsonLaws (A : Type) `{Json A} (valid : A → Prop) : Prop :=
  Unmarshal_Marshal : ∀ a, valid a → Unmarshal (Marshal a) = (a, false).

(** A text for every value of a countable type, in unary. *)
Section CountedJson.
Context `{Countable A} (zero : A).
Definition counted_json : Json A := {|
  Marshal a := replicate (Pos.to_nat (encode a)) x30;
  Unmarshal b := match decode (Pos.of_nat (length b)) with Some a => (a, false) | None => (zero, true) end
|}.

Lemma counted_json_laws : @JsonLaws A counted_json (λ _, True).
Proof. intros a _. cbn. by rewrite length_replicate, Pos2Nat.id, decode_encode. Qed.
End CountedJson.
