(* ===== verification/Version.v ===== *)
(** Version vectors (CPSC418/project/version/version.go): maps from sites to
    32-bit counters, their updates, their comparison and their JSON form. *)
From S2P Require Import Prelude Common.

Open Scope Z_scope.

(** A Go map is a reference; every function of the package that mutates its
    receiver returns the new contents here. *)
Abbreviation VersionVector := (gmap SiteId Z).

Inductive order : Type := LESS_THAN | EQUAL | GREATER_THAN | CONFLICT.
#[export] Instance order_eq_dec : EqDecision order.
Proof. solve_decision. Defined.

Definition NewVector : VersionVector := ∅.

(** A missing key reads as zero. *)
Definition Get (vector : VersionVector) (id : SiteId) : Z := default 0 (vector !! id).

Definition Increment (vector : VersionVector) (id : SiteId) : VersionVector :=
  <[id := wrap32 (Get vector id + 1)]> vector.

Definition IncrementTo (vector : VersionVector) (id : SiteId) (i : Z) : VersionVector :=
  if Get vector id <? i then <[id := i]> vector else vector.

Definition DecrementTo (vector : VersionVector) (id : SiteId) (i : Z) : VersionVector :=
  if Get vector id >? i then <[id := i]> vector else vector.

(** [for k, v := range v2] visits the entries of [v2] in an unspecified
    order; the loops below take that order as a list. *)
Definition Merge_range (vector : VersionVector) (entries : list (SiteId * Z)) : VersionVector :=
  foldl (λ vec '(k, v), if Get vec k <? v then <[k := v]> vec else vec) vector entries.
Definition Merge (vector v2 : VersionVector) : VersionVector :=
  Merge_range vector (map_to_list v2).

Definition Copy_range (entries : list (SiteId * Z)) : VersionVector :=
  foldl (λ vec '(k, v), <[k := v]> vec) NewVector entries.
Definition Copy (vector : VersionVector) : VersionVector :=
  Copy_range (map_to_list vector).

(** The two loops of [Compare]; [None] is the early [return CONFLICT]. *)
Fixpoint Compare_loop1 (v2 : VersionVector) (r : order) (entries : list (SiteId * Z))
    : option order :=
  match entries with
  | [] => Some r
  | (k, v) :: rest =>
      if v >? Get v2 k then
        match r with
        | EQUAL => Compare_loop1 v2 GREATER_THAN rest
        | LESS_THAN => None
        | _ => Compare_loop1 v2 r rest
        end
      else if v <? Get v2 k then
        match r with
        | EQUAL => Compare_loop1 v2 LESS_THAN rest
        | GREATER_THAN => None
        | _ => Compare_loop1 v2 r rest
        end
      else Compare_loop1 v2 r rest
  end.

Fixpoint Compare_loop2 (v1 : VersionVector) (r : order) (entries : list (SiteId * Z))
    : option order :=
  match entries with
  | [] => Some r
  | (k, v) :: rest =>
      if v >? Get v1 k then
        match r with
        | EQUAL => Compare_loop2 v1 LESS_THAN rest
        | GREATER_THAN => None
        | _ => Compare_loop2 v1 r rest
        end
      else if v <? Get v1 k then
        match r with
        | EQUAL => Compare_loop2 v1 GREATER_THAN rest
        | LESS_THAN => None
        | _ => Compare_loop2 v1 r rest
        end
      else Compare_loop2 v1 r rest
  end.

Definition Compare_range (v1 v2 : VersionVector) (l1 l2 : list (SiteId * Z)) : order :=
  match Compare_loop1 v2 EQUAL l1 with
  | None => CONFLICT
  | Some r => default CONFLICT (Compare_loop2 v1 r l2)
  end.
Definition Compare (v1 v2 : VersionVector) : order :=
  Compare_range v1 v2 (map_to_list v1) (map_to_list v2).

(** The JSON form is keyed by strings. *)
Abbreviation VersionVectorJson := (gmap (list byte) Z).

Definition ToJsonable (version : VersionVector) : VersionVectorJson :=
  foldl (λ vec '(k, v), <[ToString k := v]> vec) ∅ (map_to_list version).
Definition FromVersionVectorJson (json : VersionVectorJson) : VersionVector :=
  foldl (λ vec '(k, v), <[StringToSiteId k := v]> vec) NewVector (map_to_list json).

(** ** The pointwise order *)

(** Vectors are compared through [Get]: a key that is absent and a key bound
    to zero are the same, so this is coarser than equality of maps. *)
Definition vle (v1 v2 : VersionVector) : Prop := ∀ id, Get v1 id ≤ Get v2 id.
Definition veq (v1 v2 : VersionVector) : Prop := ∀ id, Get v1 id = Get v2 id.

#[export] Instance veq_equivalence : Equivalence veq.
Proof.
  split; [intros v id; done|intros v w H id; by rewrite H|].
  intros u v w H1 H2 id; by rewrite H1, H2.
Qed.
#[export] Instance vle_preorder : PreOrder vle.
Proof.
  split; [intros v id; done|]. intros u v w H1 H2 id.
  specialize (H1 id); specialize (H2 id); lia.
Qed.
#[export] Instance vle_antisym : AntiSymm veq vle.
Proof. intros v w H1 H2 id. specialize (H1 id); specialize (H2 id); lia. Qed.
#[export] Instance Get_proper : Proper (veq ==> eq ==> eq) Get.
Proof. intros v w H id ? <-. apply H. Qed.
#[export] Instance vle_proper : Proper (veq ==> veq ==> iff) vle.
Proof.
  intros v v' Hv w w' Hw. unfold vle.
  split; intros H id; specialize (H id); rewrite Hv, Hw in *; done.
Qed.

Lemma Get_insert v id id' x :
  Get (<[id := x]> v) id' = if decide (id = id') then x else Get v id'.
Proof. unfold Get. rewrite lookup_insert. by case_decide. Qed.
Lemma Get_insert_eq v id x : Get (<[id := x]> v) id = x.
Proof. rewrite Get_insert. by rewrite decide_True. Qed.
Lemma Get_insert_ne v id id' x : id ≠ id' → Get (<[id := x]> v) id' = Get v id'.
Proof. intros. rewrite Get_insert. by rewrite decide_False. Qed.
Lemma Get_empty id : Get ∅ id = 0.
Proof. unfold Get. by rewrite lookup_empty. Qed.
Lemma Get_lookup v id x : v !! id = Some x → Get v id = x.
Proof. unfold Get. by intros ->. Qed.
#[export] Hint Rewrite Get_insert_eq Get_empty : gover.

Lemma Get_IncrementTo v id i id' :
  Get (IncrementTo v id i) id' =
  if decide (id = id') then Get v id `max` i else Get v id'.
Proof.
  unfold IncrementTo. destruct (Z.ltb_spec (Get v id) i); case_decide; subst;
    rewrite ?Get_insert_eq, ?Get_insert_ne by done; lia.
Qed.
Lemma Get_DecrementTo v id i id' :
  Get (DecrementTo v id i) id' =
  if decide (id = id') then Get v id `min` i else Get v id'.
Proof.
  unfold DecrementTo. rewrite Z.gtb_ltb.
  destruct (Z.ltb_spec i (Get v id)); case_decide; subst;
    rewrite ?Get_insert_eq, ?Get_insert_ne by done; lia.
Qed.
Lemma Get_Increment v id id' :
  Get (Increment v id) id' =
  if decide (id = id') then wrap32 (Get v id + 1) else Get v id'.
Proof. unfold Increment. by rewrite Get_insert. Qed.

#[export] Instance IncrementTo_proper : Proper (veq ==> eq ==> eq ==> veq) IncrementTo.
Proof.
  intros v w H id ? <- i ? <- id'. rewrite !Get_IncrementTo.
  case_decide; by rewrite H.
Qed.
#[export] Instance DecrementTo_proper : Proper (veq ==> eq ==> eq ==> veq) DecrementTo.
Proof.
  intros v w H id ? <- i ? <- id'. rewrite !Get_DecrementTo.
  case_decide; by rewrite H.
Qed.
#[export] Instance Increment_proper : Proper (veq ==> eq ==> veq) Increment.
Proof.
  intros v w H id ? <- id'. rewrite !Get_Increment. case_decide; by rewrite H.
Qed.

(** Every entry is in the range of [uint32]. *)
Definition vector_wf (v : VersionVector) : Prop := ∀ id, 0 ≤ Get v id < w32.

Lemma vector_wf_insert v id x : vector_wf v → 0 ≤ x < w32 → vector_wf (<[id := x]> v).
Proof. intros Hv Hx id'. rewrite Get_insert. by case_decide. Qed.
Lemma vector_wf_NewVector : vector_wf NewVector.
Proof. intros id. unfold NewVector. rewrite Get_empty. done. Qed.
Lemma vector_wf_Increment v id : vector_wf v → vector_wf (Increment v id).
Proof. intros Hv. apply vector_wf_insert; auto using wrap32_range. Qed.
Lemma vector_wf_IncrementTo v id i :
  vector_wf v → i < w32 → vector_wf (IncrementTo v id i).
Proof.
  intros Hv Hi id'. specialize (Hv id'). rewrite Get_IncrementTo.
  case_decide; subst; lia.
Qed.
#[export] Hint Resolve vector_wf_NewVector vector_wf_Increment
  vector_wf_IncrementTo vector_wf_insert : go.

(** ** Copies and merges *)

Lemma Copy_range_list_to_map (l : list (SiteId * Z)) (acc : VersionVector) :
  NoDup l.*1 → (∀ k, k ∈ l.*1 → acc !! k = None) →
  foldl (λ vec '(k, v), <[k := v]> vec) acc l = list_to_map l ∪ acc.
Proof.
  revert acc; induction l as [|[k v] l IH]; intros acc Hnd Hacc; simpl in *.
  { by rewrite (left_id_L ∅ (∪)). }
  apply NoDup_cons in Hnd as [Hk Hnd]. rewrite IH; [|done|].
  - rewrite <-insert_union_r, <-insert_union_l; [done|].
    by apply not_elem_of_list_to_map_1.
  - intros k' Hk'. rewrite lookup_insert_ne by (intros ->; done).
    apply Hacc. by right.
Qed.

Lemma Copy_eq v : Copy v = v.
Proof.
  unfold Copy, Copy_range. rewrite Copy_range_list_to_map.
  - rewrite list_to_map_to_list. apply (right_id_L ∅ (∪)).
  - apply NoDup_fst_map_to_list.
  - intros. apply lookup_empty.
Qed.

Lemma Get_Merge_range (v : VersionVector) (l : list (SiteId * Z)) id :
  NoDup l.*1 →
  Get (Merge_range v l) id =
  Get v id `max` default (Get v id) ((list_to_map l : VersionVector) !! id).
Proof.
  revert v; induction l as [|[k x] l IH]; intros v Hnd; simpl in *.
  { rewrite lookup_empty. simpl. lia. }
  apply NoDup_cons in Hnd as [Hk Hnd].
  unfold Merge_range in *; simpl. rewrite IH by done.
  assert (∀ w, Get (if Get v k <? x then <[k := x]> v else v) w =
    if decide (k = w) then Get v k `max` x else Get v w) as Hg.
  { intros w. apply (Get_IncrementTo v k x w). }
  rewrite Hg, lookup_insert. case_decide as Hd; subst; [|done].
  rewrite not_elem_of_list_to_map_1 by done. simpl. lia.
Qed.

Lemma Get_Merge v w id :
  Get (Merge v w) id = Get v id `max` default (Get v id) (w !! id).
Proof.
  unfold Merge. rewrite Get_Merge_range by apply NoDup_fst_map_to_list.
  by rewrite list_to_map_to_list.
Qed.

Lemma Get_Merge_wf v w id :
  vector_wf v → Get (Merge v w) id = Get v id `max` Get w id.
Proof.
  intros Hv. rewrite Get_Merge. specialize (Hv id). unfold Get at 4.
  destruct (w !! id); simpl; lia.
Qed.

(** ** What the comparison loops compute *)

(** An entry of one side that is above, or below, the other side. *)
Definition above (v2 : VersionVector) (l : list (SiteId * Z)) : Prop :=
  Exists (λ e, Get v2 e.1 < e.2) l.
Definition below (v2 : VersionVector) (l : list (SiteId * Z)) : Prop :=
  Exists (λ e, e.2 < Get v2 e.1) l.

(** The accumulator [r] says which kinds of entries were seen. *)
Definition seen (r : option order) (gt lt : Prop) : Prop :=
  match r with
  | Some EQUAL => ¬ gt ∧ ¬ lt
  | Some GREATER_THAN => gt ∧ ¬ lt
  | Some LESS_THAN => ¬ gt ∧ lt
  | Some CONFLICT => False
  | None => gt ∧ lt
  end.

#[export] Instance seen_proper : Proper (eq ==> iff ==> iff ==> iff) seen.
Proof. intros r ? <- g g' Hg l l' Hl. destruct r as [[]|]; simpl; tauto. Qed.

Lemma Compare_loop1_seen v2 l r (gt lt : Prop) :
  seen (Some r) gt lt →
  seen (Compare_loop1 v2 r l) (gt ∨ above v2 l) (lt ∨ below v2 l).
Proof.
  revert r gt lt; induction l as [|[k v] l IH]; intros r gt lt Hr; cbn [Compare_loop1].
  { unfold above, below. rewrite !Exists_nil. destruct r; simpl in *; tauto. }
  unfold above, below in *. rewrite !Exists_cons. cbn [fst snd]. rewrite Z.gtb_ltb.
  destruct (Z.ltb_spec (Get v2 k) v); [|destruct (Z.ltb_spec v (Get v2 k))].
  - assert (¬ v < Get v2 k) by lia.
    destruct r; simpl in Hr; try done.
    + simpl. tauto.
    + specialize (IH GREATER_THAN True lt ltac:(simpl; tauto)).
      destruct (Compare_loop1 v2 GREATER_THAN l) as [[]|]; simpl in *; tauto.
    + specialize (IH GREATER_THAN gt lt ltac:(simpl; tauto)).
      destruct (Compare_loop1 v2 GREATER_THAN l) as [[]|]; simpl in *; tauto.
  - assert (¬ Get v2 k < v) by lia.
    destruct r; simpl in Hr; try done.
    + specialize (IH LESS_THAN gt lt ltac:(simpl; tauto)).
      destruct (Compare_loop1 v2 LESS_THAN l) as [[]|]; simpl in *; tauto.
    + specialize (IH LESS_THAN gt True ltac:(simpl; tauto)).
      destruct (Compare_loop1 v2 LESS_THAN l) as [[]|]; simpl in *; tauto.
    + simpl. tauto.
  - assert (¬ v < Get v2 k) by lia. assert (¬ Get v2 k < v) by lia.
    specialize (IH r gt lt Hr).
    destruct (Compare_loop1 v2 r l) as [[]|]; simpl in *; tauto.
Qed.

(** The second loop is the first with the roles of the outcomes exchanged. *)
Definition flip (r : order) : order :=
  match r with LESS_THAN => GREATER_THAN | GREATER_THAN => LESS_THAN | r => r end.

Lemma Compare_loop2_flip v1 r l :
  Compare_loop2 v1 (flip r) l = flip <$> Compare_loop1 v1 r l.
Proof.
  revert r; induction l as [|[k v] l IH]; intros r; simpl; [done|].
  destruct (v >? Get v1 k), (v <? Get v1 k); destruct r; simpl; rewrite <-?IH; done.
Qed.

Lemma Compare_loop2_seen v1 l r (gt lt : Prop) :
  seen (Some r) gt lt →
  seen (Compare_loop2 v1 r l) (gt ∨ below v1 l) (lt ∨ above v1 l).
Proof.
  intros Hr. replace r with (flip (flip r)) by (by destruct r).
  rewrite Compare_loop2_flip.
  assert (seen (Some (flip r)) lt gt) as Hs by (destruct r; simpl in *; tauto).
  apply (Compare_loop1_seen v1 l) in Hs.
  destruct (Compare_loop1 v1 (flip r) l) as [[]|]; simpl in *; tauto.
Qed.

Lemma above_entries v1 v2 l :
  l ≡ₚ map_to_list v1 →
  above v2 l ↔ ∃ id, is_Some (v1 !! id) ∧ Get v2 id < Get v1 id.
Proof.
  intros Hl. unfold above. rewrite Exists_exists. split.
  - intros ([k x] & Hin & Hlt). rewrite Hl in Hin.
    apply elem_of_map_to_list in Hin. exists k. rewrite (Get_lookup v1 k x) by done.
    split; [by eexists|done].
  - intros (k & [x Hx] & Hlt). exists (k, x). rewrite Hl. split.
    + by apply elem_of_map_to_list.
    + rewrite (Get_lookup v1 k x) in Hlt; done.
Qed.

Lemma below_entries v1 v2 l :
  l ≡ₚ map_to_list v1 →
  below v2 l ↔ ∃ id, is_Some (v1 !! id) ∧ Get v1 id < Get v2 id.
Proof.
  intros Hl. unfold below. rewrite Exists_exists. split.
  - intros ([k x] & Hin & Hlt). rewrite Hl in Hin.
    apply elem_of_map_to_list in Hin. exists k. rewrite (Get_lookup v1 k x) by done.
    split; [by eexists|done].
  - intros (k & [x Hx] & Hlt). exists (k, x). rewrite Hl. split.
    + by apply elem_of_map_to_list.
    + rewrite (Get_lookup v1 k x) in Hlt; done.
Qed.

Definition outcome (r : order) : option order :=
  match r with CONFLICT => None | r => Some r end.

(** The two loops together see exactly the sites on which the vectors differ. *)
Lemma Compare_range_seen v1 v2 l1 l2 :
  l1 ≡ₚ map_to_list v1 → l2 ≡ₚ map_to_list v2 →
  seen (outcome (Compare_range v1 v2 l1 l2))
    (∃ id, Get v2 id < Get v1 id) (∃ id, Get v1 id < Get v2 id).
Proof.
  intros Hl1 Hl2.
  pose proof (Compare_loop1_seen v2 l1 EQUAL False False ltac:(simpl; tauto)) as H1.
  assert (∀ id, Get v2 id < Get v1 id → is_Some (v1 !! id) ∨ is_Some (v2 !! id)) as Hd1.
  { intros id. unfold Get. destruct (v1 !! id), (v2 !! id); eauto. simpl; lia. }
  assert (∀ id, Get v1 id < Get v2 id → is_Some (v1 !! id) ∨ is_Some (v2 !! id)) as Hd2.
  { intros id. unfold Get. destruct (v1 !! id), (v2 !! id); eauto. simpl; lia. }
  assert ((above v2 l1 ∨ below v1 l2) ↔ ∃ id, Get v2 id < Get v1 id) as Hgt.
  { rewrite (above_entries v1 v2), (below_entries v2 v1) by done.
    split; [intros [(id & ? & ?)|(id & ? & ?)]; eauto|].
    intros (id & H); destruct (Hd1 id H); [left|right]; eauto. }
  assert ((below v2 l1 ∨ above v1 l2) ↔ ∃ id, Get v1 id < Get v2 id) as Hlt.
  { rewrite (below_entries v1 v2), (above_entries v2 v1) by done.
    split; [intros [(id & ? & ?)|(id & ? & ?)]; eauto|].
    intros (id & H); destruct (Hd2 id H); [left|right]; eauto. }
  rewrite <-Hgt, <-Hlt. clear Hgt Hlt Hd1 Hd2. unfold Compare_range.
  destruct (Compare_loop1 v2 EQUAL l1) as [r|]; [|simpl in *; tauto].
  apply (Compare_loop2_seen v1 l2) in H1.
  destruct (Compare_loop2 v1 r l2) as [[]|]; simpl in *; tauto.
Qed.

Lemma not_below_vle v1 v2 : (¬ ∃ id, Get v2 id < Get v1 id) ↔ vle v1 v2.
Proof.
  split; [|intros H [id Hid]; specialize (H id); lia].
  intros H id. destruct (decide (Get v1 id ≤ Get v2 id)); [done|].
  exfalso. apply H. exists id. lia.
Qed.

Lemma Compare_range_spec v1 v2 l1 l2 :
  l1 ≡ₚ map_to_list v1 → l2 ≡ₚ map_to_list v2 →
  match Compare_range v1 v2 l1 l2 with
  | EQUAL => vle v1 v2 ∧ vle v2 v1
  | LESS_THAN => vle v1 v2 ∧ ¬ vle v2 v1
  | GREATER_THAN => ¬ vle v1 v2 ∧ vle v2 v1
  | CONFLICT => ¬ vle v1 v2 ∧ ¬ vle v2 v1
  end.
Proof.
  intros Hl1 Hl2. pose proof (Compare_range_seen v1 v2 l1 l2 Hl1 Hl2) as H.
  pose proof (not_below_vle v1 v2). pose proof (not_below_vle v2 v1).
  destruct (Compare_range v1 v2 l1 l2); simpl in H; tauto.
Qed.

Lemma Compare_spec v1 v2 :
  match Compare v1 v2 with
  | EQUAL => vle v1 v2 ∧ vle v2 v1
  | LESS_THAN => vle v1 v2 ∧ ¬ vle v2 v1
  | GREATER_THAN => ¬ vle v1 v2 ∧ vle v2 v1
  | CONFLICT => ¬ vle v1 v2 ∧ ¬ vle v2 v1
  end.
Proof. by apply Compare_range_spec. Qed.

(** The test the operation queue makes. *)
Lemma Compare_ge_iff v1 v2 :
  (Compare v1 v2 = GREATER_THAN ∨ Compare v1 v2 = EQUAL) ↔ vle v2 v1.
Proof.
  pose proof (Compare_spec v1 v2) as H.
  destruct (Compare v1 v2); intuition congruence.
Qed.

#[export] Instance vle_dec v1 v2 : Decision (vle v1 v2).
Proof.
  refine (cast_if (decide (Compare v2 v1 = GREATER_THAN ∨ Compare v2 v1 = EQUAL)));
    by rewrite <-Compare_ge_iff.
Defined.

(** ** JSON form *)

Lemma ToJsonable_eq v : ToJsonable v = v.
Proof. apply Copy_eq. Qed.

Lemma From_range_lookup (l : list (SiteId * Z)) (acc : VersionVector) :
  NoDup l.*1 → (∀ k, k ∈ l.*1 → site_id_wf k) → (∀ k, k ∈ l.*1 → acc !! k = None) →
  foldl (λ vec '(k, v), <[StringToSiteId k := v]> vec) acc l = list_to_map l ∪ acc.
Proof.
  intros Hnd Hwf Hacc. rewrite <-Copy_range_list_to_map by done.
  clear Hnd Hacc. revert acc Hwf.
  induction l as [|[k v] l IH]; intros acc Hwf; simpl in *; [done|].
  change (StringToSiteId k) with (StringToSiteId (ToString k)).
  rewrite StringToSiteId_ToString by (apply Hwf; by left).
  apply IH. intros k' Hk'. apply Hwf. by right.
Qed.

Lemma FromVersionVectorJson_ToJsonable v :
  (∀ id, is_Some (v !! id) → site_id_wf id) →
  FromVersionVectorJson (ToJsonable v) = v.
Proof.
  intros Hwf. rewrite ToJsonable_eq. unfold FromVersionVectorJson.
  rewrite From_range_lookup.
  - rewrite list_to_map_to_list. apply (right_id_L ∅ (∪)).
  - apply NoDup_fst_map_to_list.
  - intros k Hk. apply Hwf. apply list_elem_of_fmap in Hk as ([k' x] & -> & Hx).
    apply elem_of_map_to_list in Hx. by eexists.
  - intros. apply lookup_empty.
Qed.

(** ** Properties *)

(** Whatever order Go's map iteration visits the two vectors in, Compare
    decides the pointwise order of the vectors: EQUAL, LESS_THAN and
    GREATER_THAN exactly when they are ordered so (an absent site counting
    as zero), and CONFLICT exactly when neither is below the other. *)
Theorem Compare_correct (v1 v2 : VersionVector) (l1 l2 : list (SiteId * Z)) :
  l1 ≡ₚ map_to_list v1 → l2 ≡ₚ map_to_list v2 →
  let r := Compare_range v1 v2 l1 l2 in
  r = Compare v1 v2 ∧
  (r = EQUAL ↔ veq v1 v2) ∧
  (r = LESS_THAN ↔ vle v1 v2 ∧ ¬ vle v2 v1) ∧
  (r = GREATER_THAN ↔ vle v2 v1 ∧ ¬ vle v1 v2) ∧
  (r = CONFLICT ↔ ¬ vle v1 v2 ∧ ¬ vle v2 v1).
Proof.
  intros H1 H2 r.
  pose proof (Compare_range_spec v1 v2 l1 l2 H1 H2) as Hr.
  pose proof (Compare_spec v1 v2) as Hc.
  assert (veq v1 v2 ↔ vle v1 v2 ∧ vle v2 v1) as ->.
  { split; [intros He; rewrite He; done|intros []; by apply (anti_symm vle)]. }
  fold r in Hr. destruct r, (Compare v1 v2); intuition congruence.
Qed.

Definition site (b : byte) : SiteId := replicate 16 b.

Lemma Compare_correct_witness :
  let v1 : VersionVector := <[site x01 := 3]> (<[site x02 := 1]> ∅) in
  let v2 : VersionVector := <[site x01 := 2]> (<[site x03 := 4]> ∅) in
  Compare_range v1 v2 (reverse (map_to_list v1)) (map_to_list v2) = CONFLICT ∧
  ¬ vle v1 v2.
Proof.
  intros v1 v2.
  pose proof (Compare_correct v1 v2 (reverse (map_to_list v1)) (map_to_list v2)
    ltac:(apply reverse_Permutation) ltac:(done)) as (_ & _ & _ & _ & H).
  assert (Compare_range v1 v2 (reverse (map_to_list v1)) (map_to_list v2) = CONFLICT)
    as Hc by (vm_compute; reflexivity).
  split; [exact Hc|]. exact (proj1 (proj1 H Hc)).
Defined.

(** Merge is the least upper bound of the two vectors: it is above both,
    and below every vector that is above both. *)
Theorem Merge_lub (v w u : VersionVector) :
  vector_wf v →
  vle v (Merge v w) ∧ (vle w (Merge v w) ∧
  (vle v u → vle w u → vle (Merge v w) u)).
Proof.
  intros Hv. split_and!.
  - intros id. rewrite Get_Merge_wf by done. lia.
  - intros id. rewrite Get_Merge_wf by done. lia.
  - intros H1 H2 id. rewrite Get_Merge_wf by done.
    specialize (H1 id); specialize (H2 id); lia.
Qed.

Lemma Merge_lub_witness :
  let v : VersionVector := <[site x01 := 3]> ∅ in
  let w : VersionVector := <[site x02 := 1]> ∅ in
  vle w (Merge v w).
Proof.
  intros v w. apply (Merge_lub v w v).
  apply vector_wf_insert; [apply vector_wf_NewVector|done].
Defined.

(** Encoding a version vector for JSON and decoding it gives the vector
    back, when its keys are 16-byte site identifiers. *)
Theorem version_json_roundtrip (v : VersionVector) :
  (∀ id, is_Some (v !! id) → site_id_wf id) →
  FromVersionVectorJson (ToJsonable v) = v.
Proof. apply FromVersionVectorJson_ToJsonable. Qed.

Lemma version_json_roundtrip_witness :
  FromVersionVectorJson (ToJsonable (<[site x41 := 7]> ∅)) = <[site x41 := 7]> ∅.
Proof.
  apply version_json_roundtrip. intros id Hid.
  destruct (decide (id = site x41)) as [->|Hne]; [done|].
  rewrite lookup_insert_ne, lookup_empty in Hid by done. by destruct Hid.
Defined.
