(* ===== verification/BufferOp.v ===== *)
(** The operations the tree document sends to the text buffer
    (CPSC418/project/buffer/buffer.go, the constants and BufferOperation). *)
From S2P Require Import Prelude.

Inductive OpType : Type := NO_OPERATION | INSERT | REMOTE_INSERT | DELETE.
#[export] Instance OpType_eq_dec : EqDecision OpType.
Proof. solve_decision. Defined.

Record BufferOperation : Type := mkBufferOperation {
  bo_Type : OpType;
  bo_Pos : Z;
  bo_Atom : byte
}.
#[export] Instance BufferOperation_eq_dec : EqDecision BufferOperation.
Proof. solve_decision. Defined.

(** What a buffer operation means for the text. *)
Definition edit (op : BufferOperation) (s : list byte) : list byte :=
  match bo_Type op with
  | NO_OPERATION => s
  | INSERT | REMOTE_INSERT => text_insert (bo_Pos op) (bo_Atom op) s
  | DELETE => text_delete (bo_Pos op) s
  end.

(** The position of an edit lies in the text. *)
Definition edit_in_range (op : BufferOperation) (s : list byte) : Prop :=
  match bo_Type op with
  | NO_OPERATION => True
  | INSERT | REMOTE_INSERT => (0 ≤ bo_Pos op ≤ zlen s)%Z
  | DELETE => (0 ≤ bo_Pos op < zlen s)%Z
  end.
