(* ===== verification/Buffer.v ===== *)
(** The [buffer] package: the text buffer with its wrapped lines and its
    cursor, and the one-line prompt (CPSC418/project/buffer/buffer.go,
    helpers.go, prompt.go).

    The doubly linked lines are a list: [Next] of the line at index [y] is the
    line at [y + 1] and [Prev] the one at [y - 1]; a pointer to a line is its
    index, and a walk along [Next] is a recursion on what is left of the list. *)
From S2P Require Import Prelude BufferOp.

Open Scope Z_scope.

Abbreviation Line := (list byte).

Definition char_space : byte := x20.
Definition char_tab : byte := x09.
Definition char_newline : byte := x0a.

(** ** Lengths *)

Definition wordLength (word : list byte) : res Z :=
  match word with
  | [] => Panic IndexOutOfRange
  | ch :: _ => Ok (if decide (ch = char_tab) then 4 else zlen word)
  end.

Definition charLength (ch : byte) : Z :=
  if decide (ch = char_tab) then 4 else if decide (ch = char_newline) then 0 else 1.

Definition sliceLength (bytes : list byte) : Z :=
  foldl (λ s ch, s + charLength ch) 0 bytes.

(** ** Word sequences *)

Definition is_separator (ch : byte) : bool :=
  bool_decide (ch = char_space) || bool_decide (ch = char_tab) || bool_decide (ch = char_newline).

(** The interface: the next word, or nil, and the advanced sequence. *)
Class WordSequence (S : Type) := NextWord : S → res (option (list byte) * S).

(** The scan [for end < len(bytes)]: up to the first separator, over what is
    left of the slice after index [end - 1]. *)
Fixpoint scan_word (end_ : nat) (rest : list byte) : nat :=
  match rest with
  | [] => end_
  | ch :: rest => if is_separator ch then end_ else scan_word (S end_) rest
  end.

Record StringSequence : Type := mkStringSequence { ss_str : list byte; ss_pos : nat }.
Definition NewStringSequence (str : list byte) : StringSequence := mkStringSequence str 0.

#[export] Instance StringSequence_NextWord : WordSequence StringSequence := λ seq,
  match ss_str seq !! ss_pos seq with
  | None => Ok (None, seq)
  | Some ch =>
      if is_separator ch then Ok (Some [ch], mkStringSequence (ss_str seq) (S (ss_pos seq)))
      else
        let start := ss_pos seq in
        let end_ := scan_word (S start) (drop (S start) (ss_str seq)) in
        Ok (Some (take (end_ - start) (drop start (ss_str seq))),
            mkStringSequence (ss_str seq) end_)
  end.

(** [ls_lines] is what can be reached from the pointer. *)
Record LineSequence : Type := mkLineSequence { ls_lines : list Line; ls_currentX : nat }.
Definition NewLineSequence (lines : list Line) : LineSequence := mkLineSequence lines 0.

(** [for seq.lines != nil && seq.currentX == len(seq.lines.Bytes)]. *)
Fixpoint skip_ended (lines : list Line) (currentX : nat) : list Line * nat :=
  match lines with
  | line :: next => if decide (currentX = length line) then skip_ended next 0 else (lines, currentX)
  | [] => ([], currentX)
  end.

(** The loop that goes on to the next lines while the word reaches their end:
    [next] is what follows the line that ended. The result is the word, the
    line it ends in with the lines after it, and the end's index. *)
Fixpoint extend_word (chs : list byte) (line : Line) (end_ : nat) (next : list Line)
    : res (list byte * list Line * nat) :=
  match next with
  | [] => Ok (chs, line :: next, end_)
  | line' :: next' =>
      ch ← require IndexOutOfRange (line' !! 0%nat);
      if is_separator ch then Ok (chs, line :: next, end_)
      else
        let end_ := scan_word 1 (drop 1 line') in
        let chs := chs ++ take end_ line' in
        if decide (end_ ≠ length line') then Ok (chs, line' :: next', end_)
        else extend_word chs line' end_ next'
  end.

#[export] Instance LineSequence_NextWord : WordSequence LineSequence := λ seq,
  let '(lines, currentX) := skip_ended (ls_lines seq) (ls_currentX seq) in
  match lines with
  | [] => Panic NilPointer
  | line :: next =>
      if bool_decide (next = []) && (Z.of_nat currentX =? zlen line - 1) then
        Ok (None, mkLineSequence lines (S currentX))
      else
        ch ← require IndexOutOfRange (line !! currentX);
        if is_separator ch then Ok (Some [ch], mkLineSequence lines (S currentX))
        else
          let start := currentX in
          let end_ := scan_word (S start) (drop (S start) line) in
          let word := take (end_ - start) (drop start line) in
          if decide (end_ < length line)%nat then Ok (Some word, mkLineSequence lines end_)
          else
            '(chs, lines, end_) ← extend_word word line end_ next;
            Ok (Some chs, mkLineSequence lines end_)
  end.

(** ** The layout *)

(** [make([]byte, 0, cap)]. *)
Definition make_bytes (cap : Z) : res (list byte) :=
  if cap <? 0 then Panic MakeSliceOutOfRange else Ok [].

(** [bytes[lo:hi]]; the capacity is taken to be the length. *)
Definition slice (lo hi : Z) (bytes : list byte) : res (list byte) :=
  if (0 <=? lo) && (lo <=? hi) && (hi <=? zlen bytes)
  then Ok (take (Z.to_nat (hi - lo)) (drop (Z.to_nat lo) bytes))
  else Panic SliceOutOfRange.

(** The local variables of the loop: the finished lines, the line being
    filled, its width [i] and the two counters. *)
Record layout_state : Type := mkLayout {
  ly_lines : list Line;
  ly_line : Line;
  ly_i : Z;
  ly_numberOfLines : Z;
  ly_numberOfChars : Z
}.

(** [for k < wordLen]: cut the rest of a long word into lines. *)
Fixpoint split_word (fuel : nat) (width : Z) (word : list byte) (wordLen k : Z)
    (st : layout_state) : res layout_state :=
  if k <? wordLen then
    match fuel with
    | O => OutOfFuel
    | S fuel =>
        line ← make_bytes (width + 2);
        let i := if wordLen - k <? width then wordLen - k else width in
        part ← slice k (k + i) word;
        split_word fuel width word wordLen (k + i)
          (mkLayout (ly_lines st ++ [ly_line st]) (line ++ part) i
             (ly_numberOfLines st + 1) (ly_numberOfChars st))
    end
  else Ok st.

Definition place_word (width : Z) (word : list byte) (st : layout_state) : res layout_state :=
  let numberOfChars := ly_numberOfChars st + zlen word in
  ch ← require IndexOutOfRange (word !! 0%nat);
  if decide (ch = char_newline) then
    line ← make_bytes width;
    Ok (mkLayout (ly_lines st ++ [ly_line st ++ [char_newline]]) line 0
          (ly_numberOfLines st + 1) numberOfChars)
  else
    wordLen ← wordLength word;
    if ly_i st + wordLen <=? width then
      Ok (mkLayout (ly_lines st) (ly_line st ++ word) (ly_i st + wordLen)
            (ly_numberOfLines st) numberOfChars)
    else if wordLen <=? width then
      line ← make_bytes (width + 2);
      Ok (mkLayout (ly_lines st ++ [ly_line st]) (line ++ word) wordLen
            (ly_numberOfLines st + 1) numberOfChars)
    else
      part ← slice 0 (width - ly_i st) word;
      split_word (length word) width word wordLen (width - ly_i st)
        (mkLayout (ly_lines st) (ly_line st ++ part) (ly_i st)
           (ly_numberOfLines st) numberOfChars).

(** The main loop; every turn but the last consumes a word. *)
Fixpoint SeqToLines_loop {Seq} `{WordSequence Seq} (fuel : nat) (seq : Seq) (width : Z)
    (st : layout_state) : res layout_state :=
  match fuel with
  | O => OutOfFuel
  | S fuel =>
      '(word, seq) ← NextWord seq;
      match word with
      | None => Ok st
      | Some word => st ← place_word width word st; SeqToLines_loop fuel seq width st
      end
  end.
Definition SeqToLines {Seq} `{WordSequence Seq} (fuel : nat) (seq : Seq) (width : Z)
    : res (list Line * Z * Z) :=
  line ← make_bytes (width + 2);
  st ← SeqToLines_loop fuel seq width (mkLayout [] line 0 1 0);
  Ok (ly_lines st ++ [ly_line st ++ [char_newline]], ly_numberOfLines st, ly_numberOfChars st).

(** ** The buffer *)

Record Buffer : Type := mkBuffer {
  bf_width : Z;
  bf_numberOfChars : Z;
  bf_numberOfLines : Z;
  bf_lines : list Line;
  bf_currentLine : nat;
  bf_currentPosition : Z;
  bf_currentX : Z;
  bf_currentY : Z
}.

Definition StringToBuffer (str : list byte) (width : Z) : res Buffer :=
  '(lines, numberOfLines, numberOfChars) ←
    SeqToLines (S (length str)) (NewStringSequence str) width;
  Ok (mkBuffer width numberOfChars numberOfLines lines 0 0 0 0).

Definition set_cursor (line : nat) (pos x y : Z) (buf : Buffer) : Buffer :=
  mkBuffer (bf_width buf) (bf_numberOfChars buf) (bf_numberOfLines buf) (bf_lines buf)
    line pos x y.
Definition set_lines (lines : list Line) (buf : Buffer) : Buffer :=
  mkBuffer (bf_width buf) (bf_numberOfChars buf) (bf_numberOfLines buf) lines
    (bf_currentLine buf) (bf_currentPosition buf) (bf_currentX buf) (bf_currentY buf).
Definition set_position (pos : Z) (buf : Buffer) : Buffer :=
  set_cursor (bf_currentLine buf) pos (bf_currentX buf) (bf_currentY buf) buf.

(** The walk to the line that holds a position, of [findPos] and of
    [SetPosition]: the column and the index of the line. *)
Fixpoint walk_to (pos acc : Z) (y : nat) (lines : list Line) : res (Z * nat) :=
  match lines with
  | [] => Panic NilPointer
  | line :: next =>
      if acc + zlen line >? pos then Ok (pos - acc, y)
      else walk_to pos (acc + zlen line) (S y) next
  end.

Definition findPos (buf : Buffer) (pos : Z) : res (Z * Z * Z * nat) :=
  '(currentX, y) ← walk_to pos 0 0 (bf_lines buf);
  Ok (pos, currentX, Z.of_nat y, y).

Definition SetPosition (buf : Buffer) (pos : Z) : res Buffer :=
  '(currentX, y) ← walk_to pos 0 0 (bf_lines buf);
  Ok (set_cursor y pos currentX (Z.of_nat y) buf).

Definition total_length (lines : list Line) : nat := length (concat lines).

Definition Resize (buf : Buffer) (width : Z) : res Buffer :=
  '(lines, numberOfLines, numberOfChars) ←
    SeqToLines (S (total_length (bf_lines buf))) (NewLineSequence (bf_lines buf)) width;
  let buf := mkBuffer (bf_width buf) numberOfChars numberOfLines lines (bf_currentLine buf)
               (bf_currentPosition buf) (bf_currentX buf) (bf_currentY buf) in
  buf ← SetPosition buf (bf_currentPosition buf);
  Ok (mkBuffer width (bf_numberOfChars buf) (bf_numberOfLines buf) (bf_lines buf)
        (bf_currentLine buf) (bf_currentPosition buf) (bf_currentX buf) (bf_currentY buf)).

Definition current_line (buf : Buffer) : res Line :=
  require NilPointer (bf_lines buf !! bf_currentLine buf).

Definition MoveLeft (buf : Buffer) : res Buffer :=
  if bf_currentX buf >? 0 then
    Ok (set_cursor (bf_currentLine buf) (bf_currentPosition buf - 1) (bf_currentX buf - 1)
          (bf_currentY buf) buf)
  else
    match bf_currentLine buf with
    | O => Ok buf
    | S prev =>
        line ← require NilPointer (bf_lines buf !! prev);
        Ok (set_cursor prev (bf_currentPosition buf - 1) (zlen line - 1)
              (bf_currentY buf - 1) buf)
    end.

Definition MoveRight (buf : Buffer) : res Buffer :=
  line ← current_line buf;
  if bf_currentX buf <? zlen line - 1 then
    Ok (set_cursor (bf_currentLine buf) (bf_currentPosition buf + 1) (bf_currentX buf + 1)
          (bf_currentY buf) buf)
  else
    match bf_lines buf !! S (bf_currentLine buf) with
    | None => Ok buf
    | Some _ => Ok (set_cursor (S (bf_currentLine buf)) (bf_currentPosition buf + 1) 0
                      (bf_currentY buf + 1) buf)
    end.

(** The column of the line whose width is closest to the target. *)
Fixpoint column_at (target s x : Z) (bytes : list byte) : Z :=
  match bytes with
  | [] => x
  | ch :: bytes =>
      let s := s + charLength ch in
      if (s >? target) || bool_decide (ch = char_newline) then x
      else if s =? target then x + 1
      else column_at target s (x + 1) bytes
  end.

Definition MoveUp (buf : Buffer) : res Buffer :=
  match bf_currentLine buf with
  | O => Ok buf
  | S prev =>
      line ← current_line buf;
      head ← slice 0 (bf_currentX buf) line;
      let target := sliceLength head in
      let currentPosition := bf_currentPosition buf - bf_currentX buf in
      line ← require NilPointer (bf_lines buf !! prev);
      let currentX := column_at target 0 0 line in
      Ok (set_cursor prev (currentPosition - (zlen line - currentX)) currentX
            (bf_currentY buf - 1) buf)
  end.

Definition MoveDown (buf : Buffer) : res Buffer :=
  match bf_lines buf !! S (bf_currentLine buf) with
  | None => Ok buf
  | Some next =>
      line ← current_line buf;
      head ← slice 0 (bf_currentX buf) line;
      let target := sliceLength head in
      let currentPosition := bf_currentPosition buf + (zlen line - bf_currentX buf) in
      let currentX := column_at target 0 0 next in
      Ok (set_cursor (S (bf_currentLine buf)) (currentPosition + currentX) currentX
            (bf_currentY buf + 1) buf)
  end.

(** The three statements that put a byte into a line. *)
Definition insert_byte (buf : Buffer) (pos : Z) (ch : byte) : res Buffer :=
  '(_, currentX, _, y) ← findPos buf pos;
  line ← require NilPointer (bf_lines buf !! y);
  if currentX <? 0 then Panic SliceOutOfRange
  else Ok (set_lines (<[y := slice_insert x00 (Z.to_nat currentX) ch line]> (bf_lines buf)) buf).

Definition Insert (buf : Buffer) (pos : Z) (ch : byte) : res Buffer :=
  buf ← insert_byte buf pos ch;
  let buf := if pos <=? bf_currentPosition buf
             then set_position (bf_currentPosition buf + 1) buf else buf in
  Resize buf (bf_width buf).

Definition RemoteInsert (buf : Buffer) (pos : Z) (ch : byte) : res Buffer :=
  buf ← insert_byte buf pos ch;
  let buf := if pos <? bf_currentPosition buf
             then set_position (bf_currentPosition buf + 1) buf else buf in
  Resize buf (bf_width buf).

Definition InsertAtCurrent (buf : Buffer) (ch : byte) : res Buffer :=
  Insert buf (bf_currentPosition buf) ch.

Definition Delete (buf : Buffer) (pos : Z) : res Buffer :=
  '(_, currentX, _, y) ← findPos buf pos;
  line ← require NilPointer (bf_lines buf !! y);
  before ← slice 0 currentX line;
  after ← slice (currentX + 1) (zlen line) line;
  let buf := set_lines (<[y := before ++ after]> (bf_lines buf)) buf in
  let buf := if pos <? bf_currentPosition buf
             then set_position (bf_currentPosition buf - 1) buf else buf in
  Resize buf (bf_width buf).

Definition DeleteAtCurrent (buf : Buffer) : res Buffer :=
  if bf_numberOfChars buf >? 0 then Delete buf (bf_currentPosition buf) else Ok buf.
Definition BackspaceAtCurrent (buf : Buffer) : res Buffer :=
  if bf_currentPosition buf >? 0 then Delete buf (bf_currentPosition buf - 1) else Ok buf.

Definition ApplyOperation (buf : Buffer) (bufOp : BufferOperation) : res Buffer :=
  match bo_Type bufOp with
  | BufferOp.INSERT => Insert buf (bo_Pos bufOp) (bo_Atom bufOp)
  | BufferOp.REMOTE_INSERT => RemoteInsert buf (bo_Pos bufOp) (bo_Atom bufOp)
  | BufferOp.DELETE => Delete buf (bo_Pos bufOp)
  | BufferOp.NO_OPERATION => Ok buf
  end.

Definition GetPosition (buf : Buffer) : Z := bf_currentPosition buf.
Definition GetSize (buf : Buffer) : Z := bf_numberOfChars buf.
Definition Lines (buf : Buffer) : list Line := bf_lines buf.

(** [for i := 0; i < cursorY; i++ { line = line.Prev }] from a line; the first
    line's [Prev] is nil. *)
Fixpoint walk_back (n : nat) (line : option nat) : res (option nat) :=
  match n with
  | O => Ok line
  | S n =>
      line ← require NilPointer line;
      walk_back n (match line with O => None | S prev => Some prev end)
  end.

Definition GetDisplayInformation (buf : Buffer) (screenY height : Z) : res (Z * Z * Z * option nat) :=
  let screenY :=
    if bf_currentY buf <? screenY then bf_currentY buf
    else if bf_currentY buf >=? screenY + height then bf_currentY buf - height + 1
    else screenY in
  let cursorY := bf_currentY buf - screenY in
  line ← current_line buf;
  head ← slice 0 (bf_currentX buf) line;
  first ← walk_back (Z.to_nat cursorY) (Some (bf_currentLine buf));
  Ok (screenY, sliceLength head, cursorY, first).

Definition ToString (buf : Buffer) : res (list byte) :=
  match bf_lines buf with
  | [] => Panic NilPointer
  | lines =>
      let bytes := concat lines in
      if zlen bytes - 1 <? 0 then Panic SliceOutOfRange
      else Ok (take (Z.to_nat (zlen bytes - 1)) bytes)
  end.

Definition NumberOfLines (lines : list Line) : Z := zlen lines.

Arguments slice : simpl never.
