(* ===== verification/BufferWords.v ===== *)
(** The words of a text, and the two sequences that deliver them: the
    implementations of [WordSequence] promise the words of a reference
    tokenizer, which is all the layout relies on. *)
From S2P Require Import Prelude BufferOp Buffer.

Open Scope Z_scope.

(** ** The tokenizer *)

Definition starts_word (w : list byte) : bool :=
  match w with ch :: _ => negb (is_separator ch) | [] => false end.

Fixpoint words (s : list byte) : list (list byte) :=
  match s with
  | [] => []
  | ch :: s =>
      if is_separator ch then [ch] :: words s
      else match words s with
           | w :: ws => if starts_word w then (ch :: w) :: ws else [ch] :: w :: ws
           | [] => [[ch]]
           end
  end.

(** A separator, or a run of other characters. *)
Definition word_ok (w : list byte) : Prop :=
  (∃ ch, w = [ch] ∧ is_separator ch = true) ∨
  (w ≠ [] ∧ Forall (λ ch, is_separator ch = false) w).

Lemma concat_words s : concat (words s) = s.
Proof.
  induction s as [|ch s IH]; simpl; [done|]. destruct (is_separator ch); simpl; [by rewrite IH|].
  destruct (words s) as [|w ws]; simpl in *; [by rewrite <-IH|].
  destruct (starts_word w); simpl; by rewrite IH.
Qed.

Lemma words_ok s : Forall word_ok (words s).
Proof.
  induction s as [|ch s IH]; simpl; [constructor|].
  destruct (is_separator ch) eqn:Hch; [constructor; [left; eauto|done]|].
  assert (word_ok [ch]) as H1 by (right; by repeat constructor).
  destruct (words s) as [|w ws]; [by repeat constructor|].
  apply Forall_cons in IH as [Hw Hws]. destruct (starts_word w) eqn:Hs;
    [|constructor; [done|by constructor]].
  constructor; [|done]. right. split; [done|]. constructor; [done|].
  destruct Hw as [(c & -> & Hc)|[_ Hall]]; [simpl in Hs; by rewrite Hc in Hs|done].
Qed.

Lemma word_ok_nonempty w : word_ok w → w ≠ [].
Proof. intros [(ch & -> & _)|[? _]]; done. Qed.

Lemma length_words s : (length (words s) ≤ length s)%nat.
Proof.
  rewrite <-(concat_words s) at 2. pose proof (words_ok s) as H.
  induction H as [|w ws Hw _ IH]; simpl; [done|]. rewrite length_app.
  apply word_ok_nonempty in Hw. destruct w; [done|]. simpl. lia.
Qed.

(** Where a run of non-separators ends. *)
Definition starts_sep (s : list byte) : Prop :=
  match s with ch :: _ => is_separator ch = true | [] => True end.
Abbreviation plain w := (Forall (λ ch, is_separator ch = false) w).

Lemma words_run w s : w ≠ [] → plain w → starts_sep s → words (w ++ s) = w :: words s.
Proof.
  intros Hne Hw Hs. induction Hw as [|ch w Hch Hw IH]; [done|]. simpl. rewrite Hch.
  destruct w as [|ch' w].
  - simpl. destruct s as [|c s]; simpl in *; [done|]. rewrite Hs. simpl. by rewrite Hs.
  - rewrite IH by done. simpl. apply Forall_cons in Hw as [-> _]. done.
Qed.

Lemma words_sep ch s : is_separator ch = true → words (ch :: s) = [ch] :: words s.
Proof. simpl. by intros ->. Qed.

Lemma scan_word_spec e rest :
  ∃ w s, rest = w ++ s ∧ plain w ∧ starts_sep s ∧ scan_word e rest = (e + length w)%nat.
Proof.
  revert e. induction rest as [|ch rest IH]; intros e; simpl.
  { exists [], []. split_and!; [done|constructor|done|simpl; lia]. }
  destruct (is_separator ch) eqn:Hch.
  - exists [], (ch :: rest). split_and!; [done|constructor|done|simpl; lia].
  - destruct (IH (S e)) as (w & s & -> & Hw & Hs & ->). exists (ch :: w), s.
    split_and!; [done|by constructor|done|simpl; lia].
Qed.

(** ** What a sequence delivers *)

Inductive produces {Seq} `{WordSequence Seq} : Seq → list (list byte) → Prop :=
  | produces_nil seq seq' : NextWord seq = Ok (None, seq') → produces seq []
  | produces_cons seq seq' w ws :
      NextWord seq = Ok (Some w, seq') → produces seq' ws → produces seq (w :: ws).

Lemma drop_S_cons {A} (s : list A) i a t : drop i s = a :: t → drop (S i) s = t ∧ s !! i = Some a.
Proof.
  intros H. split.
  - replace (S i) with (i + 1)%nat by lia. by rewrite <-drop_drop, H.
  - rewrite <-(Nat.add_0_r i), <-lookup_drop, H. done.
Qed.

Lemma drop_run {A} (s : list A) i w t : drop i s = w ++ t → drop (i + length w) s = t.
Proof. intros H. by rewrite <-drop_drop, H, drop_app_length. Qed.

Lemma StringSequence_step str pos t :
  drop pos str = t →
  match t with
  | [] => NextWord (mkStringSequence str pos) = Ok (None, mkStringSequence str pos)
  | _ => ∃ w s, t = w ++ s ∧ w ≠ [] ∧ words t = w :: words s ∧
      NextWord (mkStringSequence str pos) = Ok (Some w, mkStringSequence str (pos + length w))
  end.
Proof.
  intros Ht. unfold NextWord, StringSequence_NextWord. cbn [ss_str ss_pos].
  destruct t as [|ch t].
  - rewrite lookup_ge_None_2; [done|]. apply (f_equal length) in Ht. rewrite length_drop in Ht.
    simpl in Ht. lia.
  - destruct (drop_S_cons _ _ _ _ Ht) as [Ht' ->]. destruct (is_separator ch) eqn:Hch.
    + exists [ch], t. rewrite words_sep by done. rewrite Nat.add_1_r. by split_and!.
    + rewrite Ht'. destruct (scan_word_spec (S pos) t) as (w & s & -> & Hw & Hs & ->).
      exists (ch :: w), s. split_and!; [done|done|by apply (words_run (ch :: w)); [|constructor|]|].
      replace (S pos + length w - pos)%nat with (length (ch :: w)) by (simpl; lia).
      rewrite Ht. change (ch :: w ++ s) with ((ch :: w) ++ s). rewrite take_app_length.
      do 3 f_equal. simpl. lia.
Qed.

(** A string delivers its words. *)
Lemma StringSequence_produces str : produces (NewStringSequence str) (words str).
Proof.
  assert (∀ t pos, drop pos str = t → produces (mkStringSequence str pos) (words t)) as H.
  { intros t. induction (well_founded_ltof _ length t) as [t _ IH]. intros pos Ht.
    pose proof (StringSequence_step str pos t Ht) as Hstep. destruct t as [|ch t].
    - by eapply produces_nil.
    - destruct Hstep as (w & s & He & Hw & -> & Hn). eapply produces_cons; [exact Hn|].
      apply IH.
      + unfold ltof. rewrite He, length_app. destruct w; simpl; [done|lia].
      + by apply drop_run; rewrite Ht. }
  by apply H.
Qed.

(** ** Sequences of lines *)

Definition ends_word (line : Line) : bool :=
  match last line with Some ch => negb (is_separator ch) | None => false end.

(** A word that reaches the end of its line is not followed by an empty line:
    the code looks at the first byte of the next line without a test. *)
Fixpoint resizable (lines : list Line) : Prop :=
  match lines with
  | line :: (line' :: _) as next => (line' = [] → ends_word line = false) ∧ resizable next
  | _ => True
  end.

(** The last line ends with the sentinel. *)
Definition sentinel (lines : list Line) : Prop := ∃ L l, lines = L ++ [l ++ [char_newline]].

Lemma sentinel_cons line lines : lines ≠ [] → sentinel (line :: lines) ↔ sentinel lines.
Proof.
  intros Hne. split.
  - intros (L & l & H). destruct L as [|l0 L]; simpl in H.
    + injection H as -> ->. done.
    + injection H as -> ->. by exists L, l.
  - intros (L & l & ->). by exists (line :: L), l.
Qed.

Lemma sentinel_single line : sentinel [line] → ∃ l, line = l ++ [char_newline].
Proof.
  intros (L & l & H). destruct L as [|l0 L]; simpl in H; [injection H as ->; by eexists|].
  injection H as _ H. by destruct L.
Qed.

Lemma sentinel_ends line lines : ends_word line = true → sentinel (line :: lines) → lines ≠ [].
Proof.
  intros He Hs ->. apply sentinel_single in Hs as [l ->]. unfold ends_word in He.
  by rewrite last_snoc in He.
Qed.

Lemma resizable_tail line lines : resizable (line :: lines) → resizable lines.
Proof. destruct lines; simpl; tauto. Qed.

(** What is left of the text after the sequence's position. *)
Definition remaining (lines : list Line) (x : nat) : list byte :=
  match lines with line :: next => drop x line ++ concat next | [] => [] end.

Record lines_at (lines : list Line) (x : nat) (t : list byte) : Prop := {
  la_resizable : resizable lines;
  la_sentinel : sentinel lines;
  la_text : remaining lines x = t ++ [char_newline];
  la_x line next : lines = line :: next → (x ≤ length line)%nat
}.

Lemma ends_word_app w l : plain w → w ≠ [] → ends_word (l ++ w) = true.
Proof.
  intros Hw Hne. destruct (exists_last Hne) as (w' & ch & ->).
  unfold ends_word. rewrite app_assoc, last_snoc. apply Forall_app in Hw as [_ Hc].
  apply Forall_cons in Hc as [-> _]. done.
Qed.

(** The continuation of a word over the following lines. *)
Lemma extend_word_ok chs line next :
  ends_word line = true → resizable (line :: next) → sentinel (line :: next) →
  ∃ w line2 next2 end2, extend_word chs line (length line) next = Ok (chs ++ w, line2 :: next2, end2) ∧
    plain w ∧ concat next = w ++ remaining (line2 :: next2) end2 ∧
    starts_sep (remaining (line2 :: next2) end2) ∧ remaining (line2 :: next2) end2 ≠ [] ∧
    (end2 ≤ length line2)%nat ∧ resizable (line2 :: next2) ∧ sentinel (line2 :: next2).
Proof.
  revert chs line. induction next as [|line' next IH]; intros chs line He Hr Hs.
  { by destruct (sentinel_ends _ _ He Hs). }
  cbn [extend_word]. destruct line' as [|ch line'].
  { destruct Hr as [Hr _]. rewrite Hr in He; done. }
  change ((ch :: line') !! 0%nat) with (Some ch). rewrite require_Some, bind_Ok.
  destruct (is_separator ch) eqn:Hch.
  - exists [], line, ((ch :: line') :: next), (length line). rewrite app_nil_r.
    cbn [remaining]. rewrite drop_ge by done. by split_and!.
  - change (drop 1 (ch :: line')) with line'.
    destruct (scan_word_spec 1 line') as (w & s & -> & Hw & Hsp & ->).
    change (1 + length w)%nat with (length (ch :: w)).
    change (ch :: w ++ s) with ((ch :: w) ++ s) in *. rewrite take_app_length.
    assert (plain (ch :: w)) as Hpl by (by constructor).
    case_decide as Hend.
    + assert (s ≠ []) as Hne by (intros ->; by rewrite app_nil_r in Hend).
      exists (ch :: w), ((ch :: w) ++ s), next, (length (ch :: w)). cbn [remaining].
      rewrite drop_app_length.
      split_and!; [done|done| | | |rewrite length_app; lia|by eapply resizable_tail|].
      * simpl concat. by rewrite <-app_assoc.
      * by destruct s.
      * by destruct s.
      * by apply sentinel_cons in Hs.
    + assert (s = []) as ->.
      { rewrite length_app in Hend. destruct s; [done|]. simpl in Hend. lia. }
      rewrite app_nil_r in *.
      destruct (IH (chs ++ ch :: w) (ch :: w)) as (w2 & l2 & n2 & e2 & Hx & H1 & H2 & H3 & H4 & H5 & H6 & H7).
      * by apply (ends_word_app (ch :: w) []).
      * by eapply resizable_tail.
      * by apply sentinel_cons in Hs.
      * exists ((ch :: w) ++ w2), l2, n2, e2. rewrite Hx. split_and!; try done.
        -- by rewrite <-app_assoc.
        -- by apply Forall_app.
        -- simpl concat. by rewrite H2, app_assoc.
Qed.

Lemma skip_ended_ok lines x t :
  lines_at lines x t →
  ∃ line next x', skip_ended lines x = (line :: next, x') ∧ lines_at (line :: next) x' t ∧
    (x' < length line)%nat.
Proof.
  revert x. induction lines as [|line next IH]; intros x [Hr Hs Ht Hx].
  { simpl in Ht. by destruct t. }
  cbn [skip_ended]. specialize (Hx _ _ eq_refl) as Hx'. case_decide as Hend.
  - cbn [remaining] in Ht. rewrite drop_ge in Ht by lia. simpl in Ht.
    assert (next ≠ []) as Hne by (intros ->; by destruct t).
    apply IH. split; [by eapply resizable_tail|by apply sentinel_cons in Hs| |intros; lia].
    by destruct next.
  - exists line, next, x. split_and!; [done|done|lia].
Qed.

Lemma sentinel_concat line next : sentinel (line :: next) → concat next = [] → next = [].
Proof.
  intros (L & l & H) Hc. destruct next as [|l1 n]; [done|].
  destruct L as [|l0 L]; [done|]. injection H as -> H. rewrite H in Hc.
  rewrite concat_app in Hc. simpl in Hc. rewrite app_nil_r in Hc.
  apply app_nil in Hc as [_ Hc]. by apply app_nil in Hc as [_ Hc].
Qed.

(** The text after a word, when what follows the word is not empty. *)
Lemma split_last (w r t : list byte) c :
  w ++ r = t ++ [c] → r ≠ [] → starts_sep r → ∃ s, r = s ++ [c] ∧ t = w ++ s ∧ starts_sep s.
Proof.
  intros H Hne Hsp. destruct (exists_last Hne) as (s & z & ->).
  rewrite app_assoc in H. apply app_inj_tail in H as [<- ->]. exists s.
  split_and!; [done..|]. by destruct s.
Qed.

(** One call of [NextWord] on lines. *)
Lemma LineSequence_step lines x t :
  lines_at lines x t →
  match t with
  | [] => ∃ seq, NextWord (mkLineSequence lines x) = Ok (None, seq)
  | _ => ∃ w s lines' x', t = w ++ s ∧ w ≠ [] ∧ words t = w :: words s ∧
      NextWord (mkLineSequence lines x) = Ok (Some w, mkLineSequence lines' x') ∧
      lines_at lines' x' s
  end.
Proof.
  intros (line & next & x' & Hsk & [Hr Hs Ht _] & Hx)%skip_ended_ok.
  unfold NextWord, LineSequence_NextWord. cbn [ls_lines ls_currentX]. rewrite Hsk.
  cbn [remaining] in Ht. destruct t as [|ch t].
  - assert (next = []) as ->.
    { apply (sentinel_concat line); [done|]. apply (f_equal length) in Ht.
      rewrite length_app, length_drop in Ht. simpl in Ht. destruct (concat next); [done|simpl in Ht; lia]. }
    apply (f_equal length) in Ht. rewrite length_app, length_drop in Ht. simpl in Ht.
    rewrite bool_decide_eq_true_2 by done. rewrite (proj2 (Z.eqb_eq _ _)) by (unfold zlen; lia).
    eexists. reflexivity.
  - assert (bool_decide (next = []) && (Z.of_nat x' =? zlen line - 1) = false) as ->.
    { destruct (decide (next = [])) as [->|Hne]; [|by rewrite bool_decide_eq_false_2].
      rewrite bool_decide_eq_true_2 by done. simpl. apply Z.eqb_neq. intros He.
      apply (f_equal length) in Ht. rewrite !length_app, length_drop in Ht. simpl in Ht.
      unfold zlen in He. lia. }
    destruct (drop x' line) as [|c d] eqn:Hd.
    { apply (f_equal length) in Hd. rewrite length_drop in Hd. simpl in Hd. lia. }
    simpl in Ht. injection Ht as -> Ht. destruct (drop_S_cons _ _ _ _ Hd) as [Hd' ->].
    rewrite require_Some, bind_Ok. destruct (is_separator ch) eqn:Hch.
    + exists [ch], t, (line :: next), (S x'). rewrite words_sep by done.
      split_and!; try done. split; [done|done|cbn [remaining]; by rewrite Hd'|].
      intros ? ? [= <- <-]. lia.
    + rewrite Hd'. destruct (scan_word_spec (S x') d) as (w & s & -> & Hw & Hsp & ->).
      assert (plain (ch :: w)) as Hpl by (by constructor).
      replace (S x' + length w - x')%nat with (length (ch :: w)) by (simpl; lia).
      replace (S x' + length w)%nat with (x' + length (ch :: w))%nat by (simpl; lia).
      change (ch :: w ++ s) with ((ch :: w) ++ s) in *. rewrite take_app_length.
      assert (length line = x' + length (ch :: w) + length s)%nat as Hlen.
      { pose proof (length_drop line x') as Hl. rewrite Hd, length_app in Hl. lia. }
      rewrite <-app_assoc in Ht. case_decide as Hend.
      * assert (s ≠ []) as Hne by (intros ->; simpl in Hlen, Hend; lia).
        destruct (split_last w (s ++ concat next) t char_newline Ht) as (s2 & Hs2 & -> & Hsp2);
          [by destruct s|by destruct s|].
        exists (ch :: w), s2, (line :: next), (x' + length (ch :: w))%nat.
        split_and!; [done|done|by apply (words_run (ch :: w))|done|].
        split; [done|done|cbn [remaining]; by rewrite (drop_run _ _ _ _ Hd)|].
        intros ? ? [= <- <-]. lia.
      * assert (s = []) as -> by (destruct s; [done|simpl in Hlen, Hend; lia]).
        rewrite app_nil_r in *. simpl app in Ht.
        assert (ends_word line = true) as He.
        { rewrite <-(take_drop x' line), Hd. by apply ends_word_app. }
        replace (x' + length (ch :: w))%nat with (length line) by (simpl in *; lia).
        destruct (extend_word_ok (ch :: w) line next He Hr Hs)
          as (w2 & l2 & n2 & e2 & -> & Hw2 & Hc & Hsp2 & Hne & Hle & Hr2 & Hs2). rewrite bind_Ok.
        rewrite Hc, app_assoc in Ht.
        destruct (split_last (w ++ w2) (remaining (l2 :: n2) e2) t char_newline Ht)
          as (s2 & Hrem & -> & Hsp3); [done|done|].
        exists ((ch :: w) ++ w2), s2, (l2 :: n2), e2. split_and!; try done.
        -- rewrite app_comm_cons. apply words_run; [done| |done]. by apply Forall_app.
        -- split; [done..|]. by intros ? ? [= <- <-].
Qed.

(** Lines deliver the words of their text, without the sentinel. *)
Lemma LineSequence_produces lines text :
  resizable lines → sentinel lines → concat lines = text ++ [char_newline] →
  produces (NewLineSequence lines) (words text).
Proof.
  intros Hr Hs Ht.
  assert (∀ t lines x, lines_at lines x t → produces (mkLineSequence lines x) (words t)) as H.
  { intros t. induction (well_founded_ltof _ length t) as [t _ IH]. intros ls x Hla.
    pose proof (LineSequence_step ls x t Hla) as Hstep. destruct t as [|ch t].
    - destruct Hstep as [seq Hn]. by eapply produces_nil.
    - destruct Hstep as (w & s & ls' & x' & He & Hw & -> & Hn & Hla').
      eapply produces_cons; [exact Hn|]. apply IH; [|done].
      unfold ltof. rewrite He, length_app. destruct w; simpl; [done|lia]. }
  apply H. split; [done|done| |lia]. destruct lines; [by destruct text|]. cbn [remaining].
  by rewrite drop_0.
Qed.

(** ** The loop over a sequence is a loop over its words *)

Lemma SeqToLines_loop_produces {Seq} `{WordSequence Seq} fuel (seq : Seq) ws width st :
  produces seq ws → (length ws < fuel)%nat →
  SeqToLines_loop fuel seq width st = foldM (λ st w, place_word width w st) st ws.
Proof.
  intros Hp. revert fuel st. induction Hp as [seq seq' Hn|seq seq' w ws Hn _ IH];
    intros [|fuel] st Hf; simpl in Hf; try lia; cbn [SeqToLines_loop]; rewrite Hn, bind_Ok; [done|].
  cbn [foldM]. destruct (place_word width w st); [|done..]. rewrite !bind_Ok. apply IH. lia.
Qed.

(** The layout of a text: what any sequence that delivers its words gets. *)
Definition layout (width : Z) (text : list byte) : res (list Line * Z * Z) :=
  line ← make_bytes (width + 2);
  st ← foldM (λ st w, place_word width w st) (mkLayout [] line 0 1 0) (words text);
  Ok (ly_lines st ++ [ly_line st ++ [char_newline]], ly_numberOfLines st, ly_numberOfChars st).

Lemma SeqToLines_layout {Seq} `{WordSequence Seq} fuel (seq : Seq) text width :
  produces seq (words text) → (length (words text) < fuel)%nat →
  SeqToLines fuel seq width = layout width text.
Proof.
  intros Hp Hf. unfold SeqToLines, layout. destruct (make_bytes (width + 2)); [|done..].
  rewrite !bind_Ok. by rewrite (SeqToLines_loop_produces _ _ _ _ _ Hp Hf).
Qed.
