(* ===== verification/BufferLayout.v ===== *)
(** The layout of a text into lines: nothing is lost, no line is empty or
    wider than the window, and the counters are right. *)
From S2P Require Import Prelude BufferOp Buffer BufferWords.

Open Scope Z_scope.

(** ** Widths *)

Lemma sliceLength_sumZ bytes : sliceLength bytes = sumZ charLength bytes.
Proof.
  assert (∀ s, foldl (λ s ch, s + charLength ch) s bytes = s + sumZ charLength bytes) as H.
  { induction bytes as [|ch bytes IH]; intros s; simpl; [lia|]. rewrite IH. lia. }
  unfold sliceLength. rewrite H. lia.
Qed.

Lemma sliceLength_app a b : sliceLength (a ++ b) = sliceLength a + sliceLength b.
Proof. by rewrite !sliceLength_sumZ, sumZ_app. Qed.

Lemma charLength_nonneg ch : 0 ≤ charLength ch.
Proof. unfold charLength. repeat case_decide; lia. Qed.

Lemma sliceLength_nonneg a : 0 ≤ sliceLength a.
Proof. rewrite sliceLength_sumZ. apply sumZ_nonneg. intros; apply charLength_nonneg. Qed.

Lemma is_separator_false ch :
  is_separator ch = false → ch ≠ char_space ∧ ch ≠ char_tab ∧ ch ≠ char_newline.
Proof.
  unfold is_separator.
  intros [[H1%bool_decide_eq_false H2%bool_decide_eq_false]%orb_false_elim
    H3%bool_decide_eq_false]%orb_false_elim. done.
Qed.

Lemma plain_sliceLength w : plain w → sliceLength w = zlen w.
Proof.
  intros Hw. rewrite sliceLength_sumZ. induction Hw as [|ch w Hch _ IH]; [done|].
  rewrite zlen_cons. cbn [sumZ foldr]. change (foldr _ 0 w) with (sumZ charLength w). rewrite IH.
  apply is_separator_false in Hch as (_ & H1 & H2). unfold charLength.
  by rewrite !decide_False.
Qed.

Lemma sliceLength_newline l : sliceLength (l ++ [char_newline]) = sliceLength l.
Proof. rewrite sliceLength_app. unfold sliceLength at 2, charLength. simpl. lia. Qed.

Lemma slice_ok lo hi (bytes : list byte) :
  0 ≤ lo → lo ≤ hi → hi ≤ zlen bytes →
  slice lo hi bytes = Ok (take (Z.to_nat (hi - lo)) (drop (Z.to_nat lo) bytes)).
Proof.
  intros H1 H2 H3. unfold slice.
  by rewrite (proj2 (Z.leb_le _ _) H1), (proj2 (Z.leb_le _ _) H2), (proj2 (Z.leb_le _ _) H3).
Qed.

Lemma make_bytes_ok cap : 0 ≤ cap → make_bytes cap = Ok [].
Proof. intros H. unfold make_bytes. by rewrite (proj2 (Z.ltb_ge _ _) H). Qed.

(** ** The loop's invariant *)

Definition line_ok (width : Z) (line : Line) : Prop := line ≠ [] ∧ sliceLength line ≤ width.

(** The state after the words of [text]. *)
Record layout_ok (width : Z) (text : list byte) (st : layout_state) : Prop := {
  lo_text : concat (ly_lines st) ++ ly_line st = text;
  lo_i : ly_i st = sliceLength (ly_line st);
  lo_width : sliceLength (ly_line st) ≤ width;
  lo_lines : Forall (line_ok width) (ly_lines st);
  lo_numberOfLines : ly_numberOfLines st = zlen (ly_lines st) + 1
}.

Lemma concat_snoc {A} (ls : list (list A)) l : concat (ls ++ [l]) = concat ls ++ l.
Proof. rewrite concat_app. simpl. by rewrite app_nil_r. Qed.

Lemma split_word_ok fuel width word k T st :
  0 < width → plain word → 0 ≤ k → zlen word - k ≤ Z.of_nat fuel →
  k < zlen word ∨ k = zlen word ∧ ly_i st = sliceLength (ly_line st) →
  concat (ly_lines st) ++ ly_line st = T ++ take (Z.to_nat k) word →
  line_ok width (ly_line st) → Forall (line_ok width) (ly_lines st) →
  ly_numberOfLines st = zlen (ly_lines st) + 1 →
  ∃ st', split_word fuel width word (zlen word) k st = Ok st' ∧
    layout_ok width (T ++ word) st' ∧ ly_numberOfChars st' = ly_numberOfChars st.
Proof.
  intros Hw Hp. revert k st. induction fuel as [|fuel IH]; intros k st Hk Hf Hend Ht Hl HL Hn;
    cbn [split_word]; case (Z.ltb_spec k (zlen word)) as [Hlt|Hge]; try lia.
  1,3: destruct Hend as [|[-> Hi]]; [lia|]; exists st; split; [done|]; split; [|done];
    split; [|done|apply Hl|done|done]; rewrite Ht; unfold zlen; by rewrite Nat2Z.id, take_ge.
  rewrite make_bytes_ok, bind_Ok by lia.
  set (i := if zlen word - k <? width then zlen word - k else width).
  assert (0 < i ≤ width ∧ k + i ≤ zlen word) as Hi.
  { unfold i. case (Z.ltb_spec (zlen word - k) width); lia. }
  rewrite slice_ok, bind_Ok by lia. replace (k + i - k) with i by lia.
  set (part := take (Z.to_nat i) (drop (Z.to_nat k) word)).
  assert (plain part) as Hpp by (by apply Forall_take, Forall_drop).
  assert (zlen part = i) as Hpl.
  { unfold part, zlen in *. rewrite length_take, length_drop. lia. }
  assert (sliceLength part = i) as Hps by (by rewrite plain_sliceLength).
  destruct (IH (k + i) (mkLayout (ly_lines st ++ [ly_line st]) ([] ++ part) i
    (ly_numberOfLines st + 1) (ly_numberOfChars st))) as (st' & Hs & Hl' & Hc');
    cbn [ly_lines ly_line ly_i ly_numberOfLines]; simpl app; try lia; [| | | |by exists st'].
  - rewrite concat_snoc, Ht, <-app_assoc. f_equal. unfold part.
    replace (Z.to_nat (k + i)) with (Z.to_nat k + Z.to_nat i)%nat by lia. by rewrite take_take_drop.
  - split; [|lia]. intros Hnil. rewrite Hnil in Hpl. unfold zlen in Hpl. simpl in Hpl. lia.
  - apply Forall_app. split; [done|]. by constructor.
  - rewrite zlen_app. unfold zlen at 2. simpl. lia.
Qed.

Lemma place_word_ok width text w st :
  4 ≤ width → word_ok w → layout_ok width text st →
  ∃ st', place_word width w st = Ok st' ∧ layout_ok width (text ++ w) st' ∧
    ly_numberOfChars st' = ly_numberOfChars st + zlen w.
Proof.
  intros Hw Hok [Ht Hi Hwd HL Hn]. unfold place_word.
  destruct w as [|ch w]; [by apply word_ok_nonempty in Hok|].
  change ((ch :: w) !! 0%nat) with (Some ch). rewrite require_Some, bind_Ok.
  pose proof (sliceLength_nonneg (ly_line st)) as Hnn.
  destruct (decide (ch = char_newline)) as [->|Hnl].
  { destruct Hok as [(c & [= <- ->] & _)|[_ Hp]]; [|by apply Forall_cons in Hp as [? _]].
    rewrite make_bytes_ok, bind_Ok by lia. eexists. split; [reflexivity|]. split; [|done].
    split; cbn [ly_lines ly_line ly_i ly_numberOfLines]; [|done|unfold sliceLength; simpl; lia| |].
    - rewrite concat_snoc, <-Ht, app_nil_r. by rewrite <-app_assoc.
    - apply Forall_app. split; [done|]. constructor; [|done]. split; [by destruct (ly_line st)|].
      by rewrite sliceLength_newline.
    - rewrite zlen_app. unfold zlen at 2. simpl. lia. }
  set (wd := ch :: w) in *.
  assert (wordLength wd = Ok (sliceLength wd) ∧ (sliceLength wd ≤ 4 ∨ plain wd)) as [-> Hcase].
  { destruct Hok as [(c & [= <- ->] & Hsep)|[_ Hp]].
    - unfold wordLength, sliceLength, charLength, wd; simpl. rewrite (decide_False _ _ Hnl).
      case_decide; split; (done || left; lia).
    - split; [|by right]. rewrite plain_sliceLength by done. unfold wordLength, wd.
      apply Forall_cons in Hp as [(_ & Htab & _)%is_separator_false _].
      by rewrite decide_False. }
  rewrite bind_Ok. case (Z.leb_spec (ly_i st + sliceLength wd) width) as [Hfit|Hfit].
  { eexists. split; [reflexivity|]. split; [|done].
    split; cbn [ly_lines ly_line ly_i ly_numberOfLines]; [|by rewrite sliceLength_app, Hi| |done|done].
    - by rewrite app_assoc, Ht.
    - rewrite sliceLength_app. lia. }
  assert (sliceLength wd ≤ width → ly_line st ≠ []) as Hne.
  { intros Hle Hnil. rewrite Hnil in Hi. unfold sliceLength in Hi. simpl in Hi. lia. }
  case (Z.leb_spec (sliceLength wd) width) as [Hshort|Hlong].
  { rewrite make_bytes_ok, bind_Ok by lia. eexists. split; [reflexivity|]. split; [|done].
    split; cbn [ly_lines ly_line ly_i ly_numberOfLines]; [|done|done| |].
    - by rewrite concat_snoc, Ht.
    - apply Forall_app. split; [done|]. constructor; [|done]. split; auto.
    - rewrite zlen_app. unfold zlen at 2. simpl. lia. }
  destruct Hcase as [|Hp]; [lia|]. rewrite (plain_sliceLength _ Hp) in *.
  rewrite slice_ok, bind_Ok by lia. rewrite Z.sub_0_r, drop_0.
  set (part := take (Z.to_nat (width - ly_i st)) wd).
  assert (sliceLength part = width - ly_i st) as Hps.
  { rewrite plain_sliceLength by (by apply Forall_take). unfold part, zlen in *.
    rewrite length_take. lia. }
  destruct (split_word_ok (length wd) width wd (width - ly_i st) text
    (mkLayout (ly_lines st) (ly_line st ++ part) (ly_i st) (ly_numberOfLines st)
       (ly_numberOfChars st + zlen wd))) as (st' & Hs & Hl & Hc); cbn [ly_lines ly_line ly_i ly_numberOfLines]; try (done || lia).
  - unfold zlen in *. lia.
  - by rewrite app_assoc, Ht.
  - split; [|rewrite sliceLength_app; lia]. intros [Hnil Hpn]%app_nil.
    rewrite Hnil in Hi. rewrite Hpn in Hps. unfold sliceLength in *. simpl in *. lia.
  - by exists st'.
Qed.

Lemma layout_loop_ok width ws text st :
  4 ≤ width → Forall word_ok ws → layout_ok width text st → ly_numberOfChars st = zlen text →
  ∃ st', foldM (λ st w, place_word width w st) st ws = Ok st' ∧
    layout_ok width (text ++ concat ws) st' ∧ ly_numberOfChars st' = zlen (text ++ concat ws).
Proof.
  intros Hw Hws. revert text st. induction Hws as [|w ws Hok _ IH]; intros text st Hl Hc;
    cbn [foldM concat].
  { rewrite app_nil_r. by exists st. }
  destruct (place_word_ok width text w st Hw Hok Hl) as (st1 & -> & Hl1 & Hc1). rewrite bind_Ok.
  destruct (IH (text ++ w) st1 Hl1) as (st' & -> & Hl' & Hc').
  - by rewrite Hc1, Hc, zlen_app.
  - exists st'. by rewrite app_assoc.
Qed.

(** What the layout promises. *)
Record layout_spec (width : Z) (text : list byte) (lines : list Line) : Prop := {
  ls_text : concat lines = text ++ [char_newline];
  ls_ok : Forall (line_ok width) lines;
  ls_sentinel : sentinel lines
}.

Lemma layout_correct width text :
  4 ≤ width → ∃ lines, layout width text = Ok (lines, zlen lines, zlen text) ∧
    layout_spec width text lines.
Proof.
  intros Hw. unfold layout. rewrite make_bytes_ok, bind_Ok by lia.
  destruct (layout_loop_ok width (words text) [] (mkLayout [] [] 0 1 0)) as (st & -> & Hl & Hc);
    [done|apply words_ok| |done|].
  { split; simpl; try done. unfold sliceLength. simpl. lia. }
  simpl app in Hl, Hc. rewrite concat_words in Hl, Hc. destruct Hl as [Ht Hi Hwd HL Hn].
  rewrite bind_Ok. eexists. split.
  - rewrite Hc, Hn. do 3 f_equal. rewrite zlen_app. done.
  - split; [| |by eexists _, _].
    + rewrite concat_snoc, app_assoc. by rewrite Ht.
    + apply Forall_app. split; [done|]. constructor; [|done].
      split; [by destruct (ly_line st)|by rewrite sliceLength_newline].
Qed.
