(* ===== verification/BufferSpec.v ===== *)
(** The contract of the text buffer: what each operation does to the text and
    to the cursor. *)
From S2P Require Import Prelude BufferOp Buffer BufferWords BufferLayout.

Open Scope Z_scope.

(** ** The invariant *)

(** The characters before a line. *)
Definition offset (lines : list Line) (y : nat) : Z := zlen (concat (take y lines)).

(** The cursor is on a character of its line ([slack] is 0), or possibly
    right after the last one ([slack] is 1). *)
Definition cursor_at (slack : Z) (buf : Buffer) : Prop :=
  ∃ line, bf_lines buf !! bf_currentLine buf = Some line ∧
    0 ≤ bf_currentX buf < zlen line + slack ∧
    bf_currentY buf = Z.of_nat (bf_currentLine buf) ∧
    bf_currentPosition buf = offset (bf_lines buf) (bf_currentLine buf) + bf_currentX buf ∧
    bf_currentPosition buf < zlen (concat (bf_lines buf)).

(** Everything but the cursor. *)
Record lines_ok (text : list byte) (buf : Buffer) : Prop := {
  bk_width : 4 ≤ bf_width buf;
  bk_layout : layout_spec (bf_width buf) text (bf_lines buf);
  bk_chars : bf_numberOfChars buf = zlen text;
  bk_lines : bf_numberOfLines buf = zlen (bf_lines buf)
}.

Definition buf_ok (text : list byte) (buf : Buffer) : Prop := lines_ok text buf ∧ cursor_at 0 buf.

Lemma offset_S lines y line :
  lines !! y = Some line → offset lines (S y) = offset lines y + zlen line.
Proof. intros H. unfold offset. by rewrite (take_S_r _ _ _ H), concat_snoc, zlen_app. Qed.

Lemma concat_split (lines : list Line) y line :
  lines !! y = Some line →
  concat lines = concat (take y lines) ++ line ++ concat (drop (S y) lines).
Proof.
  intros H. rewrite <-(take_drop_middle _ _ _ H) at 1. by rewrite concat_app.
Qed.

Lemma offset_le lines y line :
  lines !! y = Some line → offset lines y + zlen line ≤ zlen (concat lines).
Proof.
  intros H. rewrite (concat_split _ _ _ H), !zlen_app. unfold offset.
  pose proof (zlen_nonneg (concat (drop (S y) lines))). lia.
Qed.

(** ** Finding a position *)

Lemma walk_to_ok pos lines :
  0 ≤ pos < zlen (concat lines) →
  ∃ x y line, walk_to pos 0 0 lines = Ok (x, y) ∧ lines !! y = Some line ∧
    0 ≤ x < zlen line ∧ pos = offset lines y + x.
Proof.
  intros Hpos.
  assert (∀ rest seen, lines = seen ++ rest → zlen (concat seen) ≤ pos →
    ∃ x y line, walk_to pos (zlen (concat seen)) (length seen) rest = Ok (x, y) ∧
      lines !! y = Some line ∧ 0 ≤ x < zlen line ∧ pos = offset lines y + x) as H.
  { intros rest. induction rest as [|line rest IH]; intros seen Hl Hs.
    { rewrite app_nil_r in Hl. subst. lia. }
    cbn [walk_to]. destruct (zlen (concat seen) + zlen line >? pos) eqn:Hc.
    - exists (pos - zlen (concat seen)), (length seen), line. split; [done|]. subst.
      rewrite list_lookup_middle by done. unfold offset. rewrite take_app_length.
      split_and!; (done || lia).
    - specialize (IH (seen ++ [line])). rewrite concat_snoc, zlen_app, length_app in IH.
      simpl in IH. rewrite Nat.add_1_r in IH. apply IH; [|lia].
      by rewrite <-app_assoc. }
  apply (H lines []); [done|]. unfold zlen. simpl. lia.
Qed.

(** Past the end of the text the walk follows a nil pointer. *)
Lemma walk_to_end pos acc y lines :
  acc + zlen (concat lines) ≤ pos → walk_to pos acc y lines = Panic NilPointer.
Proof.
  revert acc y. induction lines as [|line lines IH]; intros acc y H; [done|].
  cbn [walk_to concat] in *. rewrite zlen_app in H.
  pose proof (zlen_nonneg (concat lines)).
  destruct (acc + zlen line >? pos) eqn:Hc; [lia|]. apply IH. lia.
Qed.

Lemma SetPosition_ok text buf pos :
  layout_spec (bf_width buf) text (bf_lines buf) → 0 ≤ pos ≤ zlen text →
  ∃ y x, SetPosition buf pos = Ok (set_cursor y pos x (Z.of_nat y) buf) ∧
    cursor_at 0 (set_cursor y pos x (Z.of_nat y) buf).
Proof.
  intros [Ht _ _] Hpos. assert (0 ≤ pos < zlen (concat (bf_lines buf))) as Hp.
  { rewrite Ht, zlen_app. change (zlen [char_newline]) with 1. lia. }
  destruct (walk_to_ok pos _ Hp) as (x & y & line & Hw & Hl & Hx & He).
  exists y, x. unfold SetPosition. rewrite Hw, bind_Ok. split; [done|].
  exists line. simpl. rewrite Z.add_0_r. split_and!; (done || lia).
Qed.

(** ** [Resize] *)

Lemma total_length_words lines text :
  concat lines = text ++ [char_newline] → (length (words text) < S (total_length lines))%nat.
Proof.
  intros H. unfold total_length. rewrite H, length_app. pose proof (length_words text). simpl. lia.
Qed.

Lemma Resize_ok text buf width :
  resizable (bf_lines buf) → sentinel (bf_lines buf) →
  concat (bf_lines buf) = text ++ [char_newline] → 4 ≤ width →
  0 ≤ bf_currentPosition buf ≤ zlen text →
  ∃ buf', Resize buf width = Ok buf' ∧ buf_ok text buf' ∧ bf_width buf' = width ∧
    bf_currentPosition buf' = bf_currentPosition buf ∧
    layout width text = Ok (bf_lines buf', bf_numberOfLines buf', bf_numberOfChars buf').
Proof.
  intros Hr Hs Ht Hw Hpos. unfold Resize.
  rewrite (SeqToLines_layout _ _ text) by eauto using LineSequence_produces, total_length_words.
  destruct (layout_correct width text Hw) as (lines & Hl & Hspec). rewrite Hl, bind_Ok.
  set (buf1 := mkBuffer width (zlen text) (zlen lines) lines (bf_currentLine buf)
    (bf_currentPosition buf) (bf_currentX buf) (bf_currentY buf)).
  destruct (SetPosition_ok text buf1 (bf_currentPosition buf) Hspec Hpos) as (y & x & Hp & Hc).
  unfold SetPosition in *. cbn [bf_lines bf_currentPosition buf1] in *.
  destruct (walk_to (bf_currentPosition buf) 0 0 lines) as [[x' y']| |]; [|discriminate..].
  rewrite bind_Ok in *. injection Hp as -> ->. eexists. split; [reflexivity|]. simpl.
  split_and!; [|done..]. split; [by split|exact Hc].
Qed.

Lemma nonempty_resizable width lines : Forall (line_ok width) lines → resizable lines.
Proof.
  induction 1 as [|l lines [Hne _] Hl IH]; simpl; [done|].
  destruct Hl as [|l' lines' [Hne' _] _]; [done|]. by split.
Qed.

Lemma Resize_buf_ok text buf width :
  buf_ok text buf → 4 ≤ width →
  ∃ buf', Resize buf width = Ok buf' ∧ buf_ok text buf' ∧ bf_width buf' = width ∧
    bf_currentPosition buf' = bf_currentPosition buf ∧
    layout width text = Ok (bf_lines buf', bf_numberOfLines buf', bf_numberOfChars buf').
Proof.
  intros [[_ [Ht Hl Hs] _ _] (line & Hlk & Hx & _ & Hp & Hlt)] Hw.
  apply Resize_ok; [by eapply nonempty_resizable|done..|].
  rewrite Ht, zlen_app in Hlt. change (zlen [char_newline]) with 1 in Hlt.
  pose proof (zlen_nonneg (concat (take (bf_currentLine buf) (bf_lines buf)))). unfold offset in Hp. lia.
Qed.

Lemma StringToBuffer_ok str width :
  4 ≤ width → ∃ buf, StringToBuffer str width = Ok buf ∧ buf_ok str buf ∧ bf_width buf = width ∧
    bf_currentPosition buf = 0 ∧
    layout width str = Ok (bf_lines buf, bf_numberOfLines buf, bf_numberOfChars buf).
Proof.
  intros Hw. unfold StringToBuffer.
  rewrite (SeqToLines_layout _ _ str).
  2:{ apply StringSequence_produces. } 2:{ pose proof (length_words str). lia. }
  destruct (layout_correct width str Hw) as (lines & Hl & Hspec). rewrite Hl, bind_Ok.
  eexists. split; [reflexivity|]. simpl. split_and!; [|done..]. split; [by split|].
  destruct Hspec as [Ht Hok _]. destruct lines as [|l lines]; [by destruct str|].
  exists l. simpl. split_and!; try done.
  - apply Forall_cons in Hok as [[Hne _] _]. destruct l; [done|]. rewrite zlen_cons.
    pose proof (zlen_nonneg l). lia.
  - change (l ++ concat lines) with (concat (l :: lines)). rewrite Ht, zlen_app.
    pose proof (zlen_nonneg str). change (zlen [char_newline]) with 1. lia.
Qed.

Lemma ToString_ok text buf : lines_ok text buf → ToString buf = Ok text.
Proof.
  intros [_ [Ht _ _] _ _]. unfold ToString. destruct (bf_lines buf) as [|l ls]; [by destruct text|].
  rewrite Ht, zlen_app. change (zlen [char_newline]) with 1. pose proof (zlen_nonneg text).
  rewrite (proj2 (Z.ltb_ge _ _)) by lia. f_equal.
  replace (Z.to_nat (zlen text + 1 - 1)) with (length text) by (unfold zlen; lia).
  apply take_app_length.
Qed.

(** ** Edits *)

Lemma concat_insert (lines : list Line) y line line' :
  lines !! y = Some line →
  concat (<[y := line']> lines) = concat (take y lines) ++ line' ++ concat (drop (S y) lines).
Proof.
  intros H. pose proof (lookup_lt_Some _ _ _ H).
  rewrite (concat_split _ y line') by (by apply list_lookup_insert_eq).
  by rewrite take_insert_ge, drop_insert_lt by lia.
Qed.

Lemma sentinel_intro lines t :
  (∀ l, last lines = Some l → l ≠ []) → concat lines = t ++ [char_newline] → sentinel lines.
Proof.
  intros Hl Ht. destruct lines as [|l0 ls]; [by destruct t|].
  destruct (exists_last (l := l0 :: ls)) as (L & l & HL); [done|]. rewrite HL in *.
  specialize (Hl l (last_snoc _ _)). destruct (exists_last Hl) as (l' & c & ->).
  rewrite concat_snoc, app_assoc in Ht. apply app_inj_tail in Ht as [_ ->]. by exists L, l'.
Qed.

Lemma resizable_intro lines : Forall (λ l, l ≠ []) lines → resizable lines.
Proof.
  induction 1 as [|l lines Hne Hl IH]; simpl; [done|].
  destruct Hl as [|l' lines' Hne' _]; [done|]. by split.
Qed.

Lemma lines_nonempty width lines : Forall (line_ok width) lines → Forall (λ l, l ≠ []) lines.
Proof. intros H. eapply Forall_impl; [exact H|]. by intros l [? _]. Qed.

Lemma last_nonempty (lines : list Line) l :
  Forall (λ l, l ≠ []) lines → last lines = Some l → l ≠ [].
Proof. intros H Hl. rewrite last_lookup in Hl. by apply (Forall_lookup_1 _ _ _ _ H) in Hl. Qed.

Lemma text_insert_snoc {A} pos (ch : A) s z :
  0 ≤ pos ≤ zlen s → text_insert pos ch (s ++ [z]) = text_insert pos ch s ++ [z].
Proof.
  intros Hp. unfold text_insert, zlen in *. rewrite take_app_le, drop_app_le by lia.
  by rewrite <-app_assoc.
Qed.

Lemma text_delete_snoc {A} pos (s : list A) z :
  0 ≤ pos < zlen s → text_delete pos (s ++ [z]) = text_delete pos s ++ [z].
Proof.
  intros Hp. unfold text_delete, zlen in *. rewrite take_app_le, drop_app_le by lia.
  by rewrite app_assoc.
Qed.

Lemma insert_byte_ok text buf pos ch :
  lines_ok text buf → 0 ≤ pos ≤ zlen text →
  ∃ lines', insert_byte buf pos ch = Ok (set_lines lines' buf) ∧
    concat lines' = text_insert pos ch text ++ [char_newline] ∧ resizable lines' ∧ sentinel lines'.
Proof.
  intros [_ [Ht Hok Hs] _ _] Hpos.
  assert (0 ≤ pos < zlen (concat (bf_lines buf))) as Hp.
  { rewrite Ht, zlen_app. change (zlen [char_newline]) with 1. lia. }
  destruct (walk_to_ok pos _ Hp) as (x & y & line & Hw & Hl & Hx & He).
  unfold insert_byte, findPos. rewrite Hw, bind_Ok, bind_Ok, Hl. rewrite require_Some, bind_Ok.
  rewrite (proj2 (Z.ltb_ge _ _)) by lia. eexists. split; [reflexivity|].
  rewrite slice_insert_spec by (unfold zlen in Hx; lia).
  set (line' := take (Z.to_nat x) line ++ ch :: drop (Z.to_nat x) line).
  assert (concat (<[y := line']> (bf_lines buf)) = text_insert pos ch text ++ [char_newline]) as Hc.
  { rewrite (concat_insert _ _ _ _ Hl), <-text_insert_snoc, <-Ht by done.
    rewrite (concat_split _ _ _ Hl). rewrite <-(take_drop (Z.to_nat x) line) at 1.
    unfold line'. rewrite <-!app_assoc. rewrite (app_assoc (concat _) (take _ line) (drop _ _ ++ _)).
    rewrite (text_insert_app ch).
    - by rewrite <-!app_assoc.
    - rewrite zlen_app. unfold offset in He. rewrite He. f_equal. unfold zlen in *.
      rewrite length_take. lia. }
  assert (Forall (λ l, l ≠ []) (<[y := line']> (bf_lines buf))) as Hne.
  { apply Forall_insert; [by eapply lines_nonempty|]. intros [_ ?]%app_nil. done. }
  split_and!; [done|by apply resizable_intro|].
  eapply sentinel_intro; [|exact Hc]. intros l. by apply last_nonempty.
Qed.

Lemma edit_insert_ok text buf pos ch cur :
  buf_ok text buf → 0 ≤ pos ≤ zlen text → 0 ≤ cur ≤ zlen text + 1 →
  ∃ lines' buf', insert_byte buf pos ch = Ok (set_lines lines' buf) ∧
    Resize (set_position cur (set_lines lines' buf)) (bf_width buf) = Ok buf' ∧
    buf_ok (text_insert pos ch text) buf' ∧ bf_width buf' = bf_width buf ∧
    bf_currentPosition buf' = cur.
Proof.
  intros [Hlo _] Hpos Hcur. destruct (insert_byte_ok text buf pos ch Hlo Hpos)
    as (lines' & Hi & Ht & Hr & Hs).
  destruct (Resize_ok (text_insert pos ch text) (set_position cur (set_lines lines' buf)) (bf_width buf))
    as (buf' & Hrz & Hok & Hw & Hp & _); try done; [apply Hlo| |].
  - simpl. rewrite length_text_insert. lia.
  - by exists lines', buf'.
Qed.

Lemma set_position_id buf : set_position (bf_currentPosition buf) buf = buf.
Proof. by destruct buf. Qed.

Lemma set_position_lines p l buf :
  set_lines l (set_position p buf) = set_position p (set_lines l buf).
Proof. done. Qed.

Lemma buf_ok_position text buf : buf_ok text buf → 0 ≤ bf_currentPosition buf ≤ zlen text.
Proof.
  intros [[_ [Ht _ _] _ _] (line & _ & Hx & _ & Hp & Hlt)].
  rewrite Ht, zlen_app in Hlt. change (zlen [char_newline]) with 1 in Hlt.
  unfold offset in Hp. pose proof (zlen_nonneg (concat (take (bf_currentLine buf) (bf_lines buf)))). lia.
Qed.

Lemma buf_Insert_ok text buf pos ch :
  buf_ok text buf → 0 ≤ pos ≤ zlen text →
  ∃ buf', Insert buf pos ch = Ok buf' ∧ buf_ok (text_insert pos ch text) buf' ∧
    bf_width buf' = bf_width buf ∧
    bf_currentPosition buf' =
      if pos <=? bf_currentPosition buf then bf_currentPosition buf + 1 else bf_currentPosition buf.
Proof.
  intros Hok Hpos. pose proof (buf_ok_position _ _ Hok).
  destruct (edit_insert_ok text buf pos ch (if pos <=? bf_currentPosition buf
    then bf_currentPosition buf + 1 else bf_currentPosition buf) Hok Hpos)
    as (lines' & buf' & Hi & Hr & Hok' & Hw & Hp); [destruct (pos <=? _); lia|].
  exists buf'. split_and!; try done. unfold Insert. rewrite Hi, bind_Ok.
  rewrite <-Hr. simpl. by destruct (pos <=? _).
Qed.

Lemma RemoteInsert_ok text buf pos ch :
  buf_ok text buf → 0 ≤ pos ≤ zlen text →
  ∃ buf', RemoteInsert buf pos ch = Ok buf' ∧ buf_ok (text_insert pos ch text) buf' ∧
    bf_width buf' = bf_width buf ∧
    bf_currentPosition buf' =
      if pos <? bf_currentPosition buf then bf_currentPosition buf + 1 else bf_currentPosition buf.
Proof.
  intros Hok Hpos. pose proof (buf_ok_position _ _ Hok).
  destruct (edit_insert_ok text buf pos ch (if pos <? bf_currentPosition buf
    then bf_currentPosition buf + 1 else bf_currentPosition buf) Hok Hpos)
    as (lines' & buf' & Hi & Hr & Hok' & Hw & Hp); [destruct (pos <? _); lia|].
  exists buf'. split_and!; try done. unfold RemoteInsert. rewrite Hi, bind_Ok.
  rewrite <-Hr. simpl. by destruct (pos <? _).
Qed.

(** A deletion is safe unless it empties a line after a line that ends in the
    middle of a word or with a word. *)
Definition delete_safe (buf : Buffer) (pos : Z) : Prop :=
  ∀ y prev line, bf_lines buf !! y = Some prev → bf_lines buf !! S y = Some line →
    ends_word prev = true → zlen line = 1 → pos ≠ offset (bf_lines buf) (S y).

Lemma resizable_lookup lines :
  (∀ y line, lines !! y = Some line → lines !! S y = Some [] → ends_word line = false) →
  resizable lines.
Proof.
  induction lines as [|l lines IH]; intros H; [done|]. destruct lines as [|l' lines]; [done|].
  split; [intros ->; by apply (H 0%nat)|]. apply IH. intros y line H1 H2. by apply (H (S y)).
Qed.

Lemma resizable_at lines y line :
  resizable lines → lines !! y = Some line → lines !! S y = Some [] → ends_word line = false.
Proof.
  revert lines. induction y as [|y IH]; intros [|l lines] Hr; try done.
  - destruct lines as [|l' lines]; [done|]. cbn. intros [= ->] [= ->]. by apply Hr.
  - apply resizable_tail in Hr. by apply IH.
Qed.

Lemma offset_mono lines y z : (y ≤ z)%nat → offset lines y ≤ offset lines z.
Proof.
  intros H. unfold offset. replace z with (y + (z - y))%nat by lia.
  rewrite <-take_take_drop, concat_app, zlen_app.
  pose proof (zlen_nonneg (concat (take (z - y) (drop y lines)))). lia.
Qed.

(** The line of a position is unique. *)
Lemma offset_unique lines y z line1 line2 x :
  lines !! y = Some line1 → lines !! z = Some line2 →
  offset lines z = offset lines y + x → 0 ≤ x < zlen line1 → zlen line2 > 0 → y = z.
Proof.
  intros H1 H2 He Hx Hz. destruct (Nat.lt_trichotomy y z) as [Hlt|[?|Hlt]]; [|done|].
  - pose proof (offset_mono lines (S y) z Hlt) as H. rewrite (offset_S _ _ _ H1) in H. lia.
  - pose proof (offset_mono lines (S z) y Hlt) as H. rewrite (offset_S _ _ _ H2) in H. lia.
Qed.

Lemma delete_lines_text text buf pos x y line :
  let line' := take (Z.to_nat x) line ++ drop (S (Z.to_nat x)) line in
  let lines' := <[y := line']> (bf_lines buf) in
  lines_ok text buf → 0 ≤ pos < zlen text →
  bf_lines buf !! y = Some line → 0 ≤ x < zlen line → pos = offset (bf_lines buf) y + x →
  concat lines' = text_delete pos text ++ [char_newline] ∧ sentinel lines' ∧ zlen line' = zlen line - 1.
Proof.
  intros line' lines' [_ [Ht Hok Hs] _ _] Hpos Hl Hx He.
  pose proof (lookup_lt_Some _ _ _ Hl) as Hylt.
  assert (concat lines' = text_delete pos text ++ [char_newline]) as Hc.
  { unfold lines'. rewrite (concat_insert _ _ _ _ Hl), <-text_delete_snoc, <-Ht by done.
    rewrite (concat_split _ _ _ Hl). unfold line'.
    destruct (lookup_lt_is_Some_2 line (Z.to_nat x)) as [c Hcx]; [unfold zlen in Hx; lia|].
    rewrite <-(take_drop_middle _ _ _ Hcx) at 3. rewrite <-!app_assoc. simpl.
    rewrite (app_assoc (concat _) (take _ line) (c :: _)). rewrite (text_delete_app c).
    - by rewrite <-!app_assoc.
    - rewrite zlen_app. unfold offset in He. rewrite He. f_equal. unfold zlen in *.
      rewrite length_take. lia. }
  assert (zlen line' = zlen line - 1) as Hlen'.
  { unfold line', zlen in *. rewrite length_app, length_take, length_drop. lia. }
  split_and!; [done| |done]. eapply sentinel_intro; [|exact Hc]. intros l Hl' ->.
  rewrite last_lookup in Hl'. unfold lines' in *. rewrite length_insert in Hl'.
  destruct (decide (y = pred (length (bf_lines buf)))) as [Hy|Hy].
  - assert (line' = []) as Hnil by (rewrite <-Hy, list_lookup_insert_eq in Hl'; [congruence|done]).
    assert (zlen line = 1) as H1 by (rewrite Hnil in Hlen'; change (zlen []) with 0 in Hlen'; lia).
    pose proof (offset_S _ _ _ Hl) as Ho. replace (S y) with (length (bf_lines buf)) in Ho by lia.
    unfold offset at 1 in Ho. rewrite take_ge, Ht, zlen_app in Ho by lia.
    change (zlen [char_newline]) with 1 in Ho. lia.
  - rewrite list_lookup_insert_ne in Hl' by done. pose proof (lines_nonempty _ _ Hok) as Hne.
    by apply (Forall_lookup_1 _ _ _ _ Hne) in Hl'.
Qed.

(** The lines after the deletion, and when they can be laid out again. *)
Lemma delete_lines_safe text buf pos x y line :
  let line' := take (Z.to_nat x) line ++ drop (S (Z.to_nat x)) line in
  let lines' := <[y := line']> (bf_lines buf) in
  lines_ok text buf → zlen line' = zlen line - 1 →
  bf_lines buf !! y = Some line → 0 ≤ x < zlen line → pos = offset (bf_lines buf) y + x →
  delete_safe buf pos ↔ resizable lines'.
Proof.
  intros line' lines' [_ [Ht Hok Hs] _ _] Hlen' Hl Hx He. pose proof (lookup_lt_Some _ _ _ Hl) as Hylt.
  pose proof (lines_nonempty _ _ Hok) as Hne. split.
  - intros Hsafe. apply resizable_lookup. intros z prev Hz1 Hz2. unfold lines' in *.
    destruct (decide (S z = y)) as [<-|Hzy].
    + rewrite list_lookup_insert_ne in Hz1 by lia. rewrite list_lookup_insert_eq in Hz2 by done.
      injection Hz2 as Hz2. destruct (ends_word prev) eqn:Hew; [|done].
      assert (zlen line' = 0) by (by rewrite Hz2). exfalso.
      apply (Hsafe z prev line Hz1 Hl Hew); lia.
    + rewrite list_lookup_insert_ne in Hz2 by lia.
      by apply (Forall_lookup_1 _ _ _ _ Hne) in Hz2.
  - intros Hr z prev one Hz1 Hz2 Hew H1 Hp. assert (y = S z) as ->.
    { by eapply (offset_unique _ _ _ _ _ x Hl Hz2); lia. }
    rewrite Hl in Hz2. injection Hz2 as ->. assert (line' = []) as Hnil by (apply zlen_zero; lia).
    rewrite (resizable_at lines' z prev) in Hew; [done|done| |].
    + unfold lines'. by rewrite list_lookup_insert_ne by lia.
    + unfold lines'. by rewrite list_lookup_insert_eq, Hnil.
Qed.

(** [Delete] up to the layout. *)
Lemma Delete_lines text buf pos :
  lines_ok text buf → 0 ≤ pos < zlen text →
  ∃ lines', let buf1 := set_position (if pos <? bf_currentPosition buf
      then bf_currentPosition buf - 1 else bf_currentPosition buf) (set_lines lines' buf) in
    Delete buf pos = Resize buf1 (bf_width buf) ∧
    concat lines' = text_delete pos text ++ [char_newline] ∧ sentinel lines' ∧
    (delete_safe buf pos ↔ resizable lines').
Proof.
  intros Hlo Hpos. pose proof (bk_layout _ _ Hlo) as [Ht _ _].
  assert (0 ≤ pos < zlen (concat (bf_lines buf))) as Hp.
  { rewrite Ht, zlen_app. change (zlen [char_newline]) with 1. lia. }
  destruct (walk_to_ok pos _ Hp) as (x & y & line & Hw & Hl & Hx & He).
  destruct (delete_lines_text text buf pos x y line Hlo Hpos Hl Hx He) as (Hc & Hs & Hlen).
  pose proof (delete_lines_safe text buf pos x y line Hlo Hlen Hl Hx He) as Hr.
  eexists. split; [|split_and!; [exact Hc|exact Hs|exact Hr]].
  unfold Delete, findPos. rewrite Hw, bind_Ok, bind_Ok, Hl. rewrite require_Some, bind_Ok.
  rewrite !slice_ok by lia. rewrite !bind_Ok.
  replace (Z.to_nat (x - 0)) with (Z.to_nat x) by lia. rewrite drop_0.
  replace (take (Z.to_nat (zlen line - (x + 1))) (drop (Z.to_nat (x + 1)) line))
    with (drop (S (Z.to_nat x)) line).
  2:{ replace (Z.to_nat (x + 1)) with (S (Z.to_nat x)) by lia. rewrite take_ge; [done|].
      rewrite length_drop. unfold zlen. lia. }
  simpl. by destruct (pos <? bf_currentPosition buf).
Qed.

Lemma buf_Delete_ok text buf pos :
  buf_ok text buf → 0 ≤ pos < zlen text → delete_safe buf pos →
  ∃ buf', Delete buf pos = Ok buf' ∧ buf_ok (text_delete pos text) buf' ∧
    bf_width buf' = bf_width buf ∧
    bf_currentPosition buf' =
      if pos <? bf_currentPosition buf then bf_currentPosition buf - 1 else bf_currentPosition buf.
Proof.
  intros Hbuf Hpos Hsafe. pose proof (buf_ok_position _ _ Hbuf) as Hcp. destruct Hbuf as [Hlo _].
  destruct (Delete_lines text buf pos Hlo Hpos) as (lines' & -> & Hc & Hs & Hr%proj1).
  edestruct (Resize_ok (text_delete pos text)) as (buf' & -> & Hok' & Hwd & Hcur & _);
    [by apply Hr|exact Hs|exact Hc|apply Hlo| |by exists buf'].
  simpl. assert (zlen (text_delete pos text) = zlen text - 1) as ->.
  { unfold text_delete, zlen in *. rewrite length_app, length_take, length_drop. lia. }
  case (Z.ltb_spec pos (bf_currentPosition buf)); lia.
Qed.

(** ** Moving the cursor *)

Lemma concat_length_last (lines : list Line) y line :
  lines !! y = Some line → lines !! S y = None → offset lines y + zlen line = zlen (concat lines).
Proof.
  intros H1 H2%lookup_ge_None_1. rewrite <-(offset_S _ _ _ H1). unfold offset.
  by rewrite take_ge by lia.
Qed.

Lemma offset_next_lt (lines : list Line) y line next :
  lines !! y = Some line → lines !! S y = Some next → next ≠ [] →
  offset lines y + zlen line < zlen (concat lines).
Proof.
  intros H1 H2 Hne. rewrite <-(offset_S _ _ _ H1). pose proof (offset_le _ _ _ H2).
  destruct next; [done|]. rewrite zlen_cons in *. pose proof (zlen_nonneg next). lia.
Qed.

Lemma concat_text text buf : lines_ok text buf → zlen (concat (bf_lines buf)) = zlen text + 1.
Proof. intros [_ [Ht _ _] _ _]. by rewrite Ht, zlen_app. Qed.

Lemma line_nonempty text buf y line :
  lines_ok text buf → bf_lines buf !! y = Some line → line ≠ [] ∧ 0 < zlen line.
Proof.
  intros [_ [_ Hok _] _ _] Hl. apply (Forall_lookup_1 _ _ _ _ Hok) in Hl as [Hne _].
  split; [done|]. destruct line; [done|]. rewrite zlen_cons. pose proof (zlen_nonneg line). lia.
Qed.

Lemma lines_ok_cursor text buf y p x c : lines_ok text buf → lines_ok text (set_cursor y p x c buf).
Proof. by intros [? ? ? ?]. Qed.

Lemma MoveLeft_ok text buf slack :
  slack ≤ 1 → lines_ok text buf → cursor_at slack buf →
  ∃ buf', MoveLeft buf = Ok buf' ∧ buf_ok text buf' ∧
    bf_currentPosition buf' = Z.max 0 (bf_currentPosition buf - 1).
Proof.
  intros Hsl Hlo (line & Hl & Hx & Hy & Hp & Hlt). unfold MoveLeft.
  pose proof (zlen_nonneg (concat (take (bf_currentLine buf) (bf_lines buf)))) as Hnn.
  unfold offset in Hp.
  case_eq (bf_currentX buf >? 0); intros Hpos.
  { eexists. split; [reflexivity|]. split; [|simpl; lia].
    split; [by apply lines_ok_cursor|]. exists line. unfold offset. simpl. split_and!; (done || lia). }
  destruct (bf_currentLine buf) as [|prev] eqn:Hcl.
  { change (zlen (concat (take 0 (bf_lines buf)))) with 0 in Hp.
    exists buf. split; [done|]. split; [|lia]. split; [done|]. exists line. unfold offset.
    rewrite Hcl. change (zlen (concat (take 0 (bf_lines buf)))) with 0.
    pose proof (line_nonempty _ _ _ _ Hlo Hl) as [_ ?]. split_and!; (done || lia). }
  destruct (lookup_lt_is_Some_2 (bf_lines buf) prev) as [pl Hpl];
    [apply lookup_lt_Some in Hl; lia|].
  pose proof (line_nonempty _ _ _ _ Hlo Hpl) as [_ Hpz].
  rewrite Hpl, require_Some, bind_Ok. pose proof (offset_S _ _ _ Hpl) as Ho.
  unfold offset in Ho. pose proof (zlen_nonneg (concat (take prev (bf_lines buf)))).
  eexists. split; [reflexivity|]. split; [|simpl; lia].
  split; [by apply lines_ok_cursor|]. exists pl. unfold offset. simpl. split_and!; (done || lia).
Qed.

Lemma MoveRight_ok text buf :
  buf_ok text buf →
  ∃ buf', MoveRight buf = Ok buf' ∧ buf_ok text buf' ∧
    bf_currentPosition buf' = Z.min (zlen text) (bf_currentPosition buf + 1).
Proof.
  intros [Hlo (line & Hl & Hx & Hy & Hp & Hlt)]. unfold MoveRight, current_line.
  rewrite Hl, require_Some, bind_Ok. pose proof (concat_text _ _ Hlo) as Hc.
  pose proof (offset_le _ _ _ Hl) as Hle.
  case (Z.ltb_spec (bf_currentX buf) (zlen line - 1)) as [Hlt'|Hge].
  { eexists. split; [reflexivity|]. split; [|simpl; lia].
    split; [by apply lines_ok_cursor|]. exists line. simpl. split_and!; (done || lia). }
  destruct (bf_lines buf !! S (bf_currentLine buf)) as [next|] eqn:Hn.
  - pose proof (line_nonempty _ _ _ _ Hlo Hn) as [Hne Hnz].
    pose proof (offset_S _ _ _ Hl) as Ho. pose proof (offset_next_lt _ _ _ _ Hl Hn Hne).
    eexists. split; [reflexivity|]. split; [|simpl; lia].
    split; [by apply lines_ok_cursor|]. exists next. simpl. split_and!; (done || lia).
  - pose proof (concat_length_last _ _ _ Hl Hn) as Htot. exists buf. split; [done|].
    split; [|lia]. split; [done|]. exists line. split_and!; (done || lia).
Qed.

(** The column chosen in another line: not to the right of the target, and
    never on or after a newline. *)
Lemma column_at_spec target s x bytes :
  s ≤ target →
  ∃ n, column_at target s x bytes = x + Z.of_nat n ∧ (n ≤ length bytes)%nat ∧
    s + sliceLength (take n bytes) ≤ target ∧
    ∀ l, bytes = l ++ [char_newline] → (n ≤ length l)%nat.
Proof.
  revert s x. induction bytes as [|ch bytes IH]; intros s x Hs; cbn [column_at].
  { exists 0%nat. simpl. split_and!; [lia|lia|unfold sliceLength; simpl; lia|].
    intros l Hl. by destruct l. }
  assert (sliceLength (take 0 (ch :: bytes)) = 0) as H0 by done.
  destruct ((s + charLength ch >? target) || bool_decide (ch = char_newline)) eqn:Hstop.
  { exists 0%nat. rewrite H0. split_and!; [lia|lia|lia|]. intros. lia. }
  apply orb_false_elim in Hstop as [Hgt Hnl%bool_decide_eq_false].
  assert (sliceLength [ch] = charLength ch) as H1 by (unfold sliceLength; simpl; lia).
  assert (∀ l, ch :: bytes = l ++ [char_newline] → ∃ l', l = ch :: l' ∧ bytes = l' ++ [char_newline]) as Hcons.
  { intros [|c l'] Hl; simpl in Hl; [by injection Hl as ? ?|]. injection Hl as -> ->. by exists l'. }
  case (Z.eqb_spec (s + charLength ch) target) as [He|Hne].
  - exists 1%nat. change (take 1 (ch :: bytes)) with [ch]. rewrite H1. split_and!; [lia|simpl; lia|lia|].
    intros l (l' & -> & _)%Hcons. simpl. lia.
  - destruct (IH (s + charLength ch) (x + 1)) as (n & -> & Hn & Hsl & Hnl'); [lia|].
    exists (S n). change (take (S n) (ch :: bytes)) with ([ch] ++ take n bytes).
    rewrite sliceLength_app, H1. split_and!; [lia|simpl; lia|lia|].
    intros l (l' & -> & Hb)%Hcons. specialize (Hnl' l' Hb). simpl. lia.
Qed.

Lemma sentinel_last lines line y :
  sentinel lines → lines !! y = Some line → lines !! S y = None → ∃ l, line = l ++ [char_newline].
Proof.
  intros (L & l & ->) Hl Hn%lookup_ge_None_1. rewrite length_app in Hn. simpl in Hn.
  pose proof (lookup_lt_Some _ _ _ Hl) as Hlt. rewrite length_app in Hlt. simpl in Hlt.
  rewrite lookup_app_r in Hl by lia. replace (y - length L)%nat with 0%nat in Hl by lia.
  injection Hl as <-. by exists l.
Qed.

(** Moving to another line: the cursor is on it, at most as far to the right
    as it was. *)
Lemma cursor_on_line text buf y line target :
  lines_ok text buf → bf_lines buf !! y = Some line → 0 ≤ target →
  let x := column_at target 0 0 line in
  0 ≤ x ∧ sliceLength (take (Z.to_nat x) line) ≤ target ∧
  cursor_at 1 (set_cursor y (offset (bf_lines buf) y + x) x (Z.of_nat y) buf).
Proof.
  intros Hlo Hl Ht x. destruct (column_at_spec target 0 0 line Ht) as (n & Hx & Hn & Hsl & Hnl).
  fold x in Hx. rewrite Hx. rewrite Z.add_0_l. rewrite Nat2Z.id. split_and!; [lia|lia|].
  exists line. simpl. split_and!; try (done || lia); [unfold zlen; lia|].
  destruct (bf_lines buf !! S y) as [next|] eqn:Hnext.
  - pose proof (line_nonempty _ _ _ _ Hlo Hnext) as [Hne _].
    pose proof (offset_next_lt _ _ _ _ Hl Hnext Hne). unfold zlen in *. lia.
  - pose proof (bk_layout _ _ Hlo) as [_ _ Hs].
    destruct (sentinel_last _ _ _ Hs Hl Hnext) as (l & Hll). specialize (Hnl l Hll).
    pose proof (concat_length_last _ _ _ Hl Hnext) as <-. rewrite Hll, zlen_app.
    change (zlen [char_newline]) with 1. unfold zlen. lia.
Qed.

Lemma current_head text buf :
  lines_ok text buf → cursor_at 1 buf →
  ∃ line, bf_lines buf !! bf_currentLine buf = Some line ∧
    slice 0 (bf_currentX buf) line = Ok (take (Z.to_nat (bf_currentX buf)) line).
Proof.
  intros _ (line & Hl & Hx & _). exists line. split; [done|]. rewrite slice_ok by lia.
  by rewrite Z.sub_0_r.
Qed.

(** The width of what precedes the cursor in its line. *)
Definition cursor_column (buf : Buffer) : Z :=
  match bf_lines buf !! bf_currentLine buf with
  | Some line => sliceLength (take (Z.to_nat (bf_currentX buf)) line)
  | None => 0
  end.

Lemma MoveUp_ok text buf :
  lines_ok text buf → cursor_at 1 buf →
  ∃ buf', MoveUp buf = Ok buf' ∧ lines_ok text buf' ∧ cursor_at 1 buf' ∧
    bf_currentY buf' = Z.max 0 (bf_currentY buf - 1) ∧
    cursor_column buf' ≤ cursor_column buf.
Proof.
  intros Hlo Hc. destruct (current_head _ _ Hlo Hc) as (line & Hl & Hhead).
  pose proof Hc as (line' & Hl' & Hx & Hy & Hp & _). simplify_eq. unfold MoveUp.
  destruct (bf_currentLine buf) as [|prev] eqn:Hcl; [exists buf; split_and!; (done || lia)|].
  unfold current_line. rewrite Hcl, Hl, require_Some, bind_Ok, Hhead, bind_Ok.
  destruct (lookup_lt_is_Some_2 (bf_lines buf) prev) as [pl Hpl];
    [apply lookup_lt_Some in Hl; lia|].
  rewrite Hpl, require_Some, bind_Ok. set (target := sliceLength _).
  destruct (cursor_on_line text buf prev pl target Hlo Hpl (sliceLength_nonneg _)) as (Hnn & Hcol & Hca).
  eexists. split; [reflexivity|]. split; [by apply lines_ok_cursor|].
  pose proof (offset_S _ _ _ Hpl) as Ho.
  replace (bf_currentPosition buf - bf_currentX buf - (zlen pl - column_at target 0 0 pl))
    with (offset (bf_lines buf) prev + column_at target 0 0 pl) by lia.
  replace (bf_currentY buf - 1) with (Z.of_nat prev) by lia.
  split; [exact Hca|]. split; [simpl; lia|].
  unfold cursor_column. simpl. by rewrite Hpl, Hcl, Hl.
Qed.

Lemma MoveDown_ok text buf :
  lines_ok text buf → cursor_at 1 buf →
  ∃ buf', MoveDown buf = Ok buf' ∧ lines_ok text buf' ∧ cursor_at 1 buf' ∧
    bf_currentY buf' = Z.min (bf_numberOfLines buf - 1) (bf_currentY buf + 1) ∧
    cursor_column buf' ≤ cursor_column buf.
Proof.
  intros Hlo Hc. destruct (current_head _ _ Hlo Hc) as (line & Hl & Hhead).
  pose proof Hc as (line' & Hl' & Hx & Hy & Hp & _). simplify_eq. unfold MoveDown.
  pose proof (lookup_lt_Some _ _ _ Hl) as Hlt. rewrite (bk_lines _ _ Hlo).
  destruct (bf_lines buf !! S (bf_currentLine buf)) as [next|] eqn:Hn.
  - unfold current_line. rewrite Hl, require_Some, bind_Ok, Hhead, bind_Ok. set (target := sliceLength _).
    destruct (cursor_on_line text buf _ next target Hlo Hn (sliceLength_nonneg _)) as (Hnn & Hcol & Hca).
    eexists. split; [reflexivity|]. split; [by apply lines_ok_cursor|].
    pose proof (offset_S _ _ _ Hl) as Ho. pose proof (lookup_lt_Some _ _ _ Hn).
    replace (bf_currentPosition buf + (zlen line - bf_currentX buf) + column_at target 0 0 next)
      with (offset (bf_lines buf) (S (bf_currentLine buf)) + column_at target 0 0 next) by lia.
    replace (bf_currentY buf + 1) with (Z.of_nat (S (bf_currentLine buf))) by lia.
    split; [exact Hca|]. split; [simpl; unfold zlen; lia|].
    unfold cursor_column. simpl. by rewrite Hn, Hl.
  - apply lookup_ge_None_1 in Hn. exists buf. split_and!; try done. unfold zlen. lia.
Qed.
