(* ===== verification/BufferProps.v ===== *)
(** The properties of the text buffer, and where they fail. *)
From S2P Require Import Prelude BufferOp Buffer BufferWords BufferLayout BufferSpec.

Open Scope Z_scope.

(** Where the cursor is after an edit. *)
Definition cursor_after (op : BufferOperation) (pos : Z) : Z :=
  match bo_Type op with
  | BufferOp.NO_OPERATION => pos
  | BufferOp.INSERT => if bo_Pos op <=? pos then pos + 1 else pos
  | BufferOp.REMOTE_INSERT => if bo_Pos op <? pos then pos + 1 else pos
  | BufferOp.DELETE => if bo_Pos op <? pos then pos - 1 else pos
  end.

Definition op_safe (buf : Buffer) (op : BufferOperation) : Prop :=
  bo_Type op = BufferOp.DELETE → delete_safe buf (bo_Pos op).

Lemma ApplyOperation_ok text buf op :
  buf_ok text buf → edit_in_range op text → op_safe buf op →
  ∃ buf', ApplyOperation buf op = Ok buf' ∧ buf_ok (edit op text) buf' ∧
    bf_width buf' = bf_width buf ∧
    bf_currentPosition buf' = cursor_after op (bf_currentPosition buf).
Proof.
  intros Hok Hr Hs. unfold ApplyOperation, edit, edit_in_range, cursor_after, op_safe in *.
  destruct (bo_Type op).
  - by exists buf.
  - by apply buf_Insert_ok.
  - by apply RemoteInsert_ok.
  - apply buf_Delete_ok; auto.
Qed.

(** C18: Resizing to at least four columns lays the text out afresh: the lines are those of a buffer
    made from the string, whatever the old lines were; no line is empty or
    wider than the window, and the cursor stays on its character. *)
Theorem Resize_relayout text buf width :
  buf_ok text buf → 4 ≤ width →
  ∃ buf' fresh, Resize buf width = Ok buf' ∧ StringToBuffer text width = Ok fresh ∧
    bf_lines buf' = bf_lines fresh ∧ bf_numberOfLines buf' = bf_numberOfLines fresh ∧
    bf_numberOfChars buf' = zlen text ∧ bf_currentPosition buf' = bf_currentPosition buf ∧
    ToString buf' = Ok text ∧ Forall (line_ok width) (bf_lines buf').
Proof.
  intros Hok Hw. destruct (Resize_buf_ok text buf width Hok Hw) as (buf' & Hr & Hok' & Hwd & Hp & Hl).
  destruct (StringToBuffer_ok text width Hw) as (fresh & Hs & _ & _ & _ & Hf).
  exists buf', fresh. rewrite Hl in Hf. injection Hf as H1 H2 H3.
  pose proof (bk_layout _ _ (proj1 Hok')) as [_ Hlines _]. rewrite Hwd in Hlines.
  split_and!; try done; [apply Hok'|]. eapply ToString_ok, Hok'.
Qed.

(** Making a buffer from a string terminates and loses nothing: the
    characters and the lines are counted right, and every line fits. *)
Theorem StringToBuffer_layout str width :
  4 ≤ width →
  ∃ buf, StringToBuffer str width = Ok buf ∧ ToString buf = Ok str ∧
    GetSize buf = zlen str ∧ bf_numberOfLines buf = NumberOfLines (Lines buf) ∧
    concat (Lines buf) = str ++ [char_newline] ∧
    Forall (λ line, line ≠ [] ∧ sliceLength line ≤ width) (Lines buf).
Proof.
  intros Hw. destruct (StringToBuffer_ok str width Hw) as (buf & Hs & [Hlo _] & Hwd & _).
  exists buf. pose proof (bk_layout _ _ Hlo) as [Ht Hl _]. rewrite Hwd in Hl.
  split_and!; try done; [by eapply ToString_ok|apply Hlo|apply Hlo].
Qed.

(** The cursor keys. Left and right move by one character and stop at the
    ends of the text; up and down move by one line, stop at the ends, and do
    not move the cursor to the right. *)
Theorem cursor_moves text buf :
  buf_ok text buf →
  (∃ b, MoveLeft buf = Ok b ∧ buf_ok text b ∧
     bf_currentPosition b = Z.max 0 (bf_currentPosition buf - 1)) ∧
  (∃ b, MoveRight buf = Ok b ∧ buf_ok text b ∧
     bf_currentPosition b = Z.min (zlen text) (bf_currentPosition buf + 1)) ∧
  (∃ b, MoveUp buf = Ok b ∧ lines_ok text b ∧ cursor_at 1 b ∧
     bf_currentY b = Z.max 0 (bf_currentY buf - 1) ∧ cursor_column b ≤ cursor_column buf) ∧
  (∃ b, MoveDown buf = Ok b ∧ lines_ok text b ∧ cursor_at 1 b ∧
     bf_currentY b = Z.min (bf_numberOfLines buf - 1) (bf_currentY buf + 1) ∧
     cursor_column b ≤ cursor_column buf).
Proof.
  intros Hok. pose proof Hok as [Hlo Hc].
  assert (cursor_at 1 buf) as Hc1.
  { destruct Hc as (line & ? & ? & ?). exists line. split_and!; (done || lia || tauto). }
  split_and!.
  - apply (MoveLeft_ok text buf 0); (done || lia).
  - by apply MoveRight_ok.
  - by apply MoveUp_ok.
  - by apply MoveDown_ok.
Qed.

(** ** What the screen shows *)

Lemma walk_back_ok n line : (n ≤ line)%nat → walk_back n (Some line) = Ok (Some (line - n)%nat).
Proof.
  revert line. induction n as [|n IH]; intros line Hn; cbn [walk_back].
  - by rewrite Nat.sub_0_r.
  - rewrite require_Some, bind_Ok. destruct line as [|prev]; [lia|]. apply IH. lia.
Qed.

Lemma sliceLength_take n line : sliceLength (take n line) ≤ sliceLength line.
Proof.
  rewrite <-(take_drop n line) at 2. rewrite sliceLength_app.
  pose proof (sliceLength_nonneg (drop n line)). lia.
Qed.

(** The window follows the cursor: the line the screen starts with exists,
    is at the returned scroll position, and the cursor is inside the window. *)
Theorem GetDisplayInformation_visible text buf screenY height :
  buf_ok text buf → 0 ≤ screenY → 1 ≤ height →
  ∃ top x y first, GetDisplayInformation buf screenY height = Ok (top, x, y, Some first) ∧
    top = Z.of_nat first ∧ 0 ≤ y < height ∧ top + y = bf_currentY buf ∧ 0 ≤ x ≤ bf_width buf.
Proof.
  intros [Hlo (line & Hl & Hx & Hy & _)] Hs Hh. unfold GetDisplayInformation, current_line.
  rewrite Hl, require_Some, bind_Ok, slice_ok, bind_Ok by lia. rewrite Z.sub_0_r, drop_0.
  set (top := if bf_currentY buf <? screenY then _ else _).
  assert (0 ≤ top ≤ bf_currentY buf ∧ bf_currentY buf < top + height) as Htop.
  { unfold top. case (Z.ltb_spec (bf_currentY buf) screenY); [lia|intros].
    destruct (bf_currentY buf >=? screenY + height) eqn:He; lia. }
  rewrite walk_back_ok, bind_Ok by lia. eexists top, _, _, _. split; [reflexivity|].
  split_and!; try lia; [apply sliceLength_nonneg|].
  pose proof (bk_layout _ _ Hlo) as [_ Hok _].
  apply (Forall_lookup_1 _ _ _ _ Hok) in Hl as [_ Hw].
  pose proof (sliceLength_take (Z.to_nat (bf_currentX buf)) line). lia.
Qed.

(** ** Failures *)

(** A position past the end of the text is not checked: the walk to it
    ends in a nil pointer. *)
Theorem Buffer_position_errors text buf pos ch :
  buf_ok text buf → zlen text < pos →
  Insert buf pos ch = Panic NilPointer ∧ RemoteInsert buf pos ch = Panic NilPointer ∧
  Delete buf pos = Panic NilPointer ∧ SetPosition buf pos = Panic NilPointer.
Proof.
  intros [Hlo _] Hpos. pose proof (concat_text _ _ Hlo) as Hc.
  assert (walk_to pos 0 0 (bf_lines buf) = Panic NilPointer) as Hw by (apply walk_to_end; lia).
  unfold Insert, RemoteInsert, Delete, SetPosition, insert_byte, findPos. by rewrite Hw.
Qed.

(** [hello world] in a window of width 5. *)
Definition hello_world : list byte :=
  [x68; x65; x6c; x6c; x6f; x20; x77; x6f; x72; x6c; x64].

(** Deleting the only character of a line that follows a word panics: the
    space of [hello world] is alone on its line when the window has width 5,
    and [LineSequence.NextWord] looks at the first byte of the emptied line. *)
Theorem Delete_panics_on_emptied_line :
  ∃ buf, StringToBuffer hello_world 5 = Ok buf ∧
    bf_lines buf = [take 5 hello_world; [char_space]; drop 6 hello_world ++ [char_newline]] ∧
    0 ≤ 5 < GetSize buf ∧ Delete buf 5 = Panic IndexOutOfRange.
Proof.
  assert (match StringToBuffer hello_world 5 with
    | Ok buf =>
        bool_decide (bf_lines buf =
          [take 5 hello_world; [char_space]; drop 6 hello_world ++ [char_newline]]) &&
        (5 <? GetSize buf) && match Delete buf 5 with Panic IndexOutOfRange => true | _ => false end
    | _ => false
    end = true) as H by (vm_compute; reflexivity).
  destruct (StringToBuffer hello_world 5) as [buf|?|]; [|done..]. exists buf.
  apply andb_true_iff in H as [[H1%bool_decide_eq_true H2]%andb_true_iff H3].
  split; [done|]. split; [done|]. split; [lia|]. by destruct (Delete buf 5) as [|[]|].
Qed.

(** After moving up onto the end of a wrapped line the cursor is past the
    line's last character, and moving right then counts that place twice: the
    position is one more than the characters before the cursor. *)
Theorem MoveRight_drifts :
  ∃ b0 b1 b2 b3, StringToBuffer (replicate 10 x61) 5 = Ok b0 ∧ SetPosition b0 10 = Ok b1 ∧
    MoveUp b1 = Ok b2 ∧ MoveRight b2 = Ok b3 ∧
    bf_currentLine b3 = 1%nat ∧ bf_currentX b3 = 0 ∧ offset (bf_lines b3) 1 = 5 ∧
    bf_currentPosition b3 ≠ offset (bf_lines b3) (bf_currentLine b3) + bf_currentX b3.
Proof.
  assert (match StringToBuffer (replicate 10 x61) 5 ≫= λ b0, SetPosition b0 10 with
    | Ok b1 =>
        match MoveUp b1 with
        | Ok b2 =>
            match MoveRight b2 with
            | Ok b3 => bool_decide (bf_currentLine b3 = 1%nat) && (bf_currentX b3 =? 0) &&
                (offset (bf_lines b3) 1 =? 5) &&
                negb (bf_currentPosition b3 =?
                      offset (bf_lines b3) (bf_currentLine b3) + bf_currentX b3)
            | _ => false
            end
        | _ => false
        end
    | _ => false
    end = true) as H by (vm_compute; reflexivity).
  destruct (StringToBuffer (replicate 10 x61) 5) as [b0|?|]; [|done..]. exists b0.
  rewrite bind_Ok in H. destruct (SetPosition b0 10) as [b1|?|]; [|done..]. exists b1.
  destruct (MoveUp b1) as [b2|?|] eqn:E2; [|done..]. exists b2.
  destruct (MoveRight b2) as [b3|?|] eqn:E3; [|done..]. exists b3.
  repeat (apply andb_true_iff in H as [H ?]). apply bool_decide_eq_true in H.
  split_and!; try done; lia.
Qed.

(** In a window of width 0 the loop that cuts a long word makes no
    progress: no number of turns is enough. *)
Theorem split_word_diverges fuel word wordLen k st :
  0 ≤ k < wordLen → wordLen ≤ zlen word → split_word fuel 0 word wordLen k st = OutOfFuel.
Proof.
  intros Hk Hw. revert st. induction fuel as [|fuel IH]; intros st; cbn [split_word];
    rewrite (proj2 (Z.ltb_lt _ _)) by lia; [done|].
  change (make_bytes (0 + 2)) with (@Ok (list byte) []). rewrite bind_Ok.
  rewrite (proj2 (Z.ltb_ge _ _)) by lia. rewrite Z.add_0_r.
  rewrite slice_ok, bind_Ok by lia. apply IH.
Qed.

(** ** Concrete buffers *)

Definition sample_buffer : Buffer :=
  match StringToBuffer hello_world 8 with
  | Ok buf => match SetPosition buf 6 with Ok buf => buf | _ => buf end
  | _ => mkBuffer 0 0 0 [] 0 0 0 0
  end.

Lemma sample_buffer_ok : buf_ok hello_world sample_buffer.
Proof.
  unfold sample_buffer. destruct (StringToBuffer_ok hello_world 8) as (buf & -> & Hok & Hw & _); [lia|].
  destruct (SetPosition_ok hello_world buf 6) as (y & x & -> & Hc);
    [rewrite Hw; destruct Hok as [Hlo _]; pose proof (bk_layout _ _ Hlo) as Hl; by rewrite Hw in Hl
    |vm_compute; split; congruence|].
  split; [apply lines_ok_cursor, Hok|exact Hc].
Qed.

Lemma Resize_relayout_witness :
  ∃ buf' fresh, Resize sample_buffer 4 = Ok buf' ∧ StringToBuffer hello_world 4 = Ok fresh ∧
    bf_lines buf' = bf_lines fresh ∧ bf_numberOfLines buf' = bf_numberOfLines fresh ∧
    bf_numberOfChars buf' = zlen hello_world ∧
    bf_currentPosition buf' = bf_currentPosition sample_buffer ∧
    ToString buf' = Ok hello_world ∧ Forall (line_ok 4) (bf_lines buf').
Proof. apply (Resize_relayout hello_world sample_buffer 4 sample_buffer_ok). lia. Defined.

Lemma StringToBuffer_layout_witness :
  ∃ buf, StringToBuffer hello_world 5 = Ok buf ∧ ToString buf = Ok hello_world ∧
    GetSize buf = zlen hello_world ∧ bf_numberOfLines buf = NumberOfLines (Lines buf) ∧
    concat (Lines buf) = hello_world ++ [char_newline] ∧
    Forall (λ line, line ≠ [] ∧ sliceLength line ≤ 5) (Lines buf).
Proof. apply (StringToBuffer_layout hello_world 5). lia. Defined.

Lemma cursor_moves_witness :
  (∃ b, MoveLeft sample_buffer = Ok b ∧ buf_ok hello_world b ∧
     bf_currentPosition b = Z.max 0 (bf_currentPosition sample_buffer - 1)) ∧
  (∃ b, MoveRight sample_buffer = Ok b ∧ buf_ok hello_world b ∧
     bf_currentPosition b = Z.min (zlen hello_world) (bf_currentPosition sample_buffer + 1)) ∧
  (∃ b, MoveUp sample_buffer = Ok b ∧ lines_ok hello_world b ∧ cursor_at 1 b ∧
     bf_currentY b = Z.max 0 (bf_currentY sample_buffer - 1) ∧
     cursor_column b ≤ cursor_column sample_buffer) ∧
  (∃ b, MoveDown sample_buffer = Ok b ∧ lines_ok hello_world b ∧ cursor_at 1 b ∧
     bf_currentY b = Z.min (bf_numberOfLines sample_buffer - 1) (bf_currentY sample_buffer + 1) ∧
     cursor_column b ≤ cursor_column sample_buffer).
Proof. exact (cursor_moves hello_world sample_buffer sample_buffer_ok). Defined.

Lemma GetDisplayInformation_visible_witness :
  ∃ top x y first, GetDisplayInformation sample_buffer 0 1 = Ok (top, x, y, Some first) ∧
    top = Z.of_nat first ∧ 0 ≤ y < 1 ∧ top + y = bf_currentY sample_buffer ∧
    0 ≤ x ≤ bf_width sample_buffer.
Proof.
  apply (GetDisplayInformation_visible hello_world sample_buffer 0 1 sample_buffer_ok); lia.
Defined.

Lemma Buffer_position_errors_witness :
  Insert sample_buffer 12 x61 = Panic NilPointer ∧ RemoteInsert sample_buffer 12 x61 = Panic NilPointer ∧
  Delete sample_buffer 12 = Panic NilPointer ∧ SetPosition sample_buffer 12 = Panic NilPointer.
Proof.
  apply (Buffer_position_errors hello_world sample_buffer 12 x61 sample_buffer_ok). reflexivity.
Defined.

Lemma split_word_diverges_witness :
  split_word 100 0 [x61] 1 0 (mkLayout [] [] 0 1 1) = OutOfFuel.
Proof.
  apply (split_word_diverges 100 [x61] 1 0 (mkLayout [] [] 0 1 1)); vm_compute; (split; congruence) || congruence.
Defined.
