(* ===== verification/BufferPartial.v ===== *)
(** The text buffer whatever the cursor is: an operation that returns has done
    to the text what it means, and a deletion returns only when it is safe. *)
From S2P Require Import Prelude BufferOp Buffer BufferWords BufferLayout BufferSpec BufferProps.

Open Scope Z_scope.

Lemma scan_word_le e rest : (scan_word e rest ≤ e + length rest)%nat.
Proof. revert e. induction rest as [|ch rest IH]; intros e; simpl; [lia|]. case_match; [lia|]. specialize (IH (S e)). lia. Qed.

(** A position before the start is at a negative column of the first line. *)
Lemma walk_to_start pos acc y lines x y' :
  walk_to pos acc y lines = Ok (x, y') → 0 ≤ acc → 0 ≤ x → 0 ≤ pos.
Proof.
  revert acc y. induction lines as [|line lines IH]; intros acc y; [done|].
  cbn [walk_to]. destruct (acc + zlen line >? pos); [intros [= <- <-]; lia|].
  intros H Ha Hx. eapply IH; [exact H| |done]. pose proof (zlen_nonneg line). lia.
Qed.

(** ** A sequence of lines that is read to its end *)

(** The lines from the position of the sequence on; the line it has used up
    does not count. *)
Definition ahead (lines : list Line) (x : nat) : list Line :=
  match lines with
  | line :: next => if decide (x = length line) then next else lines
  | [] => []
  end.

Lemma resizable_cons line next :
  resizable next → (∀ next', next = [] :: next' → ends_word line = false) → resizable (line :: next).
Proof. intros H1 H2. destruct next as [|line' next]; [done|]. split; [|done]. intros ->. by eapply H2. Qed.

Lemma resizable_nil next : resizable next → resizable ([] :: next).
Proof. intros H. by apply resizable_cons. Qed.

Lemma skip_ended_back lines x lines' x' :
  skip_ended lines x = (lines', x') → resizable (ahead lines' x') → resizable (ahead lines x).
Proof.
  revert x. induction lines as [|line next IH]; intros x; cbn [skip_ended ahead].
  { intros [= <- <-]. done. }
  case_decide as Hx; [|intros [= <- <-]; cbn [ahead]; by rewrite decide_False].
  intros Hs H. specialize (IH 0%nat Hs H). destruct next as [|line' next]; [done|].
  cbn [ahead] in IH. case_decide as H0; [|done].
  symmetry in H0. apply length_zero_iff_nil in H0 as ->. by apply resizable_nil.
Qed.

Lemma extend_word_back chs line end_ next w lines' x' :
  extend_word chs line end_ next = Ok (w, lines', x') → end_ = length line →
  resizable (ahead lines' x') → resizable (line :: next).
Proof.
  revert chs line end_. induction next as [|line' next IH]; intros chs line end_; [done|].
  cbn [extend_word]. intros H He Hr. apply bind_Ok_inv in H as (ch & Hch & H).
  apply require_Ok_inv in Hch. apply resizable_cons; [|by intros ? [= -> _]].
  destruct (is_separator ch).
  { injection H as _ <- <-. cbn [ahead] in Hr. by rewrite decide_True in Hr. }
  case_decide as Hend.
  - injection H as _ <- <-. cbn [ahead] in Hr. by rewrite decide_False in Hr.
  - eapply IH; [exact H| |exact Hr]. destruct (decide (scan_word 1 (drop 1 line') = length line')); tauto.
Qed.

Lemma NextWord_back lines x w lines' x' :
  NextWord (mkLineSequence lines x) = Ok (Some w, mkLineSequence lines' x') →
  resizable (ahead lines' x') → resizable (ahead lines x).
Proof.
  unfold NextWord, LineSequence_NextWord. cbn [ls_lines ls_currentX].
  destruct (skip_ended lines x) as [lines1 x1] eqn:Hskip.
  intros H Hr. eapply skip_ended_back; [exact Hskip|]. clear Hskip.
  destruct lines1 as [|line next]; [done|].
    destruct (bool_decide (next = []) && _); [done|].
  apply bind_Ok_inv in H as (ch & Hch & H). apply require_Ok_inv in Hch.
  pose proof (lookup_lt_Some _ _ _ Hch) as Hlt. cbn [ahead]. rewrite decide_False by lia.
  destruct (is_separator ch) eqn:Hsep.
  { injection H as _ <- <-. cbn [ahead] in Hr. case_decide as Hx; [|done].
    apply resizable_cons; [done|]. intros _ _. unfold ends_word.
    rewrite last_lookup. replace (pred (length line)) with x1 by lia. by rewrite Hch, Hsep. }
  case_decide as Hend.
  - injection H as _ <- <-. cbn [ahead] in Hr. by rewrite decide_False in Hr by lia.
  - apply bind_Ok_inv in H as ([[chs lines2] x2] & He & H). injection H as _ <- <-.
    eapply extend_word_back; [exact He| |exact Hr].
    pose proof (scan_word_le (S x1) (drop (S x1) line)) as Hle. rewrite length_drop in Hle. lia.
Qed.

Lemma SeqToLines_loop_back fuel lines x width st st' :
  SeqToLines_loop fuel (mkLineSequence lines x) width st = Ok st' → resizable (ahead lines x).
Proof.
  revert lines x st. induction fuel as [|fuel IH]; intros lines x st; [done|].
  cbn [SeqToLines_loop]. intros H. apply bind_Ok_inv in H as ([word [lines' x']] & Hn & H).
  destruct word as [word|].
  - apply bind_Ok_inv in H as (st1 & _ & H). eapply NextWord_back; [exact Hn|]. by eapply IH.
  - clear H. revert Hn. unfold NextWord, LineSequence_NextWord. cbn [ls_lines ls_currentX].
    destruct (skip_ended lines x) as [lines1 x1] eqn:Hskip. intros Hn.
    eapply skip_ended_back; [exact Hskip|]. destruct lines1 as [|line next]; [done|].
    destruct (bool_decide (next = []) && _) eqn:Hlast.
    + apply andb_prop in Hlast as [->%bool_decide_eq_true _]. cbn [ahead]. by case_decide.
    + exfalso. apply bind_Ok_inv in Hn as (ch & _ & Hn). destruct (is_separator ch); [done|].
      case_decide; [done|]. apply bind_Ok_inv in Hn as ([[chs ?] ?] & _ & Hn). done.
Qed.

Lemma SeqToLines_back fuel lines width r :
  SeqToLines fuel (NewLineSequence lines) width = Ok r → resizable lines.
Proof.
  unfold SeqToLines, NewLineSequence. intros H. apply bind_Ok_inv in H as (line & _ & H).
  apply bind_Ok_inv in H as (st & H & _). apply SeqToLines_loop_back in H.
  destruct lines as [|l lines]; [done|]. cbn [ahead] in H. case_decide as H0; [|done].
  symmetry in H0. apply length_zero_iff_nil in H0 as ->. by apply resizable_nil.
Qed.

(** ** The operations, when they return *)

Lemma Resize_back text buf width buf' :
  Resize buf width = Ok buf' → sentinel (bf_lines buf) →
  concat (bf_lines buf) = text ++ [char_newline] → 4 ≤ width →
  resizable (bf_lines buf) ∧ lines_ok text buf' ∧ bf_width buf' = width.
Proof.
  unfold Resize. intros H Hs Ht Hw. apply bind_Ok_inv in H as ([[lines nl] nc] & Hl & H).
  pose proof (SeqToLines_back _ _ _ _ Hl) as Hr.
  rewrite (SeqToLines_layout _ _ text) in Hl by eauto using LineSequence_produces, total_length_words.
  destruct (layout_correct width text Hw) as (lines' & Hl' & Hspec).
  rewrite Hl' in Hl. injection Hl as <- <- <-.
  apply bind_Ok_inv in H as (buf1 & Hp & H). unfold SetPosition in Hp.
  apply bind_Ok_inv in Hp as ([x y] & _ & Hp). injection Hp as <-. injection H as <-. simpl. done.
Qed.

Lemma insert_byte_back text buf pos ch buf1 :
  lines_ok text buf → insert_byte buf pos ch = Ok buf1 →
  0 ≤ pos ≤ zlen text ∧ ∃ lines', buf1 = set_lines lines' buf ∧
    concat lines' = text_insert pos ch text ++ [char_newline] ∧ sentinel lines'.
Proof.
  intros Hlo H. assert (0 ≤ pos ≤ zlen text) as Hpos.
  { unfold insert_byte, findPos in H. apply bind_Ok_inv in H as ([[[p x] yy] y] & Hf & H).
    apply bind_Ok_inv in Hf as ([x' y'] & Hw & Hf). injection Hf as <- <- <- <-.
    apply bind_Ok_inv in H as (line & _ & H). destruct (Z.ltb_spec x' 0) as [|Hx]; [done|].
    pose proof (bk_layout _ _ Hlo) as [Ht _ _]. split.
    - pose proof (walk_to_start _ _ _ _ _ _ Hw). lia.
    - destruct (decide (pos ≤ zlen text)) as [|Hgt]; [done|].
      rewrite walk_to_end in Hw; [done|]. rewrite Ht, zlen_app. change (zlen [char_newline]) with 1. lia. }
  split; [done|]. destruct (insert_byte_ok text buf pos ch Hlo Hpos) as (lines' & Hi & Hc & _ & Hs).
  rewrite Hi in H. injection H as <-. by exists lines'.
Qed.

Lemma Insert_back text buf pos ch buf' :
  lines_ok text buf → Insert buf pos ch = Ok buf' ∨ RemoteInsert buf pos ch = Ok buf' →
  0 ≤ pos ≤ zlen text ∧ lines_ok (text_insert pos ch text) buf' ∧ bf_width buf' = bf_width buf.
Proof.
  intros Hlo [H|H]; apply bind_Ok_inv in H as (buf1 & Hi & H);
    destruct (insert_byte_back _ _ _ _ _ Hlo Hi) as (Hpos & lines' & -> & Hc & Hs); (split; [done|]);
    eapply (Resize_back (text_insert pos ch text)) in H as (_ & ? & ?); case_match; try done; apply Hlo.
Qed.

Lemma Delete_nonneg buf pos buf' : Delete buf pos = Ok buf' → 0 ≤ pos.
Proof.
  intros H. unfold Delete, findPos in H. apply bind_Ok_inv in H as ([[[p x] yy] y] & Hf & H).
  apply bind_Ok_inv in Hf as ([x' y'] & Hw & Hf). injection Hf as <- <- <- <-.
  apply bind_Ok_inv in H as (line & _ & H). apply bind_Ok_inv in H as (before & Hb & _).
  unfold slice in Hb. destruct (_ && _) eqn:E; [|done]. apply andb_prop in E as [[_ E]%andb_prop _].
  apply (walk_to_start _ _ _ _ _ _ Hw); lia.
Qed.

Lemma Delete_back text buf pos buf' :
  lines_ok text buf → 0 ≤ pos < zlen text → Delete buf pos = Ok buf' →
  delete_safe buf pos ∧ lines_ok (text_delete pos text) buf' ∧ bf_width buf' = bf_width buf.
Proof.
  intros Hlo Hpos H. destruct (Delete_lines text buf pos Hlo Hpos) as (lines' & Hd & Hc & Hs & Hr).
  rewrite Hd in H. eapply (Resize_back (text_delete pos text)) in H as (? & ? & ?); simpl; try done; [|apply Hlo].
  split_and!; [by apply Hr|done..].
Qed.

Lemma ApplyOperation_back text buf op buf' :
  lines_ok text buf → edit_in_range op text → ApplyOperation buf op = Ok buf' →
  lines_ok (edit op text) buf' ∧ bf_width buf' = bf_width buf.
Proof.
  intros Hlo Hr H. unfold ApplyOperation, edit, edit_in_range in *. destruct (bo_Type op).
  - injection H as <-. done.
  - by destruct (Insert_back text _ _ _ _ Hlo (or_introl H)).
  - by destruct (Insert_back text _ _ _ _ Hlo (or_intror H)).
  - by destruct (Delete_back text _ _ _ Hlo Hr H).
Qed.

(** The cursor keys do not touch the lines. *)
Lemma moves_back text buf buf' :
  lines_ok text buf →
  MoveLeft buf = Ok buf' ∨ MoveRight buf = Ok buf' ∨ MoveUp buf = Ok buf' ∨ MoveDown buf = Ok buf' →
  lines_ok text buf'.
Proof.
  intros Hlo H.
  assert (buf' = buf ∨ ∃ l p x y, buf' = set_cursor l p x y buf) as [->|(l & p & x & y & ->)];
    [|done|by destruct Hlo; split].
  unfold MoveLeft, MoveRight, MoveUp, MoveDown in H.
  destruct H as [H|[H|[H|H]]]; repeat (case_match; try discriminate);
    repeat match goal with
    | E : (_ ≫= _) = Ok _ |- _ => apply bind_Ok_inv in E as (? & _ & E)
    end; repeat (case_match; try discriminate); injection H as <-; eauto 10.
Qed.

Lemma Resize_width_back text buf width buf' :
  lines_ok text buf → 4 ≤ width → Resize buf width = Ok buf' → lines_ok text buf'.
Proof. intros [_ [Ht _ Hs] _ _] Hw H. by eapply Resize_back in H as (_ & ? & _). Qed.

(** C17: A buffer operation at a position of the text returns exactly when it
    does not delete the only character of a line that follows a line that ends
    with a word (it panics then). When it returns it does to the buffer's string
    what it means, and moves the cursor so that it stays with the text around
    it; a local insertion pushes the cursor along, a remote one at the cursor
    does not. *)
Theorem Buffer_ApplyOperation_edits text buf op :
  buf_ok text buf → edit_in_range op text →
  (op_safe buf op ↔ ∃ buf', ApplyOperation buf op = Ok buf') ∧
  ∀ buf', ApplyOperation buf op = Ok buf' → buf_ok (edit op text) buf' ∧
    ToString buf = Ok text ∧ ToString buf' = Ok (edit op text) ∧
    bf_currentPosition buf' = cursor_after op (bf_currentPosition buf).
Proof.
  intros Hok Hr.
  assert (∀ buf', ApplyOperation buf op = Ok buf' → op_safe buf op) as Hback.
  { intros buf' H Hty. unfold ApplyOperation, edit_in_range in *. rewrite Hty in *.
    by apply (Delete_back text) in H as (? & _); [|apply Hok|]. }
  split.
  - split; [|by intros [buf' ?%Hback]]. intros Hs.
    destruct (ApplyOperation_ok text buf op Hok Hr Hs) as (buf' & H & _). by exists buf'.
  - intros buf' H. destruct (ApplyOperation_ok text buf op Hok Hr (Hback _ H)) as (b & H1 & Hok' & _ & Hp).
    rewrite H in H1. injection H1 as <-. split_and!; try done; eapply ToString_ok; [apply Hok|apply Hok'].
Qed.

Lemma Buffer_ApplyOperation_edits_witness :
  ∃ buf', ApplyOperation sample_buffer (mkBufferOperation BufferOp.DELETE 2 x00) = Ok buf' ∧
    ToString buf' = Ok (edit (mkBufferOperation BufferOp.DELETE 2 x00) hello_world).
Proof.
  destruct (Buffer_ApplyOperation_edits hello_world sample_buffer
    (mkBufferOperation BufferOp.DELETE 2 x00) sample_buffer_ok) as [Hiff Hedit].
  - vm_compute. split; congruence.
  - destruct (proj1 Hiff) as [buf' H].
    + intros _ y prev line Hp Hl _ H1. assert (y = 0%nat) as ->.
      { apply lookup_lt_Some in Hl. change (length (bf_lines sample_buffer)) with 2%nat in Hl. lia. }
      assert (line = drop 6 hello_world ++ [char_newline]) as ->
        by (vm_compute in Hl; injection Hl as <-; reflexivity).
      discriminate H1.
    + exists buf'. split; [exact H|]. exact (proj1 (proj2 (proj2 (Hedit buf' H)))).
Defined.

(** C37: a deletion at a position of the text returns exactly when it does not
    empty a line that follows a word, and then it deletes what it should,
    wherever the cursor is. *)
Theorem Delete_returns_iff_safe text buf pos :
  buf_ok text buf → 0 ≤ pos < zlen text →
  (delete_safe buf pos ↔ ∃ buf', Delete buf pos = Ok buf') ∧
  ∀ buf', Delete buf pos = Ok buf' → ToString buf' = Ok (text_delete pos text).
Proof.
  intros Hok Hpos. split; [split|].
  - intros Hs. destruct (buf_Delete_ok text buf pos Hok Hpos Hs) as (buf' & ? & _). eauto.
  - intros [buf' H]. by apply (Delete_back text) in H as (? & _ & _); [|apply Hok|].
  - intros buf' H. apply (Delete_back text) in H as (_ & ? & _); [|apply Hok|done].
    by apply ToString_ok.
Qed.

Lemma Delete_returns_iff_safe_witness :
  (delete_safe sample_buffer 2 ↔ ∃ buf', Delete sample_buffer 2 = Ok buf') ∧
  ∀ buf', Delete sample_buffer 2 = Ok buf' → ToString buf' = Ok (text_delete 2 hello_world).
Proof.
  apply (Delete_returns_iff_safe hello_world sample_buffer 2 sample_buffer_ok).
  vm_compute. split; congruence.
Defined.
