(* ===== verification/Prompt.v ===== *)
(** The prompt below the text: its input and its lines on the screen
    (CPSC418/project/buffer/prompt.go). *)
From S2P Require Import Prelude BufferOp Buffer BufferWords BufferLayout.

Open Scope Z_scope.

Record Prompt : Type := mkPrompt { pr_text : list byte; pr_input : list byte }.

Definition NewPrompt (str : list byte) : Prompt := mkPrompt str [].

Definition Prompt_Insert (prompt : Prompt) (ch : byte) : Prompt :=
  mkPrompt (pr_text prompt) (pr_input prompt ++ [ch]).

Definition Prompt_Delete (prompt : Prompt) : Prompt :=
  if zlen (pr_input prompt) >? 0
  then mkPrompt (pr_text prompt) (take (length (pr_input prompt) - 1) (pr_input prompt))
  else prompt.

Definition Prompt_ToString (prompt : Prompt) : list byte := pr_input prompt.

(** The inner loops: how many bytes go on a line. Only the loop over the text
    stops after a newline. *)
Fixpoint take_line (newlines : bool) (width lineWidth : Z) (rest : list byte) : nat :=
  match rest with
  | [] => 0
  | ch :: rest =>
      if newlines && bool_decide (ch = char_newline) then 1
      else if lineWidth + charLength ch >? width then 0
      else S (take_line newlines width (lineWidth + charLength ch) rest)
  end.

(** The outer loops, over what is left. *)
Fixpoint prompt_lines (fuel : nat) (newlines : bool) (width : Z) (rest : list byte)
    : res (list Line) :=
  match rest with
  | [] => Ok []
  | _ =>
      match fuel with
      | O => OutOfFuel
      | S fuel =>
          let i := take_line newlines width 0 rest in
          lines ← prompt_lines fuel newlines width (drop i rest);
          Ok (take i rest :: lines)
      end
  end.

(** The lines always end with one of the input, so the last branch of the
    code, without lines, is never taken. *)
Definition Prompt_GetDisplayInformation (prompt : Prompt) (width height : Z)
    : res (Z * Z * list Line) :=
  textLines ← prompt_lines (length (pr_text prompt)) true width (pr_text prompt);
  inputLines ← prompt_lines (length (pr_input prompt)) false width (pr_input prompt);
  inputLines ←
    match inputLines with
    | [] => line ← make_bytes (width + 1); Ok [line]
    | _ => Ok inputLines
    end;
  let lines := textLines ++ inputLines in
  line ← require NilPointer (last lines);
  Ok (sliceLength line, zlen textLines + zlen inputLines - 1, lines).

Lemma take_line_ok newlines width lw rest :
  lw ≤ width →
  (take_line newlines width lw rest ≤ length rest)%nat ∧
  lw + sliceLength (take (take_line newlines width lw rest) rest) ≤ width ∧
  (lw + 4 ≤ width → rest ≠ [] → (0 < take_line newlines width lw rest)%nat).
Proof.
  revert lw. induction rest as [|ch rest IH]; intros lw Hlw; cbn [take_line].
  { split_and!; [done|unfold sliceLength; simpl; lia|done]. }
  destruct (newlines && bool_decide (ch = char_newline)) eqn:Hnl.
  { apply andb_prop in Hnl as [_ ->%bool_decide_eq_true]. split_and!; [simpl; lia| |lia].
    unfold sliceLength, charLength. simpl. lia. }
  assert (charLength ch ≤ 4) as H4 by (unfold charLength; repeat case_decide; lia).
  destruct (lw + charLength ch >? width) eqn:Hgt.
  { split_and!; [lia|unfold sliceLength; simpl; lia|lia]. }
  destruct (IH (lw + charLength ch)) as (H1 & H2 & _); [lia|].
  assert (sliceLength [ch] = charLength ch) as H5 by (unfold sliceLength; simpl; lia).
  split_and!; [simpl; lia| |lia].
  change (take (S ?n) (ch :: rest)) with ([ch] ++ take n rest). rewrite sliceLength_app, H5. lia.
Qed.

Lemma prompt_lines_ok fuel newlines width rest :
  4 ≤ width → (length rest ≤ fuel)%nat →
  ∃ lines, prompt_lines fuel newlines width rest = Ok lines ∧ concat lines = rest ∧
    Forall (λ line, sliceLength line ≤ width) lines.
Proof.
  intros Hw. revert rest. induction fuel as [|fuel IH]; intros rest Hf;
    (destruct rest as [|ch rest]; [by exists []|]); [simpl in Hf; lia|].
  cbn [prompt_lines]. destruct (take_line_ok newlines width 0 (ch :: rest)) as (H1 & H2 & H3); [lia|].
  set (i := take_line newlines width 0 (ch :: rest)) in *.
  assert (0 < i)%nat as Hi by (by apply H3).
  destruct (IH (drop i (ch :: rest))) as (lines & -> & Hc & HF).
  { rewrite length_drop. simpl in *. lia. }
  rewrite bind_Ok. eexists. split; [reflexivity|]. split; [|constructor; [lia|done]].
  cbn [concat]. by rewrite Hc, take_drop.
Qed.

(** The prompt's screen shows the text followed by the input and nothing
    else, on lines that fit, with the cursor at the end of the last line. *)
Theorem Prompt_display prompt width height :
  4 ≤ width →
  ∃ x y lines line, Prompt_GetDisplayInformation prompt width height = Ok (x, y, lines) ∧
    concat lines = pr_text prompt ++ Prompt_ToString prompt ∧
    Forall (λ line, sliceLength line ≤ width) lines ∧
    lines !! Z.to_nat y = Some line ∧ y = zlen lines - 1 ∧ x = sliceLength line.
Proof.
  intros Hw. unfold Prompt_GetDisplayInformation.
  destruct (prompt_lines_ok (length (pr_text prompt)) true width (pr_text prompt) Hw)
    as (tl & -> & Htl & HFt); [done|].
  destruct (prompt_lines_ok (length (pr_input prompt)) false width (pr_input prompt) Hw)
    as (il & -> & Hil & HFi); [done|]. rewrite !bind_Ok.
  assert (∃ il', (match il with [] => line ← make_bytes (width + 1); Ok [line] | _ => Ok il end) = Ok il' ∧
    il' ≠ [] ∧ concat il' = pr_input prompt ∧ Forall (λ line, sliceLength line ≤ width) il')
    as (il' & -> & Hne & Hc & HF).
  { destruct il as [|l il]; [|by exists (l :: il)]. exists [[]].
    rewrite make_bytes_ok, bind_Ok by lia. split_and!; [done..|].
    constructor; [unfold sliceLength; simpl; lia|done]. }
  rewrite bind_Ok. destruct (exists_last Hne) as (il0 & line & ->).
  rewrite app_assoc, last_snoc, require_Some, bind_Ok.
  eexists _, _, _, line. split; [reflexivity|]. rewrite <-app_assoc. split_and!.
  - rewrite concat_app, Htl, Hc. done.
  - by apply Forall_app.
  - rewrite app_assoc. replace (Z.to_nat _) with (length (tl ++ il0)).
    + by rewrite list_lookup_middle.
    + rewrite length_app, zlen_app. unfold zlen. simpl. lia.
  - rewrite (zlen_app tl). lia.
  - done.
Qed.

Lemma Prompt_display_witness :
  ∃ x y lines line,
    Prompt_GetDisplayInformation (mkPrompt [x41; x0a; x09; x42] [x43; x44; x45]) 4 1 = Ok (x, y, lines) ∧
    concat lines = [x41; x0a; x09; x42] ++ Prompt_ToString (mkPrompt [x41; x0a; x09; x42] [x43; x44; x45]) ∧
    Forall (λ line, sliceLength line ≤ 4) lines ∧
    lines !! Z.to_nat y = Some line ∧ y = zlen lines - 1 ∧ x = sliceLength line.
Proof. apply (Prompt_display (mkPrompt [x41; x0a; x09; x42] [x43; x44; x45]) 4 1). lia. Defined.
