(* ===== verification/Treedoc.v ===== *)
(** The [treedoc] package: the tree document, its remote and its local
    operations (CPSC418/project/treedoc/treedoc2.go, helpers.go, nodeid.go,
    miscellaneous.go).

    Nodes are Go pointers that the parent's slices, the [Nodes] map and the
    children's [Parent] fields share, so the document carries a heap: a list
    of nodes indexed by location, extended by one entry at each [&DocNode{}].
    A node is only ever updated in place. *)
From S2P Require Import Prelude Common BufferOp.

Open Scope Z_scope.

(** ** Node identifiers *)

(** [[20]byte]: a site identifier and a big-endian clock. *)
Abbreviation NodeId := (list byte).

Definition NewNodeId (siteId : SiteId) (clock : Z) : NodeId :=
  let clockByte := Uint32ToBytes clock in
  let ID := replicate 20 x00 in
  let ID := go_copy 0 ID siteId in
  go_copy 16 ID clockByte.

Definition StringToNodeId (id : list byte) : NodeId :=
  go_copy 0 (replicate 20 x00) id.

Definition SeparateNodeID (id : NodeId) : res (SiteId * Z) :=
  let siteId := go_copy 0 (replicate 16 x00) (take 16 id) in
  version ← BytesToUint32 (drop 16 id);
  Ok (siteId, version).

(** [for i := 0; i < n; i++ { if a[i] != b[i] { return false } }; return true] *)
Definition equal_upto (n : nat) (a b : NodeId) : bool :=
  forallb (λ i, bool_decide (a !! i = b !! i)) (seq 0 n).

Definition EqualNodeId (a b : NodeId) : bool := equal_upto 20 a b.
Definition EqualSiteIdInNodeId (a b : NodeId) : bool := equal_upto 16 a b.

(** ** Data *)

Definition MAX_ATOMS_PER_NODE : Z := 65535.

Inductive AtomState : Type := UNINITIALIZED | DEAD | ALIVE.
#[export] Instance AtomState_eq_dec : EqDecision AtomState.
Proof. solve_decision. Defined.

(** A pointer to a node. *)
Abbreviation loc := nat.

Record Atom : Type := mkAtom {
  at_State : AtomState;
  at_Atom : byte;
  at_Size : Z;
  at_Left : list loc
}.

(** The zero value [Atom{}]. *)
Definition zero_atom : Atom := mkAtom UNINITIALIZED x00 0 [].

Record DocNode : Type := mkDocNode {
  nd_Parent : option loc;
  nd_ParentN : Z;
  nd_NodeId : NodeId;
  nd_Size : Z;
  nd_Atoms : list Atom
}.

Record Document : Type := mkDocument {
  dc_Size : Z;
  dc_Doc : list loc;
  dc_Nodes : gmap NodeId loc;
  dc_heap : list DocNode
}.

Inductive OpType : Type := NO_OPERATION | INSERT_NEW | INSERT_ROOT | INSERT | DELETE.
#[export] Instance OpType_eq_dec : EqDecision OpType.
Proof. solve_decision. Defined.

Record Operation : Type := mkOperation {
  op_Type : OpType;
  op_ParentId : NodeId;
  op_ParentN : Z;
  op_Id : NodeId;
  op_N : Z;
  op_Atom : byte
}.
#[export] Instance Operation_eq_dec : EqDecision Operation.
Proof. solve_decision. Defined.

(** The zero value of an array of 20 bytes. *)
Definition zero_id : NodeId := replicate 20 x00.

Definition NewDocument : Document := mkDocument 0 [] ∅ [].

(** ** Memory *)

Definition deref (h : list DocNode) (l : loc) : res DocNode := require NilPointer (h !! l).

(** [a[i]] for an [int] index. *)
Definition index {A} (l : list A) (i : Z) : res A :=
  if i <? 0 then Panic IndexOutOfRange else require IndexOutOfRange (l !! Z.to_nat i).

Arguments deref : simpl never.
Arguments index : simpl never.
Arguments slice_set : simpl never.

Definition set_heap (h : list DocNode) (doc : Document) : Document :=
  mkDocument (dc_Size doc) (dc_Doc doc) (dc_Nodes doc) h.
Definition set_size (s : Z) (doc : Document) : Document :=
  mkDocument s (dc_Doc doc) (dc_Nodes doc) (dc_heap doc).
Definition set_doc (d : list loc) (doc : Document) : Document :=
  mkDocument (dc_Size doc) d (dc_Nodes doc) (dc_heap doc).
Definition set_nodes (m : gmap NodeId loc) (doc : Document) : Document :=
  mkDocument (dc_Size doc) (dc_Doc doc) m (dc_heap doc).

Definition set_nd_size (s : Z) (nd : DocNode) : DocNode :=
  mkDocNode (nd_Parent nd) (nd_ParentN nd) (nd_NodeId nd) s (nd_Atoms nd).
Definition set_nd_atoms (atoms : list Atom) (nd : DocNode) : DocNode :=
  mkDocNode (nd_Parent nd) (nd_ParentN nd) (nd_NodeId nd) (nd_Size nd) atoms.

(** [*l = nd] for a pointer [l] that was dereferenced before. *)
Definition store (l : loc) (nd : DocNode) (doc : Document) : Document :=
  set_heap (<[l := nd]> (dc_heap doc)) doc.

(** [&DocNode{...}]. *)
Definition alloc (nd : DocNode) (doc : Document) : loc * Document :=
  (length (dc_heap doc), set_heap (dc_heap doc ++ [nd]) doc).

(** The loops that walk from a node to its children or to its parent are cut
    off after as many steps as there are nodes. *)
Definition walk_fuel (doc : Document) : nat := S (length (dc_heap doc)).

(** ** Helpers *)

(** The backward search for the insertion point: the first [i], from the end,
    whose element has a smaller identifier. *)
Fixpoint insertion_index (h : list DocNode) (node : NodeId) (disambiguator : list loc)
    (i : nat) : res nat :=
  match i with
  | O => Ok O
  | S i' =>
      docNode ← index disambiguator (Z.of_nat i');
      dn ← deref h docNode;
      match bytes_Compare node (nd_NodeId dn) with
      | Gt => Ok i
      | _ => insertion_index h node disambiguator i'
      end
  end.

(** A nil slice and an empty one give the same result, so the first branch
    of the code needs no case of its own. *)
Definition insertNodeIntoDisambiguatorsSorted (h : list DocNode) (disambiguator : list loc)
    (node : loc) : res (list loc) :=
  nd ← deref h node;
  a ← insertion_index h (nd_NodeId nd) disambiguator (length disambiguator);
  Ok (slice_insert node a node disambiguator).

(** The slice is nil exactly when it is empty: every slice this function
    returns without panicking has at least one element, or makes the index
    that follows the call panic. [i+1] and [i+5] are computed in [uint16]. *)
Definition extendAtomToSize (atoms : list Atom) (i : Z) : res (list Atom) :=
  match atoms with
  | [] =>
      let len := wrap16 (i + 1) in
      let cap := wrap16 (i + 5) in
      if len >? cap then Panic MakeSliceOutOfRange
      else Ok (replicate (Z.to_nat len) zero_atom)
  | _ =>
      let n := length atoms in
      Ok (atoms ++ replicate (Z.to_nat (i + 1) - n) zero_atom)
  end.

Definition insertAtom (atoms : list Atom) (atom : Atom) (i : Z) : res (list Atom) :=
  atoms ← extendAtomToSize atoms i;
  slice_set (Z.to_nat i) atom atoms.

(** The recursion climbs to the root. *)
Fixpoint updateSize_fuel (fuel : nat) (doc : Document) (node : loc) (delta : Z)
    : res Document :=
  match fuel with
  | O => OutOfFuel
  | S fuel =>
      nd ← deref (dc_heap doc) node;
      let doc := store node (set_nd_size (nd_Size nd + delta) nd) doc in
      match nd_Parent nd with
      | None => Ok (set_size (dc_Size doc + delta) doc)
      | Some parent =>
          pd ← deref (dc_heap doc) parent;
          atom ← index (nd_Atoms pd) (nd_ParentN nd);
          let atom' := mkAtom (at_State atom) (at_Atom atom) (at_Size atom + delta)
                         (at_Left atom) in
          atoms ← slice_set (Z.to_nat (nd_ParentN nd)) atom' (nd_Atoms pd);
          let doc := store parent (set_nd_atoms atoms pd) doc in
          updateSize_fuel fuel doc parent delta
      end
  end.
Definition updateSize (doc : Document) (node : loc) (delta : Z) : res Document :=
  updateSize_fuel (walk_fuel doc) doc node delta.

(** The sizes of the siblings that precede [node]. *)
Fixpoint size_before (h : list DocNode) (node : loc) (nodes : list loc) (acc : Z) : res Z :=
  match nodes with
  | [] => Ok acc
  | other :: nodes =>
      if decide (other = node) then Ok acc
      else od ← deref h other; size_before h node nodes (acc + nd_Size od)
  end.

Fixpoint calcPosHelper_fuel (fuel : nat) (doc : Document) (node : loc) (n : Z) : res Z :=
  match fuel with
  | O => OutOfFuel
  | S fuel =>
      nd ← deref (dc_heap doc) node;
      acc ← foldM (λ acc i, atom ← index (nd_Atoms nd) i; Ok (acc + at_Size atom))
              0 (seqZ 0 n);
      match nd_Parent nd with
      | None => size_before (dc_heap doc) node (dc_Doc doc) acc
      | Some parent =>
          pd ← deref (dc_heap doc) parent;
          atom ← index (nd_Atoms pd) (nd_ParentN nd);
          acc ← size_before (dc_heap doc) node (at_Left atom) acc;
          up ← calcPosHelper_fuel fuel doc parent (nd_ParentN nd);
          Ok (acc + up)
      end
  end.
Definition calcPosHelper (doc : Document) (node : loc) (n : Z) : res Z :=
  calcPosHelper_fuel (walk_fuel doc) doc node n.

Definition calcPos (doc : Document) (node : loc) (n : Z) : res Z :=
  p ← calcPosHelper doc node n;
  nd ← deref (dc_heap doc) node;
  atom ← index (nd_Atoms nd) n;
  Ok (p + at_Size atom - 1).

(** ** Remote operations *)

(** [doc.Nodes[id]] for an identifier the operation claims to exist: a
    missing entry is a nil pointer, dereferenced at once. *)
Definition lookup_node (doc : Document) (id : NodeId) : res loc :=
  require NilPointer (dc_Nodes doc !! id).

Definition InsertNew (doc : Document) (operation : Operation)
    : res (Document * BufferOperation) :=
  let parent := dc_Nodes doc !! op_ParentId operation in
  atoms ← insertAtom [] (mkAtom ALIVE (op_Atom operation) 1 []) (op_N operation);
  let '(newNode, doc) :=
    alloc (mkDocNode parent (op_ParentN operation) (op_Id operation) 0 atoms) doc in
  let doc := set_nodes (<[op_Id operation := newNode]> (dc_Nodes doc)) doc in
  parent ← require NilPointer parent;
  pd ← deref (dc_heap doc) parent;
  patoms ← extendAtomToSize (nd_Atoms pd) (op_ParentN operation);
  atom ← index patoms (op_ParentN operation);
  left ← insertNodeIntoDisambiguatorsSorted (dc_heap doc) (at_Left atom) newNode;
  patoms ← slice_set (Z.to_nat (op_ParentN operation))
             (mkAtom (at_State atom) (at_Atom atom) (at_Size atom) left) patoms;
  let doc := store parent (set_nd_atoms patoms pd) doc in
  doc ← updateSize doc newNode 1;
  pos ← calcPos doc newNode (op_N operation);
  Ok (doc, mkBufferOperation BufferOp.REMOTE_INSERT pos (op_Atom operation)).

Definition InsertRoot (doc : Document) (operation : Operation)
    : res (Document * BufferOperation) :=
  atoms ← extendAtomToSize [] (op_N operation);
  atoms ← slice_set (Z.to_nat (op_N operation))
            (mkAtom ALIVE (op_Atom operation) 1 []) atoms;
  let '(newNode, doc) := alloc (mkDocNode None 0 (op_Id operation) 0 atoms) doc in
  let doc := set_nodes (<[op_Id operation := newNode]> (dc_Nodes doc)) doc in
  nodes ← insertNodeIntoDisambiguatorsSorted (dc_heap doc) (dc_Doc doc) newNode;
  let doc := set_doc nodes doc in
  doc ← updateSize doc newNode 1;
  pos ← calcPos doc newNode (op_N operation);
  Ok (doc, mkBufferOperation BufferOp.REMOTE_INSERT pos (op_Atom operation)).

Definition Insert (doc : Document) (operation : Operation)
    : res (Document * BufferOperation) :=
  node ← lookup_node doc (op_Id operation);
  nd ← deref (dc_heap doc) node;
  atoms ← extendAtomToSize (nd_Atoms nd) (op_N operation);
  atom ← index atoms (op_N operation);
  if decide (at_State atom ≠ UNINITIALIZED) then Panic ExplicitPanic
  else
    atoms ← slice_set (Z.to_nat (op_N operation))
              (mkAtom ALIVE (op_Atom operation) (at_Size atom + 1) (at_Left atom)) atoms;
    let doc := store node (set_nd_atoms atoms nd) doc in
    doc ← updateSize doc node 1;
    pos ← calcPos doc node (op_N operation);
    Ok (doc, mkBufferOperation BufferOp.REMOTE_INSERT pos (op_Atom operation)).

Definition Delete (doc : Document) (operation : Operation)
    : res (Document * BufferOperation) :=
  node ← lookup_node doc (op_Id operation);
  nd ← deref (dc_heap doc) node;
  atoms ← extendAtomToSize (nd_Atoms nd) (op_N operation);
  let nd := set_nd_atoms atoms nd in
  let doc := store node nd doc in
  atom ← index atoms (op_N operation);
  match at_State atom with
  | UNINITIALIZED => Panic ExplicitPanic
  | ALIVE =>
      pos ← calcPos doc node (op_N operation);
      atoms ← slice_set (Z.to_nat (op_N operation))
                (mkAtom DEAD (at_Atom atom) (at_Size atom - 1) (at_Left atom)) atoms;
      let doc := store node (set_nd_atoms atoms nd) doc in
      doc ← updateSize doc node (-1);
      Ok (doc, mkBufferOperation BufferOp.DELETE pos x00)
  | DEAD => Ok (doc, mkBufferOperation BufferOp.NO_OPERATION 0 x00)
  end.

Definition ApplyOperation (doc : Document) (operation : Operation)
    : res (Document * BufferOperation) :=
  match op_Type operation with
  | INSERT_NEW => InsertNew doc operation
  | INSERT => Insert doc operation
  | DELETE => Delete doc operation
  | INSERT_ROOT => InsertRoot doc operation
  | NO_OPERATION => Ok (doc, mkBufferOperation BufferOp.NO_OPERATION 0 x00)
  end.

(** ** Local operations *)

(** The scan [for i = i + 1; i < len(nodes); i++], over what is left of the
    slice after index [i - 1]. *)
Fixpoint next_node (h : list DocNode) (i : Z) (rest : list loc) : res (Z * option loc) :=
  match rest with
  | [] => Ok (i, None)
  | node :: rest =>
      nd ← deref h node;
      if nd_Size nd =? 0 then next_node h (i + 1) rest else Ok (i, Some node)
  end.
Definition nextNonEmptyNode (h : list DocNode) (i : Z) (nodes : list loc)
    : res (Z * option loc) :=
  next_node h (i + 1) (drop (Z.to_nat (i + 1)) nodes).

Fixpoint next_atom (test : Atom → bool) (i : Z) (rest : list Atom) : Z :=
  match rest with
  | [] => i
  | atom :: rest => if test atom then i else next_atom test (i + 1) rest
  end.
Definition nextNonEmptyAtom (i : Z) (atoms : list Atom) : Z :=
  next_atom (λ atom, negb (at_Size atom =? 0)) (i + 1) (drop (Z.to_nat (i + 1)) atoms).
Definition nextNonEmptyOrUninitializedAtom (i : Z) (atoms : list Atom) : Z :=
  next_atom (λ atom, negb (at_Size atom =? 0) || bool_decide (at_State atom = UNINITIALIZED))
    (i + 1) (drop (Z.to_nat (i + 1)) atoms).

(** Each turn of the following loops moves [i] up the slice. *)
Fixpoint findNodePos_loop (fuel : nat) (h : list DocNode) (pos acc i : Z)
    (node : option loc) (nodes : list loc) : res (Z * option loc) :=
  match fuel with
  | O => OutOfFuel
  | S fuel =>
      if i <? zlen nodes then
        node ← require NilPointer node;
        nd ← deref h node;
        if acc + nd_Size nd >? pos then Ok (acc, Some node)
        else
          '(i, node) ← nextNonEmptyNode h i nodes;
          findNodePos_loop fuel h pos (acc + nd_Size nd) i node nodes
      else Ok (acc, None)
  end.
Definition findNodePos (h : list DocNode) (pos acc : Z) (nodes : list loc)
    : res (Z * option loc) :=
  '(i, node) ← nextNonEmptyNode h (-1) nodes;
  findNodePos_loop (S (length nodes)) h pos acc i node nodes.

Fixpoint findAtomPos_loop (fuel : nat) (pos acc i : Z) (atoms : list Atom) : res (Z * Z) :=
  match fuel with
  | O => OutOfFuel
  | S fuel =>
      if i <? zlen atoms then
        atom ← index atoms i;
        if acc + at_Size atom >? pos then Ok (acc, i)
        else findAtomPos_loop fuel pos (acc + at_Size atom) (nextNonEmptyAtom i atoms) atoms
      else Ok (acc, i)
  end.
Definition findAtomPos (pos acc : Z) (atoms : list Atom) : res (Z * Z) :=
  findAtomPos_loop (S (length atoms)) pos acc (nextNonEmptyAtom (-1) atoms) atoms.

Definition canDoInsert (node : DocNode) (n : Z) (nodeId : NodeId) : res bool :=
  atom ← index (nd_Atoms node) n;
  Ok ((at_Size atom =? 0) && bool_decide (at_State atom = UNINITIALIZED)
      && EqualSiteIdInNodeId nodeId (nd_NodeId node)
      && negb (n =? MAX_ATOMS_PER_NODE)).

Fixpoint findAtomForInsert_loop (fuel : nat) (pos acc i : Z) (nodeId : NodeId)
    (node : DocNode) (atoms : list Atom) : res (OpType * Z * Z) :=
  match fuel with
  | O => OutOfFuel
  | S fuel =>
      if i <? zlen atoms then
        let potentialInsert := EqualSiteIdInNodeId nodeId (nd_NodeId node) in
        insert ←
          (if potentialInsert && (acc =? pos) then
             here ← canDoInsert node i nodeId;
             if here : bool then Ok (Some i)
             else
               let k := nextNonEmptyOrUninitializedAtom i atoms in
               if k <? zlen atoms then
                 next ← canDoInsert node k nodeId;
                 Ok (if next : bool then Some k else None)
               else Ok None
           else Ok None);
        match insert with
        | Some k => Ok (INSERT, acc, k)
        | None =>
            atom ← index atoms i;
            if acc + at_Size atom >? pos then Ok (NO_OPERATION, acc, i)
            else findAtomForInsert_loop fuel pos (acc + at_Size atom)
                   (nextNonEmptyAtom i atoms) nodeId node atoms
        end
      else Ok (NO_OPERATION, acc, i)
  end.
Definition findAtomForInsertHelper (pos acc : Z) (nodeId : NodeId) (node : DocNode)
    (atoms : list Atom) : res (OpType * Z * Z) :=
  findAtomForInsert_loop (S (length atoms)) pos acc (nextNonEmptyAtom (-1) atoms)
    nodeId node atoms.

Definition makeAndApplyInsertOperation (doc : Document) (node : loc) (n : Z) (ch : byte)
    : res (Document * Operation) :=
  nd ← deref (dc_heap doc) node;
  let op := mkOperation INSERT zero_id 0 (nd_NodeId nd) (wrap16 n) ch in
  '(doc, _) ← Insert doc op;
  Ok (doc, op).

(** Each turn of the loop goes one level down the tree. *)
Fixpoint insertPosNewHelper_fuel (fuel : nat) (doc : Document) (node : loc) (n : Z)
    (nodeId : NodeId) (ch : byte) : res (Document * Operation) :=
  match fuel with
  | O => OutOfFuel
  | S fuel =>
      nd ← deref (dc_heap doc) node;
      atom ← index (nd_Atoms nd) n;
      match at_Left atom with
      | [] =>
          let op := mkOperation INSERT_NEW (nd_NodeId nd) (wrap16 n) nodeId 0 ch in
          '(doc, _) ← InsertNew doc op;
          Ok (doc, op)
      | lefts =>
          node ← index lefts (zlen lefts - 1);
          nd ← deref (dc_heap doc) node;
          let n := zlen (nd_Atoms nd) in
          last ← index (nd_Atoms nd) (n - 1);
          let n := if decide (at_State last = UNINITIALIZED) then n - 1 else n in
          atoms ← extendAtomToSize (nd_Atoms nd) (wrap16 n);
          let nd := set_nd_atoms atoms nd in
          let doc := store node nd doc in
          can ← canDoInsert nd n nodeId;
          if can : bool then makeAndApplyInsertOperation doc node n ch
          else insertPosNewHelper_fuel fuel doc node n nodeId ch
      end
  end.
Definition insertPosNewHelper (doc : Document) (node : loc) (n : Z) (nodeId : NodeId)
    (ch : byte) : res (Document * Operation) :=
  insertPosNewHelper_fuel (walk_fuel doc) doc node n nodeId ch.

(** The descent of [InsertPos], from the node and the atom found first. *)
Fixpoint InsertPos_loop (fuel : nat) (doc : Document) (nodeId : NodeId) (pos acc : Z)
    (currentNode : loc) (currentN : Z) (ch : byte) : res (Document * Operation) :=
  match fuel with
  | O => OutOfFuel
  | S fuel =>
      nd ← deref (dc_heap doc) currentNode;
      atom ← index (nd_Atoms nd) currentN;
      if (acc + at_Size atom - 1 =? pos) && bool_decide (at_State atom = ALIVE) then
        insertPosNewHelper doc currentNode currentN nodeId ch
      else
        '(acc, node) ← findNodePos (dc_heap doc) pos acc (at_Left atom);
        currentNode ← require NilPointer node;
        nd ← deref (dc_heap doc) currentNode;
        '(doInsert, acc, currentN) ←
          findAtomForInsertHelper pos acc nodeId nd (nd_Atoms nd);
        if decide (doInsert = INSERT) then
          makeAndApplyInsertOperation doc currentNode currentN ch
        else InsertPos_loop fuel doc nodeId pos acc currentNode currentN ch
  end.

(** The end of the document: the slot after the last atom of the last root. *)
Definition InsertPos_end (doc : Document) (nodeId : NodeId) (ch : byte)
    : res (Document * Operation) :=
  currentNode ← index (dc_Doc doc) (zlen (dc_Doc doc) - 1);
  nd ← deref (dc_heap doc) currentNode;
  let currentN := zlen (nd_Atoms nd) in
  last ← index (nd_Atoms nd) (currentN - 1);
  let currentN := if decide (at_State last = UNINITIALIZED) then currentN - 1 else currentN in
  atoms ← extendAtomToSize (nd_Atoms nd) (wrap16 currentN);
  let nd := set_nd_atoms atoms nd in
  let doc := store currentNode nd doc in
  can ← canDoInsert nd currentN nodeId;
  if can : bool then makeAndApplyInsertOperation doc currentNode currentN ch
  else insertPosNewHelper doc currentNode currentN nodeId ch.

Definition InsertPos (doc : Document) (nodeId : NodeId) (pos : Z) (ch : byte)
    : res (Document * Operation) :=
  if dc_Size doc =? 0 then
    let op := mkOperation INSERT_ROOT zero_id 0 nodeId 0 ch in
    '(doc, _) ← InsertRoot doc op;
    Ok (doc, op)
  else
    '(acc, currentNode) ← findNodePos (dc_heap doc) pos 0 (dc_Doc doc);
    match currentNode with
    | None => InsertPos_end doc nodeId ch
    | Some currentNode =>
        nd ← deref (dc_heap doc) currentNode;
        '(doInsert, acc, currentN) ←
          findAtomForInsertHelper pos acc nodeId nd (nd_Atoms nd);
        if decide (doInsert = INSERT) then
          makeAndApplyInsertOperation doc currentNode currentN ch
        else InsertPos_loop (walk_fuel doc) doc nodeId pos acc currentNode currentN ch
    end.

Fixpoint posToIdForDel_loop (fuel : nat) (h : list DocNode) (pos acc : Z)
    (currentNode : loc) (currentN : Z) : res (loc * Z) :=
  match fuel with
  | O => OutOfFuel
  | S fuel =>
      nd ← deref h currentNode;
      atom ← index (nd_Atoms nd) currentN;
      if (acc + at_Size atom - 1 =? pos) && bool_decide (at_State atom = ALIVE) then
        Ok (currentNode, currentN)
      else
        '(acc, node) ← findNodePos h pos acc (at_Left atom);
        currentNode ← require NilPointer node;
        nd ← deref h currentNode;
        '(acc, currentN) ← findAtomPos pos acc (nd_Atoms nd);
        posToIdForDel_loop fuel h pos acc currentNode currentN
  end.
Definition posToIdForDel (doc : Document) (nodes : list loc) (pos : Z) : res (loc * Z) :=
  let h := dc_heap doc in
  '(acc, node) ← findNodePos h pos 0 nodes;
  currentNode ← require NilPointer node;
  nd ← deref h currentNode;
  '(acc, currentN) ← findAtomPos pos acc (nd_Atoms nd);
  posToIdForDel_loop (walk_fuel doc) h pos acc currentNode currentN.

Definition DeletePos (doc : Document) (pos : Z) : res (Document * Operation) :=
  '(node, n) ← posToIdForDel doc (dc_Doc doc) pos;
  nd ← deref (dc_heap doc) node;
  let op := mkOperation DELETE zero_id 0 (nd_NodeId nd) (wrap16 n) x00 in
  '(doc, _) ← Delete doc op;
  Ok (doc, op).

(** ** Traversals *)

Fixpoint docToBufferHelper (fuel : nat) (h : list DocNode) (disambiguator : list loc)
    (buf : list byte) : res (list byte) :=
  match fuel with
  | O => OutOfFuel
  | S fuel =>
      foldM (λ buf node,
        nd ← deref h node;
        foldM (λ buf atom,
          buf ← docToBufferHelper fuel h (at_Left atom) buf;
          Ok (if decide (at_State atom = ALIVE) then buf ++ [at_Atom atom] else buf))
        buf (nd_Atoms nd))
      buf disambiguator
  end.
Definition DocToBuffer (doc : Document) : res (list byte) :=
  docToBufferHelper (walk_fuel doc) (dc_heap doc) (dc_Doc doc) [].
Definition DocToString (doc : Document) : res (list byte) := DocToBuffer doc.

Fixpoint docHeightHelper (fuel : nat) (h : list DocNode) (disambiguator : list loc) : res Z :=
  match fuel with
  | O => OutOfFuel
  | S fuel =>
      foldM (λ max node,
        nd ← deref h node;
        foldM (λ max atom,
          a ← docHeightHelper fuel h (at_Left atom);
          let a := a + 1 in
          Ok (if a >? max then a else max))
        max (nd_Atoms nd))
      (-1) disambiguator
  end.
Definition DocHeight (doc : Document) : res Z :=
  docHeightHelper (walk_fuel doc) (dc_heap doc) (dc_Doc doc).

Fixpoint docStat (fuel : nat) (h : list DocNode) (disambiguator : list loc) : res (Z * Z) :=
  match fuel with
  | O => OutOfFuel
  | S fuel =>
      foldM (λ ad node,
        nd ← deref h node;
        foldM (λ '(alive, dead) atom,
          '(a, d) ← docStat fuel h (at_Left atom);
          let alive := alive + a in
          let dead := dead + d in
          Ok (match at_State atom with
              | ALIVE => (alive + 1, dead)
              | DEAD => (alive, dead + 1)
              | UNINITIALIZED => (alive, dead)
              end))
        ad (nd_Atoms nd))
      (0, 0) disambiguator
  end.
Definition DocStat (doc : Document) : res (Z * Z) :=
  docStat (walk_fuel doc) (dc_heap doc) (dc_Doc doc).
