(* ===== verification/TreedocInv.v ===== *)
(** The invariant of the tree document and the text it stands for: the shape
    of the tree in the heap, the local equations of the cached sizes, the
    identifiers, and where a node's text lies in the document's text. *)
From S2P Require Import Prelude Common BufferOp Treedoc.

Open Scope Z_scope.

(** ** Shape *)

(** The parent pointer of a node with its slot, and the nodes that hang off a
    slot: what the shape of the tree depends on. *)
Definition par (h : list DocNode) (l : loc) : option (option loc * Z) :=
  (λ nd, (nd_Parent nd, nd_ParentN nd)) <$> (h !! l).
Definition left_at (h : list DocNode) (l : loc) (k : nat) : list loc :=
  match h !! l with
  | Some nd => match nd_Atoms nd !! k with Some a => at_Left a | None => [] end
  | None => []
  end.

(** Parents are allocated before their children; each node is in exactly one
    slice: its parent's, at [ParentN], or the document's. *)
Record wf_shape (h : list DocNode) (roots : list loc) : Prop := {
  sh_up l q n : par h l = Some (q, n) →
    match q with
    | None => l ∈ roots
    | Some p => (p < l)%nat ∧ l ∈ left_at h p (Z.to_nat n)
    end;
  sh_down p k c : c ∈ left_at h p k → par h c = Some (Some p, Z.of_nat k);
  sh_roots c : c ∈ roots → ∃ n, par h c = Some (None, n);
  sh_nodup p k : NoDup (left_at h p k);
  ws_nodup_roots : NoDup roots
}.

Lemma par_Some h l nd : h !! l = Some nd → par h l = Some (nd_Parent nd, nd_ParentN nd).
Proof. unfold par. by intros ->. Qed.
Lemma par_Some_inv h l q n :
  par h l = Some (q, n) → ∃ nd, h !! l = Some nd ∧ nd_Parent nd = q ∧ nd_ParentN nd = n.
Proof. unfold par. destruct (h !! l) as [nd|]; simpl; [|done]. naive_solver. Qed.
Lemma left_at_Some h l nd k a :
  h !! l = Some nd → nd_Atoms nd !! k = Some a → left_at h l k = at_Left a.
Proof. unfold left_at. by intros -> ->. Qed.
Lemma left_at_elem h l k c :
  c ∈ left_at h l k → ∃ nd a, h !! l = Some nd ∧ nd_Atoms nd !! k = Some a ∧ c ∈ at_Left a.
Proof.
  unfold left_at. destruct (h !! l) as [nd|]; [|set_solver].
  destruct (nd_Atoms nd !! k) as [a|] eqn:Ha; [|set_solver]. eauto.
Qed.

(** The shape in terms of nodes and atoms. *)
Lemma ws_up h roots l nd :
  wf_shape h roots → h !! l = Some nd →
  match nd_Parent nd with
  | None => l ∈ roots
  | Some p => (p < l)%nat ∧ ∃ pd a, h !! p = Some pd ∧
      nd_Atoms pd !! Z.to_nat (nd_ParentN nd) = Some a ∧ l ∈ at_Left a
  end.
Proof.
  intros W Hl%par_Some. pose proof (sh_up _ _ W _ _ _ Hl) as Hup.
  destruct (nd_Parent nd) as [p|]; [|done]. destruct Hup as [? Hin].
  apply left_at_elem in Hin as (pd & a & ? & ? & ?). eauto 10.
Qed.
Lemma ws_down h roots p pd k a c :
  wf_shape h roots → h !! p = Some pd → nd_Atoms pd !! k = Some a → c ∈ at_Left a →
  ∃ cd, h !! c = Some cd ∧ nd_Parent cd = Some p ∧ nd_ParentN cd = Z.of_nat k.
Proof.
  intros W Hp Hk Hc. apply par_Some_inv. eapply sh_down; [done|].
  by rewrite (left_at_Some _ _ _ _ _ Hp Hk).
Qed.
Lemma ws_roots h roots c :
  wf_shape h roots → c ∈ roots → ∃ cd, h !! c = Some cd ∧ nd_Parent cd = None.
Proof.
  intros W Hc. destruct (sh_roots _ _ W _ Hc) as [n Hn].
  apply par_Some_inv in Hn as (cd & ? & ? & _). eauto.
Qed.
Lemma ws_nodup h roots p pd k a :
  wf_shape h roots → h !! p = Some pd → nd_Atoms pd !! k = Some a → NoDup (at_Left a).
Proof.
  intros W Hp Hk. rewrite <-(left_at_Some _ _ _ _ _ Hp Hk). by eapply sh_nodup.
Qed.

(** Heaps with the same links have the same shape. *)
Lemma wf_shape_links h h' roots :
  (∀ l, par h' l = par h l) → (∀ l k, left_at h' l k = left_at h l k) →
  wf_shape h roots → wf_shape h' roots.
Proof.
  intros Hp HL [H1 H2 H3 H4 H5]. split; [| | | |done].
  - intros l q n. rewrite Hp. intros Hq%H1. destruct q; [|done]. by rewrite HL.
  - intros p k c. rewrite HL, Hp. apply H2.
  - intros c. setoid_rewrite Hp. apply H3.
  - intros p k. rewrite HL. apply H4.
Qed.

Lemma ws_child_lt h roots p pd k a c :
  wf_shape h roots → h !! p = Some pd → nd_Atoms pd !! k = Some a → c ∈ at_Left a →
  (p < c < length h)%nat.
Proof.
  intros W Hp Hk Hc. destruct (ws_down _ _ _ _ _ _ _ W Hp Hk Hc) as (cd & Hcd & Hpar & _).
  pose proof (ws_up _ _ _ _ W Hcd) as Hup. rewrite Hpar in Hup.
  apply lookup_lt_Some in Hcd. destruct Hup; lia.
Qed.

(** ** Forgetting the sizes *)

Definition astrip (a : Atom) : Atom := mkAtom (at_State a) (at_Atom a) 0 (at_Left a).
Definition strip (nd : DocNode) : DocNode :=
  mkDocNode (nd_Parent nd) (nd_ParentN nd) (nd_NodeId nd) 0 (map astrip (nd_Atoms nd)).

(** Two heaps with the same tree, up to the cached sizes. *)
Definition same_skel (h h' : list DocNode) : Prop := strip <$> h = strip <$> h'.

#[export] Instance same_skel_equivalence : Equivalence same_skel.
Proof. unfold same_skel. split; [intros h|intros h h'|intros h h' h'']; congruence. Qed.

Lemma same_skel_length h h' : same_skel h h' → length h = length h'.
Proof. intros H%(f_equal length). by rewrite !length_fmap in H. Qed.

Lemma same_skel_lookup h h' l nd :
  same_skel h h' → h !! l = Some nd → ∃ nd', h' !! l = Some nd' ∧ strip nd' = strip nd.
Proof.
  intros H%(f_equal (lookup l)) Hl. rewrite !list_lookup_fmap, Hl in H. simpl in H.
  destruct (h' !! l) as [nd'|]; simpl in H; [|done].
  exists nd'. split; [done|congruence].
Qed.

Lemma strip_parent nd nd' : strip nd = strip nd' →
  nd_Parent nd = nd_Parent nd' ∧ nd_ParentN nd = nd_ParentN nd' ∧
  nd_NodeId nd = nd_NodeId nd' ∧ map astrip (nd_Atoms nd) = map astrip (nd_Atoms nd').
Proof. destruct nd, nd'; unfold strip; simpl; intros; simplify_eq; done. Qed.

Lemma strip_atom nd nd' k a : strip nd = strip nd' → nd_Atoms nd !! k = Some a →
  ∃ a', nd_Atoms nd' !! k = Some a' ∧ at_State a' = at_State a ∧
        at_Atom a' = at_Atom a ∧ at_Left a' = at_Left a.
Proof.
  intros (_ & _ & _ & H)%strip_parent Hk.
  apply (f_equal (lookup k)) in H. change (map astrip) with (fmap (M:=list) astrip) in H.
  rewrite !list_lookup_fmap, Hk in H. simpl in H.
  destruct (nd_Atoms nd' !! k) as [a'|]; simpl in H; [|done].
  exists a'. destruct a, a'; unfold astrip in H; simpl in H; simplify_eq. done.
Qed.

Lemma same_skel_wf_shape h h' roots :
  same_skel h h' → wf_shape h roots → wf_shape h' roots.
Proof.
  intros S. apply wf_shape_links.
  - intros l. unfold par.
    destruct (h !! l) as [nd|] eqn:Hl.
    + destruct (same_skel_lookup _ _ _ _ S Hl) as (nd' & -> & Hs). simpl.
      by apply strip_parent in Hs as (-> & -> & _).
    + destruct (h' !! l) as [nd'|] eqn:Hl'; [|done]. symmetry in S.
      destruct (same_skel_lookup _ _ _ _ S Hl') as (? & ? & _). congruence.
  - intros l k. unfold left_at.
    destruct (h !! l) as [nd|] eqn:Hl.
    + destruct (same_skel_lookup _ _ _ _ S Hl) as (nd' & -> & Hs).
      destruct (nd_Atoms nd !! k) as [a|] eqn:Ha.
      * symmetry in Hs. by destruct (strip_atom _ _ _ _ Hs Ha) as (a' & -> & _ & _ & ->).
      * destruct (nd_Atoms nd' !! k) as [a'|] eqn:Ha'; [|done].
        destruct (strip_atom _ _ _ _ Hs Ha') as (? & ? & _). congruence.
    + destruct (h' !! l) as [nd'|] eqn:Hl'; [|done]. symmetry in S.
      destruct (same_skel_lookup _ _ _ _ S Hl') as (? & ? & _). congruence.
Qed.

#[export] Instance wf_shape_proper : Proper (same_skel ==> eq ==> iff) wf_shape.
Proof.
  intros h h' H roots ? <-. split; apply same_skel_wf_shape; [done|by symmetry].
Qed.

(** ** The text of a node *)

Definition achar (a : Atom) : list byte :=
  if decide (at_State a = ALIVE) then [at_Atom a] else [].

Fixpoint nstr_fuel (f : nat) (h : list DocNode) (l : loc) : list byte :=
  match f with
  | O => []
  | S f =>
      match h !! l with
      | None => []
      | Some nd =>
          concat (map (λ a, concat (map (nstr_fuel f h) (at_Left a)) ++ achar a)
                    (nd_Atoms nd))
      end
  end.

(** The text of a node, of a list of siblings, of an atom with its left
    subtree, and of a document. *)
Definition nstr (h : list DocNode) (l : loc) : list byte := nstr_fuel (length h) h l.
Definition lstr (h : list DocNode) (ls : list loc) : list byte := concat (map (nstr h) ls).
Definition astr (h : list DocNode) (a : Atom) : list byte := lstr h (at_Left a) ++ achar a.
Definition dstr (doc : Document) : list byte := lstr (dc_heap doc) (dc_Doc doc).

Lemma map_ext_in' {A B} (f g : A → B) l : (∀ a, a ∈ l → f a = g a) → map f l = map g l.
Proof.
  induction l as [|a l IH]; simpl; intros H; [done|].
  rewrite (H a), IH by set_solver. done.
Qed.

Lemma nstr_fuel_enough h roots f1 f2 l :
  wf_shape h roots → (length h - l ≤ f1)%nat → (length h - l ≤ f2)%nat →
  nstr_fuel f1 h l = nstr_fuel f2 h l.
Proof.
  intros W. revert f2 l. induction f1 as [|f1 IH]; intros f2 l H1 H2.
  { destruct f2; simpl; [done|]. by rewrite lookup_ge_None_2 by lia. }
  destruct f2 as [|f2]; simpl.
  { by rewrite lookup_ge_None_2 by lia. }
  destruct (h !! l) as [nd|] eqn:Hl; [|done].
  f_equal. apply map_ext_in'. intros a [k Ha]%list_elem_of_lookup.
  f_equal. f_equal. apply map_ext_in'. intros c Hc.
  pose proof (ws_child_lt _ _ _ _ _ _ _ W Hl Ha Hc). apply IH; lia.
Qed.

Lemma nstr_unfold h roots l nd :
  wf_shape h roots → h !! l = Some nd → nstr h l = concat (map (astr h) (nd_Atoms nd)).
Proof.
  intros W Hl. unfold nstr at 1. pose proof (lookup_lt_Some _ _ _ Hl) as Hlt.
  destruct (length h) as [|n] eqn:Hn; [lia|]. simpl. rewrite Hl.
  f_equal. apply map_ext_in'. intros a [k Ha]%list_elem_of_lookup.
  unfold astr, lstr. f_equal. f_equal. apply map_ext_in'. intros c Hc.
  pose proof (ws_child_lt _ _ _ _ _ _ _ W Hl Ha Hc).
  unfold nstr. apply (nstr_fuel_enough _ _ _ _ _ W); lia.
Qed.

Lemma astr_astrip h a : astr h (astrip a) = astr h a.
Proof. done. Qed.

Lemma map_astr_strip h nd nd' :
  strip nd = strip nd' → map (astr h) (nd_Atoms nd) = map (astr h) (nd_Atoms nd').
Proof.
  intros (_ & _ & _ & H)%strip_parent.
  assert (∀ l, map (astr h) l = map (astr h) (map astrip l)) as Hm.
  { intros l. rewrite map_map. by apply map_ext_in'. }
  by rewrite Hm, H, <-Hm.
Qed.

(** ** Descendants *)

Inductive desc (h : list DocNode) (l : loc) : loc → Prop :=
  | desc_refl : desc h l l
  | desc_step x nd p : h !! x = Some nd → nd_Parent nd = Some p → desc h l p → desc h l x.

Lemma desc_le h roots l x : wf_shape h roots → desc h l x → (l ≤ x)%nat.
Proof.
  intros W. induction 1 as [|x nd p Hx Hp _ IH]; [done|].
  pose proof (ws_up _ _ _ _ W Hx) as Hup. rewrite Hp in Hup. lia.
Qed.

Lemma desc_linear h l x y : desc h l y → desc h x y → desc h l x ∨ desc h x l.
Proof.
  induction 1 as [|y nd p Hy Hp Hd IH]; intros Hx; [by right|].
  inversion Hx as [|? nd' p' Hy' Hp' Hd']; subst.
  - left. by eapply desc_step.
  - simplify_eq. by apply IH.
Qed.

Lemma desc_child h roots p pd k a c y :
  wf_shape h roots → h !! p = Some pd → nd_Atoms pd !! k = Some a → c ∈ at_Left a →
  desc h c y → desc h p y.
Proof.
  intros W Hp Hk Hc. destruct (ws_down _ _ _ _ _ _ _ W Hp Hk Hc) as (cd & Hcd & Hpar & _).
  induction 1 as [|y nd q Hy Hq _ IH]; eapply desc_step; eauto using desc_refl.
Qed.

(** The subtrees of two nodes with the same parent are disjoint. *)
Lemma siblings_disjoint h roots c1 c2 cd1 cd2 y :
  wf_shape h roots → h !! c1 = Some cd1 → h !! c2 = Some cd2 →
  nd_Parent cd1 = nd_Parent cd2 → c1 ≠ c2 → desc h c1 y → desc h c2 y → False.
Proof.
  intros W H1 H2 Hp Hne Hd1 Hd2.
  assert (∀ x1 x2 d1 d2, h !! x1 = Some d1 → h !! x2 = Some d2 →
    nd_Parent d1 = nd_Parent d2 → x1 ≠ x2 → desc h x1 x2 → False) as Haux.
  { intros x1 x2 d1 d2 Hx1 Hx2 He Hn Hd.
    inversion Hd as [|? nd p Hx Hpar Hd']; subst; [done|]. simplify_eq.
    apply (desc_le _ _ _ _ W) in Hd'.
    pose proof (ws_up _ _ _ _ W Hx1) as Hup. rewrite He, Hpar in Hup. lia. }
  destruct (desc_linear _ _ _ _ Hd1 Hd2); eauto.
Qed.

(** ** Locality of the text *)

(** The heaps agree, up to sizes, on the nodes [P] selects. *)
Definition agree_on (P : loc → Prop) (h h' : list DocNode) : Prop :=
  ∀ y nd, h !! y = Some nd → P y → strip <$> (h' !! y) = Some (strip nd).

Lemma agree_on_mono (P Q : loc → Prop) h h' :
  (∀ y, Q y → P y) → agree_on P h h' → agree_on Q h h'.
Proof. intros HPQ H y nd Hy HQ. eauto. Qed.

Lemma nstr_agree h h' roots roots' l :
  wf_shape h roots → wf_shape h' roots' → (l < length h)%nat →
  agree_on (desc h l) h h' → nstr h' l = nstr h l.
Proof.
  intros W W'. remember (length h - l)%nat as m eqn:Hm.
  revert l Hm. induction (lt_wf m) as [m _ IH]. intros l -> Hl Hag.
  destruct (lookup_lt_is_Some_2 _ _ Hl) as [nd Hnd].
  pose proof (Hag _ _ Hnd (desc_refl _ _)) as Hs.
  destruct (h' !! l) as [nd'|] eqn:Hnd'; simpl in Hs; [|done].
  assert (strip nd' = strip nd) as Hs' by congruence.
  rewrite (nstr_unfold _ _ _ _ W Hnd), (nstr_unfold _ _ _ _ W' Hnd').
  rewrite (map_astr_strip h' _ nd) by done. f_equal.
  apply map_ext_in'. intros a [k Ha]%list_elem_of_lookup.
  unfold astr, lstr. f_equal. f_equal. apply map_ext_in'. intros c Hc.
  pose proof (ws_child_lt _ _ _ _ _ _ _ W Hnd Ha Hc).
  eapply IH; [|done|lia|]; [lia|].
  eapply agree_on_mono; [|done]. intros y. by eapply desc_child.
Qed.

Lemma lstr_agree h h' roots roots' ls :
  wf_shape h roots → wf_shape h' roots' →
  (∀ c, c ∈ ls → (c < length h)%nat ∧ agree_on (desc h c) h h') → lstr h' ls = lstr h ls.
Proof.
  intros W W' H. unfold lstr. f_equal. apply map_ext_in'. intros c Hc.
  destruct (H c Hc). by eapply nstr_agree.
Qed.

Lemma same_skel_agree P h h' : same_skel h h' → agree_on P h h'.
Proof.
  intros S y nd Hy _. destruct (same_skel_lookup _ _ _ _ S Hy) as (nd' & -> & Hs).
  simpl. congruence.
Qed.

Lemma same_skel_nstr h h' roots l :
  wf_shape h roots → same_skel h h' → nstr h' l = nstr h l.
Proof.
  intros W S. destruct (decide (l < length h)%nat) as [Hl|Hl].
  - eapply nstr_agree; [done| |done|by apply same_skel_agree]. by rewrite <-S.
  - unfold nstr. rewrite <-(same_skel_length _ _ S).
    destruct (length h) as [|n] eqn:Hn; simpl; [done|].
    rewrite !lookup_ge_None_2; [done|lia|]. rewrite <-(same_skel_length _ _ S). lia.
Qed.

Lemma same_skel_lstr h h' roots ls :
  wf_shape h roots → same_skel h h' → lstr h' ls = lstr h ls.
Proof.
  intros W S. unfold lstr. f_equal. apply map_ext_in'. intros. by eapply same_skel_nstr.
Qed.

(** ** Slots *)

Lemma index_Some {A} (l : list A) (k : nat) a : l !! k = Some a → index l (Z.of_nat k) = Ok a.
Proof.
  intros H. unfold index. destruct (Z.ltb_spec (Z.of_nat k) 0); [lia|].
  by rewrite Nat2Z.id, H.
Qed.

Lemma index_Z {A} (l : list A) (k : Z) a :
  0 ≤ k → l !! Z.to_nat k = Some a → index l k = Ok a.
Proof. intros ? H. rewrite <-(Z2Nat.id k) by done. by apply index_Some. Qed.

Lemma deref_Some h l nd : h !! l = Some nd → deref h l = Ok nd.
Proof. unfold deref. by intros ->. Qed.

(** A node's place in its parent. *)
Lemma parent_slot h roots l nd p :
  wf_shape h roots → h !! l = Some nd → nd_Parent nd = Some p →
  ∃ pd k a, (p < l)%nat ∧ h !! p = Some pd ∧ nd_Atoms pd !! k = Some a ∧
            l ∈ at_Left a ∧ nd_ParentN nd = Z.of_nat k.
Proof.
  intros W Hl Hp. pose proof (ws_up _ _ _ _ W Hl) as Hup. rewrite Hp in Hup.
  destruct Hup as (Hlt & pd & a & Hpd & Ha & Hin).
  destruct (ws_down _ _ _ _ _ _ _ W Hpd Ha Hin) as (cd & Hcd & _ & HN). simplify_eq.
  exists pd, (Z.to_nat (nd_ParentN nd)), a. rewrite HN, Nat2Z.id in *. auto 10.
Qed.

(** ** Sizes *)

Definition size_of (h : list DocNode) (c : loc) : Z :=
  match h !! c with Some nd => nd_Size nd | None => 0 end.

(** The cached sizes are right everywhere except that the size of node [l]
    lacks [d]: the situation between an edit of [l] and [updateSize]. *)
Record sizes_off (h : list DocNode) (roots : list loc) (ds : Z) (l : loc) (d : Z) : Prop := {
  so_atom x nd k a : h !! x = Some nd → nd_Atoms nd !! k = Some a →
    at_Size a = sumZ (size_of h) (at_Left a) + zlen (achar a);
  so_node x nd : h !! x = Some nd →
    nd_Size nd + (if decide (x = l) then d else 0) = sumZ at_Size (nd_Atoms nd);
  so_doc : ds = sumZ (size_of h) roots
}.
Abbreviation sizes_ok h roots ds := (sizes_off h roots ds 0%nat 0).

Lemma sizes_off_0 h roots ds l l' : sizes_off h roots ds l 0 → sizes_off h roots ds l' 0.
Proof.
  intros S. split; [apply (so_atom _ _ _ _ _ S)| |apply (so_doc _ _ _ _ _ S)].
  intros x nd Hx. pose proof (so_node _ _ _ _ _ S _ _ Hx).
  destruct (decide (x = l)), (decide (x = l')); lia.
Qed.

Lemma size_of_insert h l nd c :
  (l < length h)%nat →
  size_of (<[l := nd]> h) c = if decide (c = l) then nd_Size nd else size_of h c.
Proof.
  intros Hl. unfold size_of. case_decide; subst.
  - by rewrite list_lookup_insert_eq.
  - by rewrite list_lookup_insert_ne by congruence.
Qed.

Lemma sum_size_insert h l old nd L :
  h !! l = Some old → NoDup L →
  sumZ (size_of (<[l := nd]> h)) L =
  sumZ (size_of h) L + if decide (l ∈ L) then nd_Size nd - nd_Size old else 0.
Proof.
  intros Hl. pose proof (lookup_lt_Some _ _ _ Hl) as Hlt.
  induction 1 as [|c L Hc Hnd IH]; simpl; [done|].
  rewrite IH, size_of_insert by done.
  assert (l ∈ L → c ≠ l) by (intros ? ->; done).
  destruct (decide (c = l)) as [->|Hne].
  - unfold size_of at 2. rewrite Hl.
    rewrite (decide_False (P := l ∈ L)) by done.
    rewrite decide_True by (by left). lia.
  - destruct (decide (l ∈ L)); [rewrite decide_True by (by right)
      |rewrite decide_False by (intros [->|?]%elem_of_cons; done)]; lia.
Qed.

Lemma store_same_skel h l nd nd' :
  h !! l = Some nd → strip nd' = strip nd → same_skel h (<[l := nd']> h).
Proof.
  intros Hl Hs. unfold same_skel. rewrite list_fmap_insert, Hs.
  symmetry. apply list_insert_id. by rewrite list_lookup_fmap, Hl.
Qed.

(** The defect leaves the tree at a root. *)
Lemma sizes_shift_root h roots ds l nd d :
  wf_shape h roots → sizes_off h roots ds l d →
  h !! l = Some nd → nd_Parent nd = None →
  sizes_ok (<[l := set_nd_size (nd_Size nd + d) nd]> h) roots (ds + d).
Proof.
  intros W S Hnd Hp. pose proof (lookup_lt_Some _ _ _ Hnd) as Hl.
  pose proof (ws_up _ _ _ _ W Hnd) as Hroot. rewrite Hp in Hroot.
  assert (∀ x nd' k a, h !! x = Some nd' → nd_Atoms nd' !! k = Some a → l ∉ at_Left a) as Hno.
  { intros x nd' k a Hx Hk Hin.
    destruct (ws_down _ _ _ _ _ _ _ W Hx Hk Hin) as (cd & Hcd & Hpar & _). congruence. }
  apply (sizes_off_0 _ _ _ l). split.
  - intros x nd' k a Hx Hk. apply list_lookup_insert_Some in Hx as [(<- & <- & _)|[Hne Hx]].
    + rewrite (so_atom _ _ _ _ _ S l nd k a) by done.
      rewrite (sum_size_insert _ _ nd) by (done || by eapply ws_nodup).
      rewrite (decide_False (P := l ∈ at_Left a)) by (by eapply Hno). lia.
    + rewrite (so_atom _ _ _ _ _ S x nd' k a) by done.
      rewrite (sum_size_insert _ _ nd) by (done || by eapply ws_nodup).
      rewrite (decide_False (P := l ∈ at_Left a)) by (by eapply Hno). lia.
  - intros x nd' Hx. apply list_lookup_insert_Some in Hx as [(<- & <- & _)|[Hne Hx]].
    + pose proof (so_node _ _ _ _ _ S _ _ Hnd). rewrite decide_True in * by done.
      simpl. lia.
    + pose proof (so_node _ _ _ _ _ S _ _ Hx). rewrite decide_False in * by done. lia.
  - rewrite (sum_size_insert _ _ nd) by (done || apply (ws_nodup_roots _ _ W)).
    rewrite decide_True by done. rewrite (so_doc _ _ _ _ _ S). simpl. lia.
Qed.

(** Elsewhere it moves to the parent, whose slot is corrected. *)
Lemma sizes_shift_parent h roots ds l nd p pd k a d :
  wf_shape h roots → sizes_off h roots ds l d →
  h !! l = Some nd → nd_Parent nd = Some p → h !! p = Some pd → (p < l)%nat →
  nd_Atoms pd !! k = Some a → l ∈ at_Left a → nd_ParentN nd = Z.of_nat k →
  sizes_off
    (<[p := set_nd_atoms (<[k := mkAtom (at_State a) (at_Atom a) (at_Size a + d) (at_Left a)]>
              (nd_Atoms pd)) pd]> (<[l := set_nd_size (nd_Size nd + d) nd]> h))
    roots ds p d.
Proof.
  intros W S Hnd Hp Hpd Hpl Ha Hla HN.
  pose proof (lookup_lt_Some _ _ _ Hnd) as Hl.
  set (nd1 := set_nd_size _ nd). set (a' := mkAtom _ _ _ _).
  set (pd1 := set_nd_atoms _ pd). set (h1 := <[l := nd1]> h).
  assert (h1 !! p = Some pd) as Hpd1 by (unfold h1; by rewrite list_lookup_insert_ne by lia).
  assert (∀ L, NoDup L → sumZ (size_of (<[p := pd1]> h1)) L =
    sumZ (size_of h) L + if decide (l ∈ L) then d else 0) as Hsum.
  { intros L HL. rewrite (sum_size_insert h1 p pd) by done. unfold h1.
    rewrite (sum_size_insert h l nd) by done. simpl.
    destruct (decide (p ∈ L)), (decide (l ∈ L)); lia. }
  assert (∀ x nd' j b, h !! x = Some nd' → nd_Atoms nd' !! j = Some b → l ∈ at_Left b →
    x = p ∧ j = k) as Huniq.
  { intros x nd' j b Hx Hj Hin.
    destruct (ws_down _ _ _ _ _ _ _ W Hx Hj Hin) as (cd & Hcd & Hpar & HN').
    simplify_eq. split; [done|lia]. }
  assert (∀ x nd' j b, h !! x = Some nd' → nd_Atoms nd' !! j = Some b → (x ≠ p ∨ j ≠ k) →
    at_Size b = sumZ (size_of (<[p := pd1]> h1)) (at_Left b) + zlen (achar b)) as Hatom.
  { intros x nd' j b Hx Hj Hne. rewrite (so_atom _ _ _ _ _ S x nd' j b) by done.
    rewrite Hsum by (by eapply ws_nodup). rewrite decide_False; [lia|].
    intros Hin. destruct (Huniq _ _ _ _ Hx Hj Hin). tauto. }
  split.
  - intros x nd' j b Hx Hj. apply list_lookup_insert_Some in Hx as [(<- & <- & _)|[Hne Hx]].
    + apply list_lookup_insert_Some in Hj as [(<- & <- & _)|[Hne Hj]].
      * pose proof (so_atom _ _ _ _ _ S _ _ _ _ Hpd Ha).
        rewrite Hsum by (simpl; by eapply ws_nodup). simpl.
        rewrite decide_True by done. unfold achar in *; simpl. lia.
      * apply (Hatom _ _ _ _ Hpd Hj). by right.
    + apply list_lookup_insert_Some in Hx as [(<- & <- & _)|[Hne' Hx]].
      * apply (Hatom _ _ _ _ Hnd Hj). left. lia.
      * apply (Hatom _ _ _ _ Hx Hj). by left.
  - intros x nd' Hx. apply list_lookup_insert_Some in Hx as [(<- & <- & _)|[Hne Hx]].
    + pose proof (so_node _ _ _ _ _ S _ _ Hpd) as Hsz. rewrite decide_False in Hsz by lia.
      rewrite decide_True by done. simpl. rewrite (sumZ_insert _ _ _ a) by done.
      simpl. lia.
    + rewrite decide_False by done.
      apply list_lookup_insert_Some in Hx as [(<- & <- & _)|[Hne' Hx]].
      * pose proof (so_node _ _ _ _ _ S _ _ Hnd). rewrite decide_True in * by done.
        simpl. lia.
      * pose proof (so_node _ _ _ _ _ S _ _ Hx). rewrite decide_False in * by done. lia.
  - rewrite Hsum by apply (ws_nodup_roots _ _ W). rewrite (so_doc _ _ _ _ _ S).
    rewrite decide_False; [lia|]. intros Hin.
    destruct (ws_roots _ _ _ W Hin) as (cd & Hcd & Hn). congruence.
Qed.

(** One step of [updateSize]: the node's size is corrected and the defect
    moves to its parent's slot, which is corrected too. *)
Lemma updateSize_fuel_ok f doc l d :
  let h := dc_heap doc in
  wf_shape h (dc_Doc doc) → sizes_off h (dc_Doc doc) (dc_Size doc) l d →
  (l < f)%nat → (l < length h)%nat →
  ∃ doc', updateSize_fuel f doc l d = Ok doc' ∧
    dc_Doc doc' = dc_Doc doc ∧ dc_Nodes doc' = dc_Nodes doc ∧
    same_skel h (dc_heap doc') ∧
    sizes_ok (dc_heap doc') (dc_Doc doc') (dc_Size doc').
Proof.
  revert doc l. induction f as [|f IH]; intros doc l h W S Hf Hl; [lia|].
  destruct (lookup_lt_is_Some_2 _ _ Hl) as [nd Hnd]. simpl. fold h.
  rewrite (deref_Some _ _ _ Hnd), bind_Ok.
  set (nd1 := set_nd_size (nd_Size nd + d) nd). set (h1 := <[l := nd1]> h).
  assert (same_skel h h1) as Sk1 by (by apply (store_same_skel _ _ nd)).
  assert (h1 !! l = Some nd1) as Hnd1 by (by apply list_lookup_insert_eq).
  assert (∀ x, x ≠ l → h1 !! x = h !! x) as Hother by (intros; by apply list_lookup_insert_ne).
  pose proof (so_node _ _ _ _ _ S _ _ Hnd) as Hsz. rewrite decide_True in Hsz by done.
  destruct (nd_Parent nd) as [p|] eqn:Hp.
  - destruct (parent_slot _ _ _ _ _ W Hnd Hp) as (pd & k & a & Hpl & Hpd & Ha & Hla & HN).
    rewrite HN. fold nd1. fold h1.
    rewrite (deref_Some h1 p pd) by (rewrite Hother by lia; done). rewrite bind_Ok.
    rewrite (index_Some _ _ _ Ha), bind_Ok, Nat2Z.id.
    rewrite slice_set_Ok by (by eapply lookup_lt_Some). rewrite bind_Ok.
    set (a' := mkAtom (at_State a) (at_Atom a) (at_Size a + d) (at_Left a)).
    set (pd1 := set_nd_atoms (<[k := a']> (nd_Atoms pd)) pd).
    set (doc2 := store p pd1 (store l nd1 doc)).
    assert (h1 !! p = Some pd) as Hpd' by (rewrite Hother by lia; done).
    assert (same_skel h1 (dc_heap doc2)) as Sk2.
    { apply (store_same_skel _ _ pd); [done|]. unfold pd1, strip, set_nd_atoms; simpl.
      f_equal. change (map astrip) with (fmap (M:=list) astrip).
      rewrite list_fmap_insert. apply list_insert_id. by rewrite list_lookup_fmap, Ha. }
    assert (same_skel h (dc_heap doc2)) as Sk by (by transitivity h1).
    destruct (IH doc2 p) as (doc' & -> & H1 & H2 & H3 & H4).
    + by rewrite <-Sk.
    + by eapply (sizes_shift_parent h).
    + lia.
    + rewrite <-(same_skel_length _ _ Sk). lia.
    + exists doc'. split_and!; [done..|by transitivity (dc_heap doc2)|done].
  - eexists; split; [reflexivity|]. split_and!; [done|done|done|].
    by apply sizes_shift_root.
Qed.

(** With the right sizes everywhere, sizes are lengths of texts. *)
Section sizes_are_lengths.
Context (h : list DocNode) (roots : list loc) (ds : Z).
Context (W : wf_shape h roots) (S : sizes_ok h roots ds).

Lemma node_size_sum l nd : h !! l = Some nd → nd_Size nd = sumZ at_Size (nd_Atoms nd).
Proof.
  intros Hl. pose proof (so_node _ _ _ _ _ S _ _ Hl).
  destruct (decide (l = 0%nat)); lia.
Qed.

Lemma size_of_zlen l : (l < length h)%nat → size_of h l = zlen (nstr h l).
Proof.
  remember (length h - l)%nat as m eqn:Hm.
  revert l Hm. induction (lt_wf m) as [m _ IH]. intros l -> Hl.
  destruct (lookup_lt_is_Some_2 _ _ Hl) as [nd Hnd].
  unfold size_of. rewrite Hnd, (nstr_unfold _ _ _ _ W Hnd), (node_size_sum _ _ Hnd).
  rewrite <-sumZ_concat_zlen. apply sumZ_ext. intros a [k Ha]%list_elem_of_lookup.
  rewrite (so_atom _ _ _ _ _ S _ _ _ _ Hnd Ha). unfold astr, lstr.
  rewrite zlen_app, <-sumZ_concat_zlen. f_equal. apply sumZ_ext. intros c Hc.
  pose proof (ws_child_lt _ _ _ _ _ _ _ W Hnd Ha Hc). eapply IH; [|done|]; lia.
Qed.

Lemma sum_size_zlen ls :
  (∀ c, c ∈ ls → (c < length h)%nat) → sumZ (size_of h) ls = zlen (lstr h ls).
Proof.
  intros H. unfold lstr. rewrite <-sumZ_concat_zlen. apply sumZ_ext.
  intros c Hc. apply size_of_zlen. auto.
Qed.

Lemma atom_size_zlen l nd k a :
  h !! l = Some nd → nd_Atoms nd !! k = Some a → at_Size a = zlen (astr h a).
Proof.
  intros Hl Ha. rewrite (so_atom _ _ _ _ _ S _ _ _ _ Hl Ha). unfold astr.
  rewrite zlen_app, sum_size_zlen; [done|]. intros c Hc.
  pose proof (ws_child_lt _ _ _ _ _ _ _ W Hl Ha Hc). lia.
Qed.

Lemma atoms_size_zlen l nd atoms :
  h !! l = Some nd → atoms ⊆ nd_Atoms nd →
  sumZ at_Size atoms = zlen (concat (map (astr h) atoms)).
Proof.
  intros Hl Hsub. rewrite <-sumZ_concat_zlen. apply sumZ_ext.
  intros a Ha%Hsub%list_elem_of_lookup. destruct Ha as [k Ha].
  by eapply atom_size_zlen.
Qed.

Lemma root_lt c : c ∈ roots → (c < length h)%nat.
Proof. intros Hc. destruct (ws_roots _ _ _ W Hc) as (cd & Hcd & _).
  by eapply lookup_lt_Some. Qed.

Lemma doc_size_zlen : ds = zlen (lstr h roots).
Proof.
  rewrite (so_doc _ _ _ _ _ S). apply sum_size_zlen. apply root_lt.
Qed.
End sizes_are_lengths.

(** ** The position of a node *)

Lemma foldM_sizes atoms acc n :
  (n ≤ length atoms)%nat →
  foldM (λ acc i, atom ← index atoms i; Ok (acc + at_Size atom)) acc (seqZ 0 (Z.of_nat n))
  = Ok (acc + sumZ at_Size (take n atoms)).
Proof.
  revert acc; induction n as [|n IH]; intros acc Hn; [simpl; by rewrite Z.add_0_r|].
  replace (Z.of_nat (S n)) with (Z.of_nat n + 1) by lia.
  rewrite seqZ_app by lia. rewrite foldM_app, IH by lia. simpl.
  destruct (lookup_lt_is_Some_2 atoms n ltac:(lia)) as [a Ha].
  replace (Z.of_nat 0 + (0 + Z.of_nat n)) with (Z.of_nat n) by lia.
  rewrite (index_Some _ _ _ Ha). simpl.
  rewrite (take_S_r _ _ _ Ha), sumZ_app. simpl. f_equal. lia.
Qed.

Lemma size_before_Ok h (l : loc) A B acc :
  l ∉ A → (∀ c, c ∈ A → (c < length h)%nat) →
  size_before h l (A ++ l :: B) acc = Ok (acc + sumZ (size_of h) A).
Proof.
  revert acc; induction A as [|c A IH]; intros acc Hl HA; simpl.
  { rewrite decide_True by done. f_equal. lia. }
  apply not_elem_of_cons in Hl as [Hne Hl]. rewrite decide_False by done.
  destruct (lookup_lt_is_Some_2 h c) as [cd Hcd]; [apply HA; by left|].
  rewrite (deref_Some _ _ _ Hcd); simpl. rewrite IH by (done || intros; apply HA; by right).
  unfold size_of at 2. rewrite Hcd. f_equal. lia.
Qed.

Lemma elem_split_nodup {A} (x : A) l :
  NoDup l → x ∈ l → ∃ l1 l2, l = l1 ++ x :: l2 ∧ (x ∉ l1) ∧ (x ∉ l2).
Proof.
  intros Hnd Hin. apply list_elem_of_split in Hin as (l1 & l2 & ->).
  exists l1, l2. apply NoDup_app in Hnd as (_ & H1 & H2).
  apply NoDup_cons in H2 as [H2 _]. split_and!; [done| |done].
  intros Hx. apply (H1 x Hx). by left.
Qed.

Lemma elem_of_siblings {A} (x y : A) l1 l2 : x ∈ l1 ++ l2 → x ∈ l1 ++ y :: l2.
Proof. rewrite !elem_of_app, elem_of_cons. tauto. Qed.

Lemma lstr_app h l1 l2 : lstr h (l1 ++ l2) = lstr h l1 ++ lstr h l2.
Proof. unfold lstr. by rewrite map_app, concat_app. Qed.
Lemma lstr_cons h l ls : lstr h (l :: ls) = nstr h l ++ lstr h ls.
Proof. done. Qed.

(** Changing the heap inside the subtree of [l] changes the text of the
    siblings list that contains [l] only in the part that is [l]'s. *)
Lemma lstr_siblings h h' roots roots' l nd A B :
  wf_shape h roots → wf_shape h' roots' → h !! l = Some nd → l ∉ A → l ∉ B →
  (∀ c, c ∈ A ++ B → ∃ cd, h !! c = Some cd ∧ nd_Parent cd = nd_Parent nd) →
  agree_on (λ y, ¬ desc h l y) h h' →
  lstr h' (A ++ l :: B) = lstr h A ++ nstr h' l ++ lstr h B.
Proof.
  intros W W' Hl HA HB Hsib Hag.
  assert (∀ c, c ∈ A ++ B → (c < length h)%nat ∧ agree_on (desc h c) h h') as Hc.
  { intros c Hc. destruct (Hsib _ Hc) as (cd & Hcd & Hpar).
    split; [by eapply lookup_lt_Some|]. eapply agree_on_mono; [|done].
    intros y Hy Hy'. refine (siblings_disjoint h roots c l cd nd y W Hcd Hl Hpar _ Hy Hy').
    intros ->. apply elem_of_app in Hc as [?|?]; done. }
  rewrite lstr_app, lstr_cons. f_equal; [|f_equal].
  - eapply lstr_agree; [done..|]. intros c Hcin. apply Hc, elem_of_app. by left.
  - eapply lstr_agree; [done..|]. intros c Hcin. apply Hc, elem_of_app. by right.
Qed.

Lemma astr_agree h h' roots roots' b :
  wf_shape h roots → wf_shape h' roots' →
  (∀ c, c ∈ at_Left b → (c < length h)%nat ∧ agree_on (desc h c) h h') →
  astr h' b = astr h b.
Proof. intros W W' H. unfold astr. f_equal. by eapply lstr_agree. Qed.

Lemma concat_map_split {A B} (f : A → list B) l k a :
  l !! k = Some a →
  concat (map f l) = concat (map f (take k l)) ++ f a ++ concat (map f (drop (S k) l)).
Proof.
  intros H. rewrite <-(take_drop_middle _ _ _ H) at 1.
  by rewrite map_app, concat_app.
Qed.

Lemma nstr_agree_top h h' roots p pd :
  wf_shape h roots → wf_shape h' roots → h !! p = Some pd →
  strip <$> (h' !! p) = Some (strip pd) → nstr h' p = concat (map (astr h') (nd_Atoms pd)).
Proof.
  intros W W' Hp Hs. destruct (h' !! p) as [pd'|] eqn:Hp'; simpl in Hs; [|done].
  rewrite (nstr_unfold _ _ _ _ W' Hp').
  by rewrite (map_astr_strip h' pd' pd) by congruence.
Qed.

(** The same for the atoms of one node: a change confined to the subtrees
    that hang off slot [k] leaves the texts of the other slots alone. *)
Lemma other_slots_agree h h' roots roots' p pd k (P : loc → Prop) :
  wf_shape h roots → wf_shape h' roots' → h !! p = Some pd →
  (∀ y c cd, h !! c = Some cd → nd_Parent cd = Some p → nd_ParentN cd ≠ Z.of_nat k →
     desc h c y → P y) →
  agree_on P h h' →
  concat (map (astr h') (take k (nd_Atoms pd))) = concat (map (astr h) (take k (nd_Atoms pd))) ∧
  concat (map (astr h') (drop (S k) (nd_Atoms pd))) =
  concat (map (astr h) (drop (S k) (nd_Atoms pd))).
Proof.
  intros W W' Hpd HP Hag.
  assert (∀ j b, nd_Atoms pd !! j = Some b → j ≠ k → astr h' b = astr h b) as Hb.
  { intros j b Hj Hne. eapply astr_agree; [done..|]. intros c Hc.
    pose proof (ws_child_lt _ _ _ _ _ _ _ W Hpd Hj Hc).
    destruct (ws_down _ _ _ _ _ _ _ W Hpd Hj Hc) as (cd & Hcd & Hpar & HN).
    split; [lia|]. eapply agree_on_mono; [|done]. intros y. eapply HP; eauto. lia. }
  split; f_equal; apply map_ext_in'; intros b [j Hj]%list_elem_of_lookup.
  - apply lookup_take_Some in Hj as [Hj ?]. eapply Hb; [done|lia].
  - rewrite lookup_drop in Hj. eapply Hb; [done|lia].
Qed.

(** The text before and after a node: [calcPosHelper] computes the length of
    the former, and both are untouched by a change inside the node's subtree. *)
Lemma node_context f doc l nd :
  wf_shape (dc_heap doc) (dc_Doc doc) →
  sizes_ok (dc_heap doc) (dc_Doc doc) (dc_Size doc) →
  dc_heap doc !! l = Some nd → (l < f)%nat →
  ∃ pre post,
    (∀ n, (n ≤ length (nd_Atoms nd))%nat →
       calcPosHelper_fuel f doc l (Z.of_nat n) =
       Ok (zlen pre + sumZ at_Size (take n (nd_Atoms nd)))) ∧
    (∀ h', wf_shape h' (dc_Doc doc) →
       agree_on (λ y, ¬ desc (dc_heap doc) l y) (dc_heap doc) h' →
       lstr h' (dc_Doc doc) = pre ++ nstr h' l ++ post).
Proof.
  set (h := dc_heap doc). set (roots := dc_Doc doc).
  revert l nd. induction f as [|f IH]; intros l nd W S Hl Hf; [lia|].
  destruct (nd_Parent nd) as [p|] eqn:Hp.
  - destruct (parent_slot _ _ _ _ _ W Hl Hp) as (pd & k & a & Hpl & Hpd & Ha & Hla & HN).
    destruct (IH p pd W S Hpd ltac:(lia)) as (pre & post & Hpos & Hctx).
    destruct (elem_split_nodup l (at_Left a)) as (A & B & HL & HlA & HlB);
      [by eapply ws_nodup|done|].
    assert (∀ c, c ∈ A ++ B → ∃ cd, h !! c = Some cd ∧ nd_Parent cd = nd_Parent nd) as Hsib.
    { intros c Hc. destruct (ws_down _ _ _ _ _ _ c W Hpd Ha) as (cd & Hcd & Hpar & _);
        [rewrite HL; by apply elem_of_siblings|]. exists cd. by rewrite Hp. }
    set (before := concat (map (astr h) (take k (nd_Atoms pd)))).
    set (after := concat (map (astr h) (drop (Datatypes.S k) (nd_Atoms pd)))).
    exists (pre ++ before ++ lstr h A), (lstr h B ++ achar a ++ after ++ post).
    assert (sumZ at_Size (take k (nd_Atoms pd)) = zlen before) as Hbefore.
    { apply (atoms_size_zlen h roots _ W S p pd); [done|]. apply subseteq_take. }
    split.
    + intros n Hn. simpl. fold h roots. rewrite (deref_Some _ _ _ Hl). simpl.
      rewrite foldM_sizes by done. simpl. rewrite Hp, (deref_Some _ _ _ Hpd). simpl.
      rewrite HN, (index_Some _ _ _ Ha). simpl. rewrite HL.
      rewrite size_before_Ok; [|done|].
      2:{ intros c Hc. destruct (Hsib c) as (cd & Hcd & _); [by apply elem_of_app; left|].
          by eapply lookup_lt_Some. }
      simpl. rewrite Hpos by (apply Nat.lt_le_incl; by eapply lookup_lt_Some). simpl.
      rewrite Hbefore. rewrite (sum_size_zlen h roots _ W S).
      2:{ intros c Hc. destruct (Hsib c) as (cd & Hcd & _); [by apply elem_of_app; left|].
          by eapply lookup_lt_Some. }
      rewrite !zlen_app. f_equal. lia.
    + intros h' W' Hag. rewrite (Hctx h' W').
      2:{ eapply agree_on_mono; [|done]. intros y Hy Hd. apply Hy.
          by eapply desc_child. }
      assert (nstr h' p = before ++ lstr h' (at_Left a) ++ achar a ++ after) as ->.
      { rewrite (nstr_agree_top h h' roots p pd W W' Hpd).
        2:{ apply Hag; [done|]. intros Hd%(desc_le _ _ _ _ W). lia. }
        rewrite (concat_map_split _ _ _ _ Ha).
        destruct (other_slots_agree h h' roots roots p pd k (λ y, ¬ desc h l y) W W' Hpd)
          as [-> ->]; [|done|].
        - intros y c cd Hc Hcp HcN Hcy Hly.
          refine (siblings_disjoint h roots c l cd nd y W Hc Hl _ _ Hcy Hly);
            [congruence|]. intros ->. congruence.
        - unfold astr at 2. by rewrite <-!app_assoc. }
      rewrite HL, (lstr_siblings h h' roots roots l nd) by done.
      by rewrite <-!app_assoc.
  - pose proof (ws_up _ _ _ _ W Hl) as Hr. rewrite Hp in Hr.
    destruct (elem_split_nodup l roots) as (A & B & HL & HlA & HlB);
      [by eapply ws_nodup_roots|done|].
    assert (∀ c, c ∈ A ++ B → ∃ cd, h !! c = Some cd ∧ nd_Parent cd = nd_Parent nd) as Hsib.
    { intros c Hc. destruct (ws_roots _ _ c W) as (cd & Hcd & Hpar);
        [rewrite HL; by apply elem_of_siblings|]. exists cd. by rewrite Hp. }
    exists (lstr h A), (lstr h B). split.
    + intros n Hn. simpl. fold h roots. rewrite (deref_Some _ _ _ Hl). simpl.
      rewrite foldM_sizes by done. simpl. rewrite Hp, HL.
      assert (∀ c, c ∈ A → (c < length h)%nat) as HA.
      { intros c Hc. destruct (Hsib c) as (cd & Hcd & _); [by apply elem_of_app; left|].
        by eapply lookup_lt_Some. }
      rewrite size_before_Ok by done.
      rewrite (sum_size_zlen h roots _ W S) by done. f_equal. lia.
    + intros h' W' Hag. rewrite HL. by eapply lstr_siblings.
Qed.

(** ** What determines the texts *)

(** If the text of every node's atoms is preserved as soon as the texts of its
    descendants are, all texts are preserved. *)
Lemma nstr_pointwise h h' roots roots' :
  wf_shape h roots → wf_shape h' roots' →
  (∀ x nd, h !! x = Some nd → ∃ nd', h' !! x = Some nd' ∧
     ((∀ c, (x < c < length h)%nat → nstr h' c = nstr h c) →
      concat (map (astr h') (nd_Atoms nd')) = concat (map (astr h) (nd_Atoms nd)))) →
  ∀ x, (x < length h)%nat → nstr h' x = nstr h x.
Proof.
  intros W W' H x. remember (length h - x)%nat as m eqn:Hm.
  revert x Hm. induction (lt_wf m) as [m _ IH]. intros x -> Hx.
  destruct (lookup_lt_is_Some_2 _ _ Hx) as [nd Hnd].
  destruct (H _ _ Hnd) as (nd' & Hnd' & Heq).
  rewrite (nstr_unfold _ _ _ _ W Hnd), (nstr_unfold _ _ _ _ W' Hnd').
  apply Heq. intros c Hc. eapply IH; [|done|]; lia.
Qed.

(** Atoms whose children are all below [h]'s bound. *)
Lemma astr_ext h h' roots x nd k a :
  wf_shape h roots → h !! x = Some nd → nd_Atoms nd !! k = Some a →
  (∀ c, (x < c < length h)%nat → nstr h' c = nstr h c) → astr h' a = astr h a.
Proof.
  intros W Hx Ha H. unfold astr, lstr. f_equal. f_equal. apply map_ext_in'.
  intros c Hc. apply H. by eapply ws_child_lt.
Qed.
