(* ===== verification/TreedocWf.v ===== *)
(** The well-formed documents, and the elementary changes the operations are
    made of: extending a node's atoms, changing a slot, hanging a new node
    below a slot or at the root, and updating the cached sizes. *)
From S2P Require Import Prelude Common BufferOp Treedoc TreedocInv.

Open Scope Z_scope.

Definition id_of (h : list DocNode) (c : loc) : NodeId :=
  match h !! c with Some nd => nd_NodeId nd | None => [] end.
Definition sorted_ids (h : list DocNode) (ls : list loc) : Prop :=
  StronglySorted bytes_le (map (id_of h) ls).

(** [wf_off doc l d]: the document is well formed, except that the cached
    size of [l] lacks [d]. *)
Record wf_off (doc : Document) (l : loc) (d : Z) : Prop := {
  wf_sh : wf_shape (dc_heap doc) (dc_Doc doc);
  wf_sz : sizes_off (dc_heap doc) (dc_Doc doc) (dc_Size doc) l d;
  wf_ids x nd : dc_heap doc !! x = Some nd → dc_Nodes doc !! nd_NodeId nd = Some x;
  wf_nodes id x : dc_Nodes doc !! id = Some x →
    ∃ nd, dc_heap doc !! x = Some nd ∧ nd_NodeId nd = id;
  wf_len x nd : dc_heap doc !! x = Some nd → 0 < zlen (nd_Atoms nd) ≤ w16;
  wf_max x nd a : dc_heap doc !! x = Some nd →
    nd_Atoms nd !! Z.to_nat MAX_ATOMS_PER_NODE = Some a → at_State a = UNINITIALIZED;
  wf_sorted x k : sorted_ids (dc_heap doc) (left_at (dc_heap doc) x k);
  wf_sorted_roots : sorted_ids (dc_heap doc) (dc_Doc doc)
}.
Abbreviation wf doc := (wf_off doc 0%nat 0).

Lemma left_at_nil l k : left_at [] l k = [].
Proof. unfold left_at. by rewrite lookup_nil. Qed.

Lemma wf_NewDocument : wf NewDocument.
Proof.
  split; simpl.
  - split; [intros l q n H; unfold par in H; by rewrite lookup_nil in H
      |intros p k c; rewrite left_at_nil; set_solver
      |set_solver|intros; rewrite left_at_nil; constructor|constructor].
  - split; [| |done]; intros *; by rewrite lookup_nil.
  - intros *. by rewrite lookup_nil.
  - intros id x. by rewrite lookup_empty.
  - intros *. by rewrite lookup_nil.
  - intros *. by rewrite lookup_nil.
  - intros x k. rewrite left_at_nil. constructor.
  - constructor.
Qed.

Lemma dstr_NewDocument : dstr NewDocument = [].
Proof. done. Qed.

Lemma same_skel_id_of h h' c : same_skel h h' → id_of h' c = id_of h c.
Proof.
  intros S. unfold id_of. destruct (h !! c) as [nd|] eqn:Hc.
  - destruct (same_skel_lookup _ _ _ _ S Hc) as (nd' & -> & Hs).
    by apply strip_parent in Hs as (_ & _ & -> & _).
  - rewrite lookup_ge_None_2; [done|]. apply lookup_ge_None_1 in Hc.
    by rewrite <-(same_skel_length _ _ S).
Qed.

Lemma same_skel_left_at h h' l k : same_skel h h' → left_at h' l k = left_at h l k.
Proof.
  intros S. unfold left_at. destruct (h !! l) as [nd|] eqn:Hl.
  - destruct (same_skel_lookup _ _ _ _ S Hl) as (nd' & -> & Hs).
    destruct (nd_Atoms nd !! k) as [a|] eqn:Ha.
    + symmetry in Hs. by destruct (strip_atom _ _ _ _ Hs Ha) as (a' & -> & _ & _ & ->).
    + destruct (nd_Atoms nd' !! k) as [a'|] eqn:Ha'; [|done].
      destruct (strip_atom _ _ _ _ Hs Ha') as (? & ? & _). congruence.
  - rewrite lookup_ge_None_2; [done|]. apply lookup_ge_None_1 in Hl.
    by rewrite <-(same_skel_length _ _ S).
Qed.

Lemma strip_atoms_length nd nd' : strip nd = strip nd' →
  length (nd_Atoms nd) = length (nd_Atoms nd').
Proof. intros (_ & _ & _ & H%(f_equal length))%strip_parent. by rewrite !length_map in H. Qed.

Lemma sorted_ids_ext h h' ls :
  (∀ c, c ∈ ls → id_of h' c = id_of h c) → sorted_ids h ls → sorted_ids h' ls.
Proof. intros H. unfold sorted_ids. by rewrite (map_ext_in' (id_of h') (id_of h)). Qed.

(** [updateSize] repairs a defect. *)
Lemma updateSize_ok doc l d :
  wf_off doc l d → (l < length (dc_heap doc))%nat →
  ∃ doc', updateSize doc l d = Ok doc' ∧ wf doc' ∧ dc_Doc doc' = dc_Doc doc ∧
    dc_Nodes doc' = dc_Nodes doc ∧ same_skel (dc_heap doc) (dc_heap doc').
Proof.
  intros W Hl. destruct (updateSize_fuel_ok (walk_fuel doc) doc l d)
    as (doc' & Hu & HD & HN & S & Sz); [apply W|apply W|unfold walk_fuel; lia|done|].
  exists doc'. split_and!; [done| |done..].
  assert (∀ x nd', dc_heap doc' !! x = Some nd' →
    ∃ nd, dc_heap doc !! x = Some nd ∧ strip nd = strip nd') as Hback.
  { intros x nd' Hx. symmetry in S. eapply same_skel_lookup; eauto. }
  split.
  - rewrite HD, <-S. apply W.
  - done.
  - intros x nd' Hx. destruct (Hback _ _ Hx) as (nd & Hnd & Hs).
    apply strip_parent in Hs as (_ & _ & <- & _). rewrite HN. by apply W.
  - intros id x. rewrite HN. intros (nd & Hnd & <-)%(wf_nodes _ _ _ W).
    destruct (same_skel_lookup _ _ _ _ S Hnd) as (nd' & Hnd' & Hs).
    apply strip_parent in Hs as (_ & _ & Hi & _). eauto.
  - intros x nd' Hx. destruct (Hback _ _ Hx) as (nd & Hnd & Hs).
    unfold zlen. rewrite <-(strip_atoms_length _ _ Hs). by apply (wf_len _ _ _ W _ _ Hnd).
  - intros x nd' a Hx Ha. destruct (Hback _ _ Hx) as (nd & Hnd & Hs). symmetry in Hs.
    destruct (strip_atom _ _ _ _ Hs Ha) as (b & Hb & <- & _). by eapply (wf_max _ _ _ W).
  - intros x k. rewrite (same_skel_left_at _ _ _ _ S).
    eapply sorted_ids_ext; [|apply W]. intros. by apply same_skel_id_of.
  - rewrite HD. eapply sorted_ids_ext; [|apply W]. intros. by apply same_skel_id_of.
Qed.

(** ** Locating a slot in the text *)

(** The text around a slot: [calcPosHelper] computes the length of what
    precedes the slot, and the slot's own character sits after its left
    subtree. Changing the character of the slot changes the text there only. *)
Lemma slot_context doc l nd n a :
  wf doc → dc_heap doc !! l = Some nd → nd_Atoms nd !! n = Some a →
  ∃ A B,
    calcPosHelper doc l (Z.of_nat n) = Ok (zlen A - zlen (lstr (dc_heap doc) (at_Left a))) ∧
    ∀ a' h', at_Left a' = at_Left a →
      same_skel (<[l := set_nd_atoms (<[n := a']> (nd_Atoms nd)) nd]> (dc_heap doc)) h' →
      lstr h' (dc_Doc doc) = A ++ achar a' ++ B.
Proof.
  intros W Hl Ha. pose proof (wf_sh _ _ _ W) as Sh. pose proof (wf_sz _ _ _ W) as Sz.
  set (h := dc_heap doc) in *.
  pose proof (lookup_lt_Some _ _ _ Hl) as Hlt. pose proof (lookup_lt_Some _ _ _ Ha) as Hn.
  destruct (node_context (walk_fuel doc) doc l nd Sh Sz Hl) as (pre & post & Hpos & Hctx);
    [unfold walk_fuel; fold h; lia|].
  set (before := concat (map (astr h) (take n (nd_Atoms nd)))).
  set (after := concat (map (astr h) (drop (S n) (nd_Atoms nd)))).
  exists (pre ++ before ++ lstr h (at_Left a)), (after ++ post). split.
  - unfold calcPosHelper. rewrite Hpos by lia. f_equal.
    rewrite (atoms_size_zlen h _ _ Sh Sz l nd) by (done || apply subseteq_take).
    fold before. rewrite !zlen_app. lia.
  - intros a' h' HL Hs. set (nd1 := set_nd_atoms _ nd) in Hs.
    assert (wf_shape (<[l := nd1]> h) (dc_Doc doc)) as Sh1.
    { eapply wf_shape_links; [| |exact Sh].
      - intros x. unfold par. destruct (decide (x = l)) as [->|Hne].
        + rewrite list_lookup_insert_eq by done. by rewrite Hl.
        + by rewrite list_lookup_insert_ne by congruence.
      - intros x k. unfold left_at. destruct (decide (x = l)) as [->|Hne].
        + rewrite list_lookup_insert_eq by done. rewrite Hl. simpl.
          destruct (decide (k = n)) as [->|Hk].
          * rewrite list_lookup_insert_eq by done. by rewrite Ha.
          * by rewrite list_lookup_insert_ne by congruence.
        + by rewrite list_lookup_insert_ne by congruence. }
    assert (wf_shape h' (dc_Doc doc)) as Sh' by (by rewrite <-Hs).
    rewrite (same_skel_lstr _ _ _ _ Sh1 Hs).
    assert (agree_on (λ y, y ≠ l) h (<[l := nd1]> h)) as Hag.
    { intros y ndy Hy Hne. by rewrite list_lookup_insert_ne, Hy by congruence. }
    rewrite (Hctx _ Sh1).
    2:{ eapply agree_on_mono; [|exact Hag]. intros y Hy ->. apply Hy. constructor. }
    assert (<[l := nd1]> h !! l = Some nd1) as Hl1 by (by apply list_lookup_insert_eq).
    rewrite (nstr_unfold _ _ _ _ Sh1 Hl1).
    assert (nd_Atoms nd1 !! n = Some a') as Ha' by (by apply list_lookup_insert_eq).
    rewrite (concat_map_split _ _ _ _ Ha'). simpl.
    rewrite take_insert_ge, drop_insert_lt by lia.
    destruct (other_slots_agree h (<[l := nd1]> h) _ _ l nd n (λ y, y ≠ l) Sh Sh1 Hl)
      as [-> ->]; [|exact Hag|].
    { intros y c cd Hc Hpar _ Hd ->. apply (desc_le _ _ _ _ Sh) in Hd.
      pose proof (ws_up _ _ _ _ Sh Hc) as Hup. rewrite Hpar in Hup. lia. }
    fold before after. unfold astr. rewrite HL.
    rewrite (lstr_agree h (<[l := nd1]> h) _ _ (at_Left a) Sh Sh1).
    2:{ intros c Hc. pose proof (ws_child_lt _ _ _ _ _ _ _ Sh Hl Ha Hc). split; [lia|].
        eapply agree_on_mono; [|exact Hag]. intros y Hd ->.
        apply (desc_le _ _ _ _ Sh) in Hd. lia. }
    by rewrite <-!app_assoc.
Qed.

(** ** Changing the atoms of one node *)

Definition lefts (nd : DocNode) (k : nat) : list loc :=
  match nd_Atoms nd !! k with Some a => at_Left a | None => [] end.

Lemma left_at_lefts h l nd k : h !! l = Some nd → left_at h l k = lefts nd k.
Proof. unfold left_at. by intros ->. Qed.

Lemma left_at_store h l nd k x :
  (l < length h)%nat →
  left_at (<[l := nd]> h) x k = if decide (x = l) then lefts nd k else left_at h x k.
Proof.
  intros Hl. case_decide; subst.
  - apply left_at_lefts. by apply list_lookup_insert_eq.
  - unfold left_at. by rewrite list_lookup_insert_ne by congruence.
Qed.

Lemma sizes_store h roots ds l nd nd' d :
  sizes_ok h roots ds → h !! l = Some nd → nd_Size nd' = nd_Size nd →
  (∀ k a, nd_Atoms nd' !! k = Some a →
     at_Size a = sumZ (size_of h) (at_Left a) + zlen (achar a)) →
  nd_Size nd + d = sumZ at_Size (nd_Atoms nd') →
  sizes_off (<[l := nd']> h) roots ds l d.
Proof.
  intros Sz Hl Hsize Hat Hd. pose proof (lookup_lt_Some _ _ _ Hl) as Hlt.
  assert (∀ L, sumZ (size_of (<[l := nd']> h)) L = sumZ (size_of h) L) as Hsum.
  { intros L. apply sumZ_ext. intros c _. rewrite size_of_insert by done.
    case_decide; subst; [|done]. unfold size_of. by rewrite Hl. }
  split.
  - intros x ndx k a Hx Ha. rewrite Hsum.
    apply list_lookup_insert_Some in Hx as [(<- & <- & _)|[_ Hx]]; [by eapply Hat|].
    by eapply so_atom.
  - intros x ndx Hx.
    apply list_lookup_insert_Some in Hx as [(<- & <- & _)|[Hne Hx]].
    + rewrite decide_True by done. lia.
    + rewrite decide_False by done. rewrite (node_size_sum _ _ _ Sz _ _ Hx). lia.
  - rewrite Hsum. apply Sz.
Qed.

(** Storing a node with the same identity and the same left subtrees. *)
Lemma wf_store doc l nd nd' d :
  wf doc → dc_heap doc !! l = Some nd →
  nd_Parent nd' = nd_Parent nd → nd_ParentN nd' = nd_ParentN nd →
  nd_NodeId nd' = nd_NodeId nd → (∀ k, lefts nd' k = lefts nd k) →
  0 < zlen (nd_Atoms nd') ≤ w16 →
  (∀ a, nd_Atoms nd' !! Z.to_nat MAX_ATOMS_PER_NODE = Some a → at_State a = UNINITIALIZED) →
  sizes_off (<[l := nd']> (dc_heap doc)) (dc_Doc doc) (dc_Size doc) l d →
  wf_off (store l nd' doc) l d.
Proof.
  intros W Hl HP HN HI HL Hlen Hmax Hsz.
  pose proof (lookup_lt_Some _ _ _ Hl) as Hlt.
  assert (∀ x k, left_at (<[l := nd']> (dc_heap doc)) x k = left_at (dc_heap doc) x k) as HLA.
  { intros x k. rewrite left_at_store by done. case_decide; subst; [|done].
    by rewrite HL, (left_at_lefts _ _ nd). }
  assert (∀ c, id_of (<[l := nd']> (dc_heap doc)) c = id_of (dc_heap doc) c) as HID.
  { intros c. unfold id_of. destruct (decide (c = l)) as [->|Hne].
    - by rewrite list_lookup_insert_eq, Hl.
    - by rewrite list_lookup_insert_ne by congruence. }
  split; simpl.
  - eapply wf_shape_links; [|exact HLA|apply W]. intros x. unfold par.
    destruct (decide (x = l)) as [->|Hne].
    + rewrite list_lookup_insert_eq, Hl by done. simpl. by rewrite HP, HN.
    + by rewrite list_lookup_insert_ne by congruence.
  - done.
  - intros x ndx Hx. apply list_lookup_insert_Some in Hx as [(<- & <- & _)|[_ Hx]].
    + rewrite HI. by apply W.
    + by apply W.
  - intros id x (ndx & Hx & <-)%(wf_nodes _ _ _ W).
    destruct (decide (x = l)) as [->|Hne].
    + exists nd'. rewrite list_lookup_insert_eq by done. split; [done|]. congruence.
    + exists ndx. by rewrite list_lookup_insert_ne by congruence.
  - intros x ndx Hx. apply list_lookup_insert_Some in Hx as [(<- & <- & _)|[_ Hx]];
      [done|by eapply wf_len].
  - intros x ndx a Hx. apply list_lookup_insert_Some in Hx as [(<- & <- & _)|[_ Hx]];
      [auto|by eapply wf_max].
  - intros x k. rewrite HLA. eapply sorted_ids_ext; [|apply W]. auto.
  - eapply sorted_ids_ext; [|apply W]. auto.
Qed.

(** *** Extending the atoms *)

Definition ext_atoms (atoms : list Atom) (i : Z) : list Atom :=
  atoms ++ replicate (Z.to_nat (i + 1) - length atoms) zero_atom.

Lemma extendAtomToSize_ok atoms i :
  0 < zlen atoms → extendAtomToSize atoms i = Ok (ext_atoms atoms i).
Proof. destruct atoms; [done|]. done. Qed.

Lemma lookup_ext_atoms atoms i k a :
  ext_atoms atoms i !! k = Some a →
  atoms !! k = Some a ∨ ((length atoms ≤ k)%nat ∧ a = zero_atom).
Proof.
  unfold ext_atoms. intros [H|[H1 H2]]%lookup_app_Some; [by left|right].
  by apply lookup_replicate in H2 as [-> _].
Qed.

Lemma ext_atoms_old atoms i k a : atoms !! k = Some a → ext_atoms atoms i !! k = Some a.
Proof. intros. unfold ext_atoms. by apply lookup_app_l_Some. Qed.

Lemma ext_atoms_slot atoms i :
  0 ≤ i → ∃ a, ext_atoms atoms i !! Z.to_nat i = Some a.
Proof.
  intros Hi. apply lookup_lt_is_Some_2. unfold ext_atoms.
  rewrite length_app, length_replicate. lia.
Qed.

Lemma zlen_ext_atoms atoms i :
  0 ≤ i → zlen (ext_atoms atoms i) = zlen atoms `max` (i + 1).
Proof. intros. unfold zlen, ext_atoms. rewrite length_app, length_replicate. lia. Qed.

Lemma ext_atoms_id atoms i : i < zlen atoms → ext_atoms atoms i = atoms.
Proof.
  unfold ext_atoms, zlen. intros. replace (_ - _)%nat with 0%nat by lia.
  apply app_nil_r.
Qed.

Lemma lefts_ext nd i k : lefts (set_nd_atoms (ext_atoms (nd_Atoms nd) i) nd) k = lefts nd k.
Proof.
  unfold lefts. simpl. destruct (nd_Atoms nd !! k) as [a|] eqn:Ha.
  - by rewrite (ext_atoms_old _ _ _ _ Ha).
  - destruct (ext_atoms (nd_Atoms nd) i !! k) as [a|] eqn:Ha'; [|done].
    apply lookup_ext_atoms in Ha' as [?|[_ ->]]; [congruence|done].
Qed.

Lemma concat_astr_ext h atoms i :
  concat (map (astr h) (ext_atoms atoms i)) = concat (map (astr h) atoms).
Proof.
  unfold ext_atoms. rewrite map_app, concat_app.
  assert (∀ n, concat (map (astr h) (replicate n zero_atom)) = []) as ->;
    [|apply app_nil_r]. induction n; simpl; done.
Qed.

Definition extended (i : Z) (nd : DocNode) : DocNode :=
  set_nd_atoms (ext_atoms (nd_Atoms nd) i) nd.

Lemma wf_extend doc l nd i :
  wf doc → dc_heap doc !! l = Some nd → 0 ≤ i < w16 →
  wf (store l (extended i nd) doc).
Proof.
  intros W Hl Hi. apply wf_len with (1 := W) in Hl as Hlen.
  assert (wf_off (store l (extended i nd) doc) l 0) as W'.
  { eapply wf_store; eauto.
    - intros k. apply lefts_ext.
    - simpl. rewrite zlen_ext_atoms by lia. unfold w16 in *. lia.
    - intros a [Ha|[_ ->]]%lookup_ext_atoms; [by eapply wf_max|done].
    - apply (sizes_store _ _ _ _ nd); simpl; [apply W|done..| |].
      + intros k a [Ha|[_ ->]]%lookup_ext_atoms; [|done].
        by eapply so_atom; [apply W|..].
      + rewrite (node_size_sum _ _ _ (wf_sz _ _ _ W) _ _ Hl). unfold ext_atoms.
        rewrite sumZ_app, sumZ_replicate. simpl. lia. }
  destruct W' as [? Sz]; split; try done. by eapply sizes_off_0.
Qed.

Lemma nstr_extend doc l nd i x :
  wf doc → dc_heap doc !! l = Some nd → 0 ≤ i < w16 → (x < length (dc_heap doc))%nat →
  nstr (dc_heap (store l (extended i nd) doc)) x = nstr (dc_heap doc) x.
Proof.
  intros W Hl Hi. pose proof (wf_extend _ _ _ _ W Hl Hi) as W'.
  pose proof (lookup_lt_Some _ _ _ Hl) as Hlt. revert x.
  eapply nstr_pointwise; [apply W|apply W'|]. intros x ndx Hx. simpl.
  destruct (decide (x = l)) as [->|Hne].
  - simplify_eq. rewrite list_lookup_insert_eq by done. eexists; split; [done|].
    intros Hc. simpl. rewrite concat_astr_ext. f_equal. apply map_ext_in'.
    intros a [k Ha]%list_elem_of_lookup. eapply astr_ext; [apply W|..]; eauto.
  - rewrite list_lookup_insert_ne by congruence. exists ndx. split; [done|].
    intros Hc. f_equal. apply map_ext_in'.
    intros a [k Ha]%list_elem_of_lookup. eapply astr_ext; [apply W|..]; eauto.
Qed.

Lemma dstr_extend doc l nd i :
  wf doc → dc_heap doc !! l = Some nd → 0 ≤ i < w16 →
  dstr (store l (extended i nd) doc) = dstr doc.
Proof.
  intros W Hl Hi. unfold dstr, lstr. f_equal. apply map_ext_in'. intros c Hc.
  eapply nstr_extend; eauto. by eapply root_lt; [apply W|].
Qed.

(** *** Changing the state of a slot *)

Definition with_slot (n : nat) (a : Atom) (nd : DocNode) : DocNode :=
  set_nd_atoms (<[n := a]> (nd_Atoms nd)) nd.

Lemma wf_set_slot doc l nd n a a' d :
  wf doc → dc_heap doc !! l = Some nd → nd_Atoms nd !! n = Some a →
  at_Left a' = at_Left a → at_Size a' = at_Size a + d →
  zlen (achar a') = zlen (achar a) + d →
  (n = Z.to_nat MAX_ATOMS_PER_NODE → at_State a' = UNINITIALIZED) →
  wf_off (store l (with_slot n a' nd) doc) l d.
Proof.
  intros W Hl Ha HL HS Hc Hmax. pose proof (lookup_lt_Some _ _ _ Ha) as Hlt.
  eapply wf_store; eauto.
  - intros k. unfold lefts, with_slot; simpl. destruct (decide (k = n)) as [->|Hne].
    + by rewrite list_lookup_insert_eq, Ha.
    + by rewrite list_lookup_insert_ne by congruence.
  - unfold with_slot, zlen; simpl. rewrite length_insert. by eapply wf_len.
  - intros b Hb. apply list_lookup_insert_Some in Hb as [(-> & <- & _)|[_ Hb]];
      [auto|by eapply wf_max].
  - apply (sizes_store _ _ _ _ nd); [apply W|done|done| |].
    + intros k b Hb. apply list_lookup_insert_Some in Hb as [(<- & <- & _)|[_ Hb]].
      * rewrite HL, HS, Hc, (so_atom _ _ _ _ _ (wf_sz _ _ _ W) _ _ _ _ Hl Ha). lia.
      * by eapply so_atom; [apply W|..].
    + simpl. rewrite (sumZ_insert _ _ _ a) by done.
      rewrite (node_size_sum _ _ _ (wf_sz _ _ _ W) _ _ Hl). lia.
Qed.

(** ** Sorted insertion *)

Lemma deref_id h c nd : deref h c = Ok nd → id_of h c = nd_NodeId nd.
Proof. unfold deref, id_of. intros ->%require_Ok_inv. done. Qed.

Lemma insertion_index_ok h id L n :
  (∀ c, c ∈ L → (c < length h)%nat) → (n ≤ length L)%nat →
  (∀ j c, (n ≤ j)%nat → L !! j = Some c → bytes_Compare id (id_of h c) ≠ Gt) →
  ∃ a, insertion_index h id L n = Ok a ∧ (a ≤ length L)%nat ∧
    (∀ b c, a = S b → L !! b = Some c → bytes_Compare id (id_of h c) = Gt) ∧
    (∀ j c, (a ≤ j)%nat → L !! j = Some c → bytes_Compare id (id_of h c) ≠ Gt).
Proof.
  intros HL. induction n as [|n IH]; intros Hn Hafter; cbn [insertion_index].
  { exists 0%nat. split_and!; [done|lia|done|done]. }
  destruct (lookup_lt_is_Some_2 L n ltac:(lia)) as [c Hc].
  rewrite (index_Some _ _ _ Hc), bind_Ok.
  destruct (lookup_lt_is_Some_2 h c) as [nd Hnd].
  { apply HL. by eapply list_elem_of_lookup_2. }
  rewrite (deref_Some _ _ _ Hnd), bind_Ok.
  assert (id_of h c = nd_NodeId nd) as Hid by (unfold id_of; by rewrite Hnd).
  destruct (bytes_Compare id (nd_NodeId nd)) eqn:Hcmp.
  3:{ exists (S n). split_and!; [done|lia| |done].
      intros b c' [= <-] Hc'. simplify_eq. congruence. }
  all: apply IH; [lia|]; intros j c' Hj Hc';
    destruct (decide (j = n)) as [->|]; [simplify_eq; congruence|apply (Hafter j); [lia|done]].
Qed.

Lemma StronglySorted_insert (x : list byte) (l1 l2 : list (list byte)) :
  StronglySorted bytes_le (l1 ++ l2) →
  (∀ y, last l1 = Some y → bytes_le y x) →
  (∀ y, y ∈ l2 → bytes_le x y) →
  StronglySorted bytes_le (l1 ++ x :: l2).
Proof.
  intros HS Hlast Hl2. apply StronglySorted_app in HS as (H12 & H1 & H2).
  apply StronglySorted_app. split_and!; [|done|].
  - intros a b Ha [->|Hb]%elem_of_cons; [|by apply H12].
    destruct (last l1) as [y|] eqn:Hy; [|apply last_None in Hy; subst; set_solver].
    specialize (Hlast y eq_refl).
    apply last_Some in Hy as [l' ->].
    apply elem_of_app in Ha as [Ha|Ha%list_elem_of_singleton]; [|by subst].
    etransitivity; [|exact Hlast]. apply StronglySorted_app in H1 as (H1 & _ & _).
    apply H1; set_solver.
  - constructor; [done|]. by apply Forall_forall.
Qed.

(** The insertion keeps a sorted slice sorted, and adds just the new node. *)
Lemma insert_sorted_ok h L (node : loc) :
  (node < length h)%nat → (∀ c, c ∈ L → (c < length h)%nat) → sorted_ids h L →
  ∃ L1 L2, L = L1 ++ L2 ∧
    insertNodeIntoDisambiguatorsSorted h L node = Ok (L1 ++ node :: L2) ∧
    sorted_ids h (L1 ++ node :: L2).
Proof.
  intros Hnode HL HS. unfold insertNodeIntoDisambiguatorsSorted.
  destruct (lookup_lt_is_Some_2 _ _ Hnode) as [nd Hnd].
  rewrite (deref_Some _ _ _ Hnd), bind_Ok.
  assert (id_of h node = nd_NodeId nd) as Hid by (unfold id_of; by rewrite Hnd).
  destruct (insertion_index_ok h (nd_NodeId nd) L (length L)) as (a & -> & Ha & Hb & Haft).
  { done. } { lia. } { intros j c Hj Hc. apply lookup_lt_Some in Hc. lia. }
  rewrite bind_Ok, slice_insert_spec by done.
  exists (take a L), (drop a L). split_and!; [by rewrite take_drop|done|].
  unfold sorted_ids in *. rewrite map_app. simpl. rewrite Hid.
  apply StronglySorted_insert.
  - by rewrite <-map_app, take_drop.
  - intros y Hy. change (map (id_of h)) with (fmap (M:=list) (id_of h)) in Hy.
    rewrite fmap_last, fmap_Some in Hy. destruct Hy as (c & Hc & ->).
    apply last_lookup_Some in Hc || rewrite last_lookup in Hc.
    rewrite length_take, Nat.min_l in Hc by done.
    destruct a as [|b]; [done|]. simpl in Hc.
    rewrite lookup_take_lt in Hc by lia. specialize (Hb b c eq_refl Hc).
    unfold bytes_le. rewrite bytes_Compare_antisym, Hb. done.
  - intros y (c & -> & Hc)%list_elem_of_fmap. apply list_elem_of_lookup in Hc as [j Hj].
    rewrite lookup_drop in Hj. unfold bytes_le. eapply Haft; [|done]. lia.
Qed.

(** ** New nodes *)

(** A leaf: no left subtrees, and the sizes of its atoms are right. *)
Definition leaf (nd : DocNode) : Prop :=
  ∀ a, a ∈ nd_Atoms nd → at_Left a = [] ∧ at_Size a = zlen (achar a).

Lemma leaf_lefts nd k : leaf nd → lefts nd k = [].
Proof.
  intros H. unfold lefts. destruct (nd_Atoms nd !! k) as [a|] eqn:Ha; [|done].
  apply H. by eapply list_elem_of_lookup_2.
Qed.

Lemma left_at_bound h roots x k c :
  wf_shape h roots → c ∈ left_at h x k → (c < length h)%nat.
Proof.
  intros W Hc. apply left_at_elem in Hc as (nd & a & Hx & Ha & Hc).
  pose proof (ws_child_lt _ _ _ _ _ _ _ W Hx Ha Hc). lia.
Qed.

Section hang.
Context (h : list DocNode) (roots : list loc) (ds : Z).
Context (p : loc) (pd : DocNode) (k : nat) (a : Atom) (L1 L2 : list loc) (nn : DocNode).
Context (W : wf_shape h roots) (Sz : sizes_ok h roots ds).
Context (Hp : h !! p = Some pd) (Ha : nd_Atoms pd !! k = Some a)
  (HL : at_Left a = L1 ++ L2).
Context (Hnp : nd_Parent nn = Some p) (HnN : nd_ParentN nn = Z.of_nat k)
  (Hns : nd_Size nn = 0) (Hleaf : leaf nn).
Let c := length h.
Let a' := mkAtom (at_State a) (at_Atom a) (at_Size a) (L1 ++ c :: L2).
Let h' := <[p := with_slot k a' pd]> (h ++ [nn]).

Lemma hang_p_lt : (p < c)%nat.
Proof using Hp. by eapply lookup_lt_Some. Qed.

Lemma hang_lookup x :
  h' !! x = if decide (x = c) then Some nn
            else if decide (x = p) then Some (with_slot k a' pd) else h !! x.
Proof using Hp.
  pose proof hang_p_lt. unfold h'. destruct (decide (x = p)) as [->|Hne].
  - rewrite decide_False by lia. apply list_lookup_insert_eq.
    rewrite length_app. unfold c in *. simpl. lia.
  - rewrite list_lookup_insert_ne by congruence.
    case_decide as Hc; subst.
    + unfold c. rewrite lookup_app_r by lia. by rewrite Nat.sub_diag.
    + destruct (decide (x < length h)%nat).
      * by rewrite lookup_app_l by lia.
      * rewrite !lookup_ge_None_2; [done|lia|]. unfold c in *.
        rewrite length_app; simpl. lia.
Qed.

Lemma hang_par x : par h' x = if decide (x = c) then Some (Some p, Z.of_nat k) else par h x.
Proof using Hp Hnp HnN.
  unfold par. rewrite hang_lookup. case_decide; simpl; [by rewrite Hnp, HnN|].
  case_decide; subst; [by rewrite Hp|done].
Qed.

Lemma hang_left_at x j :
  left_at h' x j = if decide (x = p ∧ j = k) then L1 ++ c :: L2 else left_at h x j.
Proof using Hp Ha Hleaf.
  pose proof hang_p_lt. unfold left_at at 1. rewrite hang_lookup.
  destruct (decide (x = c)) as [->|Hc].
  { rewrite decide_False by lia. fold (lefts nn j). rewrite leaf_lefts by done.
    unfold left_at, c. by rewrite lookup_ge_None_2 by lia. }
  destruct (decide (x = p)) as [->|Hne].
  - rewrite (left_at_lefts _ _ pd) by done. unfold lefts, with_slot; simpl.
    destruct (decide (j = k)) as [->|Hj].
    + rewrite decide_True by done. rewrite list_lookup_insert_eq; [done|].
      by eapply lookup_lt_Some.
    + rewrite decide_False by tauto. by rewrite list_lookup_insert_ne by congruence.
  - rewrite decide_False by tauto. done.
Qed.

Lemma hang_left_old : left_at h p k = L1 ++ L2.
Proof using Hp Ha HL. by rewrite (left_at_Some _ _ _ _ _ Hp Ha). Qed.

Lemma hang_shape : wf_shape h' roots.
Proof using W Hp Ha HL Hnp HnN Hleaf.
  clear Sz Hns ds. pose proof hang_p_lt. pose proof hang_left_old as Hold.
  assert (∀ y, y ∈ L1 ++ L2 → y ≠ c) as Hfresh.
  { intros y Hy ->. rewrite <-Hold in Hy.
    apply (left_at_bound _ _ _ _ _ W) in Hy. unfold c in Hy. lia. }
  assert (∀ y q, par h y = Some q → y ≠ c) as Hpar.
  { intros y q Hy ->. unfold par, c in Hy. by rewrite lookup_ge_None_2 in Hy by lia. }
  split.
  - intros l q n. rewrite hang_par. case_decide as Hl; subst.
    + intros [= <- <-]. split; [done|]. rewrite hang_left_at, decide_True by lia.
      apply elem_of_app. right. by left.
    + intros Hq%(sh_up _ _ W). destruct q as [q|]; [|done]. destruct Hq as [Hq Hin].
      split; [done|]. rewrite hang_left_at. case_decide as Hd; [|done].
      destruct Hd as [-> Hk]. rewrite Hk, Hold in Hin. by apply elem_of_siblings.
  - intros x j y. rewrite hang_left_at, hang_par. case_decide as Hd.
    + destruct Hd as [-> ->]. intros [Hy|[->|Hy]%elem_of_cons]%elem_of_app.
      * rewrite decide_False by (apply Hfresh; set_solver).
        apply (sh_down _ _ W). rewrite Hold. set_solver.
      * by rewrite decide_True.
      * rewrite decide_False by (apply Hfresh; set_solver).
        apply (sh_down _ _ W). rewrite Hold. set_solver.
    + intros Hy%(sh_down _ _ W). by rewrite decide_False by eauto.
  - intros y (n & Hn)%(sh_roots _ _ W). exists n. rewrite hang_par.
    by rewrite decide_False by eauto.
  - intros x j. rewrite hang_left_at. case_decide; [|by eapply sh_nodup].
    pose proof (sh_nodup _ _ W p k) as Hnd. rewrite Hold in Hnd.
    rewrite <-Permutation_middle. constructor; [|done].
    intros Hin. by apply (Hfresh c Hin).
  - apply W.
Qed.

Lemma hang_size_of y : size_of h' y = if decide (y = c) then 0 else size_of h y.
Proof using Hp Hns.
  unfold size_of. rewrite hang_lookup. case_decide; subst; [done|].
  case_decide; subst; [by rewrite Hp|done].
Qed.

Lemma hang_sum_size L :
  (∀ y, y ∈ L → (y < length h)%nat) → sumZ (size_of h') L = sumZ (size_of h) L.
Proof using Hp Hns.
  intros H. apply sumZ_ext. intros y Hy%H. rewrite hang_size_of.
  rewrite decide_False; [done|]. unfold c. lia.
Qed.

Lemma hang_sizes : sizes_off h' roots ds c (sumZ at_Size (nd_Atoms nn)).
Proof using All.
  pose proof hang_p_lt. pose proof hang_left_old as Hold.
  assert (∀ x ndx j b, h !! x = Some ndx → nd_Atoms ndx !! j = Some b →
    at_Size b = sumZ (size_of h') (at_Left b) + zlen (achar b)) as Hsame.
  { intros x ndx j b Hx Hb. rewrite hang_sum_size; [by eapply so_atom|].
    intros y Hy. pose proof (ws_child_lt _ _ _ _ _ _ _ W Hx Hb Hy). lia. }
  split.
  - intros x ndx j b Hx Hb. rewrite hang_lookup in Hx. repeat case_decide; simplify_eq.
    + destruct (Hleaf b) as [HLb ->]; [by eapply list_elem_of_lookup_2|].
      by rewrite HLb.
    + apply list_lookup_insert_Some in Hb as [(<- & <- & _)|[_ Hb]]; [|by eapply Hsame].
      simpl. rewrite sumZ_app. simpl. rewrite hang_size_of, decide_True by done.
      rewrite Z.add_0_l, <-sumZ_app, <-HL. by apply (Hsame p pd k a).
    + by eapply Hsame.
  - intros x ndx Hx. rewrite hang_lookup in Hx. repeat case_decide; simplify_eq; try lia.
    + unfold with_slot; simpl. rewrite (sumZ_insert _ _ _ a) by done. simpl.
      rewrite (node_size_sum _ _ _ Sz _ _ Hp). lia.
    + rewrite (node_size_sum _ _ _ Sz _ _ Hx). lia.
  - rewrite hang_sum_size; [apply Sz|]. intros y. by apply root_lt.
Qed.

Lemma hang_id_of y : (y < length h)%nat → id_of h' y = id_of h y.
Proof using Hp.
  intros Hy. unfold id_of. rewrite hang_lookup. rewrite decide_False by (unfold c; lia).
  case_decide; subst; [by rewrite Hp|done].
Qed.

(** A new leaf without text leaves every text as it was. *)
Lemma hang_nstr x :
  nstr h' c = [] → (x < length h)%nat → nstr h' x = nstr h x.
Proof using W Hp Ha HL Hnp HnN Hleaf.
  clear Sz Hns ds. intros Hc. revert x. eapply nstr_pointwise; [exact W|apply hang_shape|].
  intros x ndx Hx. pose proof (lookup_lt_Some _ _ _ Hx).
  rewrite hang_lookup. rewrite decide_False by (unfold c; lia).
  assert ((∀ y, (x < y < length h)%nat → nstr h' y = nstr h y) → ∀ j b,
    nd_Atoms ndx !! j = Some b → astr h' b = astr h b) as Hsame.
  { intros Hd j b Hb. by eapply astr_ext. }
  destruct (decide (x = p)) as [->|Hne].
  - simplify_eq. eexists; split; [done|]. intros Hd. unfold with_slot; simpl.
    assert (nd_Atoms (with_slot k a' pd) !! k = Some a') as Ha'
      by (apply list_lookup_insert_eq; by eapply lookup_lt_Some).
    change (<[k := a']> (nd_Atoms pd)) with (nd_Atoms (with_slot k a' pd)).
    rewrite (concat_map_split _ _ _ _ Ha'), (concat_map_split (astr h) _ _ _ Ha).
    unfold with_slot; simpl. rewrite take_insert_ge, drop_insert_lt by lia.
    f_equal; [|f_equal].
    + f_equal. apply map_ext_in'. intros b [j [Hj _]%lookup_take_Some]%list_elem_of_lookup.
      by eapply Hsame.
    + unfold astr. f_equal. simpl. rewrite lstr_app, lstr_cons, Hc. simpl.
      rewrite <-lstr_app, <-HL. specialize (Hsame Hd k a Ha). unfold astr in Hsame.
      by apply app_inv_tail in Hsame.
    + f_equal. apply map_ext_in'. intros b [j Hj]%list_elem_of_lookup.
      rewrite lookup_drop in Hj. by eapply Hsame.
  - exists ndx. split; [done|]. intros Hd. f_equal. apply map_ext_in'.
    intros b [j Hj]%list_elem_of_lookup. by eapply Hsame.
Qed.
End hang.

Lemma wf_hang doc p pd k a L1 L2 nn :
  let c := length (dc_heap doc) in
  let a' := mkAtom (at_State a) (at_Atom a) (at_Size a) (L1 ++ c :: L2) in
  let doc1 := set_nodes (<[nd_NodeId nn := c]> (dc_Nodes doc))
                (set_heap (dc_heap doc ++ [nn]) doc) in
  wf doc → dc_heap doc !! p = Some pd → nd_Atoms pd !! k = Some a →
  at_Left a = L1 ++ L2 → nd_Parent nn = Some p → nd_ParentN nn = Z.of_nat k →
  nd_Size nn = 0 → leaf nn → 0 < zlen (nd_Atoms nn) ≤ w16 →
  (∀ b, nd_Atoms nn !! Z.to_nat MAX_ATOMS_PER_NODE = Some b → at_State b = UNINITIALIZED) →
  dc_Nodes doc !! nd_NodeId nn = None → sorted_ids (dc_heap doc ++ [nn]) (L1 ++ c :: L2) →
  wf_off (store p (with_slot k a' pd) doc1) c (sumZ at_Size (nd_Atoms nn)).
Proof.
  intros c a' doc1 W Hp Ha HL Hnp HnN Hns Hleaf Hlen Hmax Hfresh Hsorted.
  pose proof (hang_p_lt _ _ _ Hp) as Hpc.
  pose proof (hang_lookup (dc_heap doc) p pd k a L1 L2 nn Hp) as Hlk.
  pose proof (hang_left_at (dc_heap doc) p pd k a L1 L2 nn Hp Ha Hleaf) as Hla.
  assert (∀ y, y ∈ L1 ++ c :: L2 →
    id_of (<[p := with_slot k a' pd]> (dc_heap doc ++ [nn])) y = id_of (dc_heap doc ++ [nn]) y)
    as Hid.
  { intros y _. unfold id_of. destruct (decide (y = p)) as [->|Hne].
    - rewrite list_lookup_insert_eq by (rewrite length_app; simpl; lia).
      rewrite lookup_app_l by lia. by rewrite Hp.
    - by rewrite list_lookup_insert_ne by congruence. }
  split; simpl.
  - by apply hang_shape; [apply W|..].
  - by apply hang_sizes; [apply W|apply W|..].
  - intros x nd. rewrite Hlk. repeat case_decide; intros; simplify_eq.
    + apply lookup_insert_eq.
    + pose proof (wf_ids _ _ _ W _ _ Hp). simpl. rewrite lookup_insert_ne; congruence.
    + match goal with H : dc_heap doc !! x = _ |- _ => apply (wf_ids _ _ _ W) in H end.
      rewrite lookup_insert_ne; congruence.
  - intros id x [[<- <-]|[Hne Hx]]%lookup_insert_Some.
    + exists nn. rewrite Hlk. by rewrite decide_True.
    + destruct (wf_nodes _ _ _ W _ _ Hx) as (nd & Hnd & <-).
      pose proof (lookup_lt_Some _ _ _ Hnd). rewrite Hlk.
      rewrite decide_False by lia. case_decide; subst; [|eauto].
      eexists; split; [done|]. simpl. congruence.
  - intros x nd. rewrite Hlk. repeat case_decide; intros; simplify_eq.
    + done.
    + unfold with_slot, zlen; simpl. rewrite length_insert. by eapply wf_len.
    + by eapply wf_len.
  - intros x nd b. rewrite Hlk. repeat case_decide; intros; simplify_eq; [eauto| |by eapply wf_max].
    match goal with H : nd_Atoms _ !! _ = Some b |- _ =>
      apply list_lookup_insert_Some in H as [(-> & <- & _)|[_ H]] end; simpl;
      by eapply wf_max.
  - intros x j. fold a' in Hla. rewrite Hla. case_decide.
    + eapply sorted_ids_ext; [exact Hid|]. done.
    + eapply sorted_ids_ext; [|apply (wf_sorted _ _ _ W x j)]. intros y Hy.
      apply (hang_id_of _ _ _ _ _ _ _ _ Hp). eapply left_at_bound; [apply W|done].
  - eapply sorted_ids_ext; [|apply (wf_sorted_roots _ _ _ W)]. intros y Hy.
    apply (hang_id_of _ _ _ _ _ _ _ _ Hp). by eapply root_lt; [apply W|].
Qed.

(** *** A new root *)
Section new_root.
Context (h : list DocNode) (R1 R2 : list loc) (ds : Z) (nn : DocNode).
Context (W : wf_shape h (R1 ++ R2)) (Sz : sizes_ok h (R1 ++ R2) ds).
Context (Hnp : nd_Parent nn = None) (Hns : nd_Size nn = 0) (Hleaf : leaf nn).
Let c := length h.
Let h' := h ++ [nn].

Lemma root_lookup x : h' !! x = if decide (x = c) then Some nn else h !! x.
Proof using.
  unfold h'. case_decide as Hc; subst.
  - unfold c. rewrite lookup_app_r by lia. by rewrite Nat.sub_diag.
  - destruct (decide (x < length h)%nat).
    + by rewrite lookup_app_l by lia.
    + rewrite !lookup_ge_None_2; [done|lia|]. unfold c in *.
      rewrite length_app; simpl. lia.
Qed.

Lemma root_left_at x j : left_at h' x j = left_at h x j.
Proof using Hleaf.
  unfold left_at at 1. rewrite root_lookup. case_decide as Hc; subst; [|done].
  fold (lefts nn j). rewrite leaf_lefts by done.
  unfold left_at, c. by rewrite lookup_ge_None_2 by lia.
Qed.

Lemma root_par x :
  par h' x = if decide (x = c) then Some (None, nd_ParentN nn) else par h x.
Proof using Hnp. unfold par. rewrite root_lookup. case_decide; simpl; by rewrite ?Hnp. Qed.

Lemma root_shape : wf_shape h' (R1 ++ c :: R2).
Proof using W Hnp Hleaf.
  clear Sz Hns ds. assert (∀ y q, par h y = Some q → y ≠ c) as Hpar.
  { intros y q Hy ->. unfold par, c in Hy. by rewrite lookup_ge_None_2 in Hy by lia. }
  split.
  - intros l q n. rewrite root_par. case_decide as Hl; subst.
    + intros [= <- <-]. apply elem_of_app. right. by left.
    + intros Hq%(sh_up _ _ W). destruct q as [q|]; [by rewrite root_left_at|].
      by apply elem_of_siblings.
  - intros x j y. rewrite root_left_at, root_par. intros Hy%(sh_down _ _ W).
    by rewrite decide_False by eauto.
  - intros y Hy. rewrite root_par. case_decide as Hc; [by eexists|].
    apply (sh_roots _ _ W). apply elem_of_app in Hy as [Hy|[?|Hy]%elem_of_cons];
      [apply elem_of_app; by left|done|apply elem_of_app; by right].
  - intros x j. rewrite root_left_at. by eapply sh_nodup.
  - rewrite <-Permutation_middle. constructor; [|apply W].
    intros Hin. pose proof (root_lt _ _ W _ Hin). unfold c in *. lia.
Qed.

Lemma root_size_of y : size_of h' y = if decide (y = c) then 0 else size_of h y.
Proof using Hns. unfold size_of. rewrite root_lookup. by case_decide. Qed.

Lemma root_sum_size L :
  (∀ y, y ∈ L → (y < length h)%nat) → sumZ (size_of h') L = sumZ (size_of h) L.
Proof using Hns.
  intros H. apply sumZ_ext. intros y Hy%H. rewrite root_size_of.
  rewrite decide_False; [done|]. unfold c. lia.
Qed.

Lemma root_sizes : sizes_off h' (R1 ++ c :: R2) ds c (sumZ at_Size (nd_Atoms nn)).
Proof using All.
  split.
  - intros x ndx j b Hx Hb. rewrite root_lookup in Hx. case_decide; simplify_eq.
    + destruct (Hleaf b) as [HLb ->]; [by eapply list_elem_of_lookup_2|].
      by rewrite HLb.
    + rewrite root_sum_size; [by eapply so_atom|].
      intros y Hy. pose proof (ws_child_lt _ _ _ _ _ _ _ W Hx Hb Hy). lia.
  - intros x ndx Hx. rewrite root_lookup in Hx. case_decide; simplify_eq; [lia|].
    rewrite (node_size_sum _ _ _ Sz _ _ Hx). lia.
  - rewrite sumZ_app. simpl. rewrite root_size_of, decide_True by done.
    rewrite Z.add_0_l, <-sumZ_app, root_sum_size; [apply Sz|].
    intros y. by apply root_lt.
Qed.

Lemma root_nstr x : (x < length h)%nat → nstr h' x = nstr h x.
Proof using W Hnp Hleaf.
  clear Sz Hns ds. revert x. eapply nstr_pointwise; [exact W|apply root_shape|].
  intros x ndx Hx. pose proof (lookup_lt_Some _ _ _ Hx). rewrite root_lookup.
  rewrite decide_False by (unfold c; lia). exists ndx. split; [done|].
  intros Hd. f_equal. apply map_ext_in'. intros b [j Hj]%list_elem_of_lookup.
  by eapply astr_ext.
Qed.

Lemma root_id_of y : (y < length h)%nat → id_of h' y = id_of h y.
Proof using.
  intros Hy. unfold id_of. rewrite root_lookup. by rewrite decide_False by (unfold c; lia).
Qed.
End new_root.

Lemma wf_new_root doc R1 R2 nn :
  let c := length (dc_heap doc) in
  let doc1 := set_nodes (<[nd_NodeId nn := c]> (dc_Nodes doc))
                (set_heap (dc_heap doc ++ [nn]) doc) in
  wf doc → dc_Doc doc = R1 ++ R2 → nd_Parent nn = None → nd_Size nn = 0 → leaf nn →
  0 < zlen (nd_Atoms nn) ≤ w16 →
  (∀ b, nd_Atoms nn !! Z.to_nat MAX_ATOMS_PER_NODE = Some b → at_State b = UNINITIALIZED) →
  dc_Nodes doc !! nd_NodeId nn = None → sorted_ids (dc_heap doc ++ [nn]) (R1 ++ c :: R2) →
  wf_off (set_doc (R1 ++ c :: R2) doc1) c (sumZ at_Size (nd_Atoms nn)).
Proof.
  intros c doc1 W HR Hnp Hns Hleaf Hlen Hmax Hfresh Hsorted.
  pose proof (root_lookup (dc_heap doc) nn) as Hlk.
  pose proof (wf_sh _ _ _ W) as Sh. pose proof (wf_sz _ _ _ W) as Sz. rewrite HR in Sh, Sz.
  split; simpl.
  - by apply root_shape.
  - by apply root_sizes.
  - intros x nd. rewrite Hlk. case_decide; intros; simplify_eq.
    + apply lookup_insert_eq.
    + match goal with H : dc_heap doc !! x = _ |- _ => apply (wf_ids _ _ _ W) in H end.
      rewrite lookup_insert_ne; congruence.
  - intros id x [[<- <-]|[Hne Hx]]%lookup_insert_Some.
    + exists nn. rewrite Hlk. by rewrite decide_True.
    + destruct (wf_nodes _ _ _ W _ _ Hx) as (nd & Hnd & <-).
      pose proof (lookup_lt_Some _ _ _ Hnd). rewrite Hlk. rewrite decide_False by lia. eauto.
  - intros x nd. rewrite Hlk. case_decide; intros; simplify_eq; [done|by eapply wf_len].
  - intros x nd b. rewrite Hlk. case_decide; intros; simplify_eq; [eauto|by eapply wf_max].
  - intros x j. rewrite root_left_at by done.
    eapply sorted_ids_ext; [|apply (wf_sorted _ _ _ W x j)]. intros y Hy.
    apply root_id_of. eapply left_at_bound; [apply W|done].
  - done.
Qed.
