(* ===== verification/TreedocRemote.v ===== *)
(** The remote operations of the tree document: under its precondition each
    of them returns, keeps the document well formed, reports an edit of the
    text that is exactly what happened to the document's text, and changes the
    abstract content (the links and the slots) as specified. *)
From S2P Require Import Prelude Common BufferOp Treedoc TreedocInv TreedocWf.

Open Scope Z_scope.

(** ** Abstract content *)

Definition node_at (doc : Document) (id : NodeId) : option DocNode :=
  dc_Nodes doc !! id ≫= λ x, dc_heap doc !! x.

(** A slot that was never used has no content; the content of a used one is
    its state and its character. *)
Definition node_slot (nd : DocNode) (n : nat) : option (AtomState * byte) :=
  nd_Atoms nd !! n ≫= λ a,
    if decide (at_State a = UNINITIALIZED) then None else Some (at_State a, at_Atom a).
Definition slot (doc : Document) (id : NodeId) (n : nat) : option (AtomState * byte) :=
  node_at doc id ≫= λ nd, node_slot nd n.

(** Where a node hangs: its parent's identifier and the slot. *)
Definition link (doc : Document) (id : NodeId) : option (option NodeId * Z) :=
  (λ nd, (id_of (dc_heap doc) <$> nd_Parent nd, nd_ParentN nd)) <$> node_at doc id.

(** What an operation needs: the causality its sender respects, and the
    bounds under which the code does not wrap around. *)
Definition op_ok (doc : Document) (op : Operation) : Prop :=
  match op_Type op with
  | NO_OPERATION => True
  | INSERT_NEW => dc_Nodes doc !! op_Id op = None ∧ is_Some (dc_Nodes doc !! op_ParentId op) ∧
      0 ≤ op_ParentN op < w16 ∧ 0 ≤ op_N op < w16 - 5
  | INSERT_ROOT => dc_Nodes doc !! op_Id op = None ∧ 0 ≤ op_N op < w16 - 5
  | INSERT => is_Some (dc_Nodes doc !! op_Id op) ∧ slot doc (op_Id op) (Z.to_nat (op_N op)) = None ∧
      0 ≤ op_N op < MAX_ATOMS_PER_NODE
  | DELETE => is_Some (slot doc (op_Id op) (Z.to_nat (op_N op))) ∧ 0 ≤ op_N op
  end.

(** What an operation does to the links and the slots. *)
Definition link_after (op : Operation) (L : NodeId → option (option NodeId * Z))
    (id : NodeId) : option (option NodeId * Z) :=
  if decide (id = op_Id op) then
    match op_Type op with
    | INSERT_NEW => Some (Some (op_ParentId op), op_ParentN op)
    | INSERT_ROOT => Some (None, 0)
    | _ => L id
    end
  else L id.
Definition slot_after (op : Operation) (S : NodeId → nat → option (AtomState * byte))
    (id : NodeId) (n : nat) : option (AtomState * byte) :=
  if decide (id = op_Id op ∧ n = Z.to_nat (op_N op)) then
    match op_Type op with
    | NO_OPERATION => S id n
    | DELETE => (λ sc, (DEAD, sc.2)) <$> S id n
    | _ => Some (ALIVE, op_Atom op)
    end
  else S id n.

Lemma node_at_lookup doc id x nd :
  dc_Nodes doc !! id = Some x → dc_heap doc !! x = Some nd → node_at doc id = Some nd.
Proof. unfold node_at. by intros ->. Qed.

Lemma node_at_Some doc id nd :
  wf doc → node_at doc id = Some nd →
  ∃ x, dc_Nodes doc !! id = Some x ∧ dc_heap doc !! x = Some nd ∧ nd_NodeId nd = id.
Proof.
  intros W. unfold node_at. intros (x & Hx & Hnd)%bind_Some. exists x.
  destruct (wf_nodes _ _ _ W _ _ Hx) as (nd' & ? & ?). by simplify_eq.
Qed.

(** ** Changing a slot, up to sizes *)

Lemma same_skel_with_slot h h' l nd nd' n a :
  same_skel h h' → h !! l = Some nd → h' !! l = Some nd' →
  same_skel (<[l := with_slot n a nd]> h) (<[l := with_slot n a nd']> h').
Proof.
  intros S Hl Hl'. unfold same_skel. rewrite !list_fmap_insert, S. f_equal.
  destruct (same_skel_lookup _ _ _ _ S Hl) as (nd2 & Hnd2 & Hs).
  rewrite Hl' in Hnd2. injection Hnd2 as <-.
  apply strip_parent in Hs as (? & ? & ? & Hat). unfold strip, with_slot, set_nd_atoms; simpl.
  f_equal; try done. change (map astrip) with (fmap (M:=list) astrip).
  rewrite !list_fmap_insert. f_equal. done.
Qed.

Lemma with_slot_twice n a b nd : with_slot n a (with_slot n b nd) = with_slot n a nd.
Proof. unfold with_slot, set_nd_atoms; simpl. by rewrite list_insert_insert_eq. Qed.

Lemma with_slot_id n a nd : nd_Atoms nd !! n = Some a → with_slot n a nd = nd.
Proof.
  intros H. unfold with_slot, set_nd_atoms. rewrite list_insert_id by done. by destruct nd.
Qed.

Lemma index_Z' {A} (l : list A) (i : Z) a :
  0 ≤ i → l !! Z.to_nat i = Some a → index l i = Ok a.
Proof. intros Hi Ha. rewrite <-(index_Some _ _ _ Ha). by rewrite Z2Nat.id. Qed.

(** The last part of every insertion: the character is put in a free slot,
    the sizes are repaired and the position is computed. *)
Lemma insert_at_slot doc0 l nd n a0 a1 :
  wf doc0 → dc_heap doc0 !! l = Some nd → 0 ≤ n < MAX_ATOMS_PER_NODE →
  nd_Atoms nd !! Z.to_nat n = Some a0 → achar a0 = [] →
  at_Left a1 = at_Left a0 → at_Size a1 = at_Size a0 + 1 → at_State a1 = ALIVE →
  ∃ doc' pos, let doc1 := store l (with_slot (Z.to_nat n) a1 nd) doc0 in
    updateSize doc1 l 1 = Ok doc' ∧ calcPos doc' l n = Ok pos ∧ wf doc' ∧
    dstr doc' = text_insert pos (at_Atom a1) (dstr doc0) ∧ 0 ≤ pos ≤ zlen (dstr doc0) ∧
    dc_Nodes doc' = dc_Nodes doc0 ∧ dc_Doc doc' = dc_Doc doc0 ∧
    same_skel (dc_heap doc1) (dc_heap doc').
Proof.
  intros W Hl Hn Ha Hc0 HL HS Halive. simpl.
  assert (achar a1 = [at_Atom a1]) as Hc1 by (unfold achar; by rewrite Halive).
  pose proof (lookup_lt_Some _ _ _ Hl) as Hlt.
  set (nd1 := with_slot (Z.to_nat n) a1 nd). set (doc1 := store l nd1 doc0).
  assert (wf_off doc1 l 1) as W1.
  { eapply wf_set_slot; eauto; [by rewrite Hc0, Hc1|]. unfold MAX_ATOMS_PER_NODE in *. lia. }
  assert (dc_heap doc1 !! l = Some nd1) as Hl1 by (by apply list_lookup_insert_eq).
  destruct (updateSize_ok doc1 l 1 W1) as (doc' & Hu & W' & HD & HN & S);
    [simpl; by rewrite length_insert|].
  destruct (same_skel_lookup _ _ _ _ S Hl1) as (nd' & Hl' & Hs).
  assert (nd_Atoms nd1 !! Z.to_nat n = Some a1) as Ha1.
  { apply list_lookup_insert_eq. by eapply lookup_lt_Some. }
  destruct (strip_atom _ _ _ _ (eq_sym Hs) Ha1) as (a' & Ha' & Hst & Hch & HL').
  destruct (slot_context doc' l nd' _ a' W' Hl' Ha') as (A & B & Hpos & Hctx).
  rewrite Z2Nat.id in Hpos by lia.
  assert (dstr doc' = A ++ [at_Atom a1] ++ B) as Hd'.
  { rewrite <-Hc1. replace (achar a1) with (achar a') by (unfold achar; by rewrite Hst, Hch).
    apply Hctx; [done|].
    by rewrite (list_insert_id _ l) by (rewrite Hl'; f_equal; by rewrite <-(with_slot_id _ _ _ Ha') at 1). }
  assert (dstr doc0 = A ++ B) as Hd0.
  { unfold dstr. change (dc_Doc doc0) with (dc_Doc doc1). rewrite <-HD.
    change B with ([] ++ B). rewrite <-Hc0. apply Hctx; [congruence|].
    transitivity (<[l := with_slot (Z.to_nat n) a0 nd1]> (dc_heap doc1)).
    - symmetry. by apply same_skel_with_slot.
    - simpl. unfold nd1. rewrite with_slot_twice, list_insert_insert_eq.
      by rewrite list_insert_id by (by rewrite with_slot_id). }
  exists doc', (zlen A). split_and!; try done.
  - unfold calcPos. rewrite Hpos, bind_Ok, (deref_Some _ _ _ Hl'), bind_Ok.
    rewrite (index_Z' _ _ _ (proj1 Hn) Ha'), bind_Ok.
    rewrite (atom_size_zlen _ _ _ (wf_sh _ _ _ W') (wf_sz _ _ _ W') _ _ _ _ Hl' Ha').
    unfold astr. rewrite zlen_app.
    replace (achar a') with (achar a1) by (unfold achar; by rewrite Hst, Hch).
    rewrite Hc1. f_equal. unfold zlen at 4. simpl. lia.
  - by rewrite Hd', Hd0, (text_insert_app _ A B).
  - apply zlen_nonneg.
  - rewrite Hd0, zlen_app. pose proof (zlen_nonneg B). lia.
Qed.

(** The deletion of a character: the position is computed before the change. *)
Lemma delete_at_slot doc l nd n a :
  let a1 := mkAtom DEAD (at_Atom a) (at_Size a - 1) (at_Left a) in
  let doc1 := store l (with_slot (Z.to_nat n) a1 nd) doc in
  wf doc → dc_heap doc !! l = Some nd → 0 ≤ n →
  nd_Atoms nd !! Z.to_nat n = Some a → at_State a = ALIVE →
  ∃ doc' pos, calcPos doc l n = Ok pos ∧ updateSize doc1 l (-1) = Ok doc' ∧ wf doc' ∧
    dstr doc' = text_delete pos (dstr doc) ∧ 0 ≤ pos < zlen (dstr doc) ∧
    dc_Nodes doc' = dc_Nodes doc ∧ same_skel (dc_heap doc1) (dc_heap doc').
Proof.
  intros a1 doc1 W Hl Hn Ha Halive.
  assert (achar a = [at_Atom a]) as Hc by (unfold achar; by rewrite Halive).
  assert (wf_off doc1 l (-1)) as W1.
  { eapply wf_set_slot; eauto; [by rewrite Hc|]. intros Hmax. rewrite Hmax in Ha.
    pose proof (wf_max _ _ _ W _ _ _ Hl Ha). congruence. }
  pose proof (lookup_lt_Some _ _ _ Hl) as Hlt.
  destruct (updateSize_ok doc1 l (-1) W1) as (doc' & Hu & W' & HD & HN & S);
    [simpl; by rewrite length_insert|].
  destruct (slot_context doc l nd _ a W Hl Ha) as (A & B & Hpos & Hctx).
  rewrite Z2Nat.id in Hpos by lia.
  assert (dstr doc = A ++ at_Atom a :: B) as Hd.
  { unfold dstr. rewrite (Hctx a (dc_heap doc)); [by rewrite Hc|done|].
    rewrite list_insert_id; [done|]. rewrite Hl. f_equal. symmetry. by apply with_slot_id. }
  assert (dstr doc' = A ++ B) as Hd'.
  { unfold dstr. rewrite HD. change (dc_Doc doc1) with (dc_Doc doc). by rewrite (Hctx a1 (dc_heap doc')). }
  exists doc', (zlen A). split_and!; try done.
  - unfold calcPos. rewrite Hpos, bind_Ok, (deref_Some _ _ _ Hl), bind_Ok.
    rewrite (index_Z' _ _ _ Hn Ha), bind_Ok.
    rewrite (atom_size_zlen _ _ _ (wf_sh _ _ _ W) (wf_sz _ _ _ W) _ _ _ _ Hl Ha).
    unfold astr. rewrite zlen_app, Hc. f_equal. unfold zlen at 4. simpl. lia.
  - by rewrite Hd', Hd, (text_delete_app _ A B).
  - apply zlen_nonneg.
  - rewrite Hd, zlen_app, zlen_cons. pose proof (zlen_nonneg B). lia.
Qed.

(** ** Links and slots under the elementary changes *)

Lemma node_slot_strip nd nd' n : strip nd = strip nd' → node_slot nd n = node_slot nd' n.
Proof.
  intros Hs. unfold node_slot. destruct (nd_Atoms nd !! n) as [a|] eqn:Ha.
  - destruct (strip_atom _ _ _ _ Hs Ha) as (a' & -> & Hst & Hch & _). simpl.
    by rewrite Hst, Hch.
  - destruct (nd_Atoms nd' !! n) as [a'|] eqn:Ha'; [|done].
    destruct (strip_atom _ _ _ _ (eq_sym Hs) Ha') as (? & ? & _). congruence.
Qed.

Lemma node_at_same_skel doc doc' id :
  dc_Nodes doc' = dc_Nodes doc → same_skel (dc_heap doc) (dc_heap doc') →
  strip <$> node_at doc' id = strip <$> node_at doc id.
Proof.
  intros HN S. unfold node_at. rewrite HN. destruct (dc_Nodes doc !! id) as [x|]; [|done].
  simpl. by rewrite <-!list_lookup_fmap, S.
Qed.

Lemma content_same_skel doc doc' :
  dc_Nodes doc' = dc_Nodes doc → same_skel (dc_heap doc) (dc_heap doc') →
  (∀ id, link doc' id = link doc id) ∧ (∀ id n, slot doc' id n = slot doc id n).
Proof.
  intros HN S. split; intros id; [|intros n]; pose proof (node_at_same_skel _ _ id HN S) as H;
    unfold link, slot; destruct (node_at doc' id) as [nd'|], (node_at doc id) as [nd|];
    simpl in H; try done; assert (strip nd' = strip nd) as Hs by congruence; simpl.
  - apply strip_parent in Hs as (-> & -> & _). f_equal. f_equal.
    destruct (nd_Parent nd) as [p|]; simpl; [|done]. f_equal. by apply same_skel_id_of.
  - by apply node_slot_strip.
Qed.

(** Storing a node that keeps its identity. *)
Lemma content_store doc l nd nd' :
  dc_heap doc !! l = Some nd → (∀ id, dc_Nodes doc !! id = Some l ↔ id = nd_NodeId nd) →
  nd_Parent nd' = nd_Parent nd → nd_ParentN nd' = nd_ParentN nd →
  nd_NodeId nd' = nd_NodeId nd →
  (∀ id, link (store l nd' doc) id = link doc id) ∧
  (∀ id n, slot (store l nd' doc) id n =
     if decide (id = nd_NodeId nd) then node_slot nd' n else slot doc id n).
Proof.
  intros Hl Hids HP HN HI. pose proof (lookup_lt_Some _ _ _ Hl) as Hlt.
  assert (∀ id, node_at (store l nd' doc) id =
    if decide (id = nd_NodeId nd) then Some nd' else node_at doc id) as Hat.
  { intros id. unfold node_at; simpl. case_decide as Hid.
    - apply Hids in Hid as ->. simpl. by apply list_lookup_insert_eq.
    - destruct (dc_Nodes doc !! id) as [x|] eqn:Hx; [|done]. simpl.
      apply list_lookup_insert_ne. intros ->. by apply Hid, Hids. }
  split; intros id; [|intros n]; unfold link, slot; rewrite Hat; case_decide as Hid; simpl.
  - rewrite (node_at_lookup doc id l nd); [|by apply Hids|done]. simpl. rewrite HP, HN.
    do 2 f_equal. destruct (nd_Parent nd) as [p|]; simpl; [|done]. f_equal.
    unfold id_of; simpl. destruct (decide (p = l)) as [->|Hne].
    + rewrite list_lookup_insert_eq, Hl by done. done.
    + by rewrite list_lookup_insert_ne by congruence.
  - destruct (node_at doc id) as [ndx|]; [|done]. simpl. do 2 f_equal.
    destruct (nd_Parent ndx) as [p|]; simpl; [|done]. f_equal.
    unfold id_of; simpl. destruct (decide (p = l)) as [->|Hne].
    + rewrite list_lookup_insert_eq, Hl by done. done.
    + by rewrite list_lookup_insert_ne by congruence.
  - done.
  - done.
Qed.

(** Allocating a node. *)
Lemma content_alloc doc nn :
  let c := length (dc_heap doc) in
  let doc1 := set_nodes (<[nd_NodeId nn := c]> (dc_Nodes doc))
                (set_heap (dc_heap doc ++ [nn]) doc) in
  wf doc → (∀ p, nd_Parent nn = Some p → (p < c)%nat) →
  (∀ id, link doc1 id = if decide (id = nd_NodeId nn)
     then Some (id_of (dc_heap doc) <$> nd_Parent nn, nd_ParentN nn) else link doc id) ∧
  (∀ id n, slot doc1 id n = if decide (id = nd_NodeId nn) then node_slot nn n
     else slot doc id n).
Proof.
  intros c doc1 W Hp.
  assert (∀ y, (y < c)%nat → id_of (dc_heap doc1) y = id_of (dc_heap doc) y) as Hid.
  { intros y Hy. unfold id_of; simpl. by rewrite lookup_app_l. }
  assert (∀ id, node_at doc1 id = if decide (id = nd_NodeId nn) then Some nn
    else node_at doc id) as Hat.
  { intros id. unfold node_at; simpl. case_decide as Hi; subst.
    - rewrite lookup_insert_eq; simpl. rewrite lookup_app_r by done.
      by rewrite Nat.sub_diag.
    - rewrite lookup_insert_ne by congruence.
      destruct (dc_Nodes doc !! id) as [x|] eqn:Hx; [|done]. simpl.
      destruct (wf_nodes _ _ _ W _ _ Hx) as (nd & Hnd & _).
      rewrite lookup_app_l; [done|]. by eapply lookup_lt_Some. }
  split; intros id; [|intros n]; unfold link, slot; rewrite Hat; case_decide; [| |done..].
  - simpl. do 2 f_equal. destruct (nd_Parent nn) as [p|]; [|done].
    simpl. f_equal. apply Hid. by apply Hp.
  - destruct (node_at doc id) as [nd|] eqn:Hnd; [|done].
    apply node_at_Some in Hnd as (x & _ & Hx & _); [|done]. simpl. do 2 f_equal.
    pose proof (ws_up _ _ _ _ (wf_sh _ _ _ W) Hx) as Hup.
    destruct (nd_Parent nd) as [p|]; [|done]. simpl. f_equal. apply Hid.
    apply lookup_lt_Some in Hx. unfold c. lia.
Qed.

Lemma node_slot_with_slot n a nd k :
  (n < length (nd_Atoms nd))%nat →
  node_slot (with_slot n a nd) k =
    if decide (k = n) then
      if decide (at_State a = UNINITIALIZED) then None else Some (at_State a, at_Atom a)
    else node_slot nd k.
Proof.
  intros Hn. unfold node_slot, with_slot; simpl. case_decide; subst.
  - by rewrite list_lookup_insert_eq.
  - by rewrite list_lookup_insert_ne by congruence.
Qed.

Lemma node_slot_extended i nd k : node_slot (extended i nd) k = node_slot nd k.
Proof.
  unfold node_slot, extended; simpl. destruct (nd_Atoms nd !! k) as [a|] eqn:Ha.
  - by rewrite (ext_atoms_old _ _ _ _ Ha).
  - destruct (ext_atoms (nd_Atoms nd) i !! k) as [a|] eqn:Ha'; [|done].
    apply lookup_ext_atoms in Ha' as [?|[_ ->]]; [congruence|done].
Qed.

Lemma wf_ids_iff doc l d x nd id :
  wf_off doc l d → dc_heap doc !! x = Some nd →
  dc_Nodes doc !! id = Some x ↔ id = nd_NodeId nd.
Proof.
  intros W Hx. split.
  - intros (nd' & ? & <-)%(wf_nodes _ _ _ W). by simplify_eq.
  - intros ->. by eapply wf_ids.
Qed.

(** ** The operations *)

(** What applying an operation achieves. *)
Record applied (doc : Document) (op : Operation) (doc' : Document) (bop : BufferOperation)
    : Prop := {
  ap_wf : wf doc';
  ap_text : dstr doc' = edit bop (dstr doc);
  ap_range : edit_in_range bop (dstr doc);
  ap_link id : link doc' id = link_after op (link doc) id;
  ap_slot id n : slot doc' id n = slot_after op (slot doc) id n
}.

Lemma insertAtom_nil a n :
  0 ≤ n < w16 - 5 →
  extendAtomToSize [] n = Ok (replicate (S (Z.to_nat n)) zero_atom) ∧
  insertAtom [] a n = Ok (<[Z.to_nat n := a]> (replicate (S (Z.to_nat n)) zero_atom)).
Proof.
  intros Hn. assert (extendAtomToSize [] n = Ok (replicate (S (Z.to_nat n)) zero_atom)) as He.
  { unfold extendAtomToSize. rewrite !wrap16_small by lia.
    replace (n + 1 >? n + 5) with false by lia. do 2 f_equal. lia. }
  split; [done|]. unfold insertAtom. rewrite He, bind_Ok. apply slice_set_Ok.
  rewrite length_replicate. lia.
Qed.

(** A node whose atoms are all unused, which a new node is compared with. *)
Definition blank (parent : option loc) (parentN : Z) (id : NodeId) (n : Z) : DocNode :=
  mkDocNode parent parentN id 0 (replicate (S (Z.to_nat n)) zero_atom).

Lemma blank_leaf parent parentN id n : leaf (blank parent parentN id n).
Proof. intros a [-> _]%elem_of_replicate. done. Qed.

Lemma blank_atom parent parentN id n b k :
  nd_Atoms (blank parent parentN id n) !! k = Some b → b = zero_atom.
Proof. by intros [-> _]%lookup_replicate. Qed.

Lemma blank_slot parent parentN id n k : node_slot (blank parent parentN id n) k = None.
Proof.
  unfold node_slot. destruct (nd_Atoms _ !! k) as [a|] eqn:Ha; [|done].
  by apply blank_atom in Ha as ->.
Qed.

Lemma blank_len parent parentN id n :
  0 ≤ n < w16 → 0 < zlen (nd_Atoms (blank parent parentN id n)) ≤ w16.
Proof. unfold zlen. simpl. rewrite length_replicate. lia. Qed.

Lemma blank_sizes parent parentN id n :
  sumZ at_Size (nd_Atoms (blank parent parentN id n)) = 0.
Proof. unfold blank; cbn [nd_Atoms]. rewrite sumZ_replicate. cbn [at_Size zero_atom]. lia. Qed.

Lemma blank_nstr h roots c parent parentN id n :
  wf_shape h roots → h !! c = Some (blank parent parentN id n) → nstr h c = [].
Proof.
  intros W Hc. rewrite (nstr_unfold _ _ _ _ W Hc). unfold blank; cbn [nd_Atoms].
  generalize (S (Z.to_nat n)). induction n0; simpl; done.
Qed.

Lemma wf_off_0 doc l l' : wf_off doc l 0 → wf_off doc l' 0.
Proof. intros [? Sz]; split; try done. by eapply sizes_off_0. Qed.

(** Links and slots after a slot of an extended node was set. *)
Lemma content_set_slot doc l nd i n a doc' :
  wf doc → dc_heap doc !! l = Some nd → (n < length (nd_Atoms (extended i nd)))%nat →
  at_State a ≠ UNINITIALIZED → dc_Nodes doc' = dc_Nodes doc →
  same_skel (<[l := with_slot n a (extended i nd)]> (dc_heap doc)) (dc_heap doc') →
  (∀ id, link doc' id = link doc id) ∧
  (∀ id k, slot doc' id k = if decide (id = nd_NodeId nd ∧ k = n)
     then Some (at_State a, at_Atom a) else slot doc id k).
Proof.
  intros W Hl Hn Ha HN S. set (nd1 := with_slot n a (extended i nd)) in *.
  destruct (content_store doc l nd nd1 Hl) as [HLk HSl];
    [intros; by eapply wf_ids_iff|done..|].
  destruct (content_same_skel (store l nd1 doc) doc' HN S) as [HLk' HSl'].
  split; [intros id; by rewrite HLk', HLk|]. intros id k. rewrite HSl', HSl.
  destruct (decide (id = nd_NodeId nd)) as [->|Hne]; [|by rewrite decide_False by tauto].
  unfold nd1. rewrite node_slot_with_slot, node_slot_extended by done.
  rewrite (decide_False _ _ Ha). case_decide; subst.
  - by rewrite decide_True.
  - rewrite decide_False by tauto. unfold slot.
    by rewrite (node_at_lookup _ _ _ _ (wf_ids _ _ _ W _ _ Hl) Hl).
Qed.

Lemma Insert_ok doc op :
  wf doc → op_Type op = INSERT → op_ok doc op →
  ∃ doc' pos, Insert doc op = Ok (doc', mkBufferOperation BufferOp.REMOTE_INSERT pos (op_Atom op))
    ∧ applied doc op doc' (mkBufferOperation BufferOp.REMOTE_INSERT pos (op_Atom op))
    ∧ ∃ l nd a, let nd0 := extended (op_N op) nd in let n := Z.to_nat (op_N op) in
      dc_Nodes doc !! op_Id op = Some l ∧ dc_heap doc !! l = Some nd ∧
      nd_Atoms nd0 !! n = Some a ∧ dc_Doc doc' = dc_Doc doc ∧
      same_skel (<[l := with_slot n (mkAtom ALIVE (op_Atom op) (at_Size a + 1) (at_Left a)) nd0]>
        (dc_heap doc)) (dc_heap doc').
Proof.
  intros W Hty Hok. unfold op_ok in Hok. rewrite Hty in Hok. destruct Hok as ([l Hx] & Hslot & Hn).
  destruct (wf_nodes _ _ _ W _ _ Hx) as (nd & Hl & Hid).
  assert (0 ≤ op_N op < w16) as Hn' by (unfold MAX_ATOMS_PER_NODE, w16 in *; lia).
  unfold slot in Hslot. rewrite (node_at_lookup _ _ _ _ Hx Hl) in Hslot. simpl in Hslot.
  unfold Insert, lookup_node. rewrite Hx. simpl.
  rewrite (deref_Some _ _ _ Hl), bind_Ok, extendAtomToSize_ok, bind_Ok by (by eapply wf_len).
  destruct (ext_atoms_slot (nd_Atoms nd) (op_N op)) as [a Ha]; [lia|].
  rewrite (index_Z' _ _ _ (proj1 Hn) Ha), bind_Ok.
  pose proof (wf_extend _ _ _ _ W Hl Hn') as W0.
  set (nd0 := extended (op_N op) nd) in *. set (doc0 := store l nd0 doc) in *.
  pose proof (lookup_lt_Some _ _ _ Hl) as Hlt.
  assert (dc_heap doc0 !! l = Some nd0) as Hl0 by (by apply list_lookup_insert_eq).
  assert (at_State a = UNINITIALIZED) as Hun.
  { pose proof (node_slot_extended (op_N op) nd (Z.to_nat (op_N op))) as H.
    rewrite Hslot in H. unfold node_slot in H. simpl in H. rewrite Ha in H. simpl in H.
    by case_decide. }
  rewrite decide_False by (rewrite Hun; tauto).
  rewrite slice_set_Ok, bind_Ok by (by eapply lookup_lt_Some).
  set (a1 := mkAtom ALIVE (op_Atom op) (at_Size a + 1) (at_Left a)).
  destruct (insert_at_slot doc0 l nd0 (op_N op) a a1) as (doc' & pos & Hu & Hp & W' & Hd & Hr & HN & HDoc & S);
    try done.
  { unfold achar. by rewrite Hun. }
  unfold with_slot in Hu, S. simpl in Hu, S. unfold store in Hu, S |- *. simpl in *.
  rewrite list_insert_insert_eq in Hu, S. unfold set_nd_atoms in Hu, S |- *. simpl in *.
  unfold set_heap in Hu |- *. simpl in Hu |- *. rewrite Hu, bind_Ok, Hp, bind_Ok.
  exists doc', pos. split; [done|]. split; [|by exists l, nd, a].
  pose proof (dstr_extend _ _ _ _ W Hl Hn') as Hd0. fold nd0 doc0 in Hd0.
  destruct (content_set_slot doc l nd (op_N op) (Z.to_nat (op_N op)) a1 doc') as [HLk HSl];
    [done|done|by eapply lookup_lt_Some|done|done|exact S|].
  split.
  - done.
  - unfold edit; simpl. by rewrite Hd, Hd0.
  - unfold edit_in_range; simpl. by rewrite <-Hd0.
  - intros id. rewrite HLk. unfold link_after. rewrite Hty. by case_decide.
  - intros id n. rewrite HSl. unfold slot_after. by rewrite Hty, <-Hid.
Qed.

Lemma Delete_ok doc op :
  wf doc → op_Type op = DELETE → op_ok doc op →
  ∃ doc' bop, Delete doc op = Ok (doc', bop) ∧ applied doc op doc' bop ∧
    ∀ l nd a pos, dc_Nodes doc !! op_Id op = Some l → dc_heap doc !! l = Some nd →
      nd_Atoms nd !! Z.to_nat (op_N op) = Some a → at_State a = ALIVE →
      calcPos doc l (op_N op) = Ok pos → bop = mkBufferOperation BufferOp.DELETE pos x00.
Proof.
  intros W Hty Hok. unfold op_ok in Hok. rewrite Hty in Hok. destruct Hok as ([[st ch] Hs] & Hn).
  unfold slot in Hs. apply bind_Some in Hs as (nd & Hnd & Hs).
  apply node_at_Some in Hnd as (l & Hx & Hl & Hid); [|done].
  apply bind_Some in Hs as (a & Ha & Hst). case_decide as Hun; [done|].
  injection Hst as <- <-. unfold Delete, lookup_node. rewrite Hx. simpl.
  rewrite (deref_Some _ _ _ Hl), bind_Ok, extendAtomToSize_ok, bind_Ok by (by eapply wf_len).
  pose proof (lookup_lt_Some _ _ _ Ha) as Hlen.
  assert (extended (op_N op) nd = nd) as Hext.
  { unfold extended. rewrite ext_atoms_id by (unfold zlen; lia). by destruct nd. }
  change (set_nd_atoms (ext_atoms _ _) nd) with (extended (op_N op) nd). rewrite Hext.
  rewrite ext_atoms_id by (unfold zlen; lia). rewrite (index_Z' _ _ _ Hn Ha), bind_Ok.
  assert (store l nd doc = doc) as ->.
  { unfold store, set_heap. rewrite list_insert_id by done. by destruct doc. }
  destruct (at_State a) eqn:Hstate; [done| |].
  - eexists _, _. split; [reflexivity|]. split; [|intros; congruence].
    split; [done|done|done| |].
    + intros id. unfold link_after. rewrite Hty. by case_decide.
    + intros id n. unfold slot_after. rewrite Hty. case_decide as Hd'; [|done].
      destruct Hd' as [-> ->]. unfold slot. rewrite (node_at_lookup _ _ _ _ Hx Hl). simpl.
      unfold node_slot. rewrite Ha. simpl. by rewrite Hstate.
  - destruct (delete_at_slot doc l nd (op_N op) a W Hl Hn Ha Hstate)
      as (doc' & pos & Hp & Hu & W' & Hd & Hr & HN & S).
    rewrite Hp, bind_Ok, slice_set_Ok, bind_Ok by done. unfold with_slot in Hu.
    rewrite Hu, bind_Ok. eexists _, _. split; [reflexivity|]. split; [|intros; congruence].
    rewrite <-Hext in S at 1.
    destruct (content_set_slot doc l nd (op_N op) (Z.to_nat (op_N op))
      (mkAtom DEAD (at_Atom a) (at_Size a - 1) (at_Left a)) doc') as [HLk HSl];
      [done|done|by rewrite Hext|done|done|exact S|].
    split; [done..| |].
    + intros id. rewrite HLk. unfold link_after. rewrite Hty. by case_decide.
    + intros id n. rewrite HSl, Hid. unfold slot_after. rewrite Hty.
      case_decide as Hd'; [|done]. destruct Hd' as [-> ->]. unfold slot.
      rewrite (node_at_lookup _ _ _ _ Hx Hl). simpl. unfold node_slot. rewrite Ha. simpl.
      by rewrite decide_False by congruence.
Qed.

(** Hanging a blank node below a slot: a well-formed document with the same
    text, whatever the order of the siblings is, as long as it is sorted. *)
Lemma hang_blank doc p pd k a L1 L2 id n :
  let c := length (dc_heap doc) in
  let nn := blank (Some p) (Z.of_nat k) id n in
  let a' := mkAtom (at_State a) (at_Atom a) (at_Size a) (L1 ++ c :: L2) in
  let doc0 := store p (with_slot k a' pd)
    (set_nodes (<[id := c]> (dc_Nodes doc)) (set_heap (dc_heap doc ++ [nn]) doc)) in
  wf doc → dc_heap doc !! p = Some pd → nd_Atoms pd !! k = Some a → at_Left a = L1 ++ L2 →
  0 ≤ n < w16 - 5 → dc_Nodes doc !! id = None →
  sorted_ids (dc_heap doc ++ [nn]) (L1 ++ c :: L2) →
  wf doc0 ∧ dstr doc0 = dstr doc ∧ dc_heap doc0 !! c = Some nn.
Proof.
  intros c nn a' doc0 W Hp Ha HL Hn Hfresh Hs.
  assert (wf doc0) as W0.
  { apply (wf_off_0 _ c). erewrite <-(blank_sizes (Some p) (Z.of_nat k) id n).
    eapply (wf_hang doc p pd k a L1 L2 nn); try done.
    - apply blank_leaf.
    - apply blank_len. lia.
    - by intros b ->%blank_atom. }
  pose proof (hang_lookup (dc_heap doc) p pd k a L1 L2 nn Hp) as Hlk.
  assert (dc_heap doc0 !! c = Some nn) as Hc.
  { unfold doc0; simpl. fold c in Hlk. unfold a'. rewrite Hlk. by rewrite decide_True. }
  split_and!; [done| |done]. unfold dstr, lstr. f_equal. apply map_ext_in'.
  intros y Hy. apply (hang_nstr (dc_heap doc) (dc_Doc doc) p pd k a L1 L2 nn); try done.
  - apply W.
  - apply blank_leaf.
  - eapply (blank_nstr _ _ _ (Some p)); [apply W0|exact Hc].
  - by eapply root_lt; [apply W|].
Qed.

Lemma root_blank doc R1 R2 id n :
  let c := length (dc_heap doc) in
  let nn := blank None 0 id n in
  let doc0 := set_doc (R1 ++ c :: R2)
    (set_nodes (<[id := c]> (dc_Nodes doc)) (set_heap (dc_heap doc ++ [nn]) doc)) in
  wf doc → dc_Doc doc = R1 ++ R2 → 0 ≤ n < w16 - 5 → dc_Nodes doc !! id = None →
  sorted_ids (dc_heap doc ++ [nn]) (R1 ++ c :: R2) →
  wf doc0 ∧ dstr doc0 = dstr doc ∧ dc_heap doc0 !! c = Some nn.
Proof.
  intros c nn doc0 W HR Hn Hfresh Hs.
  assert (wf doc0) as W0.
  { apply (wf_off_0 _ c). erewrite <-(blank_sizes None 0 id n).
    eapply (wf_new_root doc R1 R2 nn); try done.
    - apply blank_leaf.
    - apply blank_len. lia.
    - by intros b ->%blank_atom. }
  assert (dc_heap doc0 !! c = Some nn) as Hc.
  { unfold doc0; simpl. rewrite lookup_app_r by done. unfold c. by rewrite Nat.sub_diag. }
  split_and!; [done| |done]. pose proof (wf_sh _ _ _ W) as Sh. rewrite HR in Sh.
  unfold dstr. simpl. rewrite lstr_app, lstr_cons.
  pose proof (blank_nstr _ _ _ None 0 id n (wf_sh _ _ _ W0) Hc) as Hb. simpl in Hb.
  rewrite Hb. simpl. rewrite <-lstr_app, HR.
  unfold lstr. f_equal. apply map_ext_in'. intros y Hy.
  apply (root_nstr (dc_heap doc) R1 R2 nn); [done|done|apply blank_leaf|].
  by eapply root_lt.
Qed.

(** The slice with the new sibling is sorted. *)
Lemma insert_sibling doc L nn nn' :
  let c := length (dc_heap doc) in
  (∀ y, y ∈ L → (y < c)%nat) → sorted_ids (dc_heap doc) L → nd_NodeId nn' = nd_NodeId nn →
  ∃ L1 L2, L = L1 ++ L2 ∧
    insertNodeIntoDisambiguatorsSorted (dc_heap doc ++ [nn]) L c = Ok (L1 ++ c :: L2) ∧
    sorted_ids (dc_heap doc ++ [nn']) (L1 ++ c :: L2).
Proof.
  intros c HL HS Hid.
  assert (∀ y m, (y < c)%nat → id_of (dc_heap doc ++ [m]) y = id_of (dc_heap doc) y) as Hold.
  { intros y m Hy. unfold id_of. by rewrite lookup_app_l. }
  destruct (insert_sorted_ok (dc_heap doc ++ [nn]) L c) as (L1 & L2 & -> & HI & HS').
  - rewrite length_app; simpl. unfold c. lia.
  - intros y Hy%HL. rewrite length_app; simpl. unfold c in *. lia.
  - eapply sorted_ids_ext; [|exact HS]. auto.
  - exists L1, L2. split_and!; [done..|]. eapply sorted_ids_ext; [|exact HS'].
    intros y Hy. destruct (decide (y = c)) as [->|Hne].
    + unfold id_of, c. rewrite !lookup_app_r by done. rewrite Nat.sub_diag. simpl. done.
    + assert (y ∈ L1 ++ L2) as Hy'%HL by (rewrite elem_of_app, elem_of_cons in *; tauto).
      by rewrite !Hold.
Qed.

(** Links and slots after a new node was allocated, and something else may
    have been done to its parent. *)
Lemma link_slot_new doc doc' op nn par :
  op_Type op = INSERT_NEW ∨ op_Type op = INSERT_ROOT →
  nd_NodeId nn = op_Id op → dc_Nodes doc !! op_Id op = None →
  (∀ k, node_slot nn k =
     if decide (k = Z.to_nat (op_N op)) then Some (ALIVE, op_Atom op) else None) →
  link_after op (link doc) (op_Id op) = Some par →
  (∀ id, link doc' id = if decide (id = nd_NodeId nn) then Some par else link doc id) →
  (∀ id n, slot doc' id n = if decide (id = nd_NodeId nn) then node_slot nn n
     else slot doc id n) →
  (∀ id, link doc' id = link_after op (link doc) id) ∧
  (∀ id n, slot doc' id n = slot_after op (slot doc) id n).
Proof.
  intros Hty Hid Hf Hns Hl HL HS. split; intros id; [|intros n]; rewrite ?HL, ?HS, Hid.
  - case_decide; subst; [done|]. unfold link_after. by rewrite decide_False.
  - unfold slot_after. destruct (decide (id = op_Id op)) as [->|Hne].
    + rewrite Hns. case_decide; subst.
      * rewrite decide_True by done. by destruct Hty as [-> | ->].
      * rewrite decide_False by tauto. unfold slot, node_at. by rewrite Hf.
    + by rewrite decide_False by tauto.
Qed.

Lemma new_node_slot parent parentN id n a k :
  at_State a = ALIVE →
  node_slot (with_slot (Z.to_nat n) a (blank parent parentN id n)) k =
    if decide (k = Z.to_nat n) then Some (ALIVE, at_Atom a) else None.
Proof.
  intros Ha. rewrite node_slot_with_slot.
  - rewrite Ha, blank_slot. by repeat case_decide.
  - unfold blank; cbn [nd_Atoms]. rewrite length_replicate. lia.
Qed.

Lemma InsertRoot_ok doc op :
  wf doc → op_Type op = INSERT_ROOT → op_ok doc op →
  ∃ doc' pos, InsertRoot doc op = Ok (doc', mkBufferOperation BufferOp.REMOTE_INSERT pos (op_Atom op))
    ∧ applied doc op doc' (mkBufferOperation BufferOp.REMOTE_INSERT pos (op_Atom op)).
Proof.
  intros W Hty Hok. unfold op_ok in Hok. rewrite Hty in Hok. destruct Hok as [Hf Hn].
  set (a1 := mkAtom ALIVE (op_Atom op) 1 []). set (n := Z.to_nat (op_N op)).
  set (nn0 := blank None 0 (op_Id op) (op_N op)). set (nn := with_slot n a1 nn0).
  unfold InsertRoot. rewrite (proj1 (insertAtom_nil a1 _ Hn)), bind_Ok.
  rewrite slice_set_Ok by (rewrite length_replicate; lia). rewrite bind_Ok. simpl.
  change (mkDocNode None 0 (op_Id op) 0 _) with nn.
  destruct (insert_sibling doc (dc_Doc doc) nn nn0) as (R1 & R2 & HR & HI & HS);
    [intros y; eapply root_lt; apply W|apply W|done|].
  rewrite HI, bind_Ok.
  destruct (root_blank doc R1 R2 (op_Id op) (op_N op) W HR Hn Hf HS) as (W0 & Hd0 & Hc).
  set (doc0 := set_doc _ _) in *. set (c := length (dc_heap doc)) in *.
  destruct (insert_at_slot doc0 c nn0 (op_N op) zero_atom a1)
    as (doc' & pos & Hu & Hp & W' & Hd & Hr & HN & HDoc & S); try done.
  { unfold MAX_ATOMS_PER_NODE, w16 in *. lia. }
  { apply (lookup_replicate_2 (S n)). unfold n. lia. }
  assert (<[c := nn]> (dc_heap doc ++ [nn0]) = dc_heap doc ++ [nn]) as Hheap.
  { unfold c. rewrite insert_app_r_alt by done. by rewrite Nat.sub_diag. }
  fold n nn in Hu, S. unfold store, set_heap in Hu, S. simpl in Hu, S.
  unfold nn0 in Hheap. rewrite Hheap in Hu, S. unfold set_doc, set_nodes, set_heap. simpl.
  rewrite Hu, bind_Ok, Hp, bind_Ok.
  exists doc', pos. split; [done|].
  destruct (content_alloc doc nn W ltac:(done)) as [HL1 HS1].
  destruct (content_same_skel (set_nodes (<[op_Id op := c]> (dc_Nodes doc))
    (set_heap (dc_heap doc ++ [nn]) doc)) doc' HN S) as [HL2 HS2].
  destruct (link_slot_new doc doc' op nn (None, 0)) as [HLf HSf]; try done.
  - by right.
  - intros k. by apply (new_node_slot None 0).
  - unfold link_after. by rewrite decide_True, Hty.
  - intros id. by rewrite HL2, HL1.
  - intros id k. by rewrite HS2, HS1.
  - split; try done; unfold edit, edit_in_range; simpl; [by rewrite Hd, Hd0|by rewrite <-Hd0].
Qed.

Lemma heap_hang (h : list DocNode) p X Y nn nn0 :
  (p < length h)%nat →
  <[length h := nn]> (<[p := X]> (<[p := Y]> h ++ [nn0])) = <[p := X]> (h ++ [nn]).
Proof.
  intros Hp. rewrite insert_app_l by (by rewrite length_insert).
  rewrite list_insert_insert_eq. rewrite insert_app_r_alt by (by rewrite length_insert).
  rewrite length_insert, Nat.sub_diag. simpl. by rewrite insert_app_l.
Qed.

(** The tree after a new node was hung below a slot of [p]. *)
Lemma content_hang doc p pd pd' nn doc' :
  let doc1 := set_nodes (<[nd_NodeId nn := length (dc_heap doc)]> (dc_Nodes doc))
                (set_heap (dc_heap doc ++ [nn]) doc) in
  wf doc → dc_heap doc !! p = Some pd → nd_Parent nn = Some p →
  dc_Nodes doc !! nd_NodeId nn = None →
  nd_Parent pd' = nd_Parent pd → nd_ParentN pd' = nd_ParentN pd →
  nd_NodeId pd' = nd_NodeId pd → (∀ k, node_slot pd' k = node_slot pd k) →
  dc_Nodes doc' = dc_Nodes doc1 → same_skel (dc_heap (store p pd' doc1)) (dc_heap doc') →
  (∀ id, link doc' id = if decide (id = nd_NodeId nn)
     then Some (Some (nd_NodeId pd), nd_ParentN nn) else link doc id) ∧
  (∀ id n, slot doc' id n = if decide (id = nd_NodeId nn) then node_slot nn n
     else slot doc id n).
Proof.
  intros doc1 W Hp Hnp Hf HP HN HI Hsl HNs S. pose proof (lookup_lt_Some _ _ _ Hp) as Hlt.
  pose proof (wf_ids _ _ _ W _ _ Hp) as Hidp.
  assert (dc_heap doc1 !! p = Some pd) as Hp1 by (simpl; by rewrite lookup_app_l).
  destruct (content_alloc doc nn W) as [HL1 HS1]; [intros q Hq; by simplify_eq|].
  destruct (content_store doc1 p pd pd' Hp1) as [HL2 HS2]; [|done..|].
  { intros id. simpl. destruct (decide (id = nd_NodeId nn)) as [->|Hne].
    - rewrite lookup_insert_eq. split; [intros [= <-]; lia|congruence].
    - rewrite lookup_insert_ne by done. by eapply wf_ids_iff. }
  destruct (content_same_skel (store p pd' doc1) doc' HNs S) as [HL3 HS3].
  split; [intros id|intros id n].
  - rewrite HL3, HL2, HL1, Hnp. simpl. unfold id_of. by rewrite Hp.
  - rewrite HS3, HS2, HS1. destruct (decide (id = nd_NodeId pd)) as [->|Hne]; [|done].
    rewrite decide_False by congruence. rewrite Hsl. unfold slot.
    by rewrite (node_at_lookup _ _ _ _ Hidp Hp).
Qed.

(** The code up to the size update: the slot of the parent, its siblings and
    the document with the new node. *)
Definition hung (doc : Document) (p : loc) (pd : DocNode) (k : nat) (a : Atom)
    (left : list loc) (id : NodeId) (nn : DocNode) : Document :=
  store p (with_slot k (mkAtom (at_State a) (at_Atom a) (at_Size a) left) pd)
    (set_nodes (<[id := length (dc_heap doc)]> (dc_Nodes doc))
       (set_heap (dc_heap doc ++ [nn]) doc)).

Lemma InsertNew_start doc op p pd :
  wf doc → dc_Nodes doc !! op_ParentId op = Some p → dc_heap doc !! p = Some pd →
  0 ≤ op_ParentN op < w16 → 0 ≤ op_N op < w16 - 5 →
  let c := length (dc_heap doc) in let k := Z.to_nat (op_ParentN op) in
  let nn0 := blank (Some p) (op_ParentN op) (op_Id op) (op_N op) in
  let nn := with_slot (Z.to_nat (op_N op)) (mkAtom ALIVE (op_Atom op) 1 []) nn0 in
  let pd0 := extended (op_ParentN op) pd in
  ∃ a L1 L2, nd_Atoms pd0 !! k = Some a ∧ at_Left a = L1 ++ L2 ∧
    sorted_ids (<[p := pd0]> (dc_heap doc) ++ [nn0]) (L1 ++ c :: L2) ∧
    InsertNew doc op =
      (doc' ← updateSize (hung doc p pd0 k a (L1 ++ c :: L2) (op_Id op) nn) c 1;
       pos ← calcPos doc' c (op_N op);
       Ok (doc', mkBufferOperation BufferOp.REMOTE_INSERT pos (op_Atom op))).
Proof.
  intros W Hx Hp HPN Hn c k nn0 nn pd0.
  pose proof (lookup_lt_Some _ _ _ Hp) as Hlt. pose proof (wf_extend _ _ _ _ W Hp HPN) as We.
  fold pd0 in We. set (doce := store p pd0 doc) in *.
  assert (dc_heap doce !! p = Some pd0) as Hpe by (by apply list_lookup_insert_eq).
  assert (length (dc_heap doce) = c) as Hce by (simpl; by rewrite length_insert).
  destruct (ext_atoms_slot (nd_Atoms pd) (op_ParentN op)) as [a Ha]; [lia|].
  assert (∀ y, y ∈ at_Left a → (p < y < c)%nat) as HLb.
  { intros y Hy. rewrite <-Hce. by apply (ws_child_lt _ _ _ _ _ _ _ (wf_sh _ _ _ We) Hpe Ha Hy). }
  destruct (insert_sibling doc (at_Left a) nn nn0) as (L1 & L2 & HL & HI & HS); [| |done|].
  { intros y Hy. by apply HLb. }
  { pose proof (wf_sorted _ _ _ We p (Z.to_nat (op_ParentN op))) as HSL.
    rewrite (left_at_Some _ _ _ _ _ Hpe Ha) in HSL. eapply sorted_ids_ext; [|exact HSL].
    intros y Hy%HLb. unfold id_of; simpl. by rewrite list_lookup_insert_ne by lia. }
  exists a, L1, L2. split_and!; [done|done| |].
  - eapply sorted_ids_ext; [|exact HS]. intros y Hy. unfold id_of.
    rewrite <-insert_app_l by done. rewrite list_lookup_insert_ne; [done|]. intros <-.
    rewrite elem_of_app, elem_of_cons in Hy. destruct Hy as [Hy|[Hy|Hy]]; [|lia|];
      assert (p ∈ at_Left a) as Hin%HLb by (rewrite HL, elem_of_app; tauto); lia.
  - pose proof (proj2 (insertAtom_nil (mkAtom ALIVE (op_Atom op) 1 []) _ Hn)) as HA.
    unfold InsertNew. rewrite Hx, HA, bind_Ok. simpl.
    change (mkDocNode (Some p) _ (op_Id op) 0 _) with nn.
    rewrite (deref_Some _ p pd) by (by rewrite lookup_app_l). rewrite bind_Ok.
    rewrite extendAtomToSize_ok, bind_Ok by (by apply (wf_len _ _ _ W _ _ Hp)).
    rewrite (index_Z' _ _ _ (proj1 HPN) Ha), bind_Ok.
    by rewrite HI, bind_Ok, slice_set_Ok, bind_Ok by (by eapply lookup_lt_Some).
Qed.

(** The document the new node's insertion is compared with: the same tree,
    with the new node blank. *)
Lemma hung_blank doc p pd k a L1 L2 id n a1 :
  let c := length (dc_heap doc) in
  let pd0 := extended (Z.of_nat k) pd in
  let nn0 := blank (Some p) (Z.of_nat k) id n in
  wf doc → dc_heap doc !! p = Some pd → (Z.of_nat k < w16) → 0 ≤ n < w16 - 5 →
  dc_Nodes doc !! id = None → nd_Atoms pd0 !! k = Some a → at_Left a = L1 ++ L2 →
  sorted_ids (<[p := pd0]> (dc_heap doc) ++ [nn0]) (L1 ++ c :: L2) →
  ∃ doc0, wf doc0 ∧ dstr doc0 = dstr doc ∧ dc_heap doc0 !! c = Some nn0 ∧
    store c (with_slot (Z.to_nat n) a1 nn0) doc0 =
    hung doc p pd0 k a (L1 ++ c :: L2) id (with_slot (Z.to_nat n) a1 nn0).
Proof.
  intros c pd0 nn0 W Hp HPN Hn Hf Ha HL HS. pose proof (lookup_lt_Some _ _ _ Hp) as Hlt.
  assert (0 ≤ Z.of_nat k < w16) as Hk by lia.
  pose proof (wf_extend _ _ _ _ W Hp Hk) as We. fold pd0 in We.
  set (doce := store p pd0 doc) in *.
  assert (dc_heap doce !! p = Some pd0) as Hpe by (by apply list_lookup_insert_eq).
  assert (length (dc_heap doce) = c) as Hce by (simpl; by rewrite length_insert).
  destruct (hang_blank doce p pd0 k a L1 L2 id n We Hpe Ha HL Hn Hf) as (W0 & Hd0 & Hc);
    [by rewrite Hce|].
  eexists. split_and!; [exact W0|rewrite Hd0; by apply (dstr_extend _ _ _ _ W Hp Hk)| |].
  - rewrite <-Hce at 1. exact Hc.
  - rewrite Hce. unfold hung, store, set_nodes, set_heap; simpl. f_equal. by apply heap_hang.
Qed.

Lemma InsertNew_ok doc op :
  wf doc → op_Type op = INSERT_NEW → op_ok doc op →
  ∃ doc' pos, InsertNew doc op = Ok (doc', mkBufferOperation BufferOp.REMOTE_INSERT pos (op_Atom op))
    ∧ applied doc op doc' (mkBufferOperation BufferOp.REMOTE_INSERT pos (op_Atom op))
    ∧ ∃ p pd a L1 L2, let c := length (dc_heap doc) in let k := Z.to_nat (op_ParentN op) in
      let pd0 := extended (op_ParentN op) pd in
      let nn0 := blank (Some p) (op_ParentN op) (op_Id op) (op_N op) in
      dc_Nodes doc !! op_ParentId op = Some p ∧ dc_heap doc !! p = Some pd ∧
      nd_Atoms pd0 !! k = Some a ∧ at_Left a = L1 ++ L2 ∧ dc_Doc doc' = dc_Doc doc ∧
      same_skel (dc_heap (hung doc p pd0 k a (L1 ++ c :: L2) (op_Id op)
        (with_slot (Z.to_nat (op_N op)) (mkAtom ALIVE (op_Atom op) 1 []) nn0))) (dc_heap doc').
Proof.
  intros W Hty Hok. unfold op_ok in Hok. rewrite Hty in Hok.
  destruct Hok as (Hf & [p Hx] & HPN & Hn).
  destruct (wf_nodes _ _ _ W _ _ Hx) as (pd & Hp & Hidp).
  destruct (InsertNew_start doc op p pd W Hx Hp HPN Hn) as (a & L1 & L2 & Ha & HL & HS & ->).
  set (c := length (dc_heap doc)) in *. set (k := Z.to_nat (op_ParentN op)) in *.
  assert (Z.of_nat k = op_ParentN op) as Hk by (unfold k; lia). rewrite <-Hk in *.
  set (nn0 := blank _ _ _ _) in *. set (a1 := mkAtom ALIVE (op_Atom op) 1 []).
  destruct (hung_blank doc p pd k a L1 L2 (op_Id op) (op_N op) a1 W Hp (proj2 HPN) Hn Hf Ha HL HS)
    as (doc0 & W0 & Hd0 & Hc & Heq). fold nn0 c in Heq, Hc.
  destruct (insert_at_slot doc0 c nn0 (op_N op) zero_atom a1)
    as (doc' & pos & Hu & Hps & W' & Hd & Hr & HNs & HDoc & S); try done.
  { unfold MAX_ATOMS_PER_NODE, w16 in *. lia. }
  { apply (lookup_replicate_2 (Datatypes.S (Z.to_nat (op_N op)))). lia. }
  change (dc_Nodes doc0) with (dc_Nodes (store c (with_slot (Z.to_nat (op_N op)) a1 nn0) doc0))
    in HNs.
  change (dc_Doc doc0) with (dc_Doc (store c (with_slot (Z.to_nat (op_N op)) a1 nn0) doc0))
    in HDoc.
  rewrite Heq in Hu, S, HNs, HDoc. rewrite Hu, bind_Ok, Hps, bind_Ok. exists doc', pos.
  split; [done|]. split; [|by exists p, pd, a, L1, L2].
  set (pd0 := extended (Z.of_nat k) pd) in *. set (nn := with_slot _ a1 nn0) in *.
  set (pd1 := with_slot k (mkAtom (at_State a) (at_Atom a) (at_Size a) (L1 ++ c :: L2)) pd0).
  destruct (content_hang doc p pd pd1 nn doc' W Hp) as [HL1 HS1];
    try done.
  { intros j. unfold pd1. rewrite node_slot_with_slot by (by eapply lookup_lt_Some). simpl.
    rewrite <-(node_slot_extended (Z.of_nat k) pd j). fold pd0.
    destruct (decide (j = k)) as [->|]; [|done]. unfold node_slot. by rewrite Ha. }
  destruct (link_slot_new doc doc' op nn (Some (nd_NodeId pd), nd_ParentN nn)) as [HLf HSf];
    try done.
  - by left.
  - intros j. by apply (new_node_slot (Some p)).
  - unfold link_after. rewrite decide_True, Hty, Hidp by done. by rewrite <-Hk.
  - split; try done; unfold edit, edit_in_range; simpl; [by rewrite Hd, Hd0|by rewrite <-Hd0].
Qed.
