(* ===== verification/TreedocSpec.v ===== *)
(** The contract of the remote operations: what [DocToString] and [DocStat]
    read off a well-formed document, what every operation does to it, and the
    panics of the operations whose precondition fails. *)
From S2P Require Import Prelude Common BufferOp Treedoc TreedocInv TreedocWf TreedocRemote.

Open Scope Z_scope.

(** ** Reading the document *)

Lemma docToBufferHelper_ok f h roots ls buf :
  wf_shape h roots → (∀ c, c ∈ ls → (length h - c < f)%nat ∧ (c < length h)%nat) → (0 < f)%nat →
  docToBufferHelper f h ls buf = Ok (buf ++ lstr h ls).
Proof.
  intros W. revert ls buf. induction f as [|f IH]; intros ls buf Hls Hf; [lia|].
  cbn [docToBufferHelper]. unfold lstr. apply foldM_append. intros s c Hc.
  destruct (Hls c Hc) as [Hfc Hlc]. destruct (lookup_lt_is_Some_2 _ _ Hlc) as [nd Hnd].
  rewrite (deref_Some _ _ _ Hnd), bind_Ok, (nstr_unfold _ _ _ _ W Hnd).
  apply foldM_append. intros s' a [k Ha]%list_elem_of_lookup.
  rewrite IH; [|intros y Hy; pose proof (ws_child_lt _ _ _ _ _ _ _ W Hnd Ha Hy); lia|lia].
  rewrite bind_Ok. unfold astr, achar. case_decide; by rewrite ?app_nil_r, ?app_assoc.
Qed.

Lemma DocToString_dstr doc : wf doc → DocToString doc = Ok (dstr doc).
Proof.
  intros W. unfold DocToString, DocToBuffer. eapply docToBufferHelper_ok; [apply W| |].
  - intros c Hc. pose proof (root_lt _ _ (wf_sh _ _ _ W) _ Hc). unfold walk_fuel. lia.
  - unfold walk_fuel. lia.
Qed.

(** The tombstones of a list of siblings, as [docStat] counts them. *)
Definition is_alive (a : Atom) : Z := if decide (at_State a = ALIVE) then 1 else 0.

Lemma achar_alive a : zlen (achar a) = is_alive a.
Proof. unfold achar, is_alive. by case_decide. Qed.

Lemma foldM_stat {A} (f : Z * Z → A → res (Z * Z)) (g : A → Z) (l : list A) s :
  (∀ s a, a ∈ l → ∃ d, 0 ≤ d ∧ f s a = Ok (s.1 + g a, s.2 + d)) →
  ∃ d, 0 ≤ d ∧ foldM f s l = Ok (s.1 + sumZ g l, s.2 + d).
Proof.
  revert s. induction l as [|a l IH]; intros [s1 s2] Hf; cbn [foldM sumZ foldr].
  { exists 0. split; [done|]. by rewrite !Z.add_0_r. }
  destruct (Hf (s1, s2) a) as (d & Hd & ->); [by left|]. rewrite bind_Ok. cbn [fst snd].
  destruct (IH (s1 + g a, s2 + d)) as (d' & Hd' & ->); [intros; apply Hf; by right|].
  exists (d + d'). cbn [fst snd]. split; [lia|]. do 2 f_equal; unfold sumZ; lia.
Qed.

Lemma docStat_ok f h roots ls :
  wf_shape h roots → (∀ c, c ∈ ls → (length h - c < f)%nat ∧ (c < length h)%nat) → (0 < f)%nat →
  ∃ d, 0 ≤ d ∧ docStat f h ls = Ok (zlen (lstr h ls), d).
Proof.
  intros W. revert ls. induction f as [|f IH]; intros ls Hls Hf; [lia|].
  cbn [docStat]. unfold lstr. rewrite <-sumZ_concat_zlen.
  apply (foldM_stat _ (λ a, zlen (nstr h a)) ls (0, 0)). intros s c Hc.
  destruct (Hls c Hc) as [Hfc Hlc]. destruct (lookup_lt_is_Some_2 _ _ Hlc) as [nd Hnd].
  rewrite (deref_Some _ _ _ Hnd), bind_Ok, (nstr_unfold _ _ _ _ W Hnd), <-sumZ_concat_zlen.
  apply foldM_stat. intros [s1 s2] a [k Ha]%list_elem_of_lookup. cbn [fst snd].
  destruct (IH (at_Left a)) as (d & Hd & ->);
    [intros y Hy; pose proof (ws_child_lt _ _ _ _ _ _ _ W Hnd Ha Hy); lia|lia|].
  rewrite bind_Ok. unfold astr. rewrite zlen_app, achar_alive. unfold is_alive.
  destruct (at_State a); simpl.
  - exists d. split; [done|]. f_equal. f_equal. lia.
  - exists (d + 1). split; [lia|]. f_equal. f_equal; lia.
  - exists d. split; [done|]. f_equal. f_equal. lia.
Qed.

Lemma dc_Size_zlen doc : wf doc → dc_Size doc = zlen (dstr doc).
Proof. intros W. eapply doc_size_zlen; apply W. Qed.

(** [DocStat]'s first component is the cached size of a well-formed
    document and the length of the string [DocToString] returns; neither
    traversal panics or runs out of fuel. *)
Theorem DocStat_counts_text doc :
  wf doc → ∃ s dead, DocToString doc = Ok s ∧ DocStat doc = Ok (dc_Size doc, dead) ∧
    dc_Size doc = zlen s ∧ 0 ≤ dead.
Proof.
  intros W. destruct (docStat_ok (walk_fuel doc) (dc_heap doc) (dc_Doc doc) (dc_Doc doc))
    as (d & Hd & Hs); [apply W| |unfold walk_fuel; lia|].
  { intros c Hc. pose proof (root_lt _ _ (wf_sh _ _ _ W) _ Hc). unfold walk_fuel. lia. }
  exists (dstr doc), d. rewrite (DocToString_dstr _ W), (dc_Size_zlen _ W). by split_and!.
Qed.

(** ** Applying operations *)

Lemma ApplyOperation_applied doc op :
  wf doc → op_ok doc op → ∃ doc' bop, ApplyOperation doc op = Ok (doc', bop) ∧
    applied doc op doc' bop.
Proof.
  intros W Hok. unfold ApplyOperation. destruct (op_Type op) eqn:Hty.
  - eexists _, _. split; [reflexivity|]. split; try done.
    + intros id. unfold link_after. rewrite Hty. by case_decide.
    + intros id n. unfold slot_after. rewrite Hty. by case_decide.
  - destruct (InsertNew_ok doc op W Hty Hok) as (doc' & pos & ? & ? & _). eauto.
  - destruct (InsertRoot_ok doc op W Hty Hok) as (doc' & pos & ? & ?). eauto.
  - destruct (Insert_ok doc op W Hty Hok) as (doc' & pos & ? & ? & _). eauto.
  - destruct (Delete_ok doc op W Hty Hok) as (doc' & bop & ? & ? & _). eauto.
Qed.

(** A sequence of operations, with the edits they report. *)
Fixpoint apply_all (doc : Document) (ops : list Operation)
    : res (Document * list BufferOperation) :=
  match ops with
  | [] => Ok (doc, [])
  | op :: ops =>
      '(doc, bop) ← ApplyOperation doc op;
      '(doc, bops) ← apply_all doc ops;
      Ok (doc, bop :: bops)
  end.

(** Every operation is applied to a document that satisfies its precondition. *)
Fixpoint ops_ok (doc : Document) (ops : list Operation) : Prop :=
  match ops with
  | [] => True
  | op :: ops => op_ok doc op ∧ ∀ doc' bop, ApplyOperation doc op = Ok (doc', bop) → ops_ok doc' ops
  end.

Lemma apply_all_ok doc ops :
  wf doc → ops_ok doc ops → ∃ doc' bops, apply_all doc ops = Ok (doc', bops) ∧ wf doc' ∧
    dstr doc' = foldl (λ s bop, edit bop s) (dstr doc) bops ∧ length bops = length ops.
Proof.
  revert doc. induction ops as [|op ops IH]; intros doc W; cbn [ops_ok apply_all].
  { intros _. by exists doc, []. }
  intros [Hok Hops]. destruct (ApplyOperation_applied doc op W Hok) as (doc1 & bop & Ha & Hap).
  rewrite Ha, bind_Ok. destruct (IH doc1 (ap_wf _ _ _ _ Hap) (Hops _ _ Ha))
    as (doc' & bops & -> & W' & Hd & Hlen). rewrite bind_Ok.
  exists doc', (bop :: bops). simpl. by rewrite <-(ap_text _ _ _ _ Hap), Hlen.
Qed.

(** C16: under its precondition a remote operation returns without a panic,
    keeps the document well formed, and reports to the buffer exactly the edit
    that turned the old string into the new one, at a position of the text. *)
Theorem ApplyOperation_edits_text doc op :
  wf doc → op_ok doc op →
  ∃ doc' bop s, ApplyOperation doc op = Ok (doc', bop) ∧ wf doc' ∧
    DocToString doc = Ok s ∧ DocToString doc' = Ok (edit bop s) ∧ edit_in_range bop s ∧
    dc_Size doc' = zlen (edit bop s).
Proof.
  intros W Hok. destruct (ApplyOperation_applied doc op W Hok) as (doc' & bop & Ha & [W' Hd Hr _ _]).
  exists doc', bop, (dstr doc).
  rewrite (DocToString_dstr _ W), (DocToString_dstr _ W'), <-Hd.
  split_and!; try done. by apply dc_Size_zlen.
Qed.

Definition root_op (id : NodeId) (n : Z) (ch : byte) : Operation :=
  mkOperation INSERT_ROOT zero_id 0 id n ch.
Definition new_op (parent : NodeId) (parentN : Z) (id : NodeId) (n : Z) (ch : byte) : Operation :=
  mkOperation INSERT_NEW parent parentN id n ch.
Definition insert_op (id : NodeId) (n : Z) (ch : byte) : Operation :=
  mkOperation INSERT zero_id 0 id n ch.
Definition delete_op (id : NodeId) (n : Z) : Operation :=
  mkOperation DELETE zero_id 0 id n x00.

(** Two sites editing: a root, a second character in it, a node below the
    second character, a deletion of the first character. *)
Definition sample_site (b : byte) : SiteId := replicate 16 b.
Definition sample_id (b : byte) (k : Z) : NodeId := NewNodeId (sample_site b) k.
Definition sample_ops : list Operation :=
  [root_op (sample_id x01 1) 0 x61; insert_op (sample_id x01 1) 1 x63;
   new_op (sample_id x01 1) 1 (sample_id x02 1) 0 x62; delete_op (sample_id x01 1) 0].

Lemma op_ok_root doc id n ch :
  dc_Nodes doc !! id = None → 0 ≤ n < w16 - 5 → op_ok doc (root_op id n ch).
Proof. done. Qed.

Lemma ApplyOperation_edits_text_witness :
  op_ok NewDocument (root_op (sample_id x01 1) 2 x61) ∧
  ∃ doc' bop s, ApplyOperation NewDocument (root_op (sample_id x01 1) 2 x61) = Ok (doc', bop) ∧
    wf doc' ∧ DocToString NewDocument = Ok s ∧ DocToString doc' = Ok (edit bop s) ∧
    edit_in_range bop s ∧ dc_Size doc' = zlen (edit bop s).
Proof.
  assert (op_ok NewDocument (root_op (sample_id x01 1) 2 x61)) as Hok
    by (apply op_ok_root; [reflexivity|vm_compute; split; congruence]).
  split; [exact Hok|].
  exact (ApplyOperation_edits_text NewDocument _ wf_NewDocument Hok).
Defined.

Lemma DocStat_counts_text_witness :
  ∃ s dead, DocToString NewDocument = Ok s ∧ DocStat NewDocument = Ok (dc_Size NewDocument, dead) ∧
    dc_Size NewDocument = zlen s ∧ 0 ≤ dead.
Proof. exact (DocStat_counts_text NewDocument wf_NewDocument). Defined.

(** A sequence of remote operations that respects causality, applied from
    the empty document, never panics, and replaying the reported edits on the
    empty text gives the document's string. *)
Theorem apply_all_replays ops :
  ops_ok NewDocument ops →
  ∃ doc bops, apply_all NewDocument ops = Ok (doc, bops) ∧ wf doc ∧
    DocToString doc = Ok (foldl (λ s bop, edit bop s) [] bops) ∧ length bops = length ops.
Proof.
  intros Hok. destruct (apply_all_ok _ _ wf_NewDocument Hok) as (doc & bops & H1 & W & H2 & H3).
  exists doc, bops. rewrite (DocToString_dstr _ W), H2. done.
Qed.

(** [ops_ok] by running the operations. *)
#[export] Instance op_ok_dec doc op : Decision (op_ok doc op).
Proof. unfold op_ok. destruct (op_Type op); apply _. Defined.

Fixpoint ops_okb (doc : Document) (ops : list Operation) : bool :=
  match ops with
  | [] => true
  | op :: ops =>
      bool_decide (op_ok doc op) &&
      match ApplyOperation doc op with Ok (doc', _) => ops_okb doc' ops | _ => false end
  end.

Lemma ops_okb_ok doc ops : ops_okb doc ops = true → ops_ok doc ops.
Proof.
  revert doc. induction ops as [|op ops IH]; intros doc; cbn [ops_okb ops_ok]; [done|].
  intros [Hok H]%andb_prop. apply bool_decide_eq_true in Hok. split; [done|].
  intros doc' bop Ha. rewrite Ha in H. by apply IH.
Qed.

Lemma apply_all_replays_witness :
  ops_ok NewDocument sample_ops ∧
  (∃ doc bops, apply_all NewDocument sample_ops = Ok (doc, bops) ∧ wf doc ∧
    DocToString doc = Ok (foldl (λ s bop, edit bop s) [] bops) ∧
    length bops = length sample_ops).
Proof.
  assert (ops_ok NewDocument sample_ops) as Hok by (apply ops_okb_ok; vm_compute; reflexivity).
  split; [exact Hok|]. exact (apply_all_replays sample_ops Hok).
Defined.

(** ** Errors *)

Lemma slot_None_inv doc id n :
  wf doc → is_Some (dc_Nodes doc !! id) → slot doc id n = None →
  ∃ x nd, dc_Nodes doc !! id = Some x ∧ dc_heap doc !! x = Some nd ∧ node_slot nd n = None.
Proof.
  intros W [x Hx] Hs. destruct (wf_nodes _ _ _ W _ _ Hx) as (nd & Hnd & _).
  unfold slot in Hs. rewrite (node_at_lookup _ _ _ _ Hx Hnd) in Hs. eauto.
Qed.

(** The slot an operation on an existing node looks at, after the extension. *)
Lemma extended_atom nd n st :
  0 ≤ n → (fst <$> node_slot nd (Z.to_nat n)) = st →
  ∃ a, index (ext_atoms (nd_Atoms nd) n) n = Ok a ∧
    at_State a = default UNINITIALIZED st.
Proof.
  intros Hn Hst. destruct (ext_atoms_slot (nd_Atoms nd) n Hn) as [a Ha]. exists a.
  split; [by apply index_Z'|]. rewrite <-Hst, <-(node_slot_extended n). unfold node_slot.
  unfold extended; simpl. rewrite Ha. simpl. by case_decide.
Qed.

(** The remote operations fail loudly when their precondition fails: an
    insertion into a used slot and a deletion of an unused one raise the
    explicit panics of the code, and an operation on an identifier that is not
    in the document dereferences a nil pointer. *)
Theorem ApplyOperation_errors doc op :
  wf doc → 0 ≤ op_N op < w16 - 5 →
  (op_Type op = INSERT → is_Some (slot doc (op_Id op) (Z.to_nat (op_N op))) →
     ApplyOperation doc op = Panic ExplicitPanic) ∧
  (op_Type op = DELETE → is_Some (dc_Nodes doc !! op_Id op) →
     slot doc (op_Id op) (Z.to_nat (op_N op)) = None →
     ApplyOperation doc op = Panic ExplicitPanic) ∧
  (op_Type op = INSERT ∨ op_Type op = DELETE → dc_Nodes doc !! op_Id op = None →
     ApplyOperation doc op = Panic NilPointer) ∧
  (op_Type op = INSERT_NEW → dc_Nodes doc !! op_ParentId op = None →
     ApplyOperation doc op = Panic NilPointer).
Proof.
  intros W Hn. unfold ApplyOperation. split_and!; intros Hty; rewrite ?Hty.
  - intros [[st ch] Hs]. apply bind_Some in Hs as (nd & Hnd & Hs).
    apply node_at_Some in Hnd as (x & Hx & Hl & _); [|done].
    destruct (extended_atom nd (op_N op) (Some st)) as (a & Ha & Hst); [lia|by rewrite Hs|].
    unfold Insert, lookup_node. rewrite Hx. simpl. rewrite (deref_Some _ _ _ Hl), bind_Ok.
    rewrite extendAtomToSize_ok, bind_Ok, Ha, bind_Ok by (by eapply wf_len).
    rewrite decide_True; [done|]. rewrite Hst. simpl. unfold node_slot in Hs.
    apply bind_Some in Hs as (b & _ & Hb). case_decide; [done|]. by injection Hb as <- _.
  - intros Hx Hs. destruct (slot_None_inv _ _ _ W Hx Hs) as (x & nd & Hx' & Hl & Hns).
    destruct (extended_atom nd (op_N op) None) as (a & Ha & Hst); [lia|by rewrite Hns|].
    unfold Delete, lookup_node. rewrite Hx'. simpl. rewrite (deref_Some _ _ _ Hl), bind_Ok.
    rewrite extendAtomToSize_ok, bind_Ok, Ha, bind_Ok by (by eapply wf_len). by rewrite Hst.
  - intros Hx. destruct Hty as [-> | ->]; unfold Insert, Delete, lookup_node; by rewrite Hx.
  - intros Hx. unfold InsertNew. rewrite Hx.
    rewrite (proj2 (insertAtom_nil _ _ Hn)), bind_Ok. simpl. done.
Qed.

Lemma ApplyOperation_errors_witness :
  ApplyOperation NewDocument (delete_op (sample_id x01 1) 0) = Panic NilPointer.
Proof.
  refine (proj1 (proj2 (proj2 (ApplyOperation_errors NewDocument
    (delete_op (sample_id x01 1) 0) wf_NewDocument _))) _ _).
  - vm_compute. split; congruence.
  - by right.
  - reflexivity.
Defined.

(** The bound on [N] is needed. The length and the capacity of a new
    node's atoms are computed in [uint16], so an operation that creates a node
    at one of the last five indices panics. *)
Theorem InsertRoot_wraps doc op :
  65531 ≤ op_N op ≤ 65535 → op_Type op = INSERT_ROOT →
  ApplyOperation doc op =
    Panic (if op_N op =? 65535 then IndexOutOfRange else MakeSliceOutOfRange).
Proof.
  intros Hn Hty. unfold ApplyOperation. rewrite Hty. unfold InsertRoot, extendAtomToSize.
  assert (op_N op = 65531 ∨ op_N op = 65532 ∨ op_N op = 65533 ∨ op_N op = 65534 ∨ op_N op = 65535)
    as [-> | [-> | [-> | [-> | ->]]]] by lia; reflexivity.
Qed.

Lemma InsertRoot_wraps_witness :
  ApplyOperation NewDocument (root_op (sample_id x01 1) 65531 x61) = Panic MakeSliceOutOfRange.
Proof. apply (InsertRoot_wraps NewDocument (root_op (sample_id x01 1) 65531 x61)); [|reflexivity].
  vm_compute. split; congruence. Defined.
