(* ===== verification/TreedocConv.v ===== *)
(** Strong eventual consistency of the tree document: the links and the slots
    determine the text, the operations act on them independently of their
    order, and so two replicas that applied the same operations, each in an
    order that respects causality, show the same string. *)
From S2P Require Import Prelude Common BufferOp Treedoc TreedocInv TreedocWf TreedocRemote TreedocSpec.

Open Scope Z_scope.

(** ** The content determines the text *)

Lemma concat_lookup {A B} (f : A → list B) (l : list A) m :
  (length l ≤ m)%nat →
  concat (map f l) =
  concat (map (λ k, match l !! k with Some a => f a | None => [] end) (seq 0 m)).
Proof.
  revert l. induction m as [|m IH]; intros l Hm.
  { destruct l; simpl in Hm; [done|lia]. }
  destruct l as [|a l].
  - assert (∀ s n, concat (map (λ k : nat, match (@nil A) !! k with
        Some a => f a | None => [] end) (seq s n)) = []) as ->; [|done].
    intros s n. revert s. induction n; intros s; simpl; [done|]. by rewrite IHn.
  - simpl in Hm. cbn [seq map concat]. simpl. f_equal. rewrite (IH l) by lia.
    by rewrite <-seq_shift, map_map.
Qed.

Lemma sorted_ids_unique h1 h2 L1 L2 :
  sorted_ids h1 L1 → sorted_ids h2 L2 →
  NoDup (map (id_of h1) L1) → NoDup (map (id_of h2) L2) →
  (∀ id, id ∈ map (id_of h1) L1 ↔ id ∈ map (id_of h2) L2) →
  map (id_of h1) L1 = map (id_of h2) L2.
Proof.
  intros S1 S2 N1 N2 H.
  assert (AntiSymm (=) bytes_le) by (intros a b; apply bytes_le_antisym).
  eapply (StronglySorted_unique bytes_le); [exact S1|exact S2|].
  by apply NoDup_Permutation.
Qed.

(** The identifiers in a slot, by links. *)
Lemma children_ids doc x nd k id :
  wf doc → dc_heap doc !! x = Some nd →
  id ∈ map (id_of (dc_heap doc)) (left_at (dc_heap doc) x k) ↔
  ∃ c cd, dc_heap doc !! c = Some cd ∧ nd_NodeId cd = id ∧
    nd_Parent cd = Some x ∧ Z.to_nat (nd_ParentN cd) = k ∧ 0 ≤ nd_ParentN cd.
Proof.
  intros W Hx. rewrite list_elem_of_fmap. split.
  - intros (c & -> & Hc). pose proof (sh_down _ _ (wf_sh _ _ _ W) _ _ _ Hc) as Hp.
    apply par_Some_inv in Hp as (cd & Hcd & HP & HN). exists c, cd. unfold id_of.
    rewrite Hcd. split_and!; try done; lia.
  - intros (c & cd & Hcd & <- & HP & HN & _). exists c. unfold id_of. rewrite Hcd. split; [done|].
    pose proof (sh_up _ _ (wf_sh _ _ _ W) c (Some x) (nd_ParentN cd)) as Hup.
    destruct Hup as [_ Hin]; [by rewrite (par_Some _ _ _ Hcd), HP|]. by rewrite <-HN.
Qed.

Lemma ids_nodup doc L :
  wf doc → NoDup L → (∀ c, c ∈ L → (c < length (dc_heap doc))%nat) →
  NoDup (map (id_of (dc_heap doc)) L).
Proof.
  intros W HN HL. apply NoDup_fmap_2_strong; [|done]. intros c1 c2 H1 H2 He.
  destruct (lookup_lt_is_Some_2 _ _ (HL _ H1)) as [n1 Hn1].
  destruct (lookup_lt_is_Some_2 _ _ (HL _ H2)) as [n2 Hn2].
  unfold id_of in He. rewrite Hn1, Hn2 in He.
  pose proof (wf_ids _ _ _ W _ _ Hn1) as I1. pose proof (wf_ids _ _ _ W _ _ Hn2). congruence.
Qed.

(** [link] of a node, by its location. *)
Lemma link_at doc x nd :
  wf doc → dc_heap doc !! x = Some nd →
  link doc (nd_NodeId nd) = Some (id_of (dc_heap doc) <$> nd_Parent nd, nd_ParentN nd).
Proof.
  intros W Hx. unfold link. by rewrite (node_at_lookup _ _ _ _ (wf_ids _ _ _ W _ _ Hx) Hx).
Qed.
Lemma slot_at doc x nd n :
  wf doc → dc_heap doc !! x = Some nd → slot doc (nd_NodeId nd) n = node_slot nd n.
Proof.
  intros W Hx. unfold slot. by rewrite (node_at_lookup _ _ _ _ (wf_ids _ _ _ W _ _ Hx) Hx).
Qed.

(** A node of one document has a counterpart in the other. *)
Lemma link_node doc id l :
  wf doc → link doc id = Some l → ∃ x nd, dc_heap doc !! x = Some nd ∧ nd_NodeId nd = id ∧
    l = (id_of (dc_heap doc) <$> nd_Parent nd, nd_ParentN nd).
Proof.
  intros W. unfold link. destruct (node_at doc id) as [nd|] eqn:Hnd; [|done].
  apply node_at_Some in Hnd as (x & _ & Hx & Hid); [|done]. intros [= <-]. eauto.
Qed.

Section same_content.
Context (doc1 doc2 : Document) (W1 : wf doc1) (W2 : wf doc2).
Context (HL : ∀ id, link doc1 id = link doc2 id).
Context (HS : ∀ id n, slot doc1 id n = slot doc2 id n).

Lemma same_children x1 x2 nd1 nd2 k :
  dc_heap doc1 !! x1 = Some nd1 → dc_heap doc2 !! x2 = Some nd2 →
  nd_NodeId nd1 = nd_NodeId nd2 →
  ∀ id, id ∈ map (id_of (dc_heap doc1)) (left_at (dc_heap doc1) x1 k) →
        id ∈ map (id_of (dc_heap doc2)) (left_at (dc_heap doc2) x2 k).
Proof using W1 W2 HL.
  intros H1 H2 Hid id. rewrite (children_ids _ _ _ _ _ W1 H1), (children_ids _ _ _ _ _ W2 H2).
  intros (c & cd & Hc & <- & HP & HN & H0). pose proof (link_at _ _ _ W1 Hc) as Hl.
  rewrite HL, HP in Hl. simpl in Hl. unfold id_of in Hl. rewrite H1 in Hl.
  apply link_node in Hl as (c' & cd' & Hc' & Hid' & Hpar); [|done].
  injection Hpar as Hpar HNe.
  exists c', cd'. split_and!; [done|done| |by rewrite <-HNe|by rewrite <-HNe].
  destruct (nd_Parent cd') as [p|] eqn:Hp; [|done]. simpl in Hpar. f_equal.
  pose proof (ws_up _ _ _ _ (wf_sh _ _ _ W2) Hc') as Hup. rewrite Hp in Hup.
  destruct Hup as [_ (pd & a & Hpd & _)]. unfold id_of in Hpar. rewrite Hpd in Hpar.
  injection Hpar as Hpar. assert (nd_NodeId pd = nd_NodeId nd2) as He by (by rewrite <-Hpar).
  pose proof (wf_ids _ _ _ W2 _ _ Hpd). pose proof (wf_ids _ _ _ W2 _ _ H2). congruence.
Qed.

Lemma same_root_ids id :
  id ∈ map (id_of (dc_heap doc1)) (dc_Doc doc1) → id ∈ map (id_of (dc_heap doc2)) (dc_Doc doc2).
Proof using W1 W2 HL.
  intros (c & -> & Hc)%list_elem_of_fmap.
  destruct (ws_roots _ _ _ (wf_sh _ _ _ W1) Hc) as (cd & Hcd & HP).
  pose proof (link_at _ _ _ W1 Hcd) as Hl. rewrite HL, HP in Hl.
  apply link_node in Hl as (c' & cd' & Hc' & Hid' & Hpar); [|done].
  apply list_elem_of_fmap. exists c'. unfold id_of. rewrite Hcd, Hc'. split; [done|].
  pose proof (ws_up _ _ _ _ (wf_sh _ _ _ W2) Hc') as Hup.
  by destruct (nd_Parent cd').
Qed.

(** The characters of a slot. *)
Definition slot_str (s : option (AtomState * byte)) : list byte :=
  match s with Some (ALIVE, ch) => [ch] | _ => [] end.

Lemma slot_str_achar nd k a : nd_Atoms nd !! k = Some a → achar a = slot_str (node_slot nd k).
Proof using.
  intros Ha. unfold achar, node_slot. rewrite Ha. simpl. by destruct (at_State a).
Qed.

Lemma slot_text h nd x k :
  h !! x = Some nd →
  match nd_Atoms nd !! k with Some a => astr h a | None => [] end =
  lstr h (left_at h x k) ++ slot_str (node_slot nd k).
Proof using.
  intros Hx. unfold left_at. rewrite Hx. destruct (nd_Atoms nd !! k) as [a|] eqn:Ha.
  - unfold astr. by rewrite (slot_str_achar _ _ _ Ha).
  - unfold node_slot. by rewrite Ha.
Qed.
End same_content.

(** Lists of nodes with the same identifiers, whose texts agree one by one. *)
Lemma lstr_ids h1 h2 L1 L2 :
  map (id_of h1) L1 = map (id_of h2) L2 →
  (∀ c1 c2, c1 ∈ L1 → c2 ∈ L2 → id_of h1 c1 = id_of h2 c2 → nstr h1 c1 = nstr h2 c2) →
  lstr h1 L1 = lstr h2 L2.
Proof.
  revert L2. induction L1 as [|c1 L1 IH]; intros [|c2 L2]; simpl; intros Hm H; try done.
  injection Hm as Hid Hm. rewrite !lstr_cons. f_equal.
  - apply H; [by left..|done].
  - apply IH; [done|]. intros y1 y2 ? ?. apply H; by right.
Qed.

Lemma left_ids doc1 doc2 x1 x2 nd1 nd2 k :
  wf doc1 → wf doc2 → (∀ id, link doc1 id = link doc2 id) →
  dc_heap doc1 !! x1 = Some nd1 → dc_heap doc2 !! x2 = Some nd2 →
  nd_NodeId nd1 = nd_NodeId nd2 →
  map (id_of (dc_heap doc1)) (left_at (dc_heap doc1) x1 k) =
  map (id_of (dc_heap doc2)) (left_at (dc_heap doc2) x2 k).
Proof.
  intros W1 W2 HL H1 H2 Hid. apply sorted_ids_unique; [apply W1|apply W2| | |].
  - apply ids_nodup; [done|eapply sh_nodup; apply W1|]. intros c. eapply left_at_bound; apply W1.
  - apply ids_nodup; [done|eapply sh_nodup; apply W2|]. intros c. eapply left_at_bound; apply W2.
  - intros id. split.
    + apply (same_children doc1 doc2 W1 W2 HL _ _ _ _ _ H1 H2 Hid).
    + by apply (same_children doc2 doc1 W2 W1 (λ id, eq_sym (HL id)) _ _ nd2 nd1).
Qed.

Lemma same_nstr doc1 doc2 x1 x2 nd1 nd2 :
  wf doc1 → wf doc2 → (∀ id, link doc1 id = link doc2 id) →
  (∀ id n, slot doc1 id n = slot doc2 id n) →
  dc_heap doc1 !! x1 = Some nd1 → dc_heap doc2 !! x2 = Some nd2 →
  nd_NodeId nd1 = nd_NodeId nd2 → nstr (dc_heap doc1) x1 = nstr (dc_heap doc2) x2.
Proof.
  intros W1 W2 HL HS. remember (length (dc_heap doc1) - x1)%nat as m eqn:Hm.
  revert x1 x2 nd1 nd2 Hm. induction (lt_wf m) as [m _ IH]. intros x1 x2 nd1 nd2 -> H1 H2 Hid.
  rewrite (nstr_unfold _ _ _ _ (wf_sh _ _ _ W1) H1), (nstr_unfold _ _ _ _ (wf_sh _ _ _ W2) H2).
  set (b := Nat.max (length (nd_Atoms nd1)) (length (nd_Atoms nd2))).
  rewrite (concat_lookup _ _ b), (concat_lookup _ (nd_Atoms nd2) b) by lia. f_equal.
  apply map_ext_in'. intros k _. rewrite (slot_text _ _ _ _ H1), (slot_text _ _ _ _ H2). f_equal.
  - apply lstr_ids; [by eapply left_ids|]. intros c1 c2 Hc1 Hc2 Hc.
    apply left_at_elem in Hc1 as (nd1' & a & Hx & Ha & Hc1). simplify_eq.
    pose proof (ws_child_lt _ _ _ _ _ _ _ (wf_sh _ _ _ W1) H1 Ha Hc1) as Hlt.
    pose proof (left_at_bound _ _ _ _ _ (wf_sh _ _ _ W2) Hc2) as Hlt2.
    destruct (lookup_lt_is_Some_2 _ _ (proj2 Hlt)) as [cd1 Hcd1].
    destruct (lookup_lt_is_Some_2 _ _ Hlt2) as [cd2 Hcd2].
    unfold id_of in Hc. rewrite Hcd1, Hcd2 in Hc. eapply IH; [|done..]. lia.
  - by rewrite <-(slot_at _ _ _ _ W1 H1), <-(slot_at _ _ _ _ W2 H2), Hid, HS.
Qed.

Lemma same_content_text doc1 doc2 :
  wf doc1 → wf doc2 → (∀ id, link doc1 id = link doc2 id) →
  (∀ id n, slot doc1 id n = slot doc2 id n) → dstr doc1 = dstr doc2.
Proof.
  intros W1 W2 HL HS. apply lstr_ids.
  - apply sorted_ids_unique; [apply W1|apply W2| | |].
    + apply ids_nodup; [done|apply (wf_sh _ _ _ W1)|]. intros c. by apply root_lt, W1.
    + apply ids_nodup; [done|apply (wf_sh _ _ _ W2)|]. intros c. by apply root_lt, W2.
    + intros id. split; [by apply same_root_ids|by apply same_root_ids].
  - intros c1 c2 Hc1 Hc2 Hid.
    destruct (ws_roots _ _ _ (wf_sh _ _ _ W1) Hc1) as (cd1 & Hcd1 & _).
    destruct (ws_roots _ _ _ (wf_sh _ _ _ W2) Hc2) as (cd2 & Hcd2 & _).
    unfold id_of in Hid. rewrite Hcd1, Hcd2 in Hid. by eapply same_nstr.
Qed.

(** ** The operations as sets *)

(** What an operation contributes, whenever it is applied. *)
Definition creates (op : Operation) (id : NodeId) (l : option NodeId * Z) : Prop :=
  id = op_Id op ∧
  (op_Type op = INSERT_NEW ∧ l = (Some (op_ParentId op), op_ParentN op) ∨
   op_Type op = INSERT_ROOT ∧ l = (None, 0)).
Definition fills (op : Operation) (id : NodeId) (n : nat) (ch : byte) : Prop :=
  op_Type op ∈ [INSERT; INSERT_NEW; INSERT_ROOT] ∧
  id = op_Id op ∧ n = Z.to_nat (op_N op) ∧ ch = op_Atom op.
Definition deletes (op : Operation) (id : NodeId) (n : nat) : Prop :=
  op_Type op = DELETE ∧ id = op_Id op ∧ n = Z.to_nat (op_N op).

Definition has_char (doc : Document) (id : NodeId) (n : nat) (ch : byte) : Prop :=
  snd <$> slot doc id n = Some ch.
Definition is_dead (doc : Document) (id : NodeId) (n : nat) : Prop :=
  fst <$> slot doc id n = Some DEAD.

Lemma fresh_content doc id n :
  dc_Nodes doc !! id = None → link doc id = None ∧ slot doc id n = None.
Proof. intros H. unfold link, slot, node_at. by rewrite H. Qed.

(** What applying an operation does to the links and the slots. *)
Record effect (doc : Document) (op : Operation) (doc' : Document) : Prop := {
  ef_link id : link doc' id = link_after op (link doc) id;
  ef_slot id n : slot doc' id n = slot_after op (slot doc) id n
}.
Lemma applied_effect doc op doc' bop : applied doc op doc' bop → effect doc op doc'.
Proof. intros []. by split. Qed.

Lemma link_step doc op doc' id l :
  op_ok doc op → effect doc op doc' →
  link doc' id = Some l ↔ link doc id = Some l ∨ creates op id l.
Proof.
  intros Hok Hap. rewrite (ef_link _ _ _ Hap). unfold link_after, creates, op_ok in *.
  destruct (decide (id = op_Id op)) as [->|]; [|naive_solver].
  destruct (op_Type op) eqn:Hty; [naive_solver| | |naive_solver|naive_solver].
  - destruct Hok as (Hf & _). destruct (fresh_content _ _ 0%nat Hf) as [-> _]. naive_solver.
  - destruct Hok as (Hf & _). destruct (fresh_content _ _ 0%nat Hf) as [-> _]. naive_solver.
Qed.

Lemma char_step doc op doc' id n ch :
  op_ok doc op → effect doc op doc' →
  has_char doc' id n ch ↔ has_char doc id n ch ∨ fills op id n ch.
Proof.
  intros Hok Hap. unfold has_char. rewrite (ef_slot _ _ _ Hap).
  unfold slot_after, fills, op_ok in *. rewrite !elem_of_cons, elem_of_nil.
  case_decide as Hd; [destruct Hd as [-> ->]|naive_solver].
  destruct (op_Type op) eqn:Hty; [naive_solver| | | |].
  - destruct Hok as (Hf & _). destruct (fresh_content _ _ (Z.to_nat (op_N op)) Hf) as [_ ->].
    naive_solver.
  - destruct Hok as (Hf & _). destruct (fresh_content _ _ (Z.to_nat (op_N op)) Hf) as [_ ->].
    naive_solver.
  - destruct Hok as (_ & -> & _). naive_solver.
  - destruct Hok as ([[st c] ->] & _). naive_solver.
Qed.

Lemma dead_step doc op doc' id n :
  op_ok doc op → effect doc op doc' →
  is_dead doc' id n ↔ is_dead doc id n ∨ deletes op id n.
Proof.
  intros Hok Hap. unfold is_dead. rewrite (ef_slot _ _ _ Hap).
  unfold slot_after, deletes, op_ok in *.
  case_decide as Hd; [destruct Hd as [-> ->]|naive_solver].
  destruct (op_Type op) eqn:Hty; [naive_solver| | | |].
  - destruct Hok as (Hf & _). destruct (fresh_content _ _ (Z.to_nat (op_N op)) Hf) as [_ ->].
    naive_solver.
  - destruct Hok as (Hf & _). destruct (fresh_content _ _ (Z.to_nat (op_N op)) Hf) as [_ ->].
    naive_solver.
  - destruct Hok as (_ & -> & _). naive_solver.
  - destruct Hok as ([[st c] ->] & _). naive_solver.
Qed.

(** The content of a document is what a set of operations contributes. *)
Record content (doc : Document) (P : Operation → Prop) : Prop := {
  ct_link id l : link doc id = Some l ↔ ∃ op, P op ∧ creates op id l;
  ct_char id n ch : has_char doc id n ch ↔ ∃ op, P op ∧ fills op id n ch;
  ct_dead id n : is_dead doc id n ↔ ∃ op, P op ∧ deletes op id n
}.

Lemma content_NewDocument : content NewDocument (λ _, False).
Proof. split; intros; (split; [done|naive_solver]). Qed.

Lemma content_iff doc P Q : (∀ op, P op ↔ Q op) → content doc P → content doc Q.
Proof. intros HPQ []. split; intros; setoid_rewrite <-HPQ; auto. Qed.

Lemma content_step doc op doc' P :
  op_ok doc op → effect doc op doc' → content doc P → content doc' (λ o, P o ∨ o = op).
Proof.
  intros Hok He [HL HC HD]. split; intros;
    rewrite ?(link_step _ _ _ _ _ Hok He), ?(char_step _ _ _ _ _ _ Hok He),
      ?(dead_step _ _ _ _ _ Hok He), ?HL, ?HC, ?HD; naive_solver.
Qed.

(** The content after a sequence of operations depends on their set. *)
Lemma content_of_set doc ops P :
  wf doc → ops_ok doc ops → content doc P →
  ∃ doc' bops, apply_all doc ops = Ok (doc', bops) ∧ wf doc' ∧ content doc' (λ o, P o ∨ o ∈ ops).
Proof.
  revert doc P. induction ops as [|op ops IH]; intros doc P W; cbn [ops_ok apply_all].
  { intros _ HP. exists doc, []. split_and!; [done..|]. eapply content_iff; [|exact HP]. set_solver. }
  intros [Hok Hops] HP. destruct (ApplyOperation_applied doc op W Hok) as (doc1 & bop & Ha & Hap).
  rewrite Ha, bind_Ok. pose proof (applied_effect _ _ _ _ Hap) as He.
  destruct (IH doc1 _ (ap_wf _ _ _ _ Hap) (Hops _ _ Ha) (content_step _ _ _ _ Hok He HP))
    as (doc' & bops & -> & W' & HP').
  exists doc', (bop :: bops). split_and!; [done..|]. eapply content_iff; [|exact HP']. set_solver.
Qed.

(** Two slots with the same character and the same deletedness. *)
Lemma slot_ext doc1 doc2 id n :
  (∀ ch, has_char doc1 id n ch ↔ has_char doc2 id n ch) →
  (is_dead doc1 id n ↔ is_dead doc2 id n) → slot doc1 id n = slot doc2 id n.
Proof.
  unfold has_char, is_dead. intros Hc Hd.
  assert (∀ doc st ch, slot doc id n = Some (st, ch) → st ≠ UNINITIALIZED) as Hun.
  { intros doc st ch (nd & _ & Hs)%bind_Some. apply bind_Some in Hs as (a & _ & Hs).
    case_decide; [done|]. congruence. }
  destruct (slot doc1 id n) as [[s1 c1]|] eqn:E1, (slot doc2 id n) as [[s2 c2]|] eqn:E2;
    simpl in *; [|discriminate (proj1 (Hc c1) eq_refl)|discriminate (proj2 (Hc c2) eq_refl)|done].
  pose proof (proj1 (Hc c1) eq_refl) as H. pose proof (Hun _ _ _ E1). pose proof (Hun _ _ _ E2).
  f_equal. destruct s1, s2; try done; try congruence; exfalso;
    (discriminate (proj1 Hd eq_refl) || discriminate (proj2 Hd eq_refl)).
Qed.

Lemma content_text doc1 doc2 P :
  wf doc1 → wf doc2 → content doc1 P → content doc2 P → dstr doc1 = dstr doc2.
Proof.
  intros W1 W2 [L1 C1 D1] [L2 C2 D2]. apply same_content_text; [done|done| |].
  - intros id. apply option_eq. intros l. by rewrite L1, L2.
  - intros id n. apply slot_ext; [intros ch; by rewrite C1, C2|by rewrite D1, D2].
Qed.

(** C4: strong eventual consistency. Two replicas that start from the empty
    document and apply the same set of operations, each in an order that
    respects causality, end with the same string, although their heaps and the
    edits they reported may differ. *)
Theorem replicas_converge ops1 ops2 :
  ops_ok NewDocument ops1 → ops_ok NewDocument ops2 → (∀ op, op ∈ ops1 ↔ op ∈ ops2) →
  ∃ doc1 bops1 doc2 bops2 s,
    apply_all NewDocument ops1 = Ok (doc1, bops1) ∧ apply_all NewDocument ops2 = Ok (doc2, bops2) ∧
    DocToString doc1 = Ok s ∧ DocToString doc2 = Ok s.
Proof.
  intros Hok1 Hok2 Hsame.
  destruct (content_of_set _ _ _ wf_NewDocument Hok1 content_NewDocument) as (doc1 & b1 & -> & W1 & P1).
  destruct (content_of_set _ _ _ wf_NewDocument Hok2 content_NewDocument) as (doc2 & b2 & -> & W2 & P2).
  exists doc1, b1, doc2, b2, (dstr doc1). split_and!; [done..|by apply DocToString_dstr|].
  rewrite (DocToString_dstr _ W2). f_equal. symmetry. eapply content_text; [done|done|exact P1|].
  eapply content_iff; [|exact P2]. intros op. by rewrite Hsame.
Qed.

(** The sample operations, and a replica that gets the deletion, the new node
    and the second character of the root in another order. *)
Definition sample_ops' : list Operation :=
  [root_op (sample_id x01 1) 0 x61; delete_op (sample_id x01 1) 0;
   new_op (sample_id x01 1) 1 (sample_id x02 1) 0 x62; insert_op (sample_id x01 1) 1 x63].

Lemma replicas_converge_witness :
  ∃ doc1 bops1 doc2 bops2 s,
    apply_all NewDocument sample_ops = Ok (doc1, bops1) ∧
    apply_all NewDocument sample_ops' = Ok (doc2, bops2) ∧
    DocToString doc1 = Ok s ∧ DocToString doc2 = Ok s.
Proof.
  apply (replicas_converge sample_ops sample_ops').
  - apply ops_okb_ok. vm_compute. reflexivity.
  - apply ops_okb_ok. vm_compute. reflexivity.
  - intros op. unfold sample_ops, sample_ops'. rewrite !elem_of_cons. tauto.
Defined.
