(* ===== verification/TreedocLocal.v ===== *)
(** The local operations of the tree document: the searches that find the
    node and the slot of a position, [DeletePos] and [InsertPos]. *)
From S2P Require Import Prelude Common BufferOp Treedoc TreedocInv TreedocWf TreedocRemote TreedocSpec TreedocConv.

Open Scope Z_scope.

(** ** The scans *)

Lemma next_node_spec h i rest :
  (∀ c, c ∈ rest → (c < length h)%nat) →
  ∃ A B, rest = A ++ B ∧ (∀ c, c ∈ A → size_of h c = 0) ∧
    (∀ c B', B = c :: B' → size_of h c ≠ 0) ∧
    next_node h i rest = Ok (i + zlen A, head B).
Proof.
  revert i. induction rest as [|c rest IH]; intros i Hr; simpl.
  { exists [], []. split_and!; [done|set_solver|done|]. by rewrite zlen_nil, Z.add_0_r. }
  destruct (lookup_lt_is_Some_2 h c) as [nd Hnd]; [apply Hr; by left|].
  rewrite (deref_Some _ _ _ Hnd), bind_Ok. case (Z.eqb_spec (nd_Size nd) 0) as [Hz|Hz].
  - destruct (IH (i + 1)) as (A & B & -> & HA & HB & ->); [intros; apply Hr; by right|].
    exists (c :: A), B. split_and!; [done| |done|].
    + intros y [->|Hy]%elem_of_cons; [unfold size_of; by rewrite Hnd|auto].
    + rewrite zlen_cons. do 2 f_equal. lia.
  - exists [], (c :: rest). split_and!; [done|set_solver| |].
    + intros y B' [= <- _]. unfold size_of. by rewrite Hnd.
    + by rewrite zlen_nil, Z.add_0_r.
Qed.

Lemma sumZ_zero {A} (f : A → Z) l : (∀ a, a ∈ l → f a = 0) → sumZ f l = 0.
Proof.
  induction l as [|a l IH]; simpl; intros H; [done|].
  rewrite (H a) by (by left). rewrite IH; [done|]. intros; apply H; by right.
Qed.

(** [findNodePos] finds the sibling whose text covers the position. *)
Definition covers (f : loc → Z) (pos acc : Z) (nodes : list loc) (r : Z * option loc) : Prop :=
  match r.2 with
  | Some c => ∃ A B, nodes = A ++ c :: B ∧ r.1 = acc + sumZ f A ∧ r.1 ≤ pos < r.1 + f c
  | None => r.1 = acc + sumZ f nodes ∧ r.1 ≤ pos
  end.

Lemma findNodePos_loop_ok h pos acc0 seen rest fuel :
  (∀ c, c ∈ seen ++ rest → (c < length h)%nat) →
  (length rest < fuel)%nat → acc0 + sumZ (size_of h) seen ≤ pos →
  (∀ c B, rest = c :: B → size_of h c ≠ 0) →
  ∃ r, findNodePos_loop fuel h pos (acc0 + sumZ (size_of h) seen) (zlen seen) (head rest)
         (seen ++ rest) = Ok r ∧ covers (size_of h) pos acc0 (seen ++ rest) r.
Proof.
  revert seen rest. induction fuel as [|fuel IH]; intros seen rest Hb Hf Hacc Hne; [lia|].
  cbn [findNodePos_loop]. destruct rest as [|c rest].
  - rewrite app_nil_r. rewrite (proj2 (Z.ltb_ge _ _)) by lia.
    eexists. split; [reflexivity|]. done.
  - rewrite (proj2 (Z.ltb_lt _ _)) by (rewrite zlen_app, zlen_cons; pose proof (zlen_nonneg rest); lia).
    cbn [hd_error]. rewrite require_Some, bind_Ok.
    destruct (lookup_lt_is_Some_2 h c) as [nd Hnd];
      [apply Hb; apply elem_of_app; right; by left|].
    assert (size_of h c = nd_Size nd) as Hsz by (unfold size_of; by rewrite Hnd).
    rewrite (deref_Some _ _ _ Hnd), bind_Ok.
    destruct (acc0 + sumZ (size_of h) seen + nd_Size nd >? pos) eqn:Hcmp.
    + eexists. split; [reflexivity|]. exists seen, rest. cbn [fst]. split_and!; [done|done|lia|lia].
    + unfold nextNonEmptyNode.
      replace (drop (Z.to_nat (zlen seen + 1)) (seen ++ c :: rest)) with rest.
      2:{ replace (Z.to_nat (zlen seen + 1)) with (length (seen ++ [c])) by (rewrite length_app; unfold zlen; simpl; lia).
          rewrite (cons_middle c seen rest), app_assoc. by rewrite drop_app_length. }
      destruct (next_node_spec h (zlen seen + 1) rest) as (A & B & -> & HA & HB & ->).
      { intros y Hy. apply Hb, elem_of_app. right. by right. }
      rewrite bind_Ok.
      replace (seen ++ c :: A ++ B) with ((seen ++ c :: A) ++ B) in * by (by rewrite <-app_assoc).
      destruct (IH (seen ++ c :: A) B Hb) as (r & Hr & Hc).
      * simpl in Hf. rewrite length_app in Hf. lia.
      * rewrite sumZ_app. simpl. rewrite (sumZ_zero _ A) by done. lia.
      * done.
      * exists r. split; [|done]. rewrite <-Hr. f_equal.
        -- rewrite sumZ_app. simpl. rewrite (sumZ_zero _ A) by done. lia.
        -- rewrite zlen_app, zlen_cons. lia.
Qed.

Lemma findNodePos_ok h pos acc nodes :
  (∀ c, c ∈ nodes → (c < length h)%nat) → acc ≤ pos →
  ∃ r, findNodePos h pos acc nodes = Ok r ∧ covers (size_of h) pos acc nodes r.
Proof.
  intros Hb Hacc. unfold findNodePos, nextNonEmptyNode.
  destruct (next_node_spec h (-1 + 1) nodes Hb) as (A & B & -> & HA & HB & Hn).
  change (drop (Z.to_nat (-1 + 1)) (A ++ B)) with (A ++ B). rewrite Hn, bind_Ok.
  destruct (findNodePos_loop_ok h pos acc A B (S (length (A ++ B))) Hb) as (r & Hr & Hc).
  - rewrite length_app. lia.
  - rewrite (sumZ_zero _ A) by done. lia.
  - done.
  - exists r. rewrite <-Hr. split; [|done]. rewrite (sumZ_zero _ A) by done.
    f_equal; lia.
Qed.

Lemma next_atom_spec test i rest :
  ∃ A B, rest = A ++ B ∧ (∀ a, a ∈ A → test a = false) ∧
    (∀ a B', B = a :: B' → test a = true) ∧ next_atom test i rest = i + zlen A.
Proof.
  revert i. induction rest as [|a rest IH]; intros i; simpl.
  { exists [], []. split_and!; [done|set_solver|done|]. by rewrite zlen_nil, Z.add_0_r. }
  destruct (test a) eqn:Ht.
  - exists [], (a :: rest). split_and!; [done|set_solver| |by rewrite zlen_nil, Z.add_0_r].
    by intros b B' [= <- _].
  - destruct (IH (i + 1)) as (A & B & -> & HA & HB & ->).
    exists (a :: A), B. split_and!; [done| |done|rewrite zlen_cons; lia].
    intros b [->|Hb]%elem_of_cons; auto.
Qed.

(** The next non-empty atom after the atoms [seen ++ [a]]. *)
Lemma nextNonEmptyAtom_spec seen a rest :
  ∃ A B, rest = A ++ B ∧ (∀ b, b ∈ A → at_Size b = 0) ∧
    (∀ b B', B = b :: B' → at_Size b ≠ 0) ∧
    nextNonEmptyAtom (zlen seen) (seen ++ a :: rest) = zlen (seen ++ a :: A).
Proof.
  unfold nextNonEmptyAtom.
  replace (drop (Z.to_nat (zlen seen + 1)) (seen ++ a :: rest)) with rest.
  2:{ replace (Z.to_nat (zlen seen + 1)) with (length (seen ++ [a]))
        by (rewrite length_app; unfold zlen; simpl; lia).
      rewrite (cons_middle a seen rest), app_assoc. by rewrite drop_app_length. }
  destruct (next_atom_spec (λ atom, negb (at_Size atom =? 0)) (zlen seen + 1) rest)
    as (A & B & -> & HA & HB & ->).
  exists A, B. split_and!; [done| | |rewrite zlen_app, zlen_cons; lia].
  - intros b Hb%HA. apply negb_false_iff, Z.eqb_eq in Hb. done.
  - intros b B' Hb%HB. by apply negb_true_iff, Z.eqb_neq in Hb.
Qed.

Lemma firstNonEmptyAtom_spec atoms :
  ∃ A B, atoms = A ++ B ∧ (∀ b, b ∈ A → at_Size b = 0) ∧
    (∀ b B', B = b :: B' → at_Size b ≠ 0) ∧ nextNonEmptyAtom (-1) atoms = zlen A.
Proof.
  unfold nextNonEmptyAtom. change (drop (Z.to_nat (-1 + 1)) atoms) with atoms.
  destruct (next_atom_spec (λ atom, negb (at_Size atom =? 0)) (-1 + 1) atoms)
    as (A & B & -> & HA & HB & ->).
  exists A, B. split_and!; [done| | |lia].
  - intros b Hb%HA. apply negb_false_iff, Z.eqb_eq in Hb. done.
  - intros b B' Hb%HB. by apply negb_true_iff, Z.eqb_neq in Hb.
Qed.

Lemma index_middle {A} (l1 l2 : list A) a : index (l1 ++ a :: l2) (zlen l1) = Ok a.
Proof. unfold zlen. apply index_Some. by apply list_lookup_middle. Qed.

(** An atom that covers the position, with what precedes it. *)
Definition atom_covers (pos acc : Z) (atoms : list Atom) (acc' i : Z) : Prop :=
  ∃ A a B, atoms = A ++ a :: B ∧ i = zlen A ∧ acc' = acc + sumZ at_Size A ∧
    acc' ≤ pos < acc' + at_Size a.

Lemma findAtomPos_loop_ok pos acc0 seen rest fuel :
  (length rest < fuel)%nat → acc0 + sumZ at_Size seen ≤ pos →
  pos < acc0 + sumZ at_Size (seen ++ rest) →
  ∃ acc' i, findAtomPos_loop fuel pos (acc0 + sumZ at_Size seen) (zlen seen) (seen ++ rest) =
    Ok (acc', i) ∧ atom_covers pos acc0 (seen ++ rest) acc' i.
Proof.
  revert seen rest. induction fuel as [|fuel IH]; intros seen rest Hf Hacc Hpos; [lia|].
  destruct rest as [|a rest]; [rewrite app_nil_r in Hpos; lia|]. cbn [findAtomPos_loop].
  rewrite (proj2 (Z.ltb_lt _ _)) by (rewrite zlen_app, zlen_cons; pose proof (zlen_nonneg rest); lia).
  rewrite index_middle, bind_Ok.
  destruct (acc0 + sumZ at_Size seen + at_Size a >? pos) eqn:Hcmp.
  - eexists _, _. split; [reflexivity|]. exists seen, a, rest. split_and!; (done || lia).
  - destruct (nextNonEmptyAtom_spec seen a rest) as (A & B & -> & HA & HB & ->).
    replace (seen ++ a :: A ++ B) with ((seen ++ a :: A) ++ B) in * by (by rewrite <-app_assoc).
    destruct (IH (seen ++ a :: A) B) as (acc' & i & Hr & Hc).
    + simpl in Hf. rewrite length_app in Hf. lia.
    + rewrite sumZ_app. simpl. rewrite (sumZ_zero _ A) by done. lia.
    + done.
    + exists acc', i. split; [|done]. rewrite <-Hr. f_equal.
      rewrite sumZ_app. simpl. rewrite (sumZ_zero _ A) by done. lia.
Qed.

Lemma findAtomPos_ok pos acc atoms :
  acc ≤ pos < acc + sumZ at_Size atoms →
  ∃ acc' i, findAtomPos pos acc atoms = Ok (acc', i) ∧ atom_covers pos acc atoms acc' i.
Proof.
  intros Hpos. unfold findAtomPos.
  destruct (firstNonEmptyAtom_spec atoms) as (A & B & -> & HA & HB & ->).
  destruct (findAtomPos_loop_ok pos acc A B (S (length (A ++ B)))) as (acc' & i & Hr & Hc).
  - rewrite length_app. lia.
  - rewrite (sumZ_zero _ A) by done. lia.
  - lia.
  - exists acc', i. split; [|done]. rewrite <-Hr. f_equal. rewrite (sumZ_zero _ A) by done. lia.
Qed.

(** ** The offset of a slot *)

(** The text before a slot's left subtree has [s] characters. *)
Definition start (doc : Document) (l : loc) (n : nat) (s : Z) : Prop :=
  calcPosHelper doc l (Z.of_nat n) = Ok s.

Lemma calcPosHelper_fuel_mono f f' doc l n s :
  (f ≤ f')%nat → calcPosHelper_fuel f doc l n = Ok s → calcPosHelper_fuel f' doc l n = Ok s.
Proof.
  revert f' l n s. induction f as [|f IH]; intros f' l n s Hf; [done|].
  destruct f' as [|f']; [lia|]. cbn [calcPosHelper_fuel]. intros H.
  apply bind_Ok_inv in H as (nd & -> & H). rewrite bind_Ok.
  apply bind_Ok_inv in H as (acc & -> & H). rewrite bind_Ok.
  destruct (nd_Parent nd) as [p|]; [|done].
  apply bind_Ok_inv in H as (pd & -> & H). rewrite bind_Ok.
  apply bind_Ok_inv in H as (a & -> & H). rewrite bind_Ok.
  apply bind_Ok_inv in H as (acc2 & -> & H). rewrite bind_Ok.
  apply bind_Ok_inv in H as (up & Hup & H). by rewrite (IH f' _ _ _ ltac:(lia) Hup).
Qed.

Section start.
Context (doc : Document) (W : wf doc).
Let h := dc_heap doc.
Let roots := dc_Doc doc.

Lemma start_slots l nd s :
  h !! l = Some nd → start doc l 0 s →
  ∀ n, (n ≤ length (nd_Atoms nd))%nat → start doc l n (s + sumZ at_Size (take n (nd_Atoms nd))).
Proof using W.
  intros Hl Hs n Hn. pose proof (lookup_lt_Some _ _ _ Hl) as Hlt.
  destruct (node_context (walk_fuel doc) doc l nd (wf_sh _ _ _ W) (wf_sz _ _ _ W) Hl)
    as (pre & post & Hpos & _); [unfold walk_fuel; fold h; lia|].
  unfold start, calcPosHelper in *. rewrite Hpos in Hs by lia. rewrite take_0 in Hs.
  injection Hs as <-. rewrite Hpos by done. f_equal. simpl. lia.
Qed.

Lemma start_root A l B : roots = A ++ l :: B → start doc l 0 (sumZ (size_of h) A).
Proof using W.
  intros HL. assert (l ∈ roots) as Hin by (rewrite HL; apply elem_of_app; right; by left).
  destruct (ws_roots _ _ _ (wf_sh _ _ _ W) Hin) as (nd & Hl & Hpar).
  fold h in Hl. unfold start, calcPosHelper, walk_fuel. cbn [calcPosHelper_fuel]. fold h roots.
  rewrite (deref_Some _ _ _ Hl), bind_Ok. change (seqZ 0 (Z.of_nat 0)) with (@nil Z).
  cbn [foldM]. rewrite bind_Ok, Hpar, HL.
  pose proof (ws_nodup_roots _ _ (wf_sh _ _ _ W)) as Hnd. fold roots in Hnd. rewrite HL in Hnd.
  apply NoDup_app in Hnd as (_ & Hnd & _).
  rewrite size_before_Ok; [by rewrite Z.add_0_l| |].
  - intros Hl'. apply (Hnd l Hl'). by left.
  - intros c Hc. apply (root_lt _ _ (wf_sh _ _ _ W)). fold roots. rewrite HL.
    apply elem_of_app. by left.
Qed.

Lemma start_child p pd k a s A c B :
  h !! p = Some pd → nd_Atoms pd !! k = Some a → at_Left a = A ++ c :: B →
  start doc p k s → start doc c 0 (s + sumZ (size_of h) A).
Proof using W.
  intros Hp Ha HL Hs. assert (c ∈ at_Left a) as Hin
    by (rewrite HL; apply elem_of_app; right; by left).
  pose proof (ws_child_lt _ _ _ _ _ _ _ (wf_sh _ _ _ W) Hp Ha Hin) as Hlt.
  destruct (ws_down _ _ _ _ _ _ _ (wf_sh _ _ _ W) Hp Ha Hin) as (cd & Hc & Hpar & HN).
  fold h in Hc. assert (calcPosHelper_fuel (length h) doc p (Z.of_nat k) = Ok s) as Hs'.
  { destruct (node_context (length h) doc p pd (wf_sh _ _ _ W) (wf_sz _ _ _ W) Hp)
      as (pre & post & Hpos & _); [fold h in Hlt; lia|].
    assert (k ≤ length (nd_Atoms pd))%nat as Hk
      by (apply Nat.lt_le_incl; by eapply lookup_lt_Some).
    pose proof (calcPosHelper_fuel_mono _ (walk_fuel doc) _ _ _ _
      (Nat.le_succ_diag_r _) (Hpos k Hk)) as Hm.
    unfold start, calcPosHelper in Hs. rewrite Hs in Hm. rewrite Hpos by done. congruence. }
  unfold start, calcPosHelper, walk_fuel. cbn [calcPosHelper_fuel]. fold h.
  rewrite (deref_Some _ _ _ Hc), bind_Ok. change (seqZ 0 (Z.of_nat 0)) with (@nil Z).
  cbn [foldM]. rewrite bind_Ok, Hpar, (deref_Some _ _ _ Hp), bind_Ok.
  rewrite HN, (index_Some _ _ _ Ha), bind_Ok, HL.
  pose proof (ws_nodup _ _ _ _ _ _ (wf_sh _ _ _ W) Hp Ha) as Hnd. rewrite HL in Hnd.
  apply NoDup_app in Hnd as (_ & Hnd & _).
  rewrite size_before_Ok; [rewrite bind_Ok, Hs', bind_Ok; f_equal; lia| |].
  - intros Hl'. apply (Hnd c Hl'). by left.
  - intros y Hy. apply (ws_child_lt _ _ _ _ _ _ _ (wf_sh _ _ _ W) Hp Ha).
    rewrite HL. apply elem_of_app. by left.
Qed.

(** The text around a slot whose offset is known. *)
Lemma start_context l nd n a s :
  h !! l = Some nd → nd_Atoms nd !! n = Some a → start doc l n s →
  ∃ A B, zlen A = s + sumZ (size_of h) (at_Left a) ∧
    dstr doc = A ++ achar a ++ B ∧
    ∀ a' h', at_Left a' = at_Left a → same_skel (<[l := with_slot n a' nd]> h) h' →
      lstr h' roots = A ++ achar a' ++ B.
Proof using W.
  intros Hl Ha Hs. destruct (slot_context doc l nd n a W Hl Ha) as (A & B & Hpos & Hctx).
  exists A, B. fold h roots in Hctx, Hpos. split_and!.
  - unfold start in Hs. rewrite Hs in Hpos. injection Hpos as ->.
    rewrite (sum_size_zlen _ _ _ (wf_sh _ _ _ W) (wf_sz _ _ _ W)); [fold h; lia|].
    intros c Hc. apply (ws_child_lt _ _ _ _ _ _ _ (wf_sh _ _ _ W) Hl Ha Hc).
  - apply (Hctx a h); [done|].
    fold (with_slot n a nd). rewrite with_slot_id by done. by rewrite list_insert_id.
  - done.
Qed.

(** The size of an atom, by its parts. *)
Lemma atom_size l nd n a :
  h !! l = Some nd → nd_Atoms nd !! n = Some a →
  at_Size a = sumZ (size_of h) (at_Left a) + is_alive a ∧
  0 ≤ sumZ (size_of h) (at_Left a).
Proof using W.
  intros Hl Ha. pose proof (so_atom _ _ _ _ _ (wf_sz _ _ _ W) _ _ _ _ Hl Ha) as HS.
  fold h in HS. rewrite HS, achar_alive. split; [done|].
  rewrite (sum_size_zlen _ _ _ (wf_sh _ _ _ W) (wf_sz _ _ _ W)); [apply zlen_nonneg|].
  intros c Hc. apply (ws_child_lt _ _ _ _ _ _ _ (wf_sh _ _ _ W) Hl Ha Hc).
Qed.
End start.

(** ** Descending to a position *)

(** What [findNodePos] and the atom searches find along the way down. *)
Definition node_covers (doc : Document) (pos : Z) (l : loc) (nd : DocNode) (acc : Z) : Prop :=
  dc_heap doc !! l = Some nd ∧ start doc l 0 acc ∧
  acc ≤ pos < acc + sumZ at_Size (nd_Atoms nd).
Definition slot_covers (doc : Document) (pos : Z) (l : loc) (nd : DocNode) (n : nat)
    (a : Atom) (acc : Z) : Prop :=
  dc_heap doc !! l = Some nd ∧ nd_Atoms nd !! n = Some a ∧ start doc l n acc ∧
  acc ≤ pos < acc + at_Size a.

Lemma covers_node doc pos acc nodes r :
  wf doc → (∀ c, c ∈ nodes → (c < length (dc_heap doc))%nat) →
  (∀ A c B, nodes = A ++ c :: B → start doc c 0 (acc + sumZ (size_of (dc_heap doc)) A)) →
  covers (size_of (dc_heap doc)) pos acc nodes r →
  pos < acc + sumZ (size_of (dc_heap doc)) nodes →
  ∃ c cd, r = (r.1, Some c) ∧ c ∈ nodes ∧ node_covers doc pos c cd r.1.
Proof.
  intros W Hb Hst Hc Hpos. destruct r as [acc' [c|]]; unfold covers in Hc; cbn [fst snd] in Hc;
    [|lia].
  destruct Hc as (A & B & -> & -> & Hr).
  assert (c ∈ A ++ c :: B) as Hin by (apply elem_of_app; right; by left).
  destruct (lookup_lt_is_Some_2 _ _ (Hb c Hin)) as [cd Hcd].
  exists c, cd. cbn [fst]. split_and!; [done|done|]. split_and!; [done|by eapply Hst|lia|].
  rewrite <-(node_size_sum _ _ _ (wf_sz _ _ _ W) _ _ Hcd).
  assert (size_of (dc_heap doc) c = nd_Size cd) by (unfold size_of; by rewrite Hcd). lia.
Qed.

Lemma find_root doc pos :
  wf doc → 0 ≤ pos < dc_Size doc →
  ∃ c cd acc, findNodePos (dc_heap doc) pos 0 (dc_Doc doc) = Ok (acc, Some c) ∧
    node_covers doc pos c cd acc.
Proof.
  intros W Hpos. assert (∀ c, c ∈ dc_Doc doc → (c < length (dc_heap doc))%nat) as Hb
    by (intros c; apply (root_lt _ _ (wf_sh _ _ _ W))).
  destruct (findNodePos_ok (dc_heap doc) pos 0 (dc_Doc doc) Hb) as (r & -> & Hc); [lia|].
  destruct (covers_node doc pos 0 (dc_Doc doc) r W Hb) as (c & cd & -> & _ & Hn); [|done| |].
  - intros A y B HL. rewrite Z.add_0_l. by eapply start_root.
  - rewrite <-(so_doc _ _ _ _ _ (wf_sz _ _ _ W)). lia.
  - eauto.
Qed.

Lemma find_child doc pos l nd n a acc :
  wf doc → slot_covers doc pos l nd n a acc →
  acc + at_Size a - 1 ≠ pos ∨ at_State a ≠ ALIVE →
  ∃ c cd acc', findNodePos (dc_heap doc) pos acc (at_Left a) = Ok (acc', Some c) ∧
    (l < c)%nat ∧ node_covers doc pos c cd acc'.
Proof.
  intros W (Hl & Ha & Hs & Hpos) Hne.
  pose proof (λ c, ws_child_lt _ _ _ _ _ _ c (wf_sh _ _ _ W) Hl Ha) as Hb.
  destruct (atom_size doc W l nd n a Hl Ha) as [Hsz _].
  destruct (findNodePos_ok (dc_heap doc) pos acc (at_Left a)) as (r & -> & Hc);
    [intros c Hc; by apply Hb|lia|].
  destruct (covers_node doc pos acc (at_Left a) r W) as (c & cd & -> & Hin & Hn);
    [intros c Hc'; by apply Hb| |done| |].
  - intros A y B HL. by eapply start_child.
  - unfold is_alive in Hsz. case_decide; [|lia]. destruct Hne; [lia|done].
  - exists c, cd, r.1. split_and!; [done|by apply Hb|done].
Qed.

Lemma atom_covers_slot doc pos l nd acc acc' i :
  wf doc → node_covers doc pos l nd acc → atom_covers pos acc (nd_Atoms nd) acc' i →
  ∃ a, i = Z.of_nat (Z.to_nat i) ∧ slot_covers doc pos l nd (Z.to_nat i) a acc'.
Proof.
  intros W (Hl & Hs & _) (A & a & B & HA & -> & -> & Hc). exists a.
  unfold zlen. rewrite Nat2Z.id. split; [done|].
  pose proof (start_slots doc W l nd acc Hl Hs (length A)) as Hst. rewrite HA in Hst.
  rewrite take_app_length in Hst. split_and!; [done| | |lia|lia].
  - rewrite HA. by apply list_lookup_middle.
  - apply Hst. rewrite length_app. simpl. lia.
Qed.

(** The slot of the character at a position. *)
Definition char_at (doc : Document) (pos : Z) (l : loc) (n : nat) : Prop :=
  ∃ nd a acc, slot_covers doc pos l nd n a acc ∧ acc + at_Size a - 1 = pos ∧ at_State a = ALIVE.

Lemma posToIdForDel_loop_ok fuel doc pos l nd n a acc :
  wf doc → slot_covers doc pos l nd n a acc → (length (dc_heap doc) - l < fuel)%nat →
  ∃ l' n', posToIdForDel_loop fuel (dc_heap doc) pos acc l (Z.of_nat n) = Ok (l', Z.of_nat n') ∧
    char_at doc pos l' n'.
Proof.
  intros W. revert l nd n a acc. induction fuel as [|fuel IH]; intros l nd n a acc Hc Hf; [lia|].
  destruct Hc as (Hl & Ha & Hs & Hpos). cbn [posToIdForDel_loop].
  rewrite (deref_Some _ _ _ Hl), bind_Ok, (index_Some _ _ _ Ha), bind_Ok.
  destruct ((acc + at_Size a - 1 =? pos) && bool_decide (at_State a = ALIVE)) eqn:Hhere.
  - apply andb_prop in Hhere as [H1%Z.eqb_eq H2%bool_decide_eq_true].
    exists l, n. split; [done|]. by exists nd, a, acc.
  - destruct (find_child doc pos l nd n a acc W) as (c & cd & acc' & -> & Hlt & Hcd); [done| |].
    { apply andb_false_iff in Hhere as [H%Z.eqb_neq|H%bool_decide_eq_false]; auto. }
    rewrite bind_Ok, require_Some, bind_Ok. pose proof Hcd as (Hc & Hst & Hr).
    pose proof (lookup_lt_Some _ _ _ Hc) as Hclt.
    rewrite (deref_Some _ _ _ Hc), bind_Ok.
    destruct (findAtomPos_ok pos acc' (nd_Atoms cd) Hr) as (acc2 & i & -> & Hi).
    rewrite bind_Ok. destruct (atom_covers_slot _ _ _ _ _ _ _ W Hcd Hi) as (a2 & Hz & Hc2).
    rewrite Hz. eapply IH; [exact Hc2|lia].
Qed.

(** [posToIdForDel] finds the character at a position of the text. *)
Lemma posToIdForDel_ok doc pos :
  wf doc → 0 ≤ pos < dc_Size doc →
  ∃ l n, posToIdForDel doc (dc_Doc doc) pos = Ok (l, Z.of_nat n) ∧ char_at doc pos l n.
Proof.
  intros W Hpos. destruct (find_root doc pos W Hpos) as (c & cd & acc & Hf & Hcd).
  unfold posToIdForDel. rewrite Hf, bind_Ok, require_Some, bind_Ok. pose proof Hcd as (Hc & Hst & Hr).
  rewrite (deref_Some _ _ _ Hc), bind_Ok.
  destruct (findAtomPos_ok pos acc (nd_Atoms cd) Hr) as (acc2 & i & -> & Hi).
  rewrite bind_Ok. destruct (atom_covers_slot _ _ _ _ _ _ _ W Hcd Hi) as (a2 & Hz & Hc2).
  rewrite Hz. eapply posToIdForDel_loop_ok; [done|exact Hc2|unfold walk_fuel; lia].
Qed.

Lemma atom_index_lt doc l nd n a :
  wf doc → dc_heap doc !! l = Some nd → nd_Atoms nd !! n = Some a → 0 ≤ Z.of_nat n < w16.
Proof.
  intros W Hl Ha%lookup_lt_Some. pose proof (wf_len _ _ _ W _ _ Hl). unfold zlen in *. lia.
Qed.

Lemma DeletePos_ok doc pos :
  wf doc → 0 ≤ pos < dc_Size doc →
  ∃ doc' op, DeletePos doc pos = Ok (doc', op) ∧ op_Type op = DELETE ∧ op_ok doc op ∧
    Delete doc op = Ok (doc', mkBufferOperation BufferOp.DELETE pos x00) ∧
    applied doc op doc' (mkBufferOperation BufferOp.DELETE pos x00).
Proof.
  intros W Hpos. destruct (posToIdForDel_ok doc pos W Hpos) as (l & n & Hp & Hc).
  destruct Hc as (nd & a & acc & (Hl & Ha & Hs & _) & Hend & Halive).
  unfold DeletePos. rewrite Hp, bind_Ok, (deref_Some _ _ _ Hl), bind_Ok.
  rewrite wrap16_small by (by eapply atom_index_lt).
  set (op := mkOperation DELETE zero_id 0 (nd_NodeId nd) (Z.of_nat n) x00).
  assert (node_slot nd n = Some (ALIVE, at_Atom a)) as Hns.
  { unfold node_slot. rewrite Ha. simpl. by rewrite Halive. }
  assert (op_ok doc op) as Hok.
  { split; [|simpl; lia]. simpl. rewrite Nat2Z.id, (slot_at _ _ _ _ W Hl), Hns. by eexists. }
  destruct (Delete_ok doc op W eq_refl Hok) as (doc' & bop & HD & Hap & Hbop).
  assert (bop = mkBufferOperation BufferOp.DELETE pos x00) as ->.
  { apply (Hbop l nd a); simpl; [by apply W|done|by rewrite Nat2Z.id|done|].
    unfold calcPos. unfold start in Hs. rewrite Hs, bind_Ok, (deref_Some _ _ _ Hl), bind_Ok.
    rewrite (index_Some _ _ _ Ha), bind_Ok. f_equal. lia. }
  rewrite HD, bind_Ok. by exists doc', op.
Qed.

(** C15: a deletion at a position of the text returns, removes exactly the
    character at that position, and produces an operation that another replica
    with the same document can apply, with the same result. *)
Theorem DeletePos_deletes doc pos :
  wf doc → 0 ≤ pos < dc_Size doc →
  ∃ doc' op s, DeletePos doc pos = Ok (doc', op) ∧ wf doc' ∧
    DocToString doc = Ok s ∧ DocToString doc' = Ok (text_delete pos s) ∧
    op_Type op = DELETE ∧ op_ok doc op ∧
    ApplyOperation doc op = Ok (doc', mkBufferOperation BufferOp.DELETE pos x00).
Proof.
  intros W Hpos. destruct (DeletePos_ok doc pos W Hpos) as (doc' & op & -> & Hty & Hok & Hd & Hap).
  exists doc', op, (dstr doc).
  rewrite (DocToString_dstr _ W), (DocToString_dstr _ (ap_wf _ _ _ _ Hap)), (ap_text _ _ _ _ Hap).
  split_and!; try done; [apply Hap|]. unfold ApplyOperation. by rewrite Hty.
Qed.

Definition sample_doc : Document :=
  match apply_all NewDocument sample_ops with Ok (doc, _) => doc | _ => NewDocument end.

Lemma wf_sample_doc : wf sample_doc.
Proof.
  unfold sample_doc.
  destruct (apply_all_ok NewDocument sample_ops wf_NewDocument) as (doc & bops & -> & W & _);
    [apply ops_okb_ok; vm_compute; reflexivity|done].
Qed.

Lemma DeletePos_deletes_witness :
  0 ≤ 1 < dc_Size sample_doc ∧
  ∃ doc' op s, DeletePos sample_doc 1 = Ok (doc', op) ∧ wf doc' ∧
    DocToString sample_doc = Ok s ∧ DocToString doc' = Ok (text_delete 1 s) ∧
    op_Type op = DELETE ∧ op_ok sample_doc op ∧
    ApplyOperation sample_doc op = Ok (doc', mkBufferOperation BufferOp.DELETE 1 x00).
Proof.
  assert (0 ≤ 1 < dc_Size sample_doc) as H by (vm_compute; split; congruence).
  split; [exact H|]. exact (DeletePos_deletes sample_doc 1 wf_sample_doc H).
Defined.
