(* ===== verification/TreedocInsert.v ===== *)
(** [InsertPos]: where a local insertion puts its character. *)
From S2P Require Import Prelude Common BufferOp Treedoc TreedocInv TreedocWf TreedocRemote TreedocSpec TreedocConv TreedocLocal.

Open Scope Z_scope.

(** ** What a local insertion achieves *)

(** The document shows the character at [pos], and the operation that was
    recorded is one another replica can apply, with the same effect. *)
Record local_insert (doc : Document) (pos : Z) (ch : byte) (doc' : Document) (op : Operation)
    : Prop := {
  li_ok : op_ok doc op;
  li_wf : wf doc';
  li_text : dstr doc' = text_insert pos ch (dstr doc);
  li_range : 0 ≤ pos ≤ zlen (dstr doc);
  li_link id : link doc' id = link_after op (link doc) id;
  li_slot id n : slot doc' id n = slot_after op (slot doc) id n
}.

(** ** Documents that differ in unused slots only *)

Record same_view (doc doc' : Document) : Prop := {
  sv_wf : wf doc';
  sv_nodes : dc_Nodes doc' = dc_Nodes doc;
  sv_len : length (dc_heap doc') = length (dc_heap doc);
  sv_text : dstr doc' = dstr doc;
  sv_link id : link doc' id = link doc id;
  sv_slot id n : slot doc' id n = slot doc id n;
  sv_start l n s : start doc l n s → start doc' l n s
}.

Lemma same_view_insert doc doc1 pos ch doc' op :
  same_view doc doc1 → local_insert doc1 pos ch doc' op → local_insert doc pos ch doc' op.
Proof.
  intros V [H1 H2 H3 H4 H5 H6]. split.
  - unfold op_ok in *. destruct (op_Type op); rewrite <-?(sv_nodes _ _ V), <-?(sv_slot _ _ V); done.
  - done.
  - by rewrite H3, (sv_text _ _ V).
  - by rewrite <-(sv_text _ _ V).
  - intros id. rewrite H5. unfold link_after. by rewrite (sv_link _ _ V).
  - intros id n. rewrite H6. unfold slot_after. by rewrite (sv_slot _ _ V).
Qed.

(** [nd'] has the links and the size of [nd], and more atoms. *)
Definition grows (nd nd' : DocNode) : Prop :=
  nd_Parent nd' = nd_Parent nd ∧ nd_ParentN nd' = nd_ParentN nd ∧ nd_Size nd' = nd_Size nd ∧
  ∀ i a, index (nd_Atoms nd) i = Ok a → index (nd_Atoms nd') i = Ok a.

Lemma grows_extended i nd : grows nd (extended i nd).
Proof.
  split_and!; try done. intros j a. unfold index, extended; simpl. case_match; [done|].
  intros Hj%require_Ok_inv. by rewrite (ext_atoms_old _ _ _ _ Hj).
Qed.

Lemma foldM_mono {A S} (f g : S → A → res S) l s s' :
  (∀ s a s', f s a = Ok s' → g s a = Ok s') → foldM f s l = Ok s' → foldM g s l = Ok s'.
Proof.
  intros H. revert s. induction l as [|a l IH]; intros s; cbn [foldM]; [done|].
  intros (s1 & Hf & Hl)%bind_Ok_inv. rewrite (H _ _ _ Hf), bind_Ok. by apply IH.
Qed.

Section grow.
Context (doc doc' : Document).
Context (HD : dc_Doc doc' = dc_Doc doc).
Context (HG : ∀ x nd, dc_heap doc !! x = Some nd →
  ∃ nd', dc_heap doc' !! x = Some nd' ∧ grows nd nd').

Lemma deref_grows x nd :
  deref (dc_heap doc) x = Ok nd → ∃ nd', deref (dc_heap doc') x = Ok nd' ∧ grows nd nd'.
Proof using HG.
  unfold deref. intros (nd' & Hx & G)%require_Ok_inv%HG. exists nd'. by rewrite Hx.
Qed.

Lemma size_before_grows l L acc s :
  size_before (dc_heap doc) l L acc = Ok s → size_before (dc_heap doc') l L acc = Ok s.
Proof using HG.
  revert acc. induction L as [|c L IH]; intros acc; simpl; [done|]. case_decide; [done|].
  intros (nd & (nd' & -> & G)%deref_grows & HR)%bind_Ok_inv. rewrite bind_Ok.
  destruct G as (_ & _ & -> & _). by apply IH.
Qed.

Lemma calcPosHelper_grows f l n s :
  calcPosHelper_fuel f doc l n = Ok s → calcPosHelper_fuel f doc' l n = Ok s.
Proof using All.
  revert l n s. induction f as [|f IH]; intros l n s; [done|]. cbn [calcPosHelper_fuel].
  intros (nd & (nd' & -> & HP & HN & _ & Hat)%deref_grows & HR)%bind_Ok_inv. rewrite bind_Ok.
  apply bind_Ok_inv in HR as (acc & Hacc & HR).
  erewrite foldM_mono; [rewrite bind_Ok| |exact Hacc].
  2:{ intros z i z' (a & Ha%Hat & Hz)%bind_Ok_inv. by rewrite Ha. }
  rewrite HP, HN. destruct (nd_Parent nd) as [p|].
  - apply bind_Ok_inv in HR as (pd & (pd' & -> & _ & _ & _ & Hat')%deref_grows & HR).
    rewrite bind_Ok. apply bind_Ok_inv in HR as (a & ->%Hat' & HR). rewrite bind_Ok.
    apply bind_Ok_inv in HR as (acc' & ->%size_before_grows & HR). rewrite bind_Ok.
    apply bind_Ok_inv in HR as (up & ->%IH & HR). by rewrite bind_Ok.
  - rewrite HD. by apply size_before_grows.
Qed.
End grow.

Lemma extend_view doc l nd i :
  wf doc → dc_heap doc !! l = Some nd → 0 ≤ i < w16 →
  same_view doc (store l (extended i nd) doc).
Proof.
  intros W Hl Hi. pose proof (lookup_lt_Some _ _ _ Hl) as Hlt.
  destruct (content_store doc l nd (extended i nd) Hl) as [HL HS];
    [intros; by eapply wf_ids_iff|done..|].
  split; [by apply wf_extend|done|by simpl; rewrite length_insert|by apply dstr_extend|done| |].
  - intros id n. rewrite HS. case_decide; subst; [|done].
    by rewrite node_slot_extended, (slot_at _ _ _ _ W Hl).
  - intros x n s. unfold start, calcPosHelper, walk_fuel. cbn [store set_heap dc_heap].
    rewrite length_insert. apply calcPosHelper_grows; [done|]. intros y ndy Hy. simpl.
    destruct (decide (y = l)) as [->|Hne].
    + simplify_eq. exists (extended i nd). rewrite list_lookup_insert_eq by done.
      split; [done|apply grows_extended].
    + exists ndy. by rewrite list_lookup_insert_ne by congruence.
Qed.

(** ** Putting a character in a slot, or in a new node below it *)

Lemma same_skel_Insert_text doc l nd n a ch s doc' :
  wf doc → dc_heap doc !! l = Some nd → nd_Atoms nd !! n = Some a → at_State a = UNINITIALIZED →
  start doc l n s → dc_Doc doc' = dc_Doc doc →
  same_skel (<[l := with_slot n (mkAtom ALIVE ch (at_Size a + 1) (at_Left a)) nd]> (dc_heap doc))
    (dc_heap doc') →
  let pos := s + sumZ (size_of (dc_heap doc)) (at_Left a) in
  dstr doc' = text_insert pos ch (dstr doc) ∧ 0 ≤ pos ≤ zlen (dstr doc).
Proof.
  intros W Hl Ha Hun Hs HD Sk pos.
  destruct (start_context doc W l nd n a s Hl Ha Hs) as (A & B & HA & Hd & Hctx).
  assert (achar a = []) as Hc by (unfold achar; by rewrite Hun).
  assert (dstr doc' = A ++ ch :: B) as Hd'.
  { unfold dstr. rewrite HD. by rewrite (Hctx (mkAtom ALIVE ch (at_Size a + 1) (at_Left a)) _ eq_refl Sk). }
  rewrite Hc in Hd. simpl in Hd. fold pos in HA. rewrite Hd', Hd, <-HA, zlen_app.
  rewrite (text_insert_app ch A B) by done. split; [done|].
  pose proof (zlen_nonneg A). pose proof (zlen_nonneg B). lia.
Qed.

Lemma insert_slot_local doc l nd n a ch s :
  wf doc → dc_heap doc !! l = Some nd → nd_Atoms nd !! n = Some a →
  at_State a = UNINITIALIZED → Z.of_nat n ≠ MAX_ATOMS_PER_NODE → start doc l n s →
  ∃ doc' op, makeAndApplyInsertOperation doc l (Z.of_nat n) ch = Ok (doc', op) ∧
    local_insert doc (s + sumZ (size_of (dc_heap doc)) (at_Left a)) ch doc' op.
Proof.
  intros W Hl Ha Hun Hmax Hs. pose proof (atom_index_lt _ _ _ _ _ W Hl Ha) as Hn.
  unfold makeAndApplyInsertOperation. rewrite (deref_Some _ _ _ Hl), bind_Ok.
  rewrite wrap16_small by done. set (op := mkOperation INSERT zero_id 0 _ _ ch).
  assert (op_ok doc op) as Hok.
  { split_and!; simpl; [by rewrite (wf_ids _ _ _ W _ _ Hl)| |lia|].
    - rewrite Nat2Z.id, (slot_at _ _ _ _ W Hl). unfold node_slot. rewrite Ha. simpl.
      by rewrite decide_True.
    - unfold MAX_ATOMS_PER_NODE, w16 in *. lia. }
  destruct (Insert_ok doc op W eq_refl Hok) as (doc' & pos & -> & Hap & Hex). rewrite bind_Ok.
  exists doc', op. split; [done|]. destruct Hex as (l' & nd2 & a' & Hl' & Hnd' & Ha' & HD & Sk).
  simpl in Hl', Ha', Sk. rewrite (wf_ids _ _ _ W _ _ Hl) in Hl'. injection Hl' as <-.
  rewrite Hl in Hnd'. injection Hnd' as <-.
  assert (extended (Z.of_nat n) nd = nd) as Hext.
  { unfold extended. rewrite ext_atoms_id; [by destruct nd|].
    apply lookup_lt_Some in Ha. unfold zlen. lia. }
  rewrite Nat2Z.id in Ha', Sk. rewrite (ext_atoms_old _ _ _ _ Ha) in Ha'. injection Ha' as <-.
  rewrite Hext in Sk.
  destruct (same_skel_Insert_text doc l nd n a ch s doc') as [Ht Hr]; try done.
  split; [done|apply Hap|done|done|apply Hap|apply Hap].
Qed.

(** The text with a new node, alone in its slot, whose text is [ch]. *)
Lemma hung_text doc p pd k a id nn ch s doc' :
  let c := length (dc_heap doc) in
  wf doc → dc_heap doc !! p = Some pd → nd_Atoms pd !! k = Some a → at_Left a = [] →
  start doc p k s → wf doc' → dc_Doc doc' = dc_Doc doc →
  same_skel (dc_heap (hung doc p pd k a [c] id nn)) (dc_heap doc') →
  nstr (dc_heap doc') c = [ch] →
  dstr doc' = text_insert s ch (dstr doc) ∧ 0 ≤ s ≤ zlen (dstr doc).
Proof.
  intros c W Hp Ha HL Hs W' HD Sk Hc. pose proof (lookup_lt_Some _ _ _ Hp) as Hlt.
  pose proof (wf_sh _ _ _ W) as Sh. pose proof (wf_sh _ _ _ W') as Sh'. rewrite HD in Sh'.
  set (a1 := mkAtom (at_State a) (at_Atom a) (at_Size a) [c]).
  assert (agree_on (λ y, y ≠ p) (dc_heap doc) (dc_heap doc')) as Hag.
  { intros y ndy Hy Hne. rewrite <-list_lookup_fmap, <-Sk. simpl. rewrite list_lookup_fmap.
    rewrite list_lookup_insert_ne, lookup_app_l, Hy by (done || by eapply lookup_lt_Some). done. }
  destruct (node_context (walk_fuel doc) doc p pd Sh (wf_sz _ _ _ W) Hp) as (pre & post & Hpos & Hctx);
    [unfold walk_fuel; lia|].
  assert (k < length (nd_Atoms pd))%nat as Hk by (by eapply lookup_lt_Some).
  unfold start, calcPosHelper in Hs. rewrite Hpos in Hs by lia. injection Hs as <-.
  set (before := concat (map (astr (dc_heap doc)) (take k (nd_Atoms pd)))).
  set (after := concat (map (astr (dc_heap doc)) (drop (S k) (nd_Atoms pd)))).
  rewrite (atoms_size_zlen _ _ _ Sh (wf_sz _ _ _ W) p pd) by (done || apply subseteq_take).
  fold before.
  assert (dstr doc = (pre ++ before) ++ achar a ++ after ++ post) as Hd.
  { unfold dstr. rewrite (Hctx _ Sh) by (intros y nd' -> _; done).
    rewrite (nstr_unfold _ _ _ _ Sh Hp), (concat_map_split _ _ _ _ Ha). unfold astr at 2.
    rewrite HL. simpl. by rewrite <-!app_assoc. }
  assert (nstr (dc_heap doc') p = before ++ ([ch] ++ achar a) ++ after) as Hn.
  { destruct (same_skel_lookup _ _ p (with_slot k a1 pd) Sk) as (pd' & Hpd' & Hst).
    { simpl. apply list_lookup_insert_eq. rewrite length_app. lia. }
    rewrite (nstr_unfold _ _ _ _ Sh' Hpd'), (map_astr_strip _ _ _ Hst).
    assert (nd_Atoms (with_slot k a1 pd) !! k = Some a1) as Ha1 by (by apply list_lookup_insert_eq).
    rewrite (concat_map_split _ _ _ _ Ha1). simpl. rewrite take_insert_ge, drop_insert_lt by lia.
    destruct (other_slots_agree (dc_heap doc) (dc_heap doc') _ _ p pd k (λ y, y ≠ p) Sh Sh' Hp)
      as [-> ->]; [|exact Hag|].
    - intros y x cd Hx Hpar _ Hdsc ->. apply (desc_le _ _ _ _ Sh) in Hdsc.
      pose proof (ws_up _ _ _ _ Sh Hx) as Hup. rewrite Hpar in Hup. lia.
    - unfold astr at 2. simpl. unfold lstr. simpl. rewrite Hc. done. }
  assert (dstr doc' = (pre ++ before) ++ ch :: achar a ++ after ++ post) as Hd'.
  { unfold dstr. rewrite HD, (Hctx _ Sh').
    - rewrite Hn. by rewrite <-!app_assoc.
    - eapply agree_on_mono; [|exact Hag]. intros y Hy ->. apply Hy. constructor. }
  rewrite <-zlen_app, Hd, Hd', (text_insert_app ch) by done. split; [done|].
  rewrite (zlen_app (pre ++ before)). pose proof (zlen_nonneg (pre ++ before)).
  pose proof (zlen_nonneg (achar a ++ after ++ post)). lia.
Qed.

Lemma insert_new_local doc p pd k a nodeId ch s :
  let op := mkOperation INSERT_NEW (nd_NodeId pd) (wrap16 (Z.of_nat k)) nodeId 0 ch in
  wf doc → dc_heap doc !! p = Some pd → nd_Atoms pd !! k = Some a → at_Left a = [] →
  start doc p k s → dc_Nodes doc !! nodeId = None →
  ∃ doc' bop, InsertNew doc op = Ok (doc', bop) ∧ local_insert doc s ch doc' op.
Proof.
  intros op W Hp Ha HL Hs Hf. pose proof (atom_index_lt _ _ _ _ _ W Hp Ha) as Hk.
  assert (op_ok doc op) as Hok.
  { unfold op_ok, op; simpl. rewrite wrap16_small by done. split_and!; try (done || lia).
    rewrite (wf_ids _ _ _ W _ _ Hp). by eexists. }
  destruct (InsertNew_ok doc op W eq_refl Hok) as (doc' & pos & -> & Hap & Hex).
  eexists doc', _. split; [reflexivity|].
  destruct Hex as (p' & pd' & a' & L1 & L2 & Hp' & Hpd' & Ha' & HL' & HD & Sk).
  simpl in Hp', Ha', Sk. rewrite (wf_ids _ _ _ W _ _ Hp) in Hp'. injection Hp' as <-.
  rewrite Hp in Hpd'. injection Hpd' as <-.
  rewrite wrap16_small, Nat2Z.id in Ha', Sk by done.
  assert (extended (Z.of_nat k) pd = pd) as Hext.
  { unfold extended. rewrite ext_atoms_id; [by destruct pd|].
    apply lookup_lt_Some in Ha. unfold zlen. lia. }
  rewrite (ext_atoms_old _ _ _ _ Ha) in Ha'. injection Ha' as <-.
  rewrite HL in HL'. symmetry in HL'. apply app_nil in HL' as [-> ->]. rewrite Hext in Sk.
  pose proof (ap_wf _ _ _ _ Hap) as W'. set (c := length (dc_heap doc)) in *.
  set (nn := with_slot _ _ (blank _ _ _ _)) in Sk.
  destruct (hung_text doc p pd k a nodeId nn ch s doc') as [Ht Hr]; try done.
  - destruct (same_skel_lookup _ _ c nn Sk) as (nn' & Hnn' & Hst).
    { simpl. rewrite list_lookup_insert_ne by (apply lookup_lt_Some in Hp; unfold c; lia).
      unfold c. rewrite lookup_app_r by done. by rewrite Nat.sub_diag. }
    fold c. rewrite (nstr_unfold _ _ _ _ (wf_sh _ _ _ W') Hnn').
    by rewrite (map_astr_strip _ _ _ Hst).
  - split; [done|done|done|done|apply Hap|apply Hap].
Qed.

(** The slot after the last character of a node: an unused slot at the end of
    its atoms, or a new one. *)
Lemma last_slot doc l nd :
  wf doc → dc_heap doc !! l = Some nd →
  let len := zlen (nd_Atoms nd) in
  ∃ n last a, index (nd_Atoms nd) (len - 1) = Ok last ∧
    (if decide (at_State last = UNINITIALIZED) then len - 1 else len) = Z.of_nat n ∧
    0 ≤ Z.of_nat n < w16 ∧
    extendAtomToSize (nd_Atoms nd) (wrap16 (Z.of_nat n)) =
      Ok (nd_Atoms (extended (Z.of_nat n) nd)) ∧
    nd_Atoms (extended (Z.of_nat n) nd) !! n = Some a ∧ at_State a = UNINITIALIZED ∧
    (n ≤ length (nd_Atoms nd))%nat ∧
    sumZ at_Size (nd_Atoms nd) = sumZ at_Size (take n (nd_Atoms nd)) + at_Size a.
Proof.
  intros W Hl len. pose proof (wf_len _ _ _ W _ _ Hl) as Hlen.
  destruct (lookup_lt_is_Some_2 (nd_Atoms nd) (pred (length (nd_Atoms nd)))) as [last Hlast];
    [unfold zlen in Hlen; lia|].
  assert (index (nd_Atoms nd) (len - 1) = Ok last) as Hidx.
  { apply index_Z'; [lia|]. rewrite <-Hlast. f_equal. unfold len, zlen. lia. }
  destruct (decide (at_State last = UNINITIALIZED)) as [Hun|Hun].
  - exists (pred (length (nd_Atoms nd))), last, last.
    rewrite decide_True by done. unfold len, zlen in *.
    assert (extended (Z.of_nat (pred (length (nd_Atoms nd)))) nd = nd) as Hext.
    { unfold extended. rewrite ext_atoms_id; [by destruct nd|unfold zlen; lia]. }
    split_and!; try (done || lia).
    + rewrite wrap16_small by lia. apply extendAtomToSize_ok. unfold zlen. lia.
    + by rewrite Hext.
    + rewrite <-(take_drop_middle _ _ _ Hlast) at 1. rewrite sumZ_app. simpl.
      rewrite drop_ge by lia. simpl. lia.
  - exists (length (nd_Atoms nd)), last, zero_atom. rewrite decide_False by done.
    assert (Z.of_nat (length (nd_Atoms nd)) < w16) as Hlt.
    { unfold zlen in Hlen. destruct (decide (Z.of_nat (length (nd_Atoms nd)) = w16)); [|lia].
      destruct Hun. apply (wf_max _ _ _ W _ _ _ Hl).
      rewrite <-Hlast. f_equal. unfold MAX_ATOMS_PER_NODE, w16 in *. lia. }
    split_and!; try (done || lia).
    + rewrite wrap16_small by lia. apply extendAtomToSize_ok. lia.
    + unfold extended, ext_atoms; cbn [nd_Atoms set_nd_atoms].
      rewrite lookup_app_r, Nat.sub_diag by lia. apply lookup_replicate_2. lia.
    + rewrite take_ge by done. simpl. lia.
Qed.

(** ** [insertPosNewHelper] *)

Lemma insertPosNewHelper_ok fuel doc l nd n a s nodeId ch :
  wf doc → dc_heap doc !! l = Some nd → nd_Atoms nd !! n = Some a → start doc l n s →
  dc_Nodes doc !! nodeId = None → (length (dc_heap doc) - l < fuel)%nat →
  ∃ doc' op, insertPosNewHelper_fuel fuel doc l (Z.of_nat n) nodeId ch = Ok (doc', op) ∧
    local_insert doc (s + sumZ (size_of (dc_heap doc)) (at_Left a)) ch doc' op.
Proof.
  revert doc l nd n a s. induction fuel as [|fuel IH];
    intros doc l nd n a s W Hl Ha Hs Hf Hfuel; [lia|].
  cbn [insertPosNewHelper_fuel]. rewrite (deref_Some _ _ _ Hl), bind_Ok, (index_Some _ _ _ Ha), bind_Ok.
  pose proof (λ c, ws_child_lt _ _ _ _ _ _ c (wf_sh _ _ _ W) Hl Ha) as Hb.
  destruct (at_Left a) as [|y ys] eqn:HL.
  - destruct (insert_new_local doc l nd n a nodeId ch s W Hl Ha HL Hs Hf) as (doc' & bop & -> & Hli).
    rewrite bind_Ok. eexists doc', _. split; [reflexivity|]. by rewrite Z.add_0_r.
  - destruct (exists_last (l := y :: ys)) as (A & c & HA); [done|]. rewrite HA in *.
    assert (index (A ++ [c]) (zlen (A ++ [c]) - 1) = Ok c) as ->.
    { replace (zlen (A ++ [c]) - 1) with (zlen A) by (rewrite zlen_app; unfold zlen; simpl; lia).
      apply index_middle. }
    rewrite bind_Ok.
    assert (c ∈ A ++ [c]) as Hin by (apply elem_of_app; right; by left).
    pose proof (Hb c Hin) as Hlt. destruct (lookup_lt_is_Some_2 _ _ (proj2 Hlt)) as [cd Hc].
    rewrite (deref_Some _ _ _ Hc), bind_Ok.
    destruct (last_slot doc c cd W Hc) 
      as (m & last & b & Hi & Hif & Hm & He & Hb' & Hun & Hle & Hsum).
    rewrite Hi, bind_Ok, Hif, He, bind_Ok. fold (extended (Z.of_nat m) cd).
    pose proof (extend_view doc c cd (Z.of_nat m) W Hc Hm) as V.
    change (set_nd_atoms (nd_Atoms (extended (Z.of_nat m) cd)) cd) with (extended (Z.of_nat m) cd).
    set (doc1 := store c (extended (Z.of_nat m) cd) doc) in *.
    assert (dc_heap doc1 !! c = Some (extended (Z.of_nat m) cd)) as Hc1
      by (apply list_lookup_insert_eq; lia).
    pose proof (start_child doc W l nd n a s A c [] Hl Ha HL Hs) as Hsc.
    pose proof (sv_start _ _ V _ _ _ (start_slots doc W c cd _ Hc Hsc m Hle)) as Hsm.
    destruct (atom_size doc1 (sv_wf _ _ V) c _ m b Hc1 Hb') as [Hsize _].
    assert (s + sumZ (size_of (dc_heap doc)) A + sumZ at_Size (take m (nd_Atoms cd)) +
      sumZ (size_of (dc_heap doc1)) (at_Left b) = s + sumZ (size_of (dc_heap doc)) (A ++ [c])) as Hpos.
    { assert (size_of (dc_heap doc) c = nd_Size cd) as Hsc' by (unfold size_of; by rewrite Hc).
      pose proof (node_size_sum _ _ _ (wf_sz _ _ _ W) _ _ Hc) as Hns.
      assert (is_alive b = 0) as Hal by (unfold is_alive; by rewrite Hun).
      rewrite sumZ_app. cbn [sumZ foldr]. rewrite Hsc'. lia. }
    rewrite <-Hpos. unfold canDoInsert. rewrite (index_Some _ _ _ Hb'), bind_Ok, bind_Ok.
    match goal with |- context [if ?x then _ else _] => destruct x eqn:Hcan end.
    + apply andb_prop in Hcan as [_ Hmax%negb_true_iff%Z.eqb_neq].
      destruct (insert_slot_local doc1 c _ m b ch _ (sv_wf _ _ V) Hc1 Hb' Hun Hmax Hsm)
        as (doc' & op & -> & Hli). exists doc', op. split; [done|]. by eapply same_view_insert.
    + destruct (IH doc1 c _ m b _ (sv_wf _ _ V) Hc1 Hb' Hsm) as (doc' & op & -> & Hli).
      * by rewrite (sv_nodes _ _ V).
      * rewrite (sv_len _ _ V). lia.
      * exists doc', op. split; [done|]. by eapply same_view_insert.
Qed.

(** ** The search for a slot *)

(** The slot [k] of [nd] is one that [canDoInsert] lets the site reuse. *)
Definition hole (nodeId : NodeId) (nd : DocNode) (k : nat) : Prop :=
  ∃ a, nd_Atoms nd !! k = Some a ∧ at_Size a = 0 ∧ at_State a = UNINITIALIZED ∧
    EqualSiteIdInNodeId nodeId (nd_NodeId nd) = true ∧ Z.of_nat k ≠ MAX_ATOMS_PER_NODE.

Lemma canDoInsert_hole nodeId nd k a :
  nd_Atoms nd !! k = Some a →
  ∃ b, canDoInsert nd (Z.of_nat k) nodeId = Ok b ∧ (b = true → hole nodeId nd k) ∧
    (at_Size a ≠ 0 → b = false).
Proof.
  intros Ha. unfold canDoInsert. rewrite (index_Some _ _ _ Ha), bind_Ok.
  eexists. split; [reflexivity|]. split.
  - intros [[[H1%Z.eqb_eq H2%bool_decide_eq_true]%andb_prop H3]%andb_prop
      H4%negb_true_iff%Z.eqb_neq]%andb_prop. by exists a.
  - intros H%Z.eqb_neq. by rewrite H.
Qed.

(** What the search returns: the atom that covers the position, or a slot to
    reuse, which lies after the atom that starts at the position. *)
Definition found (nodeId : NodeId) (pos acc : Z) (nd : DocNode) (r : OpType * Z * Z) : Prop :=
  let '(doInsert, acc', i) := r in
  doInsert = NO_OPERATION ∧ atom_covers pos acc (nd_Atoms nd) acc' i ∨
  doInsert = INSERT ∧ ∃ k : nat, i = Z.of_nat k ∧ hole nodeId nd k ∧
    pos < acc + sumZ at_Size (take k (nd_Atoms nd)).

Lemma nextOrUninit_gt seen a rest :
  zlen seen < nextNonEmptyOrUninitializedAtom (zlen seen) (seen ++ a :: rest).
Proof.
  unfold nextNonEmptyOrUninitializedAtom.
  match goal with |- context [next_atom ?t ?i ?r] =>
    destruct (next_atom_spec t i r) as (A & B & _ & _ & _ & ->) end.
  pose proof (zlen_nonneg A). lia.
Qed.

Lemma sumZ_take_le {A} (f : A → Z) l1 a l2 k :
  (∀ b, b ∈ l1 ++ a :: l2 → 0 ≤ f b) → (length l1 < k)%nat →
  sumZ f l1 + f a ≤ sumZ f (take k (l1 ++ a :: l2)).
Proof.
  intros Hf Hk. rewrite take_app_ge by lia. rewrite sumZ_app.
  destruct (k - length l1)%nat as [|j] eqn:Hj; [lia|]. simpl.
  assert (0 ≤ sumZ f (take j l2)); [|lia]. apply sumZ_nonneg. intros b Hb.
  apply Hf, elem_of_app. right. right. by eapply elem_of_take in Hb as (i & ?%list_elem_of_lookup_2 & _).
Qed.

Lemma findAtomForInsert_loop_ok nodeId pos acc0 nd seen rest fuel :
  nd_Atoms nd = seen ++ rest → (∀ b, b ∈ nd_Atoms nd → 0 ≤ at_Size b) →
  (length rest < fuel)%nat → acc0 + sumZ at_Size seen ≤ pos →
  pos < acc0 + sumZ at_Size (nd_Atoms nd) → (∀ b B, rest = b :: B → at_Size b ≠ 0) →
  ∃ r, findAtomForInsert_loop fuel pos (acc0 + sumZ at_Size seen) (zlen seen) nodeId nd
         (nd_Atoms nd) = Ok r ∧ found nodeId pos acc0 nd r.
Proof.
  revert seen rest. induction fuel as [|fuel IH]; intros seen rest HA Hnn Hf Hacc Hpos Hne; [lia|].
  destruct rest as [|a rest]; [rewrite HA, app_nil_r in Hpos; lia|]. cbn [findAtomForInsert_loop].
  assert (zlen seen < zlen (nd_Atoms nd)) as Hlt.
  { rewrite HA, zlen_app, zlen_cons. pose proof (zlen_nonneg rest). lia. }
  rewrite (proj2 (Z.ltb_lt _ _) Hlt).
  assert (nd_Atoms nd !! length seen = Some a) as Ha by (rewrite HA; by apply list_lookup_middle).
  assert (index (nd_Atoms nd) (zlen seen) = Ok a) as Hidx by (by apply index_Some).
  match goal with |- context [mbind (M:=res) (A:=option Z) ?F ?m] => set (cont := F); set (probe := m) end.
  assert (probe = Ok None ∨ acc0 + sumZ at_Size seen = pos ∧ ∃ k : nat, probe = Ok (Some (Z.of_nat k)) ∧
    hole nodeId nd k ∧ (length seen < k)%nat) as Hprobe.
  { subst probe. destruct (EqualSiteIdInNodeId nodeId (nd_NodeId nd) && _) eqn:Hpot; [|by left].
    apply andb_prop in Hpot as [_ Heq%Z.eqb_eq].
    destruct (canDoInsert_hole nodeId nd _ a Ha) as (b & Hb & _ & Hb0).
    change (canDoInsert nd (zlen seen) nodeId)
      with (canDoInsert nd (Z.of_nat (length seen)) nodeId).
    rewrite Hb, bind_Ok, Hb0 by (by eapply Hne).
    pose proof (nextOrUninit_gt seen a rest) as Hgt. rewrite <-HA in Hgt.
    set (k := nextNonEmptyOrUninitializedAtom _ _) in *. case (Z.ltb_spec k (zlen (nd_Atoms nd))) as [Hk|]; [|by left].
    pose proof (zlen_nonneg seen).
    destruct (lookup_lt_is_Some_2 (nd_Atoms nd) (Z.to_nat k)) as [ak Hak]; [unfold zlen in *; lia|].
    destruct (canDoInsert_hole nodeId nd _ ak Hak) as (b' & Hb' & Hh & _).
    rewrite Z2Nat.id in Hb' by lia. rewrite Hb', bind_Ok. destruct b'; [right|by left].
    split; [done|]. exists (Z.to_nat k). rewrite Z2Nat.id by lia.
    split_and!; [done|by apply Hh|unfold zlen in *; lia]. }
  destruct Hprobe as [-> | (Heq & k & -> & Hh & Hk)]; rewrite bind_Ok; unfold cont.
  - rewrite Hidx, bind_Ok. destruct (acc0 + sumZ at_Size seen + at_Size a >? pos) eqn:Hcmp.
    + eexists. split; [reflexivity|]. left. split; [done|]. exists seen, a, rest.
      split_and!; (done || lia).
    + rewrite HA. destruct (nextNonEmptyAtom_spec seen a rest) as (A & B & -> & HA0 & HB & ->).
      rewrite <-HA. destruct (IH (seen ++ a :: A) B) as (r & Hr & Hc); try done.
      * by rewrite HA, <-app_assoc.
      * simpl in Hf. rewrite length_app in Hf. lia.
      * rewrite sumZ_app. simpl. rewrite (sumZ_zero _ A) by done. lia.
      * exists r. split; [|done]. rewrite <-Hr. f_equal.
        rewrite sumZ_app. simpl. rewrite (sumZ_zero _ A) by done. lia.
  - eexists. split; [reflexivity|]. right. split; [done|]. exists k. split_and!; [done|done|].
    pose proof (sumZ_take_le at_Size seen a rest k) as Hle. rewrite <-HA in Hle.
    specialize (Hle Hnn Hk). assert (at_Size a ≠ 0) by (by eapply Hne).
    assert (0 ≤ at_Size a) by (apply Hnn; by eapply list_elem_of_lookup_2). lia.
Qed.

(** ** [InsertPos] *)

(** Where the character goes: to the position asked for, unless a slot is
    reused, and then further to the right. *)
Definition placed (doc : Document) (nodeId : NodeId) (pos pos' : Z) : Prop :=
  pos' = pos ∨ pos < pos' ∧ ∃ l nd k, dc_heap doc !! l = Some nd ∧ hole nodeId nd k.

Definition inserts (doc : Document) (nodeId : NodeId) (pos : Z) (ch : byte)
    (r : res (Document * Operation)) : Prop :=
  ∃ doc' op pos', r = Ok (doc', op) ∧ local_insert doc pos' ch doc' op ∧ placed doc nodeId pos pos'.

Lemma findAtomForInsert_ok doc pos l nd acc nodeId :
  wf doc → node_covers doc pos l nd acc →
  ∃ r, findAtomForInsertHelper pos acc nodeId nd (nd_Atoms nd) = Ok r ∧ found nodeId pos acc nd r.
Proof.
  intros W (Hl & Hs & Hpos). unfold findAtomForInsertHelper.
  destruct (firstNonEmptyAtom_spec (nd_Atoms nd)) as (A & B & HA & HA0 & HB & ->).
  destruct (findAtomForInsert_loop_ok nodeId pos acc nd A B (S (length (nd_Atoms nd))))
    as (r & Hr & Hc); try done.
  - intros b [k Hb]%list_elem_of_lookup. destruct (atom_size doc W l nd k b Hl Hb) as [-> ?].
    unfold is_alive. case_decide; lia.
  - rewrite HA, length_app. lia.
  - rewrite (sumZ_zero _ A) by done. lia.
  - lia.
  - exists r. split; [|done]. rewrite <-Hr. f_equal. rewrite (sumZ_zero _ A) by done. lia.
Qed.

(** Reusing a slot. *)
Lemma insert_hole doc pos l nd acc nodeId ch k :
  wf doc → node_covers doc pos l nd acc → hole nodeId nd k →
  pos < acc + sumZ at_Size (take k (nd_Atoms nd)) →
  inserts doc nodeId pos ch (makeAndApplyInsertOperation doc l (Z.of_nat k) ch).
Proof.
  intros W (Hl & Hs & _) Hh Hlt. pose proof Hh as (a & Ha & Hz & Hun & _ & Hmax).
  pose proof (start_slots doc W l nd acc Hl Hs k) as Hsk.
  destruct (insert_slot_local doc l nd k a ch (acc + sumZ at_Size (take k (nd_Atoms nd))))
    as (doc' & op & -> & Hli); try done.
  { apply Hsk. apply Nat.lt_le_incl. by eapply lookup_lt_Some. }
  destruct (atom_size doc W l nd k a Hl Ha) as [Hsize _].
  assert (is_alive a = 0) as Hal by (unfold is_alive; by rewrite Hun).
  exists doc', op, (acc + sumZ at_Size (take k (nd_Atoms nd))). split; [done|]. split.
  - by replace (sumZ (size_of (dc_heap doc)) (at_Left a)) with 0 in Hli by lia; rewrite Z.add_0_r in Hli.
  - right. split; [done|]. eauto.
Qed.

(** Going on from a node that covers the position. *)
Lemma InsertPos_loop_ok fuel doc nodeId pos acc l nd n a ch :
  wf doc → dc_Nodes doc !! nodeId = None → slot_covers doc pos l nd n a acc →
  (length (dc_heap doc) - l < fuel)%nat →
  inserts doc nodeId pos ch (InsertPos_loop fuel doc nodeId pos acc l (Z.of_nat n) ch).
Proof.
  intros W Hf. revert acc l nd n a. induction fuel as [|fuel IH];
    intros acc l nd n a Hc Hfuel; [lia|]. pose proof Hc as (Hl & Ha & Hs & Hpos).
  cbn [InsertPos_loop]. rewrite (deref_Some _ _ _ Hl), bind_Ok, (index_Some _ _ _ Ha), bind_Ok.
  destruct ((acc + at_Size a - 1 =? pos) && bool_decide (at_State a = ALIVE)) eqn:Hhere.
  - apply andb_prop in Hhere as [H1%Z.eqb_eq H2%bool_decide_eq_true].
    destruct (insertPosNewHelper_ok (walk_fuel doc) doc l nd n a acc nodeId ch W Hl Ha Hs Hf)
      as (doc' & op & Hr & Hli); [unfold walk_fuel; lia|].
    exists doc', op, pos. split; [done|]. split; [|by left].
    destruct (atom_size doc W l nd n a Hl Ha) as [Hsize _].
    assert (is_alive a = 1) as Hal by (unfold is_alive; by rewrite H2).
    by replace (acc + sumZ (size_of (dc_heap doc)) (at_Left a)) with pos in Hli by lia.
  - destruct (find_child doc pos l nd n a acc W Hc) as (c & cd & acc' & -> & Hlt & Hcd).
    { apply andb_false_iff in Hhere as [H%Z.eqb_neq|H%bool_decide_eq_false]; auto. }
    rewrite bind_Ok, require_Some, bind_Ok. pose proof Hcd as (Hc' & _ & _).
    pose proof (lookup_lt_Some _ _ _ Hc'). rewrite (deref_Some _ _ _ Hc'), bind_Ok.
    destruct (findAtomForInsert_ok doc pos c cd acc' nodeId W Hcd) as ([[ins acc2] i] & -> & Hfd).
    rewrite bind_Ok. destruct Hfd as [[-> Hi]|(-> & k & -> & Hh & Hk)].
    + rewrite decide_False by done.
      destruct (atom_covers_slot _ _ _ _ _ _ _ W Hcd Hi) as (a2 & Hz & Hc2).
      rewrite Hz. eapply IH; [exact Hc2|lia].
    + rewrite decide_True by done. by eapply insert_hole.
Qed.

Lemma InsertPos_end_ok doc nodeId ch :
  wf doc → dc_Nodes doc !! nodeId = None → dc_Size doc ≠ 0 →
  inserts doc nodeId (dc_Size doc) ch (InsertPos_end doc nodeId ch).
Proof.
  intros W Hf Hsz. pose proof (so_doc _ _ _ _ _ (wf_sz _ _ _ W)) as Hds.
  destruct (exists_last (l := dc_Doc doc)) as (A & c & HA).
  { intros Hnil. rewrite Hnil in Hds. simpl in Hds. lia. }
  unfold InsertPos_end. rewrite HA.
  assert (index (A ++ [c]) (zlen (A ++ [c]) - 1) = Ok c) as ->.
  { replace (zlen (A ++ [c]) - 1) with (zlen A) by (rewrite zlen_app; unfold zlen; simpl; lia).
    apply index_middle. }
  assert (c ∈ dc_Doc doc) as Hin by (rewrite HA; apply elem_of_app; right; by left).
  pose proof (root_lt _ _ (wf_sh _ _ _ W) _ Hin) as Hlt.
  destruct (lookup_lt_is_Some_2 _ _ Hlt) as [cd Hc].
  rewrite bind_Ok, (deref_Some _ _ _ Hc), bind_Ok.
  destruct (last_slot doc c cd W Hc)
    as (m & last & b & Hi & Hif & Hm & He & Hb & Hun & Hle & Hsum).
  rewrite Hi, bind_Ok, Hif, He, bind_Ok.
  pose proof (extend_view doc c cd (Z.of_nat m) W Hc Hm) as V.
  change (set_nd_atoms (nd_Atoms (extended (Z.of_nat m) cd)) cd) with (extended (Z.of_nat m) cd).
  set (doc1 := store c (extended (Z.of_nat m) cd) doc) in *.
  assert (dc_heap doc1 !! c = Some (extended (Z.of_nat m) cd)) as Hc1
    by (by apply list_lookup_insert_eq).
  pose proof (start_root doc W A c [] HA) as Hsc.
  pose proof (sv_start _ _ V _ _ _ (start_slots doc W c cd _ Hc Hsc m Hle)) as Hsm.
  destruct (atom_size doc1 (sv_wf _ _ V) c _ m b Hc1 Hb) as [Hsize _].
  assert (sumZ (size_of (dc_heap doc)) A + sumZ at_Size (take m (nd_Atoms cd)) +
    sumZ (size_of (dc_heap doc1)) (at_Left b) = dc_Size doc) as Hpos.
  { assert (size_of (dc_heap doc) c = nd_Size cd) as Hsc' by (unfold size_of; by rewrite Hc).
    pose proof (node_size_sum _ _ _ (wf_sz _ _ _ W) _ _ Hc) as Hns.
    assert (is_alive b = 0) as Hal by (unfold is_alive; by rewrite Hun).
    rewrite Hds, HA, sumZ_app. cbn [sumZ foldr]. rewrite Hsc'. lia. }
  unfold canDoInsert. rewrite (index_Some _ _ _ Hb), bind_Ok, bind_Ok.
  match goal with |- context [if ?x then _ else _] => destruct x eqn:Hcan end.
  - apply andb_prop in Hcan as [_ Hmax%negb_true_iff%Z.eqb_neq].
    destruct (insert_slot_local doc1 c _ m b ch _ (sv_wf _ _ V) Hc1 Hb Hun Hmax Hsm)
      as (doc' & op & -> & Hli). rewrite Hpos in Hli. exists doc', op, (dc_Size doc).
    split; [done|]. split; [by eapply same_view_insert|by left].
  - destruct (insertPosNewHelper_ok (walk_fuel doc1) doc1 c _ m b _ nodeId ch (sv_wf _ _ V) Hc1 Hb Hsm)
      as (doc' & op & Hr & Hli).
    + by rewrite (sv_nodes _ _ V).
    + unfold walk_fuel. lia.
    + rewrite Hpos in Hli. exists doc', op, (dc_Size doc).
      split; [done|]. split; [by eapply same_view_insert|by left].
Qed.

Lemma find_root_end doc pos :
  wf doc → dc_Size doc ≤ pos → findNodePos (dc_heap doc) pos 0 (dc_Doc doc) = Ok (dc_Size doc, None).
Proof.
  intros W Hpos. pose proof (so_doc _ _ _ _ _ (wf_sz _ _ _ W)) as Hds.
  assert (∀ c, c ∈ dc_Doc doc → (c < length (dc_heap doc))%nat) as Hb
    by (intros c; apply (root_lt _ _ (wf_sh _ _ _ W))).
  assert (∀ L, (∀ c, c ∈ L → c ∈ dc_Doc doc) → 0 ≤ sumZ (size_of (dc_heap doc)) L) as Hnn.
  { intros L HL. rewrite (sum_size_zlen _ _ _ (wf_sh _ _ _ W) (wf_sz _ _ _ W)); [apply zlen_nonneg|].
    intros c Hc. by apply Hb, HL. }
  destruct (findNodePos_ok (dc_heap doc) pos 0 (dc_Doc doc) Hb) as ([acc r] & -> & Hc).
  { specialize (Hnn (dc_Doc doc)). rewrite Hds in Hpos. etrans; [|exact Hpos]. by apply Hnn. }
  unfold covers in Hc. cbn [fst snd] in Hc. destruct r as [c|].
  - destruct Hc as (A & B & HA & -> & Hr). exfalso. rewrite Hds, HA, sumZ_app in Hpos. simpl in Hpos, Hr.
    assert (0 ≤ sumZ (size_of (dc_heap doc)) B); [|lia]. apply Hnn. intros y Hy. rewrite HA.
    apply elem_of_app. right. by right.
  - f_equal. f_equal. lia.
Qed.

Lemma InsertPos_ok doc nodeId pos ch :
  wf doc → dc_Nodes doc !! nodeId = None → 0 ≤ pos ≤ dc_Size doc →
  inserts doc nodeId pos ch (InsertPos doc nodeId pos ch).
Proof.
  intros W Hf Hpos. unfold InsertPos. case (Z.eqb_spec (dc_Size doc) 0) as [Hz|Hz].
  - set (op := mkOperation INSERT_ROOT zero_id 0 nodeId 0 ch).
    assert (op_ok doc op) as Hok by (by apply op_ok_root).
    destruct (InsertRoot_ok doc op W eq_refl Hok) as (doc' & p & -> & Hap). rewrite bind_Ok.
    exists doc', op, pos. split; [done|]. split; [|by left].
    pose proof (dc_Size_zlen doc W) as Hlen.
    assert (dstr doc = []) as Hnil by (apply zlen_zero; lia).
    assert (p = 0) as ->.
    { pose proof (ap_range _ _ _ _ Hap) as Hr. unfold edit_in_range in Hr. simpl in Hr. lia. }
    assert (pos = 0) as -> by lia.
    split; [done|apply Hap|apply Hap| |apply Hap|apply Hap]. by rewrite Hnil.
  - destruct (decide (pos = dc_Size doc)) as [->|Hne].
    + rewrite (find_root_end doc _ W), bind_Ok by lia. by apply InsertPos_end_ok.
    + destruct (find_root doc pos W) as (c & cd & acc & -> & Hcd); [lia|].
      rewrite bind_Ok. pose proof Hcd as (Hc & _ & _). rewrite (deref_Some _ _ _ Hc), bind_Ok.
      destruct (findAtomForInsert_ok doc pos c cd acc nodeId W Hcd) as ([[ins acc2] i] & -> & Hfd).
      rewrite bind_Ok. destruct Hfd as [[-> Hi]|(-> & k & -> & Hh & Hk)].
      * rewrite decide_False by done.
        destruct (atom_covers_slot _ _ _ _ _ _ _ W Hcd Hi) as (a2 & Hzz & Hc2).
        rewrite Hzz. eapply InsertPos_loop_ok; [done|done|exact Hc2|unfold walk_fuel; lia].
      * rewrite decide_True by done. by eapply insert_hole.
Qed.

Lemma local_insert_remote doc pos ch doc' op :
  wf doc → local_insert doc pos ch doc' op →
  ∃ doc2 bop, ApplyOperation doc op = Ok (doc2, bop) ∧ wf doc2 ∧
    DocToString doc2 = Ok (text_insert pos ch (dstr doc)).
Proof.
  intros W [Hok W' Ht _ HL HS]. destruct (ApplyOperation_applied doc op W Hok) as (doc2 & bop & Ha & Hap).
  exists doc2, bop. pose proof (ap_wf _ _ _ _ Hap) as W2. split_and!; [done|done|].
  rewrite (DocToString_dstr _ W2), <-Ht. f_equal. apply same_content_text; [done|done| |].
  - intros id. by rewrite (ap_link _ _ _ _ Hap), HL.
  - intros id n. by rewrite (ap_slot _ _ _ _ Hap), HS.
Qed.

(** No used site has a slot to reuse. *)
Definition no_hole (doc : Document) (nodeId : NodeId) : Prop :=
  ∀ l nd k, dc_heap doc !! l = Some nd → ¬ hole nodeId nd k.

(** C14: With a fresh identifier and a position of the text, and when no slot of
    the site can be reused (then the character may land to the right, as
    stated next), a local insertion returns, and the character is exactly
    at the position asked for. The recorded operation satisfies the remote
    precondition on the old document, and applying it there shows the same
    string. *)
Theorem InsertPos_inserts doc nodeId pos ch :
  wf doc → dc_Nodes doc !! nodeId = None → 0 ≤ pos ≤ dc_Size doc → no_hole doc nodeId →
  ∃ doc' op s, InsertPos doc nodeId pos ch = Ok (doc', op) ∧ wf doc' ∧
    DocToString doc = Ok s ∧ DocToString doc' = Ok (text_insert pos ch s) ∧
    op_ok doc op ∧
    ∃ doc2 bop, ApplyOperation doc op = Ok (doc2, bop) ∧ DocToString doc2 = DocToString doc'.
Proof.
  intros W Hf Hpos Hno.
  destruct (InsertPos_ok doc nodeId pos ch W Hf Hpos) as (doc' & op & pos' & -> & Hli & Hpl).
  destruct Hpl as [->|(_ & l & nd & k & Hl & Hh)]; [|by destruct (Hno l nd k)].
  destruct (local_insert_remote _ _ _ _ _ W Hli) as (doc2 & bop & Ha & _ & Hd2).
  pose proof (li_wf _ _ _ _ _ Hli) as W'. exists doc', op, (dstr doc).
  rewrite (DocToString_dstr _ W), (DocToString_dstr _ W'), (li_text _ _ _ _ _ Hli).
  split_and!; try done; [apply Hli|]. exists doc2, bop. by rewrite Hd2.
Qed.

(** C36: In every case the character lands at the position asked for or to the
    right of it, the latter only if a slot is reused, and the string of a
    replica that applies the recorded operation is the local one. *)
Theorem InsertPos_total doc nodeId pos ch :
  wf doc → dc_Nodes doc !! nodeId = None → 0 ≤ pos ≤ dc_Size doc →
  ∃ doc' op pos' s, InsertPos doc nodeId pos ch = Ok (doc', op) ∧ wf doc' ∧
    DocToString doc = Ok s ∧ DocToString doc' = Ok (text_insert pos' ch s) ∧
    pos ≤ pos' ≤ zlen s ∧ (pos' ≠ pos → ¬ no_hole doc nodeId) ∧
    ∃ doc2 bop, ApplyOperation doc op = Ok (doc2, bop) ∧ DocToString doc2 = DocToString doc'.
Proof.
  intros W Hf Hpos.
  destruct (InsertPos_ok doc nodeId pos ch W Hf Hpos) as (doc' & op & pos' & -> & Hli & Hpl).
  destruct (local_insert_remote _ _ _ _ _ W Hli) as (doc2 & bop & Ha & _ & Hd2).
  pose proof (li_wf _ _ _ _ _ Hli) as W'. pose proof (li_range _ _ _ _ _ Hli) as Hr.
  exists doc', op, pos', (dstr doc).
  rewrite (DocToString_dstr _ W), (DocToString_dstr _ W'), (li_text _ _ _ _ _ Hli).
  split_and!; try done.
  - destruct Hpl as [->|[? _]]; lia.
  - apply Hr.
  - intros Hne Hno. destruct Hpl as [->|(_ & l & nd & k & Hl & Hh)]; [done|by eapply Hno].
  - exists doc2, bop. by rewrite Hd2.
Qed.

(** The first site writes [a]; the second appends [b], below the slot after
    [a], and deletes it: the slot is now unused, empty, and the first site's. *)
Definition hole_doc : Document :=
  match apply_all NewDocument [root_op (sample_id x01 1) 0 x61;
    new_op (sample_id x01 1) 1 (sample_id x02 1) 0 x62; delete_op (sample_id x02 1) 0] with
  | Ok (doc, _) => doc
  | _ => NewDocument
  end.

Lemma wf_hole_doc : wf hole_doc.
Proof.
  unfold hole_doc.
  match goal with |- context [apply_all NewDocument ?ops] =>
    destruct (apply_all_ok NewDocument ops wf_NewDocument) as (doc & bops & -> & W & _) end;
    [apply ops_okb_ok; vm_compute; reflexivity|done].
Qed.

Lemma InsertPos_total_witness :
  ∃ doc' op pos' s, InsertPos hole_doc (sample_id x01 2) 0 x78 = Ok (doc', op) ∧ wf doc' ∧
    DocToString hole_doc = Ok s ∧ DocToString doc' = Ok (text_insert pos' x78 s) ∧
    0 ≤ pos' ≤ zlen s ∧ (pos' ≠ 0 → ¬ no_hole hole_doc (sample_id x01 2)) ∧
    ∃ doc2 bop, ApplyOperation hole_doc op = Ok (doc2, bop) ∧ DocToString doc2 = DocToString doc'.
Proof.
  apply (InsertPos_total hole_doc (sample_id x01 2) 0 x78 wf_hole_doc).
  - vm_compute. reflexivity.
  - vm_compute. split; congruence.
Defined.

(** The exception is real. The first site asks for [x] before its [a] and
    gets it after: [findAtomForInsertHelper] takes the unused slot that follows
    the character at the position, as if it preceded it. *)
Theorem InsertPos_misplaces :
  DocToString hole_doc = Ok [x61] ∧
  ∃ doc' op, InsertPos hole_doc (sample_id x01 2) 0 x78 = Ok (doc', op) ∧
    DocToString doc' = Ok [x61; x78] ∧ [x61; x78] ≠ text_insert 0 x78 [x61].
Proof.
  split; [vm_compute; reflexivity|].
  assert (match InsertPos hole_doc (sample_id x01 2) 0 x78 with
    Ok (d, _) => bool_decide (DocToString d = Ok [x61; x78]) | _ => false end = true) as H
    by (vm_compute; reflexivity).
  destruct (InsertPos hole_doc (sample_id x01 2) 0 x78) as [[doc' op]|p|]; [|discriminate..].
  apply bool_decide_eq_true in H. exists doc', op. split_and!; done.
Qed.

(** A decision procedure for [no_hole]. *)
Definition holeb (nodeId : NodeId) (nd : DocNode) : bool :=
  existsb (λ '(k, a), (at_Size a =? 0) && bool_decide (at_State a = UNINITIALIZED)
      && EqualSiteIdInNodeId nodeId (nd_NodeId nd) && negb (Z.of_nat k =? MAX_ATOMS_PER_NODE))
    (zip (seq 0 (length (nd_Atoms nd))) (nd_Atoms nd)).

Lemma no_holeb_ok doc nodeId :
  forallb (λ nd, negb (holeb nodeId nd)) (dc_heap doc) = true → no_hole doc nodeId.
Proof.
  intros H l nd k Hl (a & Ha & Hz & Hun & Hs & Hm).
  rewrite forallb_forall in H. specialize (H nd).
  assert (In nd (dc_heap doc)) as Hin by (apply list_elem_of_In; by eapply list_elem_of_lookup_2).
  apply H in Hin. apply negb_true_iff in Hin. unfold holeb in Hin.
  assert (existsb (λ '(k, a), (at_Size a =? 0) && bool_decide (at_State a = UNINITIALIZED)
      && EqualSiteIdInNodeId nodeId (nd_NodeId nd) && negb (Z.of_nat k =? MAX_ATOMS_PER_NODE))
    (zip (seq 0 (length (nd_Atoms nd))) (nd_Atoms nd)) = true); [|congruence].
  apply existsb_exists. exists (k, a). split.
  - apply list_elem_of_In, list_elem_of_lookup. exists k. rewrite lookup_zip_Some.
    split; [apply lookup_seq; apply lookup_lt_Some in Ha; lia|done].
  - rewrite Hs. apply Z.eqb_eq in Hz as ->. rewrite bool_decide_eq_true_2 by done.
    simpl. by apply negb_true_iff, Z.eqb_neq.
Qed.

Lemma InsertPos_inserts_witness :
  ∃ doc' op s, InsertPos sample_doc (sample_id x01 2) 1 x78 = Ok (doc', op) ∧ wf doc' ∧
    DocToString sample_doc = Ok s ∧ DocToString doc' = Ok (text_insert 1 x78 s) ∧
    op_ok sample_doc op ∧
    ∃ doc2 bop, ApplyOperation sample_doc op = Ok (doc2, bop) ∧ DocToString doc2 = DocToString doc'.
Proof.
  apply (InsertPos_inserts sample_doc (sample_id x01 2) 1 x78 wf_sample_doc).
  - vm_compute. reflexivity.
  - vm_compute. split; congruence.
  - apply no_holeb_ok. vm_compute. reflexivity.
Defined.
