(* ===== verification/TreedocCausal.v ===== *)
(** The precondition of a remote operation in terms of the set of operations
    applied before it: its causes are among them and none of them uses the
    place it fills. And what the local operations record. *)
From S2P Require Import Prelude Common BufferOp Treedoc TreedocInv TreedocWf TreedocRemote TreedocSpec TreedocConv TreedocLocal TreedocInsert.

Open Scope Z_scope.

Definition has_node (P : Operation → Prop) (id : NodeId) : Prop := ∃ o l, P o ∧ creates o id l.
Definition has_slot (P : Operation → Prop) (id : NodeId) (n : nat) : Prop :=
  ∃ o ch, P o ∧ fills o id n ch.

Definition op_needs (P : Operation → Prop) (op : Operation) : Prop :=
  match op_Type op with
  | NO_OPERATION => True
  | INSERT_NEW => has_node P (op_ParentId op) ∧ 0 ≤ op_ParentN op < w16 ∧ 0 ≤ op_N op < w16 - 5
  | INSERT_ROOT => 0 ≤ op_N op < w16 - 5
  | INSERT => has_node P (op_Id op) ∧ 0 ≤ op_N op < MAX_ATOMS_PER_NODE
  | DELETE => has_slot P (op_Id op) (Z.to_nat (op_N op)) ∧ 0 ≤ op_N op
  end.

Definition clash (o op : Operation) : Prop :=
  match op_Type op with
  | INSERT_NEW | INSERT_ROOT => ∃ l, creates o (op_Id op) l
  | INSERT => ∃ ch, fills o (op_Id op) (Z.to_nat (op_N op)) ch
  | _ => False
  end.

Lemma op_needs_mono (P Q : Operation → Prop) op :
  (∀ o, P o → Q o) → op_needs P op → op_needs Q op.
Proof.
  intros HPQ. unfold op_needs, has_node, has_slot. destruct (op_Type op); naive_solver.
Qed.

Section content.
Context (doc : Document) (P : Operation → Prop) (W : wf doc) (C : content doc P).

Lemma node_created id : is_Some (dc_Nodes doc !! id) ↔ has_node P id.
Proof using W C.
  split.
  - intros [x Hx]. destruct (wf_nodes _ _ _ W _ _ Hx) as (nd & Hnd & Hid).
    pose proof (link_at _ _ _ W Hnd) as Hl. rewrite Hid in Hl.
    apply (ct_link _ _ C) in Hl as (o & ? & ?). by exists o, (id_of (dc_heap doc) <$> nd_Parent nd, nd_ParentN nd).
  - intros (o & l & Ho & Hc). assert (link doc id = Some l) as Hl by (apply (ct_link _ _ C); eauto).
    destruct (dc_Nodes doc !! id) eqn:E; [done|]. by rewrite (proj1 (fresh_content _ _ 0%nat E)) in Hl.
Qed.

Lemma node_fresh id : dc_Nodes doc !! id = None ↔ ¬ has_node P id.
Proof using W C. by rewrite <-node_created, eq_None_not_Some. Qed.

Lemma slot_filled id n : is_Some (slot doc id n) ↔ has_slot P id n.
Proof using W C.
  split.
  - intros [[st ch] Hs]. assert (has_char doc id n ch) as H by (unfold has_char; by rewrite Hs).
    apply (ct_char _ _ C) in H as (o & ? & ?). by exists o, ch.
  - intros (o & ch & Ho & Hf). assert (has_char doc id n ch) as H by (apply (ct_char _ _ C); eauto).
    unfold has_char in H. destruct (slot doc id n); done.
Qed.

Lemma slot_free id n : slot doc id n = None ↔ ¬ has_slot P id n.
Proof using W C. by rewrite <-slot_filled, eq_None_not_Some. Qed.

Lemma op_ok_iff op : op_ok doc op ↔ op_needs P op ∧ ∀ o, P o → ¬ clash o op.
Proof using W C.
  unfold op_ok, op_needs, clash. destruct (op_Type op);
    rewrite ?node_fresh, ?node_created, ?slot_free, ?slot_filled; unfold has_node, has_slot; naive_solver.
Qed.
End content.

(** ** What a local insertion records *)

(** A new node has the new identifier; a new character of an existing node
    goes to a node of the own site. *)
Definition own_insert (nodeId : NodeId) (op : Operation) : Prop :=
  (op_Type op = INSERT ∧ EqualSiteIdInNodeId nodeId (op_Id op) = true) ∨
  ((op_Type op = INSERT_NEW ∨ op_Type op = INSERT_ROOT) ∧ op_Id op = nodeId).

Lemma canDoInsert_site nd n nodeId :
  canDoInsert nd n nodeId = Ok true → EqualSiteIdInNodeId nodeId (nd_NodeId nd) = true.
Proof.
  unfold canDoInsert. intros H. apply bind_Ok_inv in H as (a & _ & H). injection H as H.
  by apply andb_prop in H as [[_ H]%andb_prop _].
Qed.

Lemma makeInsert_own doc l nd n ch nodeId doc' op :
  dc_heap doc !! l = Some nd → EqualSiteIdInNodeId nodeId (nd_NodeId nd) = true →
  makeAndApplyInsertOperation doc l n ch = Ok (doc', op) → own_insert nodeId op.
Proof.
  intros Hl Hs H. unfold makeAndApplyInsertOperation in H. rewrite (deref_Some _ _ _ Hl), bind_Ok in H.
  apply bind_Ok_inv in H as ([doc1 bop] & _ & H). injection H as _ <-. by left.
Qed.

Lemma findAtom_own pos acc nodeId nd atoms fuel i acc2 k :
  findAtomForInsert_loop fuel pos acc i nodeId nd atoms = Ok (INSERT, acc2, k) →
  EqualSiteIdInNodeId nodeId (nd_NodeId nd) = true.
Proof.
  revert acc i. induction fuel as [|fuel IH]; intros acc i; [done|].
  cbn [findAtomForInsert_loop]. destruct (i <? zlen atoms); [|done].
  intros H. apply bind_Ok_inv in H as (ins & Hins & H).
  destruct (EqualSiteIdInNodeId nodeId (nd_NodeId nd)); [done|].
  injection Hins as <-. apply bind_Ok_inv in H as (a & _ & H).
  case_match; [done|by eapply IH].
Qed.

Lemma insertPosNew_own fuel doc l n nodeId ch doc' op :
  insertPosNewHelper_fuel fuel doc l n nodeId ch = Ok (doc', op) → own_insert nodeId op.
Proof.
  revert doc l n. induction fuel as [|fuel IH]; intros doc l n; [done|].
  cbn [insertPosNewHelper_fuel]. intros H.
  apply bind_Ok_inv in H as (nd & _ & H). apply bind_Ok_inv in H as (a & _ & H).
  destruct (at_Left a) as [|x xs].
  - apply bind_Ok_inv in H as ([d b] & _ & H). injection H as _ <-. right. simpl. tauto.
  - apply bind_Ok_inv in H as (c & _ & H). apply bind_Ok_inv in H as (cd & Hcd & H).
    apply bind_Ok_inv in H as (la & _ & H). apply bind_Ok_inv in H as (atoms & _ & H).
    apply bind_Ok_inv in H as (can & Hcan & H). destruct can; [|by eapply IH].
    pose proof (canDoInsert_site _ _ _ Hcan) as Hs.
    eapply makeInsert_own; [|exact Hs|exact H]. simpl.
    apply list_lookup_insert_eq. unfold deref in Hcd. by apply require_Ok_inv, lookup_lt_Some in Hcd.
Qed.

Lemma InsertPos_loop_own fuel doc nodeId pos acc l n ch doc' op :
  InsertPos_loop fuel doc nodeId pos acc l n ch = Ok (doc', op) → own_insert nodeId op.
Proof.
  revert acc l n. induction fuel as [|fuel IH]; intros acc l n; [done|].
  cbn [InsertPos_loop]. intros H.
  apply bind_Ok_inv in H as (nd & _ & H). apply bind_Ok_inv in H as (a & _ & H). case_match.
  { by eapply insertPosNew_own. }
  apply bind_Ok_inv in H as ([acc2 node] & _ & H). apply bind_Ok_inv in H as (c & _ & H).
  apply bind_Ok_inv in H as (cd & Hcd & H). apply bind_Ok_inv in H as ([[ins acc3] k] & Hfa & H).
  case_decide as Hins; [subst|by eapply IH].
  apply findAtom_own in Hfa. eapply makeInsert_own; [|exact Hfa|exact H].
  unfold deref in Hcd. by apply require_Ok_inv in Hcd.
Qed.

Lemma InsertPos_own doc nodeId pos ch doc' op :
  InsertPos doc nodeId pos ch = Ok (doc', op) → own_insert nodeId op.
Proof.
  unfold InsertPos. destruct (dc_Size doc =? 0).
  { intros H. apply bind_Ok_inv in H as ([d b] & _ & H). injection H as _ <-. right. simpl. tauto. }
  intros H. apply bind_Ok_inv in H as ([acc c] & _ & H). destruct c as [c|].
  - apply bind_Ok_inv in H as (cd & Hcd & H). apply bind_Ok_inv in H as ([[ins acc3] k] & Hfa & H).
    case_decide as Hins; [subst|by eapply InsertPos_loop_own].
    apply findAtom_own in Hfa. eapply makeInsert_own; [|exact Hfa|exact H].
    unfold deref in Hcd. by apply require_Ok_inv in Hcd.
  - unfold InsertPos_end in H.
    apply bind_Ok_inv in H as (c & _ & H). apply bind_Ok_inv in H as (cd & Hcd & H).
    apply bind_Ok_inv in H as (la & _ & H). apply bind_Ok_inv in H as (atoms & _ & H).
    apply bind_Ok_inv in H as (can & Hcan & H). destruct can.
    + pose proof (canDoInsert_site _ _ _ Hcan) as Hs. eapply makeInsert_own; [|exact Hs|exact H]. simpl.
      apply list_lookup_insert_eq. unfold deref in Hcd. by apply require_Ok_inv, lookup_lt_Some in Hcd.
    + by eapply insertPosNew_own.
Qed.

Lemma DeletePos_range doc pos r :
  wf doc → DeletePos doc pos = Ok r → pos < dc_Size doc.
Proof.
  intros W H. destruct (decide (pos < dc_Size doc)) as [|Hge]; [done|]. exfalso.
  unfold DeletePos, posToIdForDel in H. rewrite (find_root_end doc pos W) in H by lia. discriminate.
Qed.

(** In an empty text nothing can be deleted, whatever the position. *)
Lemma sumZ_zero_inv {A} (f : A → Z) l : (∀ a, a ∈ l → 0 ≤ f a) → sumZ f l = 0 → ∀ a, a ∈ l → f a = 0.
Proof.
  induction l as [|b l IH]; intros Hf H a Ha; [by apply elem_of_nil in Ha|]. simpl in H.
  assert (0 ≤ f b) by (apply Hf; by left). assert (0 ≤ sumZ f l) by (apply sumZ_nonneg; intros; apply Hf; by right).
  apply elem_of_cons in Ha as [->|Ha]; [lia|]. apply IH; [intros; apply Hf; by right|lia|done].
Qed.

Lemma findNodePos_none h pos acc nodes :
  (∀ c, c ∈ nodes → (c < length h)%nat ∧ size_of h c = 0) → findNodePos h pos acc nodes = Ok (acc, None).
Proof.
  intros H. unfold findNodePos, nextNonEmptyNode.
  destruct (next_node_spec h (-1 + 1) nodes) as (A & B & -> & HA & HB & Hn); [intros; by apply H|].
  change (drop (Z.to_nat (-1 + 1)) (A ++ B)) with (A ++ B). rewrite Hn, bind_Ok.
  destruct B as [|c B]; [|exfalso; eapply HB, H; [reflexivity|apply elem_of_app; right; by left]].
  rewrite app_nil_r. cbn [findNodePos_loop]. by rewrite (proj2 (Z.ltb_ge _ _)) by lia.
Qed.

Lemma DeletePos_empty doc pos : wf doc → dstr doc = [] → DeletePos doc pos = Panic NilPointer.
Proof.
  intros W Hd. unfold DeletePos, posToIdForDel. rewrite findNodePos_none; [done|].
  assert (∀ c, c ∈ dc_Doc doc → (c < length (dc_heap doc))%nat) as Hb
    by (intros c; apply (root_lt _ _ (wf_sh _ _ _ W))).
  intros c Hc. split; [by apply Hb|]. revert c Hc. apply sumZ_zero_inv.
  - intros c Hc. rewrite (size_of_zlen _ _ _ (wf_sh _ _ _ W) (wf_sz _ _ _ W)) by auto. apply zlen_nonneg.
  - rewrite <-(so_doc _ _ _ _ _ (wf_sz _ _ _ W)), (dc_Size_zlen _ W), Hd. done.
Qed.
