(* ===== verification/NodeIds.v ===== *)
(** Node identifiers: their parts, their equality tests and their order. *)
From S2P Require Import Prelude Common BufferOp Treedoc.

Open Scope Z_scope.

Lemma NewNodeId_app siteId clock :
  site_id_wf siteId → NewNodeId siteId clock = siteId ++ Uint32ToBytes clock.
Proof.
  intros H. unfold site_id_wf in H. unfold NewNodeId.
  assert (go_copy 0 (replicate 20 x00) siteId = siteId ++ replicate 4 x00) as ->.
  { unfold go_copy. rewrite H. change (length (replicate 20 x00)) with 20%nat.
    rewrite take_0, (take_ge siteId) by lia. done. }
  unfold go_copy. rewrite length_app, H, Uint32ToBytes_length. simpl Nat.sub. simpl Nat.min.
  rewrite <-H at 1. rewrite take_app_length. rewrite (take_ge (Uint32ToBytes clock)) by done.
  rewrite drop_ge; [by rewrite app_nil_r|]. rewrite length_app, H. simpl. lia.
Qed.

Lemma equal_upto_spec n a b : (n ≤ length a)%nat → (n ≤ length b)%nat →
  equal_upto n a b = true ↔ take n a = take n b.
Proof.
  intros Ha Hb. unfold equal_upto. rewrite forallb_forall. split.
  - intros H. apply list_eq. intros i. destruct (decide (i < n)%nat) as [Hi|Hi].
    + rewrite !lookup_take_lt by done. specialize (H i).
      apply bool_decide_eq_true in H; [done|]. apply in_seq. lia.
    + by rewrite !lookup_take_ge by lia.
  - intros H i Hi%in_seq. apply bool_decide_eq_true.
    by rewrite <-(lookup_take_lt a n i), <-(lookup_take_lt b n i), H by lia.
Qed.

Lemma EqualSite_iff s1 s2 c1 c2 :
  site_id_wf s1 → site_id_wf s2 →
  EqualSiteIdInNodeId (NewNodeId s1 c1) (NewNodeId s2 c2) = true ↔ s1 = s2.
Proof.
  intros H1 H2. rewrite !NewNodeId_app by done. unfold site_id_wf in *.
  assert (∀ c, length (Uint32ToBytes c) = 4%nat) as HL by done.
  unfold EqualSiteIdInNodeId.
  rewrite equal_upto_spec by (rewrite length_app, ?H1, ?H2, HL; lia).
  by rewrite !take_app_le, !take_ge by lia.
Qed.

Lemma NewNodeId_inj s1 s2 c1 c2 :
  site_id_wf s1 → site_id_wf s2 → 0 ≤ c1 < w32 → 0 ≤ c2 < w32 →
  NewNodeId s1 c1 = NewNodeId s2 c2 → s1 = s2 ∧ c1 = c2.
Proof.
  intros H1 H2 Hc1 Hc2 H. rewrite !NewNodeId_app in H by done. unfold site_id_wf in *.
  apply app_inj_1 in H as [-> H]; [|lia]. split; [done|].
  pose proof (BytesToUint32_Uint32ToBytes c1 Hc1) as E1.
  pose proof (BytesToUint32_Uint32ToBytes c2 Hc2) as E2. congruence.
Qed.

(** A node identifier is the pair of its site and its clock: taking it
    apart gives them back, the two equality tests decide equality of the site
    and of the pair. *)
Theorem NodeId_parts s1 s2 c1 c2 :
  site_id_wf s1 → site_id_wf s2 → 0 ≤ c1 < w32 → 0 ≤ c2 < w32 →
  SeparateNodeID (NewNodeId s1 c1) = Ok (s1, c1) ∧
  (EqualSiteIdInNodeId (NewNodeId s1 c1) (NewNodeId s2 c2) = true ↔ s1 = s2) ∧
  (EqualNodeId (NewNodeId s1 c1) (NewNodeId s2 c2) = true ↔ s1 = s2 ∧ c1 = c2).
Proof.
  intros H1 H2 Hc1 Hc2. pose proof (StringToSiteId_ToString s1 H1) as Hs. split_and!.
  - rewrite !NewNodeId_app by done. unfold site_id_wf in *.
    assert (take 16 (s1 ++ Uint32ToBytes c1) = s1) as Ht.
    { rewrite <-H1. apply take_app_length. }
    assert (drop 16 (s1 ++ Uint32ToBytes c1) = Uint32ToBytes c1) as Hd.
    { rewrite <-H1. apply drop_app_length. }
    unfold SeparateNodeID. rewrite Ht, Hd.
    rewrite BytesToUint32_Uint32ToBytes, bind_Ok by done. unfold StringToSiteId, ToString in Hs. by rewrite Hs.
  - by apply EqualSite_iff.
  - assert (∀ s c, site_id_wf s → length (NewNodeId s c) = 20%nat) as HL.
    { intros s c H. rewrite NewNodeId_app by done. rewrite length_app, H. done. }
    unfold EqualNodeId. rewrite equal_upto_spec, !take_ge by (rewrite HL by done; lia).
    split; [by apply NewNodeId_inj|by intros [-> ->]].
Qed.

Lemma NodeId_parts_witness :
  SeparateNodeID (NewNodeId (replicate 16 x41) 4294967295) = Ok (replicate 16 x41, 4294967295) ∧
  (EqualSiteIdInNodeId (NewNodeId (replicate 16 x41) 4294967295) (NewNodeId (replicate 16 x41) 7) =
     true ↔ replicate 16 x41 = replicate 16 x41) ∧
  (EqualNodeId (NewNodeId (replicate 16 x41) 4294967295) (NewNodeId (replicate 16 x41) 7) = true
     ↔ replicate 16 x41 = replicate 16 x41 ∧ 4294967295 = 7).
Proof.
  apply (NodeId_parts (replicate 16 x41) (replicate 16 x41) 4294967295 7);
    (reflexivity || (vm_compute; split; congruence)).
Defined.

(** ** The order of the siblings *)

Lemma bytes_Compare_app p a b : bytes_Compare (p ++ a) (p ++ b) = bytes_Compare a b.
Proof. induction p as [|x p IH]; simpl; [done|]. by rewrite Z.compare_refl. Qed.

(** A comparison of numbers by quotient, then by remainder. *)
Lemma compare_div_mod n m k : 0 < k →
  (n ?= m) = match n / k ?= m / k with Eq => n `mod` k ?= m `mod` k | c => c end.
Proof.
  intros Hk. pose proof (Z.div_mod n k ltac:(lia)). pose proof (Z.div_mod m k ltac:(lia)).
  pose proof (Z.mod_pos_bound n k Hk). pose proof (Z.mod_pos_bound m k Hk).
  destruct (Z.compare_spec (n / k) (m / k)) as [Hq|Hq|Hq].
  - rewrite Hq in *. destruct (Z.compare_spec (n `mod` k) (m `mod` k));
      destruct (Z.compare_spec n m); (done || lia).
  - apply Z.compare_lt_iff. nia.
  - apply Z.compare_gt_iff. nia.
Qed.

Lemma Uint32ToBytes_compare c1 c2 :
  0 ≤ c1 < w32 → 0 ≤ c2 < w32 →
  bytes_Compare (Uint32ToBytes c1) (Uint32ToBytes c2) = (c1 ?= c2).
Proof.
  intros H1 H2. unfold Uint32ToBytes. cbn [bytes_Compare]. rewrite !byte_val_of.
  rewrite !Z.shiftr_div_pow2 by lia. unfold wrap8, w8.
  change (2 ^ 8) with 256. change (2 ^ 16) with (256 * 256). change (2 ^ 24) with (256 * 256 * 256).
  rewrite (compare_div_mod c1 c2 256), (compare_div_mod (c1 / 256) (c2 / 256) 256),
    (compare_div_mod (c1 / 256 / 256) (c2 / 256 / 256) 256) by lia.
  rewrite <-!Z.div_div by lia.
  assert (∀ c, 0 ≤ c < w32 → (c / 256 / 256 / 256) `mod` 256 = c / 256 / 256 / 256) as Hm.
  { intros c Hc. apply Z.mod_small. rewrite !Z.div_div by lia. unfold w32 in Hc.
    split; [apply Z.div_pos; lia|apply Z.div_lt_upper_bound; lia]. }
  rewrite !Hm by done. repeat case_match; congruence.
Qed.

(** Siblings of one site are ordered by their clocks, numerically: the
    big-endian encoding makes [bytes.Compare] on identifiers agree with the
    order of the 32-bit clocks. *)
Theorem NodeId_order site c1 c2 :
  site_id_wf site → 0 ≤ c1 < w32 → 0 ≤ c2 < w32 →
  bytes_Compare (NewNodeId site c1) (NewNodeId site c2) = (c1 ?= c2).
Proof.
  intros Hs H1 H2. rewrite !NewNodeId_app by done. rewrite bytes_Compare_app.
  by apply Uint32ToBytes_compare.
Qed.

Lemma NodeId_order_witness :
  bytes_Compare (NewNodeId (replicate 16 x41) 255) (NewNodeId (replicate 16 x41) 256) = (255 ?= 256).
Proof.
  apply (NodeId_order (replicate 16 x41) 255 256); (reflexivity || (vm_compute; split; congruence)).
Defined.
