(* ===== verification/OperationLog.v ===== *)
(** The operations exchanged between sites and the log of the operations a
    site has applied (CPSC418/project/documentmanager/remoteop.go,
    operationlog.go). *)
From S2P Require Import Prelude Common Version Treedoc.

Open Scope Z_scope.

(** ** Operations on the wire *)

Record RemoteOperation : Type := mkRemoteOperation {
  ro_Vector : VersionVector;
  ro_Id : SiteId;
  ro_Version : Z;
  ro_Op : Operation
}.

#[export] Instance RemoteOperation_eq_dec : EqDecision RemoteOperation.
Proof. solve_decision. Defined.

(** ** The log *)

Record LogEntry : Type := mkLogEntry { le_Operation : Operation; le_Id : SiteId; le_Version : Z }.

Record OperationLog : Type := mkOperationLog { lg_Log : list LogEntry; lg_Vector : VersionVector }.

Definition NewLog : OperationLog := mkOperationLog [] NewVector.

Definition Write (log : OperationLog) (id : SiteId) (version : Z) (operation : Operation)
    : OperationLog :=
  mkOperationLog (lg_Log log ++ [mkLogEntry operation id version])
    (IncrementTo (lg_Vector log) id version).

(** The loop over the log from its end, the rest of the log reversed. *)
Fixpoint missing_loop (entries : list LogEntry) (vector currentVector : VersionVector)
    (result : list RemoteOperation) : list RemoteOperation :=
  match entries with
  | [] => result
  | currentLog :: entries =>
      let result :=
        if Get vector (le_Id currentLog) <? le_Version currentLog
        then result ++ [mkRemoteOperation NewVector (le_Id currentLog) (le_Version currentLog)
                          (le_Operation currentLog)]
        else result in
      let currentVector :=
        DecrementTo currentVector (le_Id currentLog) (wrap32 (le_Version currentLog - 1)) in
      let compare := Compare currentVector vector in
      if bool_decide (compare = EQUAL) && bool_decide (compare = LESS_THAN) then result
      else missing_loop entries vector currentVector result
  end.

(** The loop that swaps [result[i]] and [result[opp]], for [i] downwards from
    [n - 1]. *)
Fixpoint swap_loop (n : nat) (result : list RemoteOperation) : res (list RemoteOperation) :=
  match n with
  | O => Ok result
  | S i =>
      let opp := Z.of_nat (length result) - 1 - Z.of_nat i in
      a ← require IndexOutOfRange (if opp <? 0 then None else result !! Z.to_nat opp);
      b ← require IndexOutOfRange (result !! i);
      swap_loop i (<[Z.to_nat opp := b]> (<[i := a]> result))
  end.

Definition log_GetMissingOperations (log : OperationLog) (vector : VersionVector)
    : res (list RemoteOperation) :=
  let result := missing_loop (reverse (lg_Log log)) vector (Copy vector) [] in
  swap_loop (length result / 2) result.

(** ** The missing operations *)

Lemma swap_loop_ok n l :
  (n ≤ length l / 2)%nat →
  ∃ l', swap_loop n l = Ok l' ∧ length l' = length l ∧
    ∀ k, (k < length l)%nat → l' !! k =
      if decide (k < n ∨ length l - n ≤ k)%nat then l !! (length l - 1 - k)%nat else l !! k.
Proof.
  revert l. induction n as [|i IH]; intros l Hn; cbn [swap_loop].
  { exists l. split_and!; [done..|]. intros k Hk. rewrite decide_False; [done|lia]. }
  assert (length l / 2 * 2 ≤ length l)%nat as H2 by (rewrite Nat.mul_comm; apply Nat.Div0.mul_div_le).
  replace (Z.of_nat (length l) - 1 - Z.of_nat i) with (Z.of_nat (length l - 1 - i)) by lia.
  rewrite Nat2Z.id. destruct (Z.ltb_spec (Z.of_nat (length l - 1 - i)) 0); [lia|].
  destruct (lookup_lt_is_Some_2 l (length l - 1 - i)) as [a Ha]; [lia|].
  destruct (lookup_lt_is_Some_2 l i) as [b Hb]; [lia|].
  rewrite Ha, Hb, !require_Some, !bind_Ok.
  destruct (IH (<[(length l - 1 - i)%nat := b]> (<[i := a]> l))) as (l' & -> & Hl & Hk);
    rewrite ?length_insert in *; [lia|].
  exists l'. split_and!; [done..|]. intros k Hkl. rewrite Hk by done.
  destruct (decide (k = i)) as [->|Hki]; [|destruct (decide (k = length l - 1 - i)%nat) as [->|Hko]].
  - rewrite decide_False, decide_True by lia.
    rewrite list_lookup_insert_ne, list_lookup_insert_eq by lia. done.
  - rewrite decide_False, decide_True by lia. rewrite list_lookup_insert_eq by (rewrite length_insert; lia).
    rewrite <-Hb. f_equal. lia.
  - rewrite !list_lookup_insert_ne by (repeat case_decide; lia).
    repeat case_decide; try done; lia.
Qed.

Lemma swap_loop_reverse l : swap_loop (length l / 2) l = Ok (reverse l).
Proof.
  destruct (swap_loop_ok (length l / 2) l) as (l' & -> & Hl & Hk); [done|].
  f_equal. apply list_eq. intros k. destruct (decide (k < length l)%nat) as [Hlt|Hge].
  - rewrite Hk, reverse_lookup by done.
    pose proof (Nat.div_mod_eq (length l) 2) as Hm. pose proof (Nat.mod_upper_bound (length l) 2) as Hb.
    case_decide; f_equal; lia.
  - rewrite !lookup_ge_None_2; rewrite ?length_reverse; [done|lia..].
Qed.

Definition entry_op (e : LogEntry) : RemoteOperation :=
  mkRemoteOperation NewVector (le_Id e) (le_Version e) (le_Operation e).

Definition newer (vector : VersionVector) (e : LogEntry) : Prop :=
  Get vector (le_Id e) < le_Version e.
#[export] Instance newer_dec vector e : Decision (newer vector e).
Proof. unfold newer. apply _. Defined.

(** The early exit is never taken. *)
Lemma missing_loop_ok entries vector currentVector result :
  missing_loop entries vector currentVector result =
    result ++ (entry_op <$> filter (newer vector) entries).
Proof.
  revert currentVector result. induction entries as [|e entries IH]; intros cv result; cbn [missing_loop].
  { by rewrite filter_nil, app_nil_r. }
  replace (bool_decide (Compare _ vector = EQUAL) && _) with false
    by (destruct (Compare _ vector); reflexivity).
  rewrite IH, filter_cons. case (Z.ltb_spec (Get vector (le_Id e)) (le_Version e)) as [Hlt|Hge].
  - rewrite decide_True by done. by rewrite <-app_assoc.
  - rewrite decide_False by (unfold newer; lia). done.
Qed.

Lemma filter_reverse {A} (P : A → Prop) `{!∀ x, Decision (P x)} (l : list A) :
  filter P (reverse l) = reverse (filter P l).
Proof.
  induction l as [|x l IH]; [done|].
  rewrite reverse_cons, filter_app, IH, !filter_cons, filter_nil.
  case_decide; [by rewrite reverse_cons|by rewrite app_nil_r].
Qed.

Lemma log_GetMissingOperations_ok log vector :
  log_GetMissingOperations log vector = Ok (entry_op <$> filter (newer vector) (lg_Log log)).
Proof.
  unfold log_GetMissingOperations. rewrite missing_loop_ok, swap_loop_reverse.
  simpl. by rewrite <-fmap_reverse, <-filter_reverse, reverse_involutive.
Qed.
