(* ===== verification/OperationQueue.v ===== *)
(** The queue of the remote operations that wait for their causes
    (CPSC418/project/documentmanager/operationqueue.go): causal delivery. *)
From S2P Require Import Prelude Common Version Treedoc OperationLog.

Open Scope Z_scope.

(** ** The queue *)

Record OperationQueue : Type := mkOperationQueue {
  oq_queue : list RemoteOperation;
  oq_vector : VersionVector
}.

Definition NewQueue : OperationQueue := mkOperationQueue [] NewVector.

Definition Size (queue : OperationQueue) : Z := Z.of_nat (length (oq_queue queue)).

(** What the frames of [dequeHelper] share: the result, the array behind the
    queue and the vector, which is one map. *)
Record deque_state : Type := mkDeque {
  dq_result : list RemoteOperation;
  dq_queue : list RemoteOperation;
  dq_vector : VersionVector
}.

(** The loop of [dequeHelper] with [n] turns left; [rec] is the recursive call. *)
Fixpoint deque_loop (rec : nat → deque_state → res (deque_state * nat)) (n i offset : nat)
    (st : deque_state) : res (deque_state * nat) :=
  match n with
  | O => Ok (st, offset)
  | S n =>
      elem ← require IndexOutOfRange (dq_queue st !! i);
      let q := if decide (offset ≠ 0%nat) then <[(i - offset)%nat := elem]> (dq_queue st)
               else dq_queue st in
      let v := dq_vector st in
      if Get v (ro_Id elem) >=? ro_Version elem then
        deque_loop rec n (S i) (offset + 1) (mkDeque (dq_result st) q v)
      else
        match Compare v (ro_Vector elem) with
        | GREATER_THAN | EQUAL =>
            '(st, offsetp) ←
              rec (i - offset)%nat
                (mkDeque (dq_result st ++ [elem]) q (Increment v (ro_Id elem)));
            deque_loop rec n (S i) (offset + (offsetp + 1)) st
        | _ => deque_loop rec n (S i) offset (mkDeque (dq_result st) q v)
        end
  end.

(** The fuel bounds the depth of the recursion, which [upto] does too. *)
Fixpoint dequeHelper (fuel upto : nat) (st : deque_state) : res (deque_state * nat) :=
  match fuel with
  | O => OutOfFuel
  | S fuel => deque_loop (dequeHelper fuel) upto 0 0 st
  end.

(** The operations to apply now, the new queue and the vector after them. A
    nil result is the empty list. *)
Definition Enqueue (queue : OperationQueue) (elem : RemoteOperation) (vector : VersionVector)
    : res (list RemoteOperation * OperationQueue * VersionVector) :=
  let wait := Ok ([], mkOperationQueue (oq_queue queue ++ [elem]) (oq_vector queue), vector) in
  if Get vector (ro_Id elem) =? wrap32 (ro_Version elem - 1) then
    match Compare vector (ro_Vector elem) with
    | GREATER_THAN | EQUAL =>
        let upto := length (oq_queue queue) in
        '(st, offset) ← dequeHelper (S upto) upto
          (mkDeque [elem] (oq_queue queue) (Increment vector (ro_Id elem)));
        Ok (dq_result st,
            mkOperationQueue (take (length (dq_queue st) - offset) (dq_queue st)) (oq_vector queue),
            dq_vector st)
    | _ => wait
    end
  else wait.

Definition queue_GetMissingOperations (queue : OperationQueue) (vector : VersionVector)
    : list RemoteOperation :=
  foldl (λ result elem, if Get vector (ro_Id elem) <? ro_Version elem then result ++ [elem] else result)
    [] (oq_queue queue).

(** ** Causal delivery *)

(** The causes of an operation have been applied, and it has not. *)
Definition ready (v : VersionVector) (op : RemoteOperation) : Prop :=
  Get v (ro_Id op) < ro_Version op ∧ vle (ro_Vector op) v.
Definition stale (v : VersionVector) (op : RemoteOperation) : Prop :=
  ro_Version op ≤ Get v (ro_Id op).

(** Operations carry the vector of their site just before them, and are
    numbered from one. *)
Definition stamped (op : RemoteOperation) : Prop :=
  Get (ro_Vector op) (ro_Id op) = ro_Version op - 1 ∧ 1 ≤ ro_Version op < w32.

(** The vector after applying operations in order, each when it is ready. *)
Fixpoint delivers (v : VersionVector) (ops : list RemoteOperation) (v' : VersionVector) : Prop :=
  match ops with
  | [] => v' = v
  | op :: ops => ready v op ∧ delivers (Increment v (ro_Id op)) ops v'
  end.

(** An operation that has to stay in the queue. *)
Definition waits (v : VersionVector) (op : RemoteOperation) : Prop :=
  ¬ stale v op ∧ ¬ vle (ro_Vector op) v.

Lemma delivers_app v ops1 ops2 v1 v2 :
  delivers v ops1 v1 → delivers v1 ops2 v2 → delivers v (ops1 ++ ops2) v2.
Proof.
  revert v. induction ops1 as [|op ops1 IH]; intros v; simpl; [by intros ->|].
  intros [Hr H1] H2. split; [done|]. by apply IH.
Qed.

Lemma Compare_vle {A} v1 v2 (yes no : A) :
  match Compare v1 v2 with GREATER_THAN | EQUAL => yes | _ => no end =
  if decide (vle v2 v1) then yes else no.
Proof.
  pose proof (Compare_ge_iff v1 v2) as H. case_decide as Hd.
  - apply H in Hd as [->| ->]; done.
  - destruct (Compare v1 v2); try done; exfalso; apply Hd, H; tauto.
Qed.

(** What the loop of [dequeHelper] does from index [i] on in [n] turns, when it
    has removed [offset] operations before: it delivers some in causal order,
    drops what is already applied, and moves the rest, all of which wait, to
    the front. *)
Record dequed (i n offset : nat) (st st' : deque_state) (offset' : nat) : Prop := {
  dqd_offset : (offset' ≤ i + n)%nat;
  dqd_length : length (dq_queue st') = length (dq_queue st);
  dqd_rest : drop (i + n) (dq_queue st') = drop (i + n) (dq_queue st);
  dqd_elems P : Forall P (dq_queue st) → Forall P (dq_queue st');
  dqd_split : ∃ del dropped,
    dq_result st' = dq_result st ++ del ∧
    delivers (dq_vector st) del (dq_vector st') ∧
    take (i - offset) (dq_queue st) ++ take n (drop i (dq_queue st)) ≡ₚ
      del ++ dropped ++ take (i + n - offset') (dq_queue st') ∧
    Forall (stale (dq_vector st')) dropped;
  dqd_waits : Forall (waits (dq_vector st')) (take (i + n - offset') (dq_queue st'))
}.

(** Version numbers fit their type, so that no counter wraps around. *)
Definition bounded (op : RemoteOperation) : Prop := ro_Version op < w32.

Lemma ready_Increment v op id :
  vector_wf v → bounded op → ready v op →
  Get (Increment v (ro_Id op)) id = if decide (ro_Id op = id) then Get v id + 1 else Get v id.
Proof.
  intros Hv Hb [Hr _]. unfold bounded in Hb. rewrite Get_Increment. case_decide as Hd; [subst|done].
  specialize (Hv (ro_Id op)). rewrite wrap32_small; lia.
Qed.

Lemma ready_vle v op : vector_wf v → bounded op → ready v op → vle v (Increment v (ro_Id op)).
Proof. intros Hv Hb Hr id. rewrite ready_Increment by done. case_decide; lia. Qed.

Lemma delivers_mono ops v v' :
  vector_wf v → Forall bounded ops → delivers v ops v' → vle v v' ∧ vector_wf v'.
Proof.
  revert v. induction ops as [|op ops IH]; intros v Hv; cbn [delivers]; [by intros _ ->|].
  intros [Hb Hbs]%Forall_cons [Hr Hd].
  destruct (IH (Increment v (ro_Id op))) as [H1 H2]; [by apply vector_wf_Increment|done..|].
  split; [|done]. etrans; [|done]. by apply ready_vle.
Qed.

Lemma stale_mono v v' op : vle v v' → stale v op → stale v' op.
Proof. unfold stale. intros H. specialize (H (ro_Id op)). lia. Qed.

(** Moving element [i] to the end of the kept prefix. *)
Lemma shift_ok {A} (q : list A) (i offset : nat) elem :
  q !! i = Some elem → (offset ≤ i)%nat →
  let q0 := if decide (offset ≠ 0%nat) then <[(i - offset)%nat := elem]> q else q in
  length q0 = length q ∧ take (i - offset) q0 = take (i - offset) q ∧
  take (S (i - offset)) q0 = take (i - offset) q ++ [elem] ∧ drop (S i) q0 = drop (S i) q ∧
  (∀ P, Forall P q → Forall P q0).
Proof.
  intros Hi Ho. pose proof (lookup_lt_Some _ _ _ Hi) as Hlt. simpl. case_decide as Hd.
  - rewrite length_insert, take_insert_ge, drop_insert_lt by lia. split_and!; [done..| |done|].
    + erewrite take_S_r by (apply list_lookup_insert_eq; lia). by rewrite take_insert_ge by lia.
    + intros P HP. apply Forall_insert; [done|]. by eapply Forall_lookup_1.
  - assert (offset = 0%nat) as -> by lia. rewrite Nat.sub_0_r. split_and!; try done.
    by apply take_S_r.
Qed.

(** What is delivered comes from the queue. *)
Lemma bounded_part (q del l : list RemoteOperation) j i n :
  Forall bounded q → take j q ++ take n (drop i q) ≡ₚ del ++ l → Forall bounded del.
Proof.
  intros Hb Hp. assert (Forall bounded (del ++ l)) as H; [|by apply Forall_app in H as [? _]].
  rewrite <-Hp. apply Forall_app. split; [by apply Forall_take|by apply Forall_take, Forall_drop].
Qed.

Lemma dequed_vector_wf upto st st' offset :
  dequed 0 upto 0 st st' offset → vector_wf (dq_vector st) → Forall bounded (dq_queue st) →
  vector_wf (dq_vector st').
Proof.
  intros [_ _ _ _ (del & dropped & _ & H6 & H7 & _) _] Hv Hb.
  eapply delivers_mono; [exact Hv| |exact H6]. eapply bounded_part; [exact Hb|exact H7].
Qed.

(** The three ways one turn of the loop goes, put before the others. *)
Section turn.
Context (i offset n : nat) (r q q0 : list RemoteOperation) (v : VersionVector) (elem : RemoteOperation).
Context (st' : deque_state) (off' : nat).
Hypothesis Hoi : (offset ≤ i)%nat.
Hypothesis Hv : vector_wf v.
Hypothesis Hb : Forall bounded q.
Hypothesis Hl0 : length q0 = length q.
Hypothesis Hd0 : drop (S i) q0 = drop (S i) q.
Hypothesis HP0 : ∀ P, Forall P q → Forall P q0.
Hypothesis Hsplit : take (S n) (drop i q) = elem :: take n (drop (S i) q).

Lemma dequed_stale :
  take (i - offset) q0 = take (i - offset) q → stale v elem →
  dequed (S i) n (offset + 1) (mkDeque r q0 v) st' off' →
  dequed i (S n) offset (mkDeque r q v) st' off'.
Proof using Hoi Hv Hb Hl0 Hd0 HP0 Hsplit.
  intros Ht0 Hst [H1 H2 H3 H4 (del & dropped & H5 & H6 & H7 & H8) H9].
  cbn [dq_result dq_queue dq_vector] in *.
  replace (S i - (offset + 1))%nat with (i - offset)%nat in H7 by lia. rewrite Ht0, Hd0 in H7.
  replace (S i + n)%nat with (i + S n)%nat in * by lia.
  split; cbn [dq_result dq_queue dq_vector]; auto; [congruence| |].
  { by rewrite H3, Nat.add_succ_r, <-Nat.add_succ_l, <-!drop_drop, Hd0. }
  exists del, (elem :: dropped). split_and!; [done..| |].
  - rewrite Hsplit, <-Permutation_middle, H7. solve_Permutation.
  - constructor; [|done]. eapply stale_mono; [|done].
    eapply delivers_mono; [done| |done]. eapply bounded_part; [exact Hb|exact H7].
Qed.

Lemma dequed_waits :
  take (S (i - offset)) q0 = take (i - offset) q ++ [elem] →
  dequed (S i) n offset (mkDeque r q0 v) st' off' →
  dequed i (S n) offset (mkDeque r q v) st' off'.
Proof using Hoi Hl0 Hd0 HP0 Hsplit.
  intros Ht0 [H1 H2 H3 H4 (del & dropped & H5 & H6 & H7 & H8) H9].
  cbn [dq_result dq_queue dq_vector] in *.
  replace (S i - offset)%nat with (S (i - offset)) in H7 by lia. rewrite Ht0, Hd0 in H7.
  replace (S i + n)%nat with (i + S n)%nat in * by lia.
  split; cbn [dq_result dq_queue dq_vector]; auto; [congruence| |].
  { by rewrite H3, Nat.add_succ_r, <-Nat.add_succ_l, <-!drop_drop, Hd0. }
  exists del, dropped. split_and!; [done..| |done].
  rewrite Hsplit, <-H7, <-app_assoc. done.
Qed.

Lemma dequed_ready st1 off1 :
  take (i - offset) q0 = take (i - offset) q → ready v elem → bounded elem →
  dequed 0 (i - offset) 0 (mkDeque (r ++ [elem]) q0 (Increment v (ro_Id elem))) st1 off1 →
  dequed (S i) n (offset + (off1 + 1)) st1 st' off' →
  dequed i (S n) offset (mkDeque r q v) st' off'.
Proof using Hoi Hv Hb Hl0 Hd0 HP0 Hsplit.
  intros Ht0 Hr Hbe [G1 G2 G3 G4 (del1 & dropped1 & G5 & G6 & G7 & G8) G9]
    [H1 H2 H3 H4 (del & dropped & H5 & H6 & H7 & H8) H9].
  cbn [dq_result dq_queue dq_vector] in *.
  rewrite Nat.sub_0_r, drop_0, Ht0 in G7. simpl in G1, G3, G7.
  replace (S i - (offset + (off1 + 1)))%nat with (i - offset - off1)%nat in H7 by lia.
  assert (∀ j, drop (S i + j) (dq_queue st1) = drop (S i + j) q) as Hd1.
  { intros j. rewrite <-!drop_drop, <-Hd0. f_equal.
    replace (S i) with (i - offset + (offset + 1))%nat by lia. by rewrite <-!drop_drop, G3. }
  pose proof (Hd1 0%nat) as Hd. rewrite Nat.add_0_r in Hd. rewrite Hd in H7.
  assert (Forall bounded (dq_queue st1)) as Hb1 by auto.
  assert (vector_wf (dq_vector st1)) as Hv1.
  { eapply delivers_mono; [| |exact G6]; [by apply vector_wf_Increment|].
    eapply (bounded_part q _ _ (i - offset) 0 0); [done|]. rewrite app_nil_r. exact G7. }
  replace (S i + n)%nat with (i + S n)%nat in * by lia.
  split; cbn [dq_result dq_queue dq_vector]; auto; [congruence| |].
  { rewrite H3, Nat.add_succ_r, <-Nat.add_succ_l. apply Hd1. }
  exists (elem :: del1 ++ del), (dropped1 ++ dropped). split_and!.
  - by rewrite H5, G5, <-!app_assoc.
  - split; [done|]. by eapply delivers_app.
  - rewrite Hsplit, <-Permutation_middle, G7, <-!app_assoc, H7. solve_Permutation.
  - apply Forall_app. split; [|done]. eapply Forall_impl; [exact G8|]. intros op.
    apply stale_mono. eapply delivers_mono; [done| |done].
    eapply (bounded_part (dq_queue st1)); [done|]. rewrite Hd. exact H7.
Qed.
End turn.

Section deque.
Context (rec : nat → deque_state → res (deque_state * nat)) (bound : nat).
Hypothesis rec_ok : ∀ upto st,
  (upto < bound)%nat → (upto ≤ length (dq_queue st))%nat →
  vector_wf (dq_vector st) → Forall bounded (dq_queue st) →
  ∃ st' offset, rec upto st = Ok (st', offset) ∧ dequed 0 upto 0 st st' offset.

(** The loop, from index [i] on. *)
Lemma deque_loop_ok n i offset st :
  (i + n ≤ bound)%nat → (offset ≤ i)%nat → (i + n ≤ length (dq_queue st))%nat →
  vector_wf (dq_vector st) → Forall bounded (dq_queue st) →
  Forall (waits (dq_vector st)) (take (i - offset) (dq_queue st)) →
  ∃ st' offset', deque_loop rec n i offset st = Ok (st', offset') ∧
    dequed i n offset st st' offset'.
Proof using rec_ok.
  revert i offset st. induction n as [|n IH]; intros i offset [r q v] Hib Hoi Hlen Hv Hb Hw;
    simpl in Hlen, Hv, Hb, Hw; cbn [deque_loop dq_result dq_queue dq_vector].
  { exists (mkDeque r q v), offset. split; [done|].
    split; simpl; rewrite ?Nat.add_0_r; try done; []. exists [], []. by rewrite !app_nil_r. }
  destruct (lookup_lt_is_Some_2 q i) as [elem He]; [lia|].
  rewrite He, require_Some, bind_Ok.
  destruct (shift_ok q i offset elem He Hoi) as (Hl0 & Ht0 & HtS0 & Hd0 & HP0).
  set (q0 := if decide (offset ≠ 0%nat) then _ else _) in *.
  assert (take (S n) (drop i q) = elem :: take n (drop (S i) q)) as Hsplit
    by (rewrite (drop_S _ _ _ He); reflexivity).
  assert (bounded elem) as Hbe by (by eapply Forall_lookup_1).
  destruct (Get v (ro_Id elem) >=? ro_Version elem) eqn:Hst; [|rewrite Compare_vle; case_decide as Hle].
  - assert (S i - (offset + 1) = i - offset)%nat as Hk by lia.
    destruct (IH (S i) (offset + 1)%nat (mkDeque r q0 v)) as (st' & off' & -> & D);
      cbn [dq_queue dq_vector]; rewrite ?Hk, ?Ht0; auto; try lia.
    assert (stale v elem) as Hs by (unfold stale; lia).
    exists st', off'. split; [done|]. by eapply dequed_stale.
  - assert (ready v elem) as Hr by (split; [lia|done]).
    destruct (rec_ok (i - offset) (mkDeque (r ++ [elem]) q0 (Increment v (ro_Id elem))))
      as (st1 & off1 & -> & D1); cbn [dq_queue dq_vector]; auto using vector_wf_Increment; try lia.
    rewrite bind_Ok.
    destruct (IH (S i) (offset + (off1 + 1))%nat st1) as (st' & off' & -> & D).
    + lia.
    + apply dqd_offset in D1. lia.
    + rewrite (dqd_length _ _ _ _ _ _ D1). simpl. lia.
    + eapply dequed_vector_wf; [exact D1|by apply vector_wf_Increment|simpl; auto].
    + apply (dqd_elems _ _ _ _ _ _ D1). simpl. auto.
    + replace (S i - (offset + (off1 + 1)))%nat with (0 + (i - offset) - off1)%nat by lia. apply D1.
    + exists st', off'. split; [done|]. by eapply dequed_ready.
  - assert (S i - offset = S (i - offset))%nat as Hk by lia.
    destruct (IH (S i) offset (mkDeque r q0 v)) as (st' & off' & -> & D);
      cbn [dq_queue dq_vector]; rewrite ?Hk, ?HtS0; auto; try lia.
    { apply Forall_app. split; [done|]. apply Forall_singleton. split; [unfold stale; lia|done]. }
    exists st', off'. split; [done|]. by eapply dequed_waits.
Qed.
End deque.

Lemma dequeHelper_ok fuel upto st :
  (upto < fuel)%nat → (upto ≤ length (dq_queue st))%nat →
  vector_wf (dq_vector st) → Forall bounded (dq_queue st) →
  ∃ st' offset, dequeHelper fuel upto st = Ok (st', offset) ∧ dequed 0 upto 0 st st' offset.
Proof.
  revert upto st. induction fuel as [|fuel IH]; intros upto st Hf Hl Hv Hb; [lia|].
  apply (deque_loop_ok (dequeHelper fuel) fuel IH); auto; try lia; constructor.
Qed.

Lemma wrap32_pred z : 1 ≤ z < w32 → wrap32 (z - 1) = z - 1.
Proof. intros. apply wrap32_small. lia. Qed.

(** The operation is the next one of its site, and its causes are there. *)
Definition next_ready (v : VersionVector) (op : RemoteOperation) : Prop :=
  Get v (ro_Id op) = ro_Version op - 1 ∧ vle (ro_Vector op) v.

Lemma Enqueue_ok queue elem vector :
  vector_wf vector → 1 ≤ ro_Version elem → Forall bounded (elem :: oq_queue queue) →
  (¬ next_ready vector elem ∧
    Enqueue queue elem vector =
      Ok ([], mkOperationQueue (oq_queue queue ++ [elem]) (oq_vector queue), vector)) ∨
  (next_ready vector elem ∧ ∃ del kept dropped v',
    Enqueue queue elem vector = Ok (elem :: del, mkOperationQueue kept (oq_vector queue), v') ∧
    delivers vector (elem :: del) v' ∧ oq_queue queue ≡ₚ del ++ dropped ++ kept ∧
    Forall (stale v') dropped ∧ Forall (waits v') kept).
Proof.
  intros Hv H1 [Hbe Hb]%Forall_cons. unfold Enqueue, bounded in *.
  rewrite wrap32_pred by lia. case (Z.eqb_spec (Get vector (ro_Id elem)) (ro_Version elem - 1)) as [Hg|Hg];
    [rewrite Compare_vle; case_decide as Hle|].
  - right. split; [done|].
    destruct (dequeHelper_ok (S (length (oq_queue queue))) (length (oq_queue queue))
      (mkDeque [elem] (oq_queue queue) (Increment vector (ro_Id elem))))
      as (st & offset & -> & [D1 D2 D3 D4 (del & dropped & D5 & D6 & D7 & D8) D9]);
      cbn [dq_queue dq_vector]; auto using vector_wf_Increment.
    simpl in *. rewrite D2, D5. eexists del, _, dropped, _. split; [reflexivity|].
    rewrite drop_0, take_ge in D7 by lia. split_and!; try done. split; [lia|done].
  - left. split; [|done]. by intros [_ ?].
  - left. split; [|done]. by intros [? _].
Qed.

Lemma stamped_ready v op : stamped op → ready v op ↔ next_ready v op.
Proof.
  intros [Hs Hr]. unfold ready, next_ready. split; intros [H1 H2]; (split; [|done]); [|lia].
  specialize (H2 (ro_Id op)). lia.
Qed.

Lemma stamped_bounded op : stamped op → bounded op.
Proof. unfold stamped, bounded. lia. Qed.

Lemma waits_not_ready v op : waits v op → ¬ ready v op.
Proof. intros [_ Hw] [_ H]. done. Qed.

Lemma delivers_stale v ops v' q :
  vector_wf v → Forall stamped ops → delivers v ops v' → q ∈ ops → stale v' q.
Proof.
  revert v. induction ops as [|op ops IH]; intros v Hv Hs; cbn [delivers]; [by intros _ ?%elem_of_nil|].
  apply Forall_cons in Hs as [Hso Hs]. intros [Hr Hd].
  pose proof (vector_wf_Increment v (ro_Id op) Hv) as Hv'.
  intros [->|Hq]%elem_of_cons; [|by eapply IH].
  apply stamped_ready in Hr as Hn; [|done]. destruct Hn as [Hg _].
  eapply stale_mono; [eapply delivers_mono; [done| |done]|].
  - eapply Forall_impl; [exact Hs|apply stamped_bounded].
  - unfold stale. rewrite ready_Increment, decide_True; [lia|done..| |done]. by apply stamped_bounded.
Qed.

Lemma Enqueue_causal queue elem vector :
  vector_wf vector → Forall stamped (elem :: oq_queue queue) →
  Forall (λ op, ¬ ready vector op) (oq_queue queue) →
  ∃ result queue' vector' dropped, Enqueue queue elem vector = Ok (result, queue', vector') ∧
    delivers vector result vector' ∧
    elem :: oq_queue queue ≡ₚ result ++ dropped ++ oq_queue queue' ∧
    Forall (stale vector') dropped ∧
    Forall (λ op, ¬ ready vector' op) (oq_queue queue').
Proof.
  intros Hv Hs Hq. pose proof Hs as [Hse Hsq]%Forall_cons.
  destruct (Enqueue_ok queue elem vector Hv) as [[Hn He]|(_ & del & kept & dropped & v' & He & Hd & Hp & Hst & Hw)].
  - apply Hse.
  - eapply Forall_impl; [exact Hs|apply stamped_bounded].
  - rewrite He. exists [], (mkOperationQueue (oq_queue queue ++ [elem]) (oq_vector queue)), vector, [].
    split_and!; [done..| |done|]; simpl; [by rewrite Permutation_cons_append|].
    apply Forall_app. split; [done|]. apply Forall_singleton. by rewrite stamped_ready.
  - rewrite He. exists (elem :: del), (mkOperationQueue kept (oq_vector queue)), v', dropped.
    split_and!; [done..| |done|]; simpl; [by rewrite Hp|].
    eapply Forall_impl; [exact Hw|apply waits_not_ready].
Qed.

(** C8: Causal delivery of operations that are stamped with their causes. When
    each operation carries the vector of what its site had seen ([stamped]: the
    vector's entry of the site is the version before its own; the answers to a
    version check carry none, see [Enqueue_without_vector]), then whatever is
    enqueued, and in whatever order, what [Enqueue] returns is applied in causal
    order, each operation exactly when it is the next of its site and everything
    its site had seen is there; no operation is lost, only those already applied
    are dropped; and nothing that could be applied is left waiting. *)
Theorem Enqueue_delivers queue elem vector :
  vector_wf vector → Forall stamped (elem :: oq_queue queue) →
  Forall (λ op, ¬ ready vector op) (oq_queue queue) →
  ∃ result queue' vector' dropped, Enqueue queue elem vector = Ok (result, queue', vector') ∧
    delivers vector result vector' ∧
    elem :: oq_queue queue ≡ₚ result ++ dropped ++ oq_queue queue' ∧
    Forall (stale vector') dropped ∧
    Forall (λ op, ¬ ready vector' op) (oq_queue queue').
Proof. apply Enqueue_causal. Qed.

(** The second operation of a site waits for the first, and an operation of
    another site for both. *)
Definition sample_vector (a b : Z) : VersionVector :=
  IncrementTo (IncrementTo NewVector (replicate 16 x01) a) (replicate 16 x02) b.
Definition sample_noop : Operation := mkOperation NO_OPERATION [] 0 [] 0 x00.
Definition sample_remote (v : VersionVector) (id : SiteId) (version : Z) : RemoteOperation :=
  mkRemoteOperation v id version sample_noop.
Definition sample_queue : OperationQueue :=
  mkOperationQueue [sample_remote (sample_vector 1 0) (replicate 16 x01) 2;
    sample_remote (sample_vector 2 0) (replicate 16 x02) 1] NewVector.

Lemma Enqueue_delivers_witness :
  let elem := sample_remote NewVector (replicate 16 x01) 1 in
  ∃ result queue' vector' dropped, Enqueue sample_queue elem NewVector = Ok (result, queue', vector') ∧
    delivers NewVector result vector' ∧
    elem :: oq_queue sample_queue ≡ₚ result ++ dropped ++ oq_queue queue' ∧
    Forall (stale vector') dropped ∧
    Forall (λ op, ¬ ready vector' op) (oq_queue queue').
Proof.
  intros elem. apply (Enqueue_delivers sample_queue elem NewVector).
  - apply vector_wf_NewVector.
  - repeat constructor; vm_compute; congruence.
  - repeat constructor; unfold ready; intros [_ H]; specialize (H (replicate 16 x01)); vm_compute in H;
      by apply H.
Defined.

(** An operation sent without its vector, as [GetMissingOperations] sends
    it, is taken from the queue as soon as anything is delivered: the third
    operation of a site is returned before its first and second, and the count
    of its site goes up by one only. *)
Theorem Enqueue_without_vector :
  let queue := mkOperationQueue [sample_remote NewVector (replicate 16 x01) 3] NewVector in
  let elem := sample_remote NewVector (replicate 16 x02) 1 in
  ∃ vector', Enqueue queue elem NewVector =
    Ok ([elem; sample_remote NewVector (replicate 16 x01) 3], mkOperationQueue [] NewVector, vector') ∧
    Get vector' (replicate 16 x01) = 1.
Proof.
  intros queue elem.
  assert (match Enqueue queue elem NewVector with
    | Ok (ops, q, v) => bool_decide (ops = [elem; sample_remote NewVector (replicate 16 x01) 3]) &&
        bool_decide (oq_queue q = []) && bool_decide (oq_vector q = NewVector) &&
        (Get v (replicate 16 x01) =? 1)
    | _ => false end = true) as H by (vm_compute; reflexivity).
  destruct (Enqueue queue elem NewVector) as [[[ops [q qv]] v]| |]; [|discriminate..].
  apply andb_prop in H as [[[H1%bool_decide_eq_true H2%bool_decide_eq_true]%andb_prop
    H3%bool_decide_eq_true]%andb_prop H4%Z.eqb_eq]. simpl in *. subst. by exists v.
Qed.
