(* ===== verification/DocumentModel.v ===== *)
(** The document of a site: its tree document, the text buffer on the screen,
    the log and the queue
    (CPSC418/project/documentmanager/documentmanager.go).

    Every handler holds the lock of the model from start to end, so a handler
    is one step. The goroutine that broadcasts gets a value: the handlers
    return it. The callbacks that only draw are left out. *)
From S2P Require Import Prelude Common Version BufferOp Buffer Treedoc OperationLog OperationQueue.

Open Scope Z_scope.

Record DocumentModel : Type := mkDocumentModel {
  dm_OwnerId : SiteId;
  dm_OpVersion : Z;
  dm_NodeIdClock : Z;
  dm_Treedoc : Document;
  dm_Buffer : Buffer.Buffer;
  dm_Log : OperationLog;
  dm_Queue : OperationQueue;
  dm_BroadcastRemote : bool
}.

Definition NewDocumentModel (id : SiteId) (width : Z) (broadcastRemote : bool) : res DocumentModel :=
  buf ← StringToBuffer [] width;
  Ok (mkDocumentModel id 0 0 NewDocument buf NewLog NewQueue broadcastRemote).

Definition set_text (doc : Document) (buf : Buffer.Buffer) (model : DocumentModel) : DocumentModel :=
  mkDocumentModel (dm_OwnerId model) (dm_OpVersion model) (dm_NodeIdClock model) doc buf
    (dm_Log model) (dm_Queue model) (dm_BroadcastRemote model).
Definition set_log (log : OperationLog) (model : DocumentModel) : DocumentModel :=
  mkDocumentModel (dm_OwnerId model) (dm_OpVersion model) (dm_NodeIdClock model) (dm_Treedoc model)
    (dm_Buffer model) log (dm_Queue model) (dm_BroadcastRemote model).
Definition set_queue (queue : OperationQueue) (model : DocumentModel) : DocumentModel :=
  mkDocumentModel (dm_OwnerId model) (dm_OpVersion model) (dm_NodeIdClock model) (dm_Treedoc model)
    (dm_Buffer model) (dm_Log model) queue (dm_BroadcastRemote model).
Definition set_clocks (opVersion nodeIdClock : Z) (model : DocumentModel) : DocumentModel :=
  mkDocumentModel (dm_OwnerId model) opVersion nodeIdClock (dm_Treedoc model)
    (dm_Buffer model) (dm_Log model) (dm_Queue model) (dm_BroadcastRemote model).

(** The explicit panic is the one of the code. *)
Definition AssertEqual (model : DocumentModel) : res unit :=
  b ← Buffer.ToString (dm_Buffer model);
  d ← DocToString (dm_Treedoc model);
  if decide (b = d) then Ok () else Panic ExplicitPanic.

(** The common end of the local handlers: the operation is numbered, logged
    and handed to the broadcaster. *)
Definition log_local (operation : Operation) (model : DocumentModel)
    : res (DocumentModel * option RemoteOperation) :=
  let model := set_clocks (wrap32 (dm_OpVersion model + 1)) (dm_NodeIdClock model) model in
  let vector := Version.Copy (lg_Vector (dm_Log model)) in
  let model := set_log (Write (dm_Log model) (dm_OwnerId model) (dm_OpVersion model) operation) model in
  _ ← AssertEqual model;
  Ok (model,
      if dm_BroadcastRemote model
      then Some (mkRemoteOperation vector (dm_OwnerId model) (dm_OpVersion model) operation)
      else None).

Definition LocalInsert (model : DocumentModel) (atom : byte)
    : res (DocumentModel * option RemoteOperation) :=
  let pos := GetPosition (dm_Buffer model) in
  buf ← InsertAtCurrent (dm_Buffer model) atom;
  let id := NewNodeId (dm_OwnerId model) (dm_NodeIdClock model) in
  '(doc, operation) ← InsertPos (dm_Treedoc model) id pos atom;
  let model := set_text doc buf model in
  let model :=
    match op_Type operation with
    | INSERT_NEW | INSERT_ROOT => set_clocks (dm_OpVersion model) (wrap32 (dm_NodeIdClock model + 1)) model
    | _ => model
    end in
  log_local operation model.

Definition LocalBackspace (model : DocumentModel) : res (DocumentModel * option RemoteOperation) :=
  let pos := GetPosition (dm_Buffer model) - 1 in
  if pos <? 0 then Ok (model, None)
  else
    buf ← BackspaceAtCurrent (dm_Buffer model);
    '(doc, operation) ← DeletePos (dm_Treedoc model) pos;
    log_local operation (set_text doc buf model).

Definition LocalDelete (model : DocumentModel) : res (DocumentModel * option RemoteOperation) :=
  let pos := GetPosition (dm_Buffer model) in
  if pos >=? GetSize (dm_Buffer model) then Ok (model, None)
  else
    buf ← DeleteAtCurrent (dm_Buffer model);
    '(doc, operation) ← DeletePos (dm_Treedoc model) pos;
    log_local operation (set_text doc buf model).

(** The body of the loop over the operations that can be applied. *)
Definition apply_remote (model : DocumentModel) (queueOp : RemoteOperation) : res DocumentModel :=
  '(doc, bufOp) ← Treedoc.ApplyOperation (dm_Treedoc model) (ro_Op queueOp);
  buf ← Buffer.ApplyOperation (dm_Buffer model) bufOp;
  let model := set_text doc buf model in
  let model :=
    set_log (Write (dm_Log model) (ro_Id queueOp) (ro_Version queueOp) (ro_Op queueOp)) model in
  _ ← AssertEqual model;
  Ok model.

Definition ApplyRemoteOperation (model : DocumentModel) (op : RemoteOperation) : res DocumentModel :=
  '(queueOps, queue, _) ← Enqueue (dm_Queue model) op (Version.Copy (lg_Vector (dm_Log model)));
  foldM apply_remote (set_queue queue model) queueOps.

Definition GetVersionVectorReceived (model : DocumentModel) : VersionVector :=
  Merge (Version.Copy (lg_Vector (dm_Log model))) (oq_vector (dm_Queue model)).

Definition GetMissingOperations (model : DocumentModel) (vector : VersionVector)
    : res (list RemoteOperation * list RemoteOperation) :=
  let myVec := GetVersionVectorReceived model in
  match Version.Compare myVec vector with
  | GREATER_THAN | CONFLICT =>
      ops ← log_GetMissingOperations (dm_Log model) vector;
      Ok (ops, queue_GetMissingOperations (dm_Queue model) vector)
  | _ => Ok ([], [])
  end.
