(* ===== verification/DocumentProps.v ===== *)
(** The document of a site: the handlers keep the text on the screen equal to
    the tree document, log what they did and stamp what they broadcast. *)
From S2P Require Import Prelude Common Version BufferOp Buffer BufferWords BufferLayout BufferSpec BufferProps BufferPartial Treedoc TreedocInv TreedocWf TreedocRemote TreedocSpec TreedocConv TreedocLocal TreedocInsert TreedocCausal OperationLog OperationQueue DocumentModel.

Open Scope Z_scope.

(** The text is what the tree document says and what the lines hold; nothing
    is said of the cursor. *)
Record model_inv (text : list byte) (m : DocumentModel) : Prop := {
  mi_wf : wf (dm_Treedoc m);
  mi_text : dstr (dm_Treedoc m) = text;
  mi_lines : lines_ok text (dm_Buffer m);
  mi_vector : vector_wf (lg_Vector (dm_Log m))
}.

(** The cursor is in the text as well. *)
Definition model_ok (text : list byte) (m : DocumentModel) : Prop :=
  model_inv text m ∧ buf_ok text (dm_Buffer m).

Lemma ToString_lines text buf : lines_ok text buf → Buffer.ToString buf = Ok text.
Proof. apply ToString_ok. Qed.

Lemma AssertEqual_ok m :
  wf (dm_Treedoc m) → lines_ok (dstr (dm_Treedoc m)) (dm_Buffer m) → AssertEqual m = Ok ().
Proof.
  intros W Hb. unfold AssertEqual. rewrite (ToString_lines _ _ Hb), bind_Ok, (DocToString_dstr _ W), bind_Ok.
  by rewrite decide_True.
Qed.

Lemma AssertEqual_back text m :
  wf (dm_Treedoc m) → lines_ok text (dm_Buffer m) → AssertEqual m = Ok () →
  text = dstr (dm_Treedoc m).
Proof.
  intros W Hb. unfold AssertEqual.
  rewrite (ToString_lines _ _ Hb), bind_Ok, (DocToString_dstr _ W), bind_Ok. by case_decide.
Qed.

(** ** One local operation *)

(** What a local handler did: the operation is valid, the document has its
    effect, it is numbered, logged and broadcast with the vector before it. *)
Record local_op (m m' : DocumentModel) (op : Operation) (b : option RemoteOperation) : Prop := {
  lo_ok : op_ok (dm_Treedoc m) op;
  lo_effect : effect (dm_Treedoc m) op (dm_Treedoc m');
  lo_owner : dm_OwnerId m' = dm_OwnerId m;
  lo_queue : dm_Queue m' = dm_Queue m;
  lo_broadcasts : dm_BroadcastRemote m' = dm_BroadcastRemote m;
  lo_version : dm_OpVersion m' = wrap32 (dm_OpVersion m + 1);
  lo_clock : dm_NodeIdClock m' =
    match op_Type op with
    | INSERT_NEW | INSERT_ROOT => wrap32 (dm_NodeIdClock m + 1)
    | _ => dm_NodeIdClock m
    end;
  lo_log : dm_Log m' = Write (dm_Log m) (dm_OwnerId m) (dm_OpVersion m') op;
  lo_message : b = if dm_BroadcastRemote m
    then Some (mkRemoteOperation (lg_Vector (dm_Log m)) (dm_OwnerId m) (dm_OpVersion m') op) else None;
  lo_own : own_insert (NewNodeId (dm_OwnerId m) (dm_NodeIdClock m)) op ∨ op_Type op = DELETE;
  lo_inv : model_inv (dstr (dm_Treedoc m')) m'
}.

(** [log_local] after the document and the buffer have been changed. *)
Lemma log_local_back m text doc buf op m' b :
  let m1 := set_text doc buf m in
  let m2 := match op_Type op with
    | INSERT_NEW | INSERT_ROOT => set_clocks (dm_OpVersion m1) (wrap32 (dm_NodeIdClock m1 + 1)) m1
    | _ => m1
    end in
  vector_wf (lg_Vector (dm_Log m)) → op_ok (dm_Treedoc m) op → effect (dm_Treedoc m) op doc →
  wf doc → lines_ok text buf →
  own_insert (NewNodeId (dm_OwnerId m) (dm_NodeIdClock m)) op ∨ op_Type op = DELETE →
  log_local op m2 = Ok (m', b) → local_op m m' op b ∧ text = dstr doc ∧ dm_Treedoc m' = doc ∧ dm_Buffer m' = buf.
Proof.
  intros m1 m2 Hv Hok He W Hl Hown H. unfold log_local in H. rewrite Copy_eq in H.
  apply bind_Ok_inv in H as ([] & Ha & H).
  assert (dm_Treedoc m2 = doc ∧ dm_Buffer m2 = buf ∧ dm_OwnerId m2 = dm_OwnerId m ∧
    dm_Queue m2 = dm_Queue m ∧ dm_Log m2 = dm_Log m ∧ dm_OpVersion m2 = dm_OpVersion m ∧
    dm_BroadcastRemote m2 = dm_BroadcastRemote m ∧ dm_NodeIdClock m2 = match op_Type op with
    | INSERT_NEW | INSERT_ROOT => wrap32 (dm_NodeIdClock m + 1) | _ => dm_NodeIdClock m end)
    as (E1 & E2 & E3 & E4 & E5 & E6 & E7 & E8) by (unfold m2; by destruct (op_Type op)).
  clearbody m2. injection H as <- <-. subst m1.
  assert (text = dstr doc) as ->.
  { erewrite <-E1. eapply AssertEqual_back; [| |exact Ha]; simpl; by rewrite ?E1, ?E2. }
  split; [|by simpl]. split; simpl; rewrite ?E1, ?E2, ?E3, ?E5, ?E6, ?E7; try done.
  split; simpl; rewrite ?E1, ?E2; try done. apply vector_wf_IncrementTo; [done|apply wrap32_range].
Qed.

(** Deletions do not touch the clock. *)
Lemma log_local_delete m text doc buf op m' b :
  op_Type op = DELETE →
  vector_wf (lg_Vector (dm_Log m)) → op_ok (dm_Treedoc m) op → effect (dm_Treedoc m) op doc →
  wf doc → lines_ok text buf → log_local op (set_text doc buf m) = Ok (m', b) →
  local_op m m' op b ∧ text = dstr doc ∧ dm_Treedoc m' = doc ∧ dm_Buffer m' = buf.
Proof.
  intros Hty Hv Hok He W Hl H. eapply log_local_back; eauto. by rewrite Hty.
Qed.

Lemma LocalInsert_back text m ch m' b :
  model_inv text m → dc_Nodes (dm_Treedoc m) !! NewNodeId (dm_OwnerId m) (dm_NodeIdClock m) = None →
  LocalInsert m ch = Ok (m', b) → ∃ op, local_op m m' op b.
Proof.
  intros [W Ht Hl Hv] Hf H. unfold LocalInsert in H.
  apply bind_Ok_inv in H as (buf & Hi & H).
  destruct (Insert_back text _ _ _ _ Hl (or_introl Hi)) as (Hpos & Hl' & _).
  apply bind_Ok_inv in H as ([doc op] & Hp & H).
  unfold GetPosition in Hp. pose proof (dc_Size_zlen _ W) as Hz.
  destruct (InsertPos_ok (dm_Treedoc m) (NewNodeId (dm_OwnerId m) (dm_NodeIdClock m))
    (bf_currentPosition (dm_Buffer m)) ch W Hf) as (doc2 & op2 & pos & Hp2 & [Lok Lw _ _ Llk Lsl] & _).
  { rewrite Hz, Ht. exact Hpos. }
  pose proof (InsertPos_own _ _ _ _ _ _ Hp) as Hown. rewrite Hp in Hp2. injection Hp2 as <- <-.
  eapply log_local_back in H as (? & _); eauto. by split.
Qed.

Lemma local_delete_back text m pos m' b r :
  model_inv text m → r = Buffer.Delete (dm_Buffer m) pos →
  (buf ← r;
   '(doc, operation) ← DeletePos (dm_Treedoc m) pos;
   log_local operation (set_text doc buf m)) = Ok (m', b) → ∃ op, local_op m m' op b.
Proof.
  intros [W Ht Hl Hv] -> H. apply bind_Ok_inv in H as (buf & Hd & H).
  pose proof (Delete_nonneg _ _ _ Hd) as Hpos.
  apply bind_Ok_inv in H as ([doc op] & Hp & H).
  pose proof (DeletePos_range _ _ _ W Hp) as Hlt. pose proof (dc_Size_zlen _ W) as Hz.
  destruct (DeletePos_ok (dm_Treedoc m) pos W) as (doc2 & op2 & Hp2 & Hty & Hok & _ & Hap); [done|].
  rewrite Hp in Hp2. injection Hp2 as <- <-.
  assert (0 ≤ pos < zlen text) as Hr by (rewrite <-Ht, <-Hz; done).
  destruct (Delete_back _ _ _ _ Hl Hr Hd) as (_ & Hl' & _).
  eapply log_local_delete in H as (? & _); eauto; [by eapply applied_effect|apply Hap].
Qed.

Lemma LocalBackspace_back text m m' b :
  model_inv text m → LocalBackspace m = Ok (m', b) →
  (m' = m ∧ b = None) ∨ ∃ op, local_op m m' op b.
Proof.
  intros Hm H. unfold LocalBackspace, GetPosition in H.
  destruct (Z.ltb_spec (bf_currentPosition (dm_Buffer m) - 1) 0); [left; by injection H as <- <-|right].
  eapply local_delete_back; [done|reflexivity|].
  rewrite <-H. unfold BackspaceAtCurrent. by rewrite (proj2 (Z.gtb_lt _ _)) by lia.
Qed.

Lemma LocalDelete_back text m m' b :
  model_inv text m → LocalDelete m = Ok (m', b) →
  (m' = m ∧ b = None) ∨ ∃ op, local_op m m' op b.
Proof.
  intros Hm H. unfold LocalDelete, GetPosition, GetSize in H.
  destruct (bf_currentPosition (dm_Buffer m) >=? bf_numberOfChars (dm_Buffer m)) eqn:Hc;
    [left; by injection H as <- <-|right].
  unfold DeleteAtCurrent in H. destruct (bf_numberOfChars (dm_Buffer m) >? 0) eqn:Hn.
  { eapply local_delete_back; [done|reflexivity|exact H]. }
  exfalso. destruct Hm as [W Ht Hl _]. rewrite (DeletePos_empty _ _ W) in H; [done|].
  rewrite Ht. apply zlen_zero. rewrite <-(bk_chars _ _ Hl). pose proof (zlen_nonneg text).
  rewrite <-(bk_chars _ _ Hl) in *. lia.
Qed.

(** ** One remote operation *)

Record remote_op (m m' : DocumentModel) (q : RemoteOperation) : Prop := {
  rm_ok : op_ok (dm_Treedoc m) (ro_Op q);
  rm_effect : effect (dm_Treedoc m) (ro_Op q) (dm_Treedoc m');
  rm_owner : dm_OwnerId m' = dm_OwnerId m;
  rm_version : dm_OpVersion m' = dm_OpVersion m;
  rm_clock : dm_NodeIdClock m' = dm_NodeIdClock m;
  rm_queue : dm_Queue m' = dm_Queue m;
  rm_broadcasts : dm_BroadcastRemote m' = dm_BroadcastRemote m;
  rm_log : dm_Log m' = Write (dm_Log m) (ro_Id q) (ro_Version q) (ro_Op q);
  rm_inv : model_inv (dstr (dm_Treedoc m')) m'
}.

Lemma apply_remote_back text m q m' :
  model_inv text m → op_ok (dm_Treedoc m) (ro_Op q) → bounded q →
  apply_remote m q = Ok m' → remote_op m m' q.
Proof.
  intros [W Ht Hl Hv] Hok Hb H.
  destruct (ApplyOperation_applied _ _ W Hok) as (doc' & bop & Ha & Hap).
  unfold apply_remote in H. rewrite Ha, bind_Ok in H. apply bind_Ok_inv in H as (buf & Hbuf & H).
  apply bind_Ok_inv in H as ([] & _ & H). injection H as <-.
  assert (edit_in_range bop text) as Hr by (rewrite <-Ht; apply Hap).
  destruct (ApplyOperation_back _ _ _ _ Hl Hr Hbuf) as [Hl' _].
  split; try done; [by eapply applied_effect|]. split; simpl; [apply Hap|done| |].
  - by rewrite (ap_text _ _ _ _ Hap), Ht.
  - by apply vector_wf_IncrementTo.
Qed.

(** ** The handlers return *)

Lemma log_local_ok m doc buf op :
  wf doc → lines_ok (dstr doc) buf → dm_Treedoc m = doc → dm_Buffer m = buf →
  ∃ b, log_local op m = Ok (set_log (Write (dm_Log m) (dm_OwnerId m) (wrap32 (dm_OpVersion m + 1)) op)
    (set_clocks (wrap32 (dm_OpVersion m + 1)) (dm_NodeIdClock m) m), b).
Proof.
  intros W Hl Hd Hb. unfold log_local. rewrite AssertEqual_ok; simpl; rewrite ?Hd, ?Hb; [|done..].
  by eexists.
Qed.

(** The assertion after a local insertion: it holds when the character is at
    the same place on the screen and in the tree document, and panics if not. *)
Lemma log_local_panics m doc buf text op :
  wf doc → lines_ok text buf → dm_Treedoc m = doc → dm_Buffer m = buf → text ≠ dstr doc →
  log_local op m = Panic ExplicitPanic.
Proof.
  intros W Hl Hd Hb Hne. unfold log_local, AssertEqual. cbn [dm_Buffer dm_Treedoc set_log set_clocks].
  rewrite Hd, Hb, (ToString_lines _ _ Hl), bind_Ok, (DocToString_dstr _ W), bind_Ok. by rewrite decide_False.
Qed.

(** C9: Typing a character, with the cursor in the text and an identifier that
    is not used yet. The handler returns, the character is at the cursor both
    on the screen and in the tree document, the cursor is behind it, and the
    operation is logged and broadcast with the next version and the vector of
    what the site had seen. Only when a slot of the site can be reused, the
    handler may panic instead (the assertion that screen and document agree;
    [LocalInsert_panics_on_reuse] is such a case). *)
Theorem LocalInsert_inserts text m ch :
  model_ok text m → let id := NewNodeId (dm_OwnerId m) (dm_NodeIdClock m) in
  dc_Nodes (dm_Treedoc m) !! id = None →
  let pos := GetPosition (dm_Buffer m) in
  (∃ m' op b, LocalInsert m ch = Ok (m', b) ∧ model_ok (text_insert pos ch text) m' ∧
    GetPosition (dm_Buffer m') = pos + 1 ∧ op_ok (dm_Treedoc m) op ∧
    dm_OpVersion m' = wrap32 (dm_OpVersion m + 1) ∧
    dm_Log m' = Write (dm_Log m) (dm_OwnerId m) (dm_OpVersion m') op ∧
    b = if dm_BroadcastRemote m
        then Some (mkRemoteOperation (lg_Vector (dm_Log m)) (dm_OwnerId m) (dm_OpVersion m') op)
        else None) ∨
  (¬ no_hole (dm_Treedoc m) id ∧ LocalInsert m ch = Panic ExplicitPanic).
Proof.
  intros [Hinv Hbuf] id Hf pos. pose proof Hinv as [W Ht Hl Hv].
  pose proof (buf_ok_position _ _ Hbuf) as Hpos. fold (GetPosition (dm_Buffer m)) in Hpos. fold pos in Hpos.
  destruct (buf_Insert_ok text (dm_Buffer m) pos ch Hbuf Hpos) as (buf & Hi & Hbuf' & _ & Hcur).
  destruct (InsertPos_ok (dm_Treedoc m) id pos ch W Hf) as (doc & op & pos' & Hp & Hli & Hpl).
  { by rewrite (dc_Size_zlen _ W), Ht. }
  pose proof (li_wf _ _ _ _ _ Hli) as Wd. pose proof (li_text _ _ _ _ _ Hli) as Htext. rewrite Ht in Htext.
  assert (∃ m2, LocalInsert m ch = log_local op m2 ∧ dm_Treedoc m2 = doc ∧ dm_Buffer m2 = buf) as (m2 & HL & Hd2 & Hb2).
  { unfold LocalInsert, InsertAtCurrent. change (bf_currentPosition (dm_Buffer m)) with pos.
    rewrite Hi, bind_Ok. fold id. change (GetPosition (dm_Buffer m)) with pos. rewrite Hp, bind_Ok.
    eexists. split; [reflexivity|]. by destruct (op_Type op). }
  destruct (decide (text_insert pos ch text = dstr doc)) as [Hd|Hd].
  - left. destruct (log_local_ok m2 doc buf op Wd) as [b Hb]; [rewrite <-Hd; apply Hbuf'|done..|].
    rewrite Hb in HL. destruct (LocalInsert_back text m ch _ b Hinv Hf HL) as (op2 & [L1 _ _ _ _ L6 _ L8 L9 _ L11]).
    cbn [dm_Treedoc set_log set_clocks] in L11. rewrite Hd2, <-Hd in L11.
    eexists _, op2, b. split_and!; [exact HL|split; [exact L11|by cbn; rewrite Hb2]| |done..].
    unfold GetPosition. cbn [dm_Buffer set_log set_clocks]. rewrite Hb2, Hcur. unfold pos, GetPosition. by rewrite Z.leb_refl.
  - right. split; [|rewrite HL; by apply (log_local_panics m2 doc buf (text_insert pos ch text)); [|apply Hbuf'|..]].
    intros Hno. destruct Hpl as [->|(_ & l & nd & k & Hnd & Hh)]; [|by destruct (Hno l nd k)].
    by destruct Hd.
Qed.

Definition deletion_logged (m m' : DocumentModel) : Prop :=
  ∃ op, op_Type op = DELETE ∧ op_ok (dm_Treedoc m) op ∧
    dm_Log m' = Write (dm_Log m) (dm_OwnerId m) (dm_OpVersion m') op.

Lemma local_delete_ok text m pos :
  model_ok text m → 0 ≤ pos < zlen text → delete_safe (dm_Buffer m) pos →
  ∃ m' b, (buf ← Buffer.Delete (dm_Buffer m) pos;
     '(doc, operation) ← DeletePos (dm_Treedoc m) pos;
     log_local operation (set_text doc buf m)) = Ok (m', b) ∧
    model_ok (text_delete pos text) m' ∧
    GetPosition (dm_Buffer m') = (if pos <? GetPosition (dm_Buffer m)
      then GetPosition (dm_Buffer m) - 1 else GetPosition (dm_Buffer m)) ∧
    deletion_logged m m'.
Proof.
  intros [Hinv Hbuf] Hpos Hs. pose proof Hinv as [W Ht Hl Hv].
  destruct (buf_Delete_ok text (dm_Buffer m) pos Hbuf Hpos Hs) as (buf & Hd & Hbuf' & _ & Hcur).
  destruct (DeletePos_ok (dm_Treedoc m) pos W) as (doc & op & Hp & Hty & Hok & _ & Hap).
  { by rewrite (dc_Size_zlen _ W), Ht. }
  assert (dstr doc = text_delete pos text) as Hdt by (by rewrite (ap_text _ _ _ _ Hap), Ht).
  destruct (log_local_ok (set_text doc buf m) doc buf op (ap_wf _ _ _ _ Hap)) as [b HL];
    [rewrite Hdt; apply Hbuf'|done..|].
  rewrite Hd, bind_Ok, Hp, bind_Ok, HL. eexists _, b. split; [reflexivity|].
  destruct (log_local_delete m (text_delete pos text) doc buf op _ b Hty Hv Hok
    (applied_effect _ _ _ _ Hap) (ap_wf _ _ _ _ Hap) (proj1 Hbuf') HL) as ([_ _ _ _ _ _ _ _ _ _ L11] & _ & E1 & E2).
  rewrite E1, Hdt in L11. split_and!; [split; [exact L11|by rewrite E2]|exact Hcur|].
  by exists op.
Qed.

(** A deletion returns exactly when the buffer survives it, and then it is as
    it should be. *)
Definition deletes (text : list byte) (m : DocumentModel) (pos : Z)
    (r : res (DocumentModel * option RemoteOperation)) : Prop :=
  (delete_safe (dm_Buffer m) pos ↔ ∃ m' b, r = Ok (m', b)) ∧
  ∀ m' b, r = Ok (m', b) →
    model_ok (text_delete pos text) m' ∧
    GetPosition (dm_Buffer m') = (if pos <? GetPosition (dm_Buffer m)
      then GetPosition (dm_Buffer m) - 1 else GetPosition (dm_Buffer m)) ∧
    deletion_logged m m'.

Lemma local_deletes text m pos :
  model_ok text m → 0 ≤ pos < zlen text →
  deletes text m pos (buf ← Buffer.Delete (dm_Buffer m) pos;
     '(doc, operation) ← DeletePos (dm_Treedoc m) pos;
     log_local operation (set_text doc buf m)).
Proof.
  intros Hm Hpos. pose proof Hm as [[_ _ Hl _] _].
  assert (∀ m' b, (buf ← Buffer.Delete (dm_Buffer m) pos;
     '(doc, operation) ← DeletePos (dm_Treedoc m) pos;
     log_local operation (set_text doc buf m)) = Ok (m', b) → delete_safe (dm_Buffer m) pos) as Hback.
  { intros m' b H. apply bind_Ok_inv in H as (buf & Hd & _). by apply (Delete_back text) in Hd as (? & _). }
  split.
  - split; [|by intros (m' & b & ?%Hback)]. intros Hs.
    destruct (local_delete_ok text m pos Hm Hpos Hs) as (m' & b & H & _). by exists m', b.
  - intros m' b H. destruct (local_delete_ok text m pos Hm Hpos (Hback _ _ H)) as (m1 & b1 & H1 & Hok).
    rewrite H in H1. by injection H1 as <- <-.
Qed.

(** C10: Backspace and delete, with the cursor in the text. At the start (at
    the end) of the text they do nothing. Elsewhere they return exactly when
    the buffer survives the deletion, that is, when it does not empty a line
    after a line that ends with a word (on such a line they panic); then the
    character before (after) the cursor is removed from the screen and from the
    tree document, the cursor moves with its text, and one operation is
    logged. *)
Theorem LocalDelete_deletes text m :
  model_ok text m → let pos := GetPosition (dm_Buffer m) in
  (pos = 0 → LocalBackspace m = Ok (m, None)) ∧
  (0 < pos → deletes text m (pos - 1) (LocalBackspace m)) ∧
  (pos = zlen text → LocalDelete m = Ok (m, None)) ∧
  (pos < zlen text → deletes text m pos (LocalDelete m)).
Proof.
  intros Hm pos. pose proof Hm as [_ Hbuf]. pose proof (buf_ok_position _ _ Hbuf) as Hr.
  fold (GetPosition (dm_Buffer m)) in Hr. fold pos in Hr.
  pose proof (bk_chars _ _ (proj1 Hbuf)) as Hchars.
  unfold LocalBackspace, LocalDelete, BackspaceAtCurrent, DeleteAtCurrent, GetSize. rewrite Hchars.
  change (bf_currentPosition (dm_Buffer m)) with pos. fold pos. split_and!.
  - intros ->. done.
  - intros Hp. rewrite (proj2 (Z.ltb_ge _ _)), (proj2 (Z.gtb_lt _ _)) by lia. apply local_deletes; [done|lia].
  - intros ->. by rewrite (proj2 (Z.geb_le _ _)) by lia.
  - intros Hp. assert ((pos >=? zlen text) = false) as -> by (destruct (pos >=? zlen text) eqn:E; lia).
    rewrite (proj2 (Z.gtb_lt _ _)) by lia. apply local_deletes; [done|lia].
Qed.

(** Applying one remote operation whose causes are there: the handler's
    loop body returns, the screen shows the edit the tree document reported,
    the cursor stays with its text, and the operation is logged. *)
Theorem apply_remote_edits text m q :
  model_ok text m → op_ok (dm_Treedoc m) (ro_Op q) → ro_Version q < w32 →
  (∀ doc bop, Treedoc.ApplyOperation (dm_Treedoc m) (ro_Op q) = Ok (doc, bop) → op_safe (dm_Buffer m) bop) →
  ∃ m' doc bop, apply_remote m q = Ok m' ∧
    Treedoc.ApplyOperation (dm_Treedoc m) (ro_Op q) = Ok (doc, bop) ∧
    model_ok (edit bop text) m' ∧
    GetPosition (dm_Buffer m') = cursor_after bop (GetPosition (dm_Buffer m)) ∧
    dm_Log m' = Write (dm_Log m) (ro_Id q) (ro_Version q) (ro_Op q).
Proof.
  intros [Hinv Hbuf] Hok Hv Hs. pose proof Hinv as [W Ht Hl _].
  destruct (ApplyOperation_applied _ _ W Hok) as (doc & bop & Ha & Hap).
  assert (edit_in_range bop text) as Hr by (rewrite <-Ht; apply Hap).
  destruct (ApplyOperation_ok text (dm_Buffer m) bop Hbuf Hr) as (buf & Hb & Hbuf' & _ & Hcur); [by eapply Hs|].
  assert (dstr doc = edit bop text) as Hd by (by rewrite (ap_text _ _ _ _ Hap), Ht).
  assert (∃ m', apply_remote m q = Ok m' ∧ dm_Treedoc m' = doc ∧ dm_Buffer m' = buf) as (m' & HA & E1 & E2).
  { unfold apply_remote. rewrite Ha, bind_Ok, Hb, bind_Ok, AssertEqual_ok; simpl; [by eexists|apply Hap|].
    rewrite Hd. apply Hbuf'. }
  destruct (apply_remote_back text m q m' Hinv Hok Hv HA) as [_ _ _ _ _ _ _ R8 R9].
  rewrite E1, Hd in R9. exists m', doc, bop. rewrite E2. split_and!; try done. split; [done|]. by rewrite E2.
Qed.

(** ** Where they do not *)

(** Two sites. The first types [a]; the second gets it, appends [b] and
    deletes it again; the first gets both operations. *)
Definition run_insert (r : res (DocumentModel * list RemoteOperation)) (ch : byte)
    : res (DocumentModel * list RemoteOperation) :=
  '(m, sent) ← r; '(m, b) ← LocalInsert m ch; Ok (m, sent ++ option_list b).
Definition run_backspace (r : res (DocumentModel * list RemoteOperation))
    : res (DocumentModel * list RemoteOperation) :=
  '(m, sent) ← r; '(m, b) ← LocalBackspace m; Ok (m, sent ++ option_list b).
Definition run_receive (r : res (DocumentModel * list RemoteOperation)) (ops : list RemoteOperation)
    : res (DocumentModel * list RemoteOperation) :=
  '(m, sent) ← r; m ← foldM ApplyRemoteOperation m ops; Ok (m, sent).
Definition run_new (b : byte) (width : Z) : res (DocumentModel * list RemoteOperation) :=
  m ← NewDocumentModel (replicate 16 b) width true; Ok (m, []).
Definition run_move (move : Buffer.Buffer → res Buffer.Buffer)
    (r : res (DocumentModel * list RemoteOperation)) : res (DocumentModel * list RemoteOperation) :=
  '(m, sent) ← r; buf ← move (dm_Buffer m); Ok (set_text (dm_Treedoc m) buf m, sent).

Definition sent_by (r : res (DocumentModel * list RemoteOperation)) : list RemoteOperation :=
  match r with Ok (_, sent) => sent | _ => [] end.

Definition first_a := run_insert (run_new x01 8) x61.
Definition second_ab :=
  run_backspace (run_insert (run_move MoveRight (run_receive (run_new x02 8) (sent_by first_a))) x62).
Definition first_back := run_move MoveLeft (run_receive first_a (sent_by second_ab)).

(** The slot reuse of [InsertPos] reaches the user: the first site has [a]
    on the screen and the cursor before it, and typing [x] there makes the
    text on the screen differ from the tree document, which panics. *)
Theorem LocalInsert_panics_on_reuse :
  ∃ m sent, first_back = Ok (m, sent) ∧ Buffer.ToString (dm_Buffer m) = Ok [x61] ∧
    DocToString (dm_Treedoc m) = Ok [x61] ∧ GetPosition (dm_Buffer m) = 0 ∧
    LocalInsert m x78 = Panic ExplicitPanic.
Proof.
  assert (match first_back with
    | Ok (m, _) => bool_decide (Buffer.ToString (dm_Buffer m) = Ok [x61]) &&
        bool_decide (DocToString (dm_Treedoc m) = Ok [x61]) && (GetPosition (dm_Buffer m) =? 0) &&
        match LocalInsert m x78 with Panic ExplicitPanic => true | _ => false end
    | _ => false end = true) as H by (vm_compute; reflexivity).
  destruct first_back as [[m sent]| |]; [|discriminate..]. exists m, sent.
  apply andb_prop in H as [[[H1%bool_decide_eq_true H2%bool_decide_eq_true]%andb_prop H3%Z.eqb_eq]%andb_prop H4].
  split_and!; try done. destruct (LocalInsert m x78) as [|[]|]; done.
Qed.

(** ** A sample site *)

Definition sample_text : list byte :=
  match DocToString sample_doc with Ok s => s | _ => [] end.
Definition sample_model : DocumentModel :=
  mkDocumentModel (replicate 16 x01) 3 2 sample_doc
    (match StringToBuffer sample_text 8 with
     | Ok buf => match SetPosition buf 1 with Ok buf => buf | _ => buf end
     | _ => mkBuffer 0 0 0 [] 0 0 0 0
     end) NewLog NewQueue true.

Lemma sample_model_ok : model_ok sample_text sample_model.
Proof.
  assert (buf_ok sample_text (dm_Buffer sample_model)) as Hb.
  { cbn [dm_Buffer sample_model].
    destruct (StringToBuffer_ok sample_text 8) as (buf & -> & Hok & Hw & _); [lia|].
    destruct (SetPosition_ok sample_text buf 1) as (y & x & -> & Hc);
      [apply Hok|vm_compute; split; congruence|].
    split; [apply lines_ok_cursor, Hok|exact Hc]. }
  split; [|exact Hb]. split; [exact wf_sample_doc| |apply Hb|apply vector_wf_NewVector].
  pose proof (DocToString_dstr _ wf_sample_doc) as H. cbn [dm_Treedoc sample_model].
  unfold sample_text. by rewrite H.
Qed.

Lemma LocalInsert_inserts_witness :
  ∃ m' op b, LocalInsert sample_model x78 = Ok (m', b) ∧ model_ok (text_insert 1 x78 sample_text) m' ∧
    GetPosition (dm_Buffer m') = 2 ∧ op_ok (dm_Treedoc sample_model) op ∧
    dm_OpVersion m' = 4 ∧
    dm_Log m' = Write (dm_Log sample_model) (dm_OwnerId sample_model) (dm_OpVersion m') op ∧
    b = Some (mkRemoteOperation (lg_Vector (dm_Log sample_model)) (dm_OwnerId sample_model) (dm_OpVersion m') op).
Proof.
  destruct (LocalInsert_inserts sample_text sample_model x78 sample_model_ok) as [H|[H _]].
  - vm_compute. reflexivity.
  - exact H.
  - destruct H. apply no_holeb_ok. vm_compute. reflexivity.
Defined.

Lemma LocalDelete_deletes_witness :
  (GetPosition (dm_Buffer sample_model) = 0 → LocalBackspace sample_model = Ok (sample_model, None)) ∧
  ∃ m' b, LocalBackspace sample_model = Ok (m', b) ∧ model_ok (text_delete 0 sample_text) m' ∧
    GetPosition (dm_Buffer m') = 0 ∧ deletion_logged sample_model m'.
Proof.
  destruct (LocalDelete_deletes sample_text sample_model sample_model_ok) as (H0 & H & _).
  split; [exact H0|]. destruct H as [Hiff Hdel]; [vm_compute; reflexivity|].
  destruct (proj1 Hiff) as (m' & b & HL).
  - intros y prev line _ Hl. change (bf_lines (dm_Buffer sample_model)) with [sample_text ++ [char_newline]] in Hl.
    destruct y; discriminate Hl.
  - exists m', b. split; [exact HL|]. exact (Hdel m' b HL).
Defined.

Lemma apply_remote_edits_witness :
  let q := mkRemoteOperation NewVector (replicate 16 x02) 1 (root_op (sample_id x02 9) 0 x7a) in
  ∃ m' doc bop, apply_remote sample_model q = Ok m' ∧
    Treedoc.ApplyOperation (dm_Treedoc sample_model) (ro_Op q) = Ok (doc, bop) ∧
    model_ok (edit bop sample_text) m' ∧
    GetPosition (dm_Buffer m') = cursor_after bop (GetPosition (dm_Buffer sample_model)) ∧
    dm_Log m' = Write (dm_Log sample_model) (ro_Id q) (ro_Version q) (ro_Op q).
Proof.
  intros q. apply (apply_remote_edits sample_text sample_model q sample_model_ok).
  - apply op_ok_root; [vm_compute; reflexivity|vm_compute; split; congruence].
  - reflexivity.
  - intros doc bop Ha Hty. exfalso.
    assert (match Treedoc.ApplyOperation (dm_Treedoc sample_model) (ro_Op q) with
      Ok (_, b) => bool_decide (bo_Type b = BufferOp.DELETE) | _ => false end = false) as Hb
      by (vm_compute; reflexivity).
    rewrite Ha in Hb. by rewrite bool_decide_eq_true_2 in Hb.
Defined.
