(* ===== verification/DocumentSync.v ===== *)
(** What a site sends to one that was away
    (CPSC418/project/documentmanager, [GetMissingOperations]). *)
From S2P Require Import Prelude Common Version Buffer Treedoc OperationLog OperationQueue DocumentModel.

Open Scope Z_scope.

(** Every logged operation is counted by the vector of the log. *)
Definition log_counted (log : OperationLog) : Prop :=
  ∀ e, e ∈ lg_Log log → le_Version e ≤ Get (lg_Vector log) (le_Id e).

Lemma log_counted_NewLog : log_counted NewLog.
Proof. by intros e ?%elem_of_nil. Qed.

Lemma log_counted_Write log id version op : log_counted log → log_counted (Write log id version op).
Proof.
  intros H e He. simpl in *. rewrite Get_IncrementTo.
  apply elem_of_app in He as [He|He%list_elem_of_singleton].
  - specialize (H e He). case_decide as Hd; [subst id|]; lia.
  - subst e. simpl. rewrite decide_True by done. lia.
Qed.

Lemma queue_GetMissingOperations_ok queue vector :
  queue_GetMissingOperations queue vector =
    filter (λ op, Get vector (ro_Id op) < ro_Version op) (oq_queue queue).
Proof.
  unfold queue_GetMissingOperations.
  assert (∀ q acc, foldl (λ result elem, if Get vector (ro_Id elem) <? ro_Version elem
      then result ++ [elem] else result) acc q =
    acc ++ filter (λ op, Get vector (ro_Id op) < ro_Version op) q) as H; [|by rewrite H].
  intros q. induction q as [|op q IH]; intros acc; simpl; [by rewrite filter_nil, app_nil_r|].
  rewrite IH, filter_cons. case (Z.ltb_spec (Get vector (ro_Id op)) (ro_Version op)) as [Hl|Hl].
  - rewrite decide_True by done. by rewrite <-app_assoc.
  - by rewrite decide_False by lia.
Qed.

Lemma received_vector m : vector_wf (lg_Vector (dm_Log m)) → ∀ id,
  Get (GetVersionVectorReceived m) id =
    Get (lg_Vector (dm_Log m)) id `max` Get (oq_vector (dm_Queue m)) id.
Proof. intros Hv id. unfold GetVersionVectorReceived. rewrite Copy_eq. by apply Get_Merge_wf. Qed.

Lemma Compare_behind v1 v2 :
  match Compare v1 v2 with GREATER_THAN | CONFLICT => ¬ vle v1 v2 | _ => vle v1 v2 end.
Proof. pose proof (Compare_spec v1 v2) as H. destruct (Compare v1 v2); tauto. Qed.

(** The operations sent from the log are exactly those the other vector
    does not count, each once and in the order they were applied here; those
    from the queue are sent only when the vectors say this site is ahead. *)
Theorem GetMissingOperations_newer m vector :
  log_counted (dm_Log m) → vector_wf (lg_Vector (dm_Log m)) →
  ∃ ops queueOps, GetMissingOperations m vector = Ok (ops, queueOps) ∧
    ops = entry_op <$> filter (newer vector) (lg_Log (dm_Log m)) ∧
    (¬ vle (GetVersionVectorReceived m) vector →
       queueOps = filter (λ op, Get vector (ro_Id op) < ro_Version op) (oq_queue (dm_Queue m))) ∧
    (vle (GetVersionVectorReceived m) vector → queueOps = []).
Proof.
  intros Hlog Hv. unfold GetMissingOperations.
  pose proof (Compare_behind (GetVersionVectorReceived m) vector) as Hc.
  rewrite log_GetMissingOperations_ok, bind_Ok, queue_GetMissingOperations_ok.
  assert (vle (GetVersionVectorReceived m) vector → filter (newer vector) (lg_Log (dm_Log m)) = []) as Hnil.
  { intros Hle. apply elem_of_nil_inv. intros e [Hn He]%list_elem_of_filter. specialize (Hle (le_Id e)).
    rewrite received_vector in Hle by done. specialize (Hlog e He). unfold newer in Hn. lia. }
  destruct (Compare _ vector); eexists _, _; (split; [reflexivity|]); (split; [|tauto]); first [reflexivity|by rewrite (Hnil Hc)].
Qed.

Lemma GetMissingOperations_newer_witness :
  let log := Write (Write NewLog (replicate 16 x01) 1 sample_noop) (replicate 16 x01) 2 sample_noop in
  let m := mkDocumentModel (replicate 16 x01) 2 0 NewDocument (mkBuffer 4 0 0 [] 0 0 0 0) log NewQueue true in
  ∃ ops queueOps, GetMissingOperations m (sample_vector 1 0) = Ok (ops, queueOps) ∧
    ops = entry_op <$> filter (newer (sample_vector 1 0)) (lg_Log (dm_Log m)) ∧
    (¬ vle (GetVersionVectorReceived m) (sample_vector 1 0) →
       queueOps = filter (λ op, Get (sample_vector 1 0) (ro_Id op) < ro_Version op) (oq_queue (dm_Queue m))) ∧
    (vle (GetVersionVectorReceived m) (sample_vector 1 0) → queueOps = []).
Proof.
  intros log m. apply (GetMissingOperations_newer m (sample_vector 1 0)).
  - apply log_counted_Write, log_counted_Write, log_counted_NewLog.
  - apply vector_wf_IncrementTo; [|reflexivity].
    apply vector_wf_IncrementTo; [apply vector_wf_NewVector|reflexivity].
Defined.
