(* ===== verification/EditorSystem.v ===== *)
(** Several sites editing one document: a step relation over the handlers of
    the document manager, with every broadcast operation delivered at any time,
    in any order and any number of times. Its invariants, and convergence. *)
From S2P Require Import Prelude Common Version BufferOp Buffer BufferWords BufferLayout BufferSpec BufferProps BufferPartial Treedoc TreedocInv TreedocWf TreedocRemote TreedocSpec TreedocConv TreedocLocal TreedocInsert TreedocCausal NodeIds OperationLog OperationQueue DocumentModel DocumentProps.

Open Scope Z_scope.

(** ** The system *)

(** A site, with the operations it was handed so far (only for the proofs). *)
Record site : Type := mkSite { st_model : DocumentModel; st_received : list RemoteOperation }.

(** The sites and the operations that were broadcast, oldest first. *)
Record editors : Type := mkEditors { ed_sites : gmap SiteId site; ed_sent : list RemoteOperation }.

Inductive local_event : Type := TypeChar (ch : byte) | Backspace | DeleteKey.
Definition run_local (ev : local_event) (m : DocumentModel) : res (DocumentModel * option RemoteOperation) :=
  match ev with
  | TypeChar ch => LocalInsert m ch
  | Backspace => LocalBackspace m
  | DeleteKey => LocalDelete m
  end.

Inductive cursor_event : Type := KeyLeft | KeyRight | KeyUp | KeyDown.
Definition run_cursor (ev : cursor_event) : Buffer.Buffer → res Buffer.Buffer :=
  match ev with KeyLeft => MoveLeft | KeyRight => MoveRight | KeyUp => MoveUp | KeyDown => MoveDown end.

Definition update (s : SiteId) (m : DocumentModel) (received : list RemoteOperation)
    (sent : list RemoteOperation) (sys : editors) : editors :=
  mkEditors (<[s := mkSite m received]> (ed_sites sys)) sent.

(** One handler runs and returns; the counters of the site have not run out. *)
Inductive editor_step (sys : editors) : editors → Prop :=
  | step_local s st ev m b :
      ed_sites sys !! s = Some st →
      dm_OpVersion (st_model st) + 1 < w32 → dm_NodeIdClock (st_model st) + 1 < w32 →
      run_local ev (st_model st) = Ok (m, b) →
      editor_step sys (update s m (st_received st) (ed_sent sys ++ option_list b) sys)
  | step_receive s st op m :
      ed_sites sys !! s = Some st → op ∈ ed_sent sys →
      ApplyRemoteOperation (st_model st) op = Ok m →
      editor_step sys (update s m (op :: st_received st) (ed_sent sys) sys)
  | step_cursor s st ev buf :
      ed_sites sys !! s = Some st → run_cursor ev (dm_Buffer (st_model st)) = Ok buf →
      editor_step sys (update s (set_text (dm_Treedoc (st_model st)) buf (st_model st))
        (st_received st) (ed_sent sys) sys)
  | step_resize s st width buf :
      ed_sites sys !! s = Some st → 4 ≤ width → Resize (dm_Buffer (st_model st)) width = Ok buf →
      editor_step sys (update s (set_text (dm_Treedoc (st_model st)) buf (st_model st))
        (st_received st) (ed_sent sys) sys).

(** All sites start with an empty document and a connection. *)
Definition initial (sys : editors) : Prop :=
  ed_sent sys = [] ∧
  ∀ s st, ed_sites sys !! s = Some st → site_id_wf s ∧ st_received st = [] ∧
    ∃ width, 4 ≤ width ∧ NewDocumentModel s width true = Ok (st_model st).

Inductive reachable : editors → Prop :=
  | reachable_initial sys : initial sys → reachable sys
  | reachable_step sys sys' : reachable sys → editor_step sys sys' → reachable sys'.

(** ** Invariants *)

(** The operations a vector covers. *)
Definition covered (v : VersionVector) (M : list RemoteOperation) (o : Operation) : Prop :=
  ∃ q, q ∈ M ∧ stale v q ∧ ro_Op q = o.

(** Every entry of a vector is backed by a message. *)
Definition backed (v : VersionVector) (M : list RemoteOperation) : Prop :=
  ∀ id i, 1 ≤ i ≤ Get v id → ∃ q, q ∈ M ∧ ro_Id q = id ∧ ro_Version q = i.

(** Who owns what an operation uses. *)
Definition owned (q : RemoteOperation) (clock : Z) : Prop :=
  (∀ id l, creates (ro_Op q) id l → ∃ k, id = NewNodeId (ro_Id q) k ∧ 0 ≤ k < clock) ∧
  (∀ id n ch, fills (ro_Op q) id n ch → ∃ k, id = NewNodeId (ro_Id q) k ∧ 0 ≤ k < clock).

(** The messages. [clocks] and [versions] are the counters of the sites. *)
Record messages_ok (clocks versions : SiteId → Z) (M : list RemoteOperation) : Prop := {
  ms_site q : q ∈ M → site_id_wf (ro_Id q);
  ms_stamped q : q ∈ M → stamped q;
  ms_version q : q ∈ M → ro_Version q ≤ versions (ro_Id q);
  ms_unique q1 q2 : q1 ∈ M → q2 ∈ M → ro_Id q1 = ro_Id q2 → ro_Version q1 = ro_Version q2 → q1 = q2;
  ms_needs q : q ∈ M → op_needs (covered (ro_Vector q) M) (ro_Op q);
  ms_clash q1 q2 : q1 ∈ M → q2 ∈ M → q1 ≠ q2 → ¬ clash (ro_Op q1) (ro_Op q2);
  ms_owned q : q ∈ M → owned q (clocks (ro_Id q));
  ms_clocks id : 0 ≤ clocks id < w32;
  ms_causes A q B : M = A ++ q :: B → backed (ro_Vector q) A
}.

(** A site, without its queue. *)
Record site_inv (M : list RemoteOperation) (s : SiteId) (m : DocumentModel) : Prop := {
  si_owner : dm_OwnerId m = s;
  si_wf : site_id_wf s;
  si_broadcasts : dm_BroadcastRemote m = true;
  si_model : ∃ text, model_inv text m;
  si_content : content (dm_Treedoc m) (covered (lg_Vector (dm_Log m)) M);
  si_backed : backed (lg_Vector (dm_Log m)) M;
  si_version : Get (lg_Vector (dm_Log m)) s = dm_OpVersion m
}.

(** Its queue and what it received. *)
Record queue_inv (M : list RemoteOperation) (m : DocumentModel) (received : list RemoteOperation) : Prop := {
  qi_queue q : q ∈ oq_queue (dm_Queue m) → q ∈ M;
  qi_waits : Forall (λ q, ¬ ready (lg_Vector (dm_Log m)) q) (oq_queue (dm_Queue m));
  qi_received q : q ∈ received → stale (lg_Vector (dm_Log m)) q ∨ q ∈ oq_queue (dm_Queue m)
}.

Definition clock_of (sys : editors) (s : SiteId) : Z :=
  match ed_sites sys !! s with Some st => dm_NodeIdClock (st_model st) | None => 0 end.
Definition version_of (sys : editors) (s : SiteId) : Z :=
  match ed_sites sys !! s with Some st => dm_OpVersion (st_model st) | None => 0 end.

Record editors_inv (sys : editors) : Prop := {
  ei_messages : messages_ok (clock_of sys) (version_of sys) (ed_sent sys);
  ei_site s st : ed_sites sys !! s = Some st →
    site_inv (ed_sent sys) s (st_model st) ∧ queue_inv (ed_sent sys) (st_model st) (st_received st)
}.

(** ** Receiving *)

Lemma covered_mono v v' M M' o :
  vle v v' → (∀ q, q ∈ M → q ∈ M') → covered v M o → covered v' M' o.
Proof.
  intros Hv HM (q & Hq & Hs & <-). exists q. split_and!; [by apply HM|by eapply stale_mono|done].
Qed.

(** The log after some operations were applied. *)
Definition writes (log : OperationLog) (ops : list RemoteOperation) : OperationLog :=
  foldl (λ log q, Write log (ro_Id q) (ro_Version q) (ro_Op q)) log ops.

Section messages.
Context (clocks versions : SiteId → Z) (M : list RemoteOperation).
Hypothesis HM : messages_ok clocks versions M.

Lemma ready_not_stale v q : ready v q → ¬ stale v q.
Proof using. unfold ready, stale. lia. Qed.

Lemma ready_get v q : q ∈ M → ready v q → Get v (ro_Id q) = ro_Version q - 1.
Proof using HM. intros Hq Hr. by apply stamped_ready in Hr as [? _]; [|eapply ms_stamped]. Qed.

Lemma covered_Increment v q o :
  vector_wf v → q ∈ M → ready v q →
  covered (Increment v (ro_Id q)) M o ↔ covered v M o ∨ o = ro_Op q.
Proof using HM.
  intros Hv Hq Hr. pose proof (ready_get v q Hq Hr) as Hg.
  assert (bounded q) as Hb by (eapply stamped_bounded, ms_stamped; done).
  split.
  - intros (q1 & Hq1 & Hs & <-). unfold stale in Hs. rewrite ready_Increment in Hs by done.
    destruct (decide (ro_Version q1 ≤ Get v (ro_Id q1))); [left; by exists q1|right].
    case_decide as Hid; [|lia]. f_equal. eapply ms_unique; try done. rewrite <-Hid in *. lia.
  - intros [Hc| ->]; [eapply covered_mono; [|done|exact Hc]; by apply ready_vle|].
    exists q. split_and!; [done| |done]. unfold stale. rewrite ready_Increment, decide_True by done. lia.
Qed.

Lemma backed_Increment v q :
  vector_wf v → q ∈ M → ready v q → backed v M → backed (Increment v (ro_Id q)) M.
Proof using HM.
  intros Hv Hq Hr Hbk id i Hi. pose proof (ready_get v q Hq Hr) as Hg.
  assert (bounded q) as Hb by (eapply stamped_bounded, ms_stamped; done).
  rewrite ready_Increment in Hi by done. case_decide as Hid; [subst|by apply Hbk].
  destruct (decide (i = ro_Version q)) as [->|]; [by exists q|apply Hbk; lia].
Qed.

(** An operation that is ready meets the precondition of the tree document. *)
Lemma ready_op_ok doc v q :
  wf doc → content doc (covered v M) → q ∈ M → ready v q → op_ok doc (ro_Op q).
Proof using HM.
  intros W C Hq Hr. apply (op_ok_iff _ _ W C). split.
  - eapply op_needs_mono; [|by eapply ms_needs]. intros o. apply covered_mono; [apply Hr|done].
  - intros o (q1 & Hq1 & Hs & <-). eapply ms_clash; [done..|]. intros ->. by eapply ready_not_stale.
Qed.

Lemma Write_ready log q :
  vector_wf (lg_Vector log) → q ∈ M → ready (lg_Vector log) q →
  lg_Vector (Write log (ro_Id q) (ro_Version q) (ro_Op q)) = Increment (lg_Vector log) (ro_Id q).
Proof using HM.
  intros Hv Hq Hr. pose proof (ready_get _ q Hq Hr) as Hg. destruct (ms_stamped _ _ _ HM q Hq) as [_ Hs].
  simpl. unfold IncrementTo, Increment. rewrite Hg. rewrite (proj2 (Z.ltb_lt _ _)) by lia.
  rewrite wrap32_small by lia. f_equal. lia.
Qed.

Lemma apply_ready s m q m' :
  site_inv M s m → versions s = dm_OpVersion m → q ∈ M → ready (lg_Vector (dm_Log m)) q →
  apply_remote m q = Ok m' →
  site_inv M s m' ∧ remote_op m m' q ∧
    lg_Vector (dm_Log m') = Increment (lg_Vector (dm_Log m)) (ro_Id q).
Proof using HM.
  intros [S1 S2 S3 [text Sm] S5 S6 S7] Hver Hq Hr H.
  pose proof (ready_op_ok _ _ _ (mi_wf _ _ Sm) S5 Hq Hr) as Hok.
  pose proof (mi_vector _ _ Sm) as Hv.
  assert (bounded q) as Hb by (eapply stamped_bounded, ms_stamped; done).
  pose proof (apply_remote_back _ _ _ _ Sm Hok Hb H) as R. pose proof R as [_ R2 R3 R4 _ _ R7 R8 R9].
  assert (lg_Vector (dm_Log m') = Increment (lg_Vector (dm_Log m)) (ro_Id q)) as HV
    by (rewrite R8; by apply Write_ready).
  split; [|done]. split; rewrite ?HV, ?R3, ?R4, ?R7; try done; [by eexists| | |].
  - eapply content_iff; [|by eapply content_step]. intros o. cbv beta. by rewrite covered_Increment.
  - by apply backed_Increment.
  - rewrite ready_Increment by done. rewrite decide_False; [done|]. intros Hid.
    pose proof (ms_version _ _ _ HM q Hq) as Hle. rewrite Hid, Hver, <-S7, <-Hid in Hle.
    by eapply ready_not_stale.
Qed.

Lemma apply_all_ready ops s m m' v' :
  site_inv M s m → versions s = dm_OpVersion m → Forall (λ q, q ∈ M) ops →
  delivers (lg_Vector (dm_Log m)) ops v' → foldM apply_remote m ops = Ok m' →
  site_inv M s m' ∧ lg_Vector (dm_Log m') = v' ∧ dm_Queue m' = dm_Queue m ∧
    dm_OpVersion m' = dm_OpVersion m ∧ dm_NodeIdClock m' = dm_NodeIdClock m ∧
    dm_Log m' = writes (dm_Log m) ops.
Proof using HM.
  revert m. induction ops as [|q ops IH]; intros m Hs Hver HF; cbn [delivers foldM].
  { intros -> [= <-]. done. }
  apply Forall_cons in HF as [Hq HF]. intros [Hr Hd] H. apply bind_Ok_inv in H as (m1 & H1 & H).
  destruct (apply_ready s m q m1 Hs Hver Hq Hr H1) as (Hs1 & R & HV).
  rewrite <-HV in Hd. destruct (IH m1) as (? & ? & E1 & E2 & E3 & E4); try done.
  - by rewrite (rm_version _ _ _ R).
  - rewrite E1, E2, E3, (rm_queue _ _ _ R), (rm_version _ _ _ R), (rm_clock _ _ _ R).
    split_and!; try done. by rewrite E4, (rm_log _ _ _ R).
Qed.

Lemma receive_ok s m received op m' :
  site_inv M s m → queue_inv M m received → versions s = dm_OpVersion m → op ∈ M →
  ApplyRemoteOperation m op = Ok m' →
  site_inv M s m' ∧ queue_inv M m' (op :: received) ∧
    dm_OpVersion m' = dm_OpVersion m ∧ dm_NodeIdClock m' = dm_NodeIdClock m ∧
    ∃ ops queue' v', Enqueue (dm_Queue m) op (lg_Vector (dm_Log m)) = Ok (ops, queue', v') ∧
      Forall (λ q, q ∈ M) ops ∧ delivers (lg_Vector (dm_Log m)) ops v' ∧
      dm_Log m' = writes (dm_Log m) ops ∧ lg_Vector (dm_Log m') = v' ∧ dm_Queue m' = queue'.
Proof using HM.
  intros Hs [Q1 Q2 Q3] Hver Hop H. pose proof Hs as [_ _ _ [text Sm] _ _ _].
  pose proof (mi_vector _ _ Sm) as Hv. unfold ApplyRemoteOperation in H. rewrite Copy_eq in H.
  assert (Forall (λ q, q ∈ M) (op :: oq_queue (dm_Queue m))) as HF.
  { apply Forall_cons. split; [done|]. by apply Forall_forall. }
  destruct (Enqueue_causal (dm_Queue m) op (lg_Vector (dm_Log m)) Hv) as
    (ops & queue' & v' & dropped & He & Hd & Hp & Hst & Hw); [|done|].
  { eapply Forall_impl; [exact HF|]. intros q. apply (ms_stamped _ _ _ HM). }
  rewrite He, bind_Ok in H. rewrite Hp, !Forall_app in HF. destruct HF as (HF1 & HF2 & HF3).
  destruct (apply_all_ready ops s (set_queue queue' m) m' v') as (Hs' & HV & EQ & E2 & E3 & E4); try done.
  { destruct Hs as [? ? ? [text' []] ? ? ?]. split; try done. exists text'. by split. }
  split_and!; try done; [|by exists ops, queue', v'; split_and!]. split; rewrite ?HV, EQ; simpl.
  - by apply Forall_forall.
  - done.
  - assert (vle (lg_Vector (dm_Log m)) v') as Hle.
    { eapply delivers_mono; [exact Hv| |exact Hd]. eapply Forall_impl; [exact HF1|].
      intros q Hq. eapply stamped_bounded, ms_stamped; done. }
    assert (∀ q, q ∈ op :: oq_queue (dm_Queue m) → stale v' q ∨ q ∈ oq_queue queue') as Hall.
    { intros q Hq. rewrite Hp, !elem_of_app in Hq. destruct Hq as [Hq|[Hq|Hq]]; [|left|by right].
      - left. by eapply delivers_stale; [exact Hv| |exact Hd|exact Hq]; (eapply Forall_impl; [exact HF1|];
          intros q'; apply (ms_stamped _ _ _ HM)).
      - by eapply Forall_forall in Hst. }
    intros q [->|Hq]%elem_of_cons; [apply Hall; by left|].
    destruct (Q3 q Hq) as [Hsq|Hqq]; [left; by eapply stale_mono|apply Hall; by right].
Qed.
End messages.

(** ** A local operation *)

Section local.
Context (clocks versions : SiteId → Z) (M : list RemoteOperation) (s : SiteId) (m : DocumentModel).
Hypothesis HM : messages_ok clocks versions M.
Hypothesis Hs : site_inv M s m.
Hypothesis Hclock : clocks s = dm_NodeIdClock m.
Hypothesis Hver : versions s = dm_OpVersion m.

(** A site has applied all its own operations. *)
Lemma own_stale q : q ∈ M → ro_Id q = s → stale (lg_Vector (dm_Log m)) q.
Proof using HM Hs Hver.
  intros Hq Hid. unfold stale. rewrite Hid, (si_version _ _ _ Hs), <-Hver, <-Hid. by eapply ms_version.
Qed.

Lemma node_id_inj q k c : q ∈ M → 0 ≤ k < clocks (ro_Id q) → 0 ≤ c < w32 →
  NewNodeId (ro_Id q) k = NewNodeId s c → ro_Id q = s ∧ k = c.
Proof using HM Hs.
  intros Hq Hk Hc. pose proof (ms_clocks _ _ _ HM (ro_Id q)).
  apply NewNodeId_inj; [by eapply ms_site|apply Hs|lia|done].
Qed.

Lemma next_id_fresh : dc_Nodes (dm_Treedoc m) !! NewNodeId s (dm_NodeIdClock m) = None.
Proof using HM Hs Hclock.
  destruct (si_model _ _ _ Hs) as [text Sm]. apply (node_fresh _ _ (mi_wf _ _ Sm) (si_content _ _ _ Hs)).
  intros (o & l & (q & Hq & _ & <-) & Hc).
  destruct (proj1 (ms_owned _ _ _ HM q Hq) _ _ Hc) as (k & Hk & Hlt).
  pose proof (ms_clocks _ _ _ HM s). symmetry in Hk.
  apply node_id_inj in Hk as [Hid ->]; [|done..|lia]. rewrite Hid in Hlt. lia.
Qed.

Context (m' : DocumentModel) (op : Operation) (b : option RemoteOperation).
Hypothesis Hop : local_op m m' op b.
Hypothesis Hvlt : dm_OpVersion m + 1 < w32.
Hypothesis Hclt : dm_NodeIdClock m + 1 < w32.

Let vec := lg_Vector (dm_Log m).
Let msg := mkRemoteOperation vec s (dm_OpVersion m') op.

Lemma version_nonneg : 0 ≤ dm_OpVersion m.
Proof using Hs.
  destruct (si_model _ _ _ Hs) as [text Sm]. rewrite <-(si_version _ _ _ Hs). apply (mi_vector _ _ Sm).
Qed.

Lemma new_version : dm_OpVersion m' = dm_OpVersion m + 1.
Proof using Hs Hop Hvlt.
  rewrite (lo_version _ _ _ _ Hop). apply wrap32_small. pose proof version_nonneg. lia.
Qed.

Lemma new_clock : dm_NodeIdClock m ≤ dm_NodeIdClock m' < w32 ∧
  (op_Type op = INSERT_NEW ∨ op_Type op = INSERT_ROOT → dm_NodeIdClock m < dm_NodeIdClock m').
Proof using HM Hop Hclt Hclock.
  pose proof (ms_clocks _ _ _ HM s) as Hc. rewrite Hclock in Hc.
  rewrite (lo_clock _ _ _ _ Hop). destruct (op_Type op); (split; [|intros [?|?]]); try done; try lia;
    rewrite wrap32_small by lia; lia.
Qed.

(** The new operation uses places of its own site only. *)
Lemma new_owned : owned msg (dm_NodeIdClock m').
Proof using HM Hs Hclock Hop Hclt.
  destruct new_clock as [Hle Hlt]. pose proof (ms_clocks _ _ _ HM s) as Hc. rewrite Hclock in Hc.
  assert (op_Id op = NewNodeId s (dm_NodeIdClock m) ∧ (op_Type op = INSERT_NEW ∨ op_Type op = INSERT_ROOT) ∨
    op_Type op = INSERT ∧ (∃ k, op_Id op = NewNodeId s k ∧ 0 ≤ k < dm_NodeIdClock m) ∨ op_Type op = DELETE)
    as Hcase.
  { destruct (lo_own _ _ _ _ Hop) as [[[Hty Hsite]|[Hty Hid]]|Hty]; [|left|by do 2 right].
    2:{ by rewrite (si_owner _ _ _ Hs) in Hid. }
    right. left. split; [done|]. pose proof (lo_ok _ _ _ _ Hop) as Hok. unfold op_ok in Hok.
    rewrite Hty in Hok. destruct Hok as (Hn & _). destruct (si_model _ _ _ Hs) as [text Sm].
    apply (node_created _ _ (mi_wf _ _ Sm) (si_content _ _ _ Hs)) in Hn.
    destruct Hn as (o & l & (q & Hq & _ & <-) & Hcr).
    destruct (proj1 (ms_owned _ _ _ HM q Hq) _ _ Hcr) as (k & Hk & Hlt').
    rewrite Hk, (si_owner _ _ _ Hs) in Hsite.
    apply EqualSite_iff in Hsite; [|apply Hs|by eapply ms_site].
    exists k. rewrite Hk, Hsite. split; [done|]. by rewrite <-Hclock, Hsite. }
  split; simpl.
  - intros id l [-> Hc']. destruct Hcase as [[-> Hty]|[[Hty _]|Hty]]; [|rewrite Hty in Hc'; naive_solver..].
    exists (dm_NodeIdClock m). split; [done|]. specialize (Hlt Hty). lia.
  - intros id n ch (Hty' & -> & _ & _). destruct Hcase as [[-> Hty]|[[Hty (k & -> & Hk)]|Hty]].
    + exists (dm_NodeIdClock m). split; [done|]. specialize (Hlt Hty). lia.
    + exists k. split; [done|]. lia.
    + rewrite Hty, !elem_of_cons, elem_of_nil in Hty'. naive_solver.
Qed.

(** Two operations of different sites never clash, and the site's own
    operations are all applied. *)
Lemma new_no_clash q : q ∈ M → ¬ clash (ro_Op q) op ∧ ¬ clash op (ro_Op q).
Proof using HM Hs Hclock Hver Hop Hvlt Hclt.
  destruct (si_model _ _ _ Hs) as [text Sm].
  destruct (proj1 (op_ok_iff _ _ (mi_wf _ _ Sm) (si_content _ _ _ Hs) op) (lo_ok _ _ _ _ Hop)) as [_ Hfree].
  assert (∀ q1, q1 ∈ M → ¬ clash (ro_Op q1) op) as Hfwd.
  { intros q1 Hq1 Hcl. destruct (decide (ro_Id q1 = s)) as [Hid|Hid].
    { eapply Hfree; [|exact Hcl]. exists q1. split_and!; [done|by apply own_stale|done]. }
    pose proof new_owned as [Ho1 Ho2]. pose proof new_clock as [Hnc _].
    assert (∀ k1 k2, 0 ≤ k1 < clocks (ro_Id q1) → 0 ≤ k2 < dm_NodeIdClock m' →
      NewNodeId (ro_Id q1) k1 ≠ NewNodeId s k2) as Hne.
    { intros k1 k2 Hk1 Hk2 Heq. apply node_id_inj in Heq as [? _]; [done..|lia]. }
    unfold clash in Hcl. destruct (op_Type op) eqn:Hty; try done.
    - destruct Hcl as [l Hc]. destruct (proj1 (ms_owned _ _ _ HM q1 Hq1) _ _ Hc) as (k1 & E1 & Hk1).
      destruct (Ho1 (op_Id op) (Some (op_ParentId op), op_ParentN op)) as (k2 & E2 & Hk2);
        [split; [done|by left]|]. eapply Hne; [exact Hk1|exact Hk2|]. simpl in E2. congruence.
    - destruct Hcl as [l Hc]. destruct (proj1 (ms_owned _ _ _ HM q1 Hq1) _ _ Hc) as (k1 & E1 & Hk1).
      destruct (Ho1 (op_Id op) (None, 0)) as (k2 & E2 & Hk2);
        [split; [done|by right]|]. eapply Hne; [exact Hk1|exact Hk2|]. simpl in E2. congruence.
    - destruct Hcl as [ch Hc]. destruct (proj2 (ms_owned _ _ _ HM q1 Hq1) _ _ _ Hc) as (k1 & E1 & Hk1).
      destruct (Ho2 (op_Id op) (Z.to_nat (op_N op)) (op_Atom op)) as (k2 & E2 & Hk2).
      { split_and!; [|done..]. simpl. rewrite Hty. set_solver. }
      eapply Hne; [exact Hk1|exact Hk2|]. simpl in E2. congruence. }
  intros Hq. split; [by apply Hfwd|]. intros Hcl.
  pose proof (ms_needs _ _ _ HM q Hq) as Hn. pose proof (Hfwd q Hq) as Hno.
  unfold clash, op_needs in Hcl, Hn. destruct (op_Type (ro_Op q)) eqn:Hty; try done.
  - destruct Hcl as (l & Hid & Hc). apply Hno. unfold clash. rewrite <-Hid.
    destruct Hc as [[-> _]|[-> _]]; eexists; split; [done|by left|done|by left].
  - destruct Hcl as (l & Hid & Hc). apply Hno. unfold clash. rewrite <-Hid.
    destruct Hc as [[-> _]|[-> _]]; eexists; split; [done|by right|done|by right].
  - destruct Hcl as (ch & Hc & Hid & Hnn & _). destruct Hn as [(o & l & (q0 & Hq0 & _ & <-) & Hcr) _].
    rewrite !elem_of_cons, elem_of_nil in Hc. destruct Hc as [Hc|[Hc|[Hc|[]]]].
    + apply Hno. unfold clash. rewrite Hc. exists (op_Atom (ro_Op q)). split_and!; [|done..].
      rewrite Hty. set_solver.
    + eapply Hfwd; [exact Hq0|]. unfold clash. rewrite Hc. exists l. by rewrite <-Hid.
    + eapply Hfwd; [exact Hq0|]. unfold clash. rewrite Hc. exists l. by rewrite <-Hid.
Qed.

Lemma covered_snoc v o :
  covered v (M ++ [msg]) o ↔ covered v M o ∨ (stale v msg ∧ o = op).
Proof using.
  unfold covered. setoid_rewrite elem_of_app. setoid_rewrite list_elem_of_singleton. split.
  - intros (q & [Hq| ->] & Hst & <-); [left; by exists q|by right].
  - intros [(q & Hq & Hst & <-)|[Hst ->]]; [exists q; tauto|exists msg; tauto].
Qed.

Lemma new_vector id :
  Get (lg_Vector (dm_Log m')) id = if decide (s = id) then dm_OpVersion m' else Get vec id.
Proof using Hs Hop Hvlt.
  rewrite (lo_log _ _ _ _ Hop). simpl. rewrite (si_owner _ _ _ Hs), Get_IncrementTo.
  case_decide; [subst id|done]. rewrite (si_version _ _ _ Hs), new_version. lia.
Qed.

Lemma vec_wf : vector_wf vec.
Proof using Hs. destruct (si_model _ _ _ Hs) as [text Sm]. apply Sm. Qed.

Lemma new_vector_le : vle vec (lg_Vector (dm_Log m')).
Proof using Hs Hop Hvlt.
  intros id. rewrite new_vector. case_decide; [subst id|done].
  unfold vec. rewrite (si_version _ _ _ Hs), new_version. lia.
Qed.

(** Nothing that was sent before becomes covered by counting up. *)
Lemma new_stale q : q ∈ M → stale (lg_Vector (dm_Log m')) q ↔ stale vec q.
Proof using HM Hs Hver Hop Hvlt.
  intros Hq. split; [|apply stale_mono, new_vector_le]. intros Hst.
  destruct (decide (ro_Id q = s)) as [Hid|Hid]; [by apply own_stale|].
  unfold stale in *. rewrite new_vector, decide_False in Hst by done. done.
Qed.

Lemma local_site : site_inv (M ++ [msg]) s m'.
Proof using HM Hs Hclock Hver Hop Hvlt Hclt.
  pose proof Hs as [S1 S2 S3 [text Sm] S5 S6 S7].
  split; [by rewrite (lo_owner _ _ _ _ Hop)|done|by rewrite (lo_broadcasts _ _ _ _ Hop)|
    eexists; apply Hop| | |by rewrite new_vector, decide_True].
  - eapply content_iff; [|eapply content_step; [apply Hop|apply Hop|exact S5]].
    intros o. cbv beta. rewrite covered_snoc. unfold covered, stale at 3. simpl.
    rewrite new_vector, decide_True by done. split.
    + intros [(q & Hq & Hst & <-)| ->]; [|right; split; [lia|done]].
      left. exists q. split_and!; [done|by apply new_stale|done].
    + intros [(q & Hq & Hst & <-)|[_ ->]]; [|by right].
      left. exists q. split_and!; [done|by apply new_stale|done].
  - intros id i Hi. rewrite new_vector in Hi. case_decide as Hid.
    + subst id. destruct (decide (i = dm_OpVersion m')) as [->|Hne].
      { exists msg. split; [|done]. apply elem_of_app. right. by left. }
      destruct (S6 s i) as (q & Hq & ?); [rewrite S7; rewrite new_version in *; lia|].
      exists q. split; [|done]. apply elem_of_app. by left.
    + destruct (S6 id i Hi) as (q & Hq & ?). exists q. split; [|done]. apply elem_of_app. by left.
Qed.

(** No message of the future is known, so nothing in the queue becomes ready. *)
Lemma local_queue received : queue_inv M m received → queue_inv (M ++ [msg]) m' received.
Proof using HM Hs Hver Hop Hvlt.
  intros [Q1 Q2 Q3]. split; rewrite ?(lo_queue _ _ _ _ Hop).
  - intros q Hq. apply elem_of_app. left. by apply Q1.
  - apply Forall_forall. intros q Hq [Hr1 Hr2]. pose proof (Q1 q Hq) as HqM.
    pose proof (proj1 (Forall_forall _ _) Q2 q Hq) as Hnr. apply Hnr. split.
    + pose proof (new_vector_le (ro_Id q)). unfold vec in *. lia.
    + intros id. specialize (Hr2 id). rewrite new_vector in Hr2. case_decide as Hid; [subst id|done].
      destruct (decide (Get (ro_Vector q) s ≤ Get vec s)) as [|Hgt]; [done|exfalso].
      apply list_elem_of_split in HqM as (A & B & HAB).
      assert (Get vec s = dm_OpVersion m) as Hg by apply Hs.
      pose proof version_nonneg. rewrite new_version in Hr2.
      destruct (ms_causes _ _ _ HM A q B HAB s (dm_OpVersion m + 1)) as (q' & Hq' & Hid' & Hv'); [lia|].
      assert (q' ∈ M) as HqM' by (rewrite HAB; apply elem_of_app; by left).
      pose proof (ms_version _ _ _ HM q' HqM') as Hle. rewrite Hid', Hver in Hle. lia.
  - intros q Hq. destruct (Q3 q Hq) as [Hst|?]; [left|by right].
    eapply stale_mono; [apply new_vector_le|done].
Qed.

Lemma local_messages clocks' versions' :
  (∀ t, clocks' t = if decide (s = t) then dm_NodeIdClock m' else clocks t) →
  (∀ t, versions' t = if decide (s = t) then dm_OpVersion m' else versions t) →
  messages_ok clocks' versions' (M ++ [msg]).
Proof using HM Hs Hclock Hver Hop Hvlt Hclt.
  intros HC HV. pose proof Hs as [S1 S2 S3 [text Sm] S5 S6 S7].
  pose proof new_clock as [Hnc _]. pose proof new_version as Hnv. pose proof version_nonneg as Hnn.
  assert (∀ q1, q1 ∈ M → ro_Id q1 = s → ro_Version q1 ≠ dm_OpVersion m') as Hfresh.
  { intros q1 Hq1 Hid. pose proof (ms_version _ _ _ HM q1 Hq1) as Hle. rewrite Hid, Hver in Hle. lia. }
  assert (∀ t, clocks t ≤ clocks' t) as HCle.
  { intros t. rewrite HC. case_decide; [subst t; lia|lia]. }
  assert (∀ q, q ∈ M ++ [msg] → q ∈ M ∨ q = msg) as Hin by set_solver.
  split.
  - intros q [Hq| ->]%Hin; [by eapply ms_site|done].
  - intros q [Hq| ->]%Hin; [by eapply ms_stamped|]. split; simpl; [|lia].
    unfold vec. rewrite S7. lia.
  - intros q [Hq| ->]%Hin; rewrite HV; simpl; [|by rewrite decide_True].
    pose proof (ms_version _ _ _ HM q Hq). case_decide as Hid; [|done]. rewrite <-Hid, Hver in *. lia.
  - intros q1 q2 [Hq1| ->]%Hin [Hq2| ->]%Hin; simpl; intros Hid Hv.
    + by eapply ms_unique.
    + by destruct (Hfresh q1).
    + by destruct (Hfresh q2).
    + done.
  - intros q [Hq| ->]%Hin.
    + eapply op_needs_mono; [|by eapply ms_needs]. intros o. apply covered_mono; [done|set_solver].
    + simpl. eapply op_needs_mono; [|apply (op_ok_iff _ _ (mi_wf _ _ Sm) S5), Hop].
      intros o. apply covered_mono; [done|set_solver].
  - intros q1 q2 [Hq1| ->]%Hin [Hq2| ->]%Hin Hne; simpl.
    + by eapply ms_clash.
    + by apply new_no_clash.
    + by apply new_no_clash.
    + done.
  - intros q [Hq| ->]%Hin; [|rewrite HC, decide_True by done; by apply new_owned].
    destruct (ms_owned _ _ _ HM q Hq) as [H1 H2]. specialize (HCle (ro_Id q)).
    split; [intros id l Hc; destruct (H1 id l Hc) as (k & ? & ?)|
      intros id n ch Hc; destruct (H2 id n ch Hc) as (k & ? & ?)]; exists k; (split; [done|lia]).
  - intros id. rewrite HC. pose proof (ms_clocks _ _ _ HM id). case_decide; [|done].
    pose proof (ms_clocks _ _ _ HM s) as Hcs. rewrite Hclock in Hcs. lia.
  - intros A q B HAB. destruct B as [|q' B _] using rev_ind.
    + apply app_inj_tail in HAB as [<- <-]. exact S6.
    + rewrite app_comm_cons, app_assoc in HAB. apply app_inj_tail in HAB as [HAB _]. by eapply ms_causes.
Qed.
End local.

(** ** Every reachable state *)

Lemma messages_ok_ext c1 v1 c2 v2 M :
  (∀ t, c1 t = c2 t) → (∀ t, v1 t = v2 t) → messages_ok c1 v1 M → messages_ok c2 v2 M.
Proof.
  intros Hc Hv []. split; try done; intros *; rewrite <-?Hc, <-?Hv; auto.
Qed.

Lemma clock_of_update s m r M sys t :
  clock_of (update s m r M sys) t = if decide (s = t) then dm_NodeIdClock m else clock_of sys t.
Proof. unfold clock_of, update. simpl. rewrite lookup_insert. by case_decide. Qed.
Lemma version_of_update s m r M sys t :
  version_of (update s m r M sys) t = if decide (s = t) then dm_OpVersion m else version_of sys t.
Proof. unfold version_of, update. simpl. rewrite lookup_insert. by case_decide. Qed.
Lemma clock_of_site sys s st : ed_sites sys !! s = Some st → clock_of sys s = dm_NodeIdClock (st_model st).
Proof. unfold clock_of. by intros ->. Qed.
Lemma version_of_site sys s st : ed_sites sys !! s = Some st → version_of sys s = dm_OpVersion (st_model st).
Proof. unfold version_of. by intros ->. Qed.

(** A site that did nothing when [msg] was sent. *)
Lemma site_other M t m msg :
  site_inv M t m → ¬ stale (lg_Vector (dm_Log m)) msg → site_inv (M ++ [msg]) t m.
Proof.
  intros [S1 S2 S3 S4 S5 S6 S7] Hst. split; try done.
  - eapply content_iff; [|exact S5]. intros o. unfold covered.
    split; intros (q & Hq & Hs & <-); exists q; (split; [|done]); [set_solver|].
    apply elem_of_app in Hq as [Hq|Hq%list_elem_of_singleton]; [done|by subst].
  - intros id i Hi. destruct (S6 id i Hi) as (q & Hq & ?). exists q. split; [set_solver|done].
Qed.
Lemma queue_other M m r msg : queue_inv M m r → queue_inv (M ++ [msg]) m r.
Proof. intros [Q1 Q2 Q3]. split; [intros q Hq; apply Q1 in Hq; set_solver|done..]. Qed.

Lemma inv_initial sys : initial sys → editors_inv sys.
Proof.
  intros [HM HS]. assert (∀ s st, ed_sites sys !! s = Some st → ∃ buf,
    st_model st = mkDocumentModel s 0 0 NewDocument buf NewLog NewQueue true ∧ lines_ok [] buf) as Hnew.
  { intros s st Hs. destruct (HS s st Hs) as (_ & _ & width & Hw & Hn). unfold NewDocumentModel in Hn.
    destruct (StringToBuffer_ok [] width Hw) as (buf & Hb & [Hl _] & _). rewrite Hb, bind_Ok in Hn.
    injection Hn as <-. by exists buf. }
  split.
  - rewrite HM. split; try (intros *; by intros ?%elem_of_nil).
    + intros id. unfold clock_of. destruct (ed_sites sys !! id) as [st|] eqn:E; [|done].
      destruct (Hnew id st E) as (buf & -> & _). done.
    + intros [] *; discriminate.
  - intros s st Hs. destruct (HS s st Hs) as (Hwf & Hr & _). destruct (Hnew s st Hs) as (buf & -> & Hl).
    rewrite HM, Hr. split; split; simpl; try done.
    + exists []. split; simpl; [apply wf_NewDocument|apply dstr_NewDocument|done|apply vector_wf_NewVector].
    + eapply content_iff; [|apply content_NewDocument]. intros o. split; [done|].
      by intros (q & ?%elem_of_nil & _).
    + intros id i. unfold NewVector. rewrite Get_empty. lia.
    + by intros q ?%elem_of_nil.
Qed.

(** Replacing one site's state by another that keeps its counters. *)
Lemma inv_update sys s st m r :
  editors_inv sys → ed_sites sys !! s = Some st →
  site_inv (ed_sent sys) s m → queue_inv (ed_sent sys) m r →
  dm_OpVersion m = dm_OpVersion (st_model st) → dm_NodeIdClock m = dm_NodeIdClock (st_model st) →
  editors_inv (update s m r (ed_sent sys) sys).
Proof.
  intros [HM HS] Hs Hsite Hq Hv Hc. split.
  - simpl. eapply messages_ok_ext; [| |exact HM]; intros t;
      rewrite ?clock_of_update, ?version_of_update; case_decide as Ht; try done; subst t.
    + by rewrite (clock_of_site _ _ _ Hs).
    + by rewrite (version_of_site _ _ _ Hs).
  - intros t st' Ht. simpl in *. rewrite lookup_insert in Ht. case_decide as Heq.
    + injection Ht as <-. subst t. done.
    + by apply HS.
Qed.

Lemma inv_local sys s st m op b :
  editors_inv sys → ed_sites sys !! s = Some st →
  dm_OpVersion (st_model st) + 1 < w32 → dm_NodeIdClock (st_model st) + 1 < w32 →
  local_op (st_model st) m op b →
  editors_inv (update s m (st_received st) (ed_sent sys ++ option_list b) sys).
Proof.
  intros [HM HS] Hs Hv Hc Hop. destruct (HS s st Hs) as [Hsite Hq].
  pose proof (clock_of_site _ _ _ Hs) as Hcs. pose proof (version_of_site _ _ _ Hs) as Hvs.
  rewrite (lo_message _ _ _ _ Hop), (si_broadcasts _ _ _ Hsite), (si_owner _ _ _ Hsite). simpl.
  split.
  - simpl. eapply local_messages; eauto; intros t; rewrite ?clock_of_update, ?version_of_update; done.
  - intros t st' Ht. simpl in *. rewrite lookup_insert in Ht. case_decide as Heq.
    + injection Ht as <-. subst t. simpl. split; [by eapply local_site|by eapply local_queue].
    + destruct (HS t st' Ht) as [Hsite' Hq']. split; [|by apply queue_other].
      apply site_other; [done|]. unfold stale. simpl. intros Hst.
      rewrite (new_version _ _ _ Hsite _ _ _ Hop Hv) in Hst.
      pose proof (version_nonneg _ _ _ Hsite) as Hnn.
      destruct (si_backed _ _ _ Hsite' s (dm_OpVersion (st_model st) + 1)) as (q & Hq1 & Hid & Hver); [lia|].
      pose proof (ms_version _ _ _ HM q Hq1) as Hle. rewrite Hid, Hvs in Hle. lia.
Qed.

Lemma run_local_op sys s st ev m b :
  editors_inv sys → ed_sites sys !! s = Some st → run_local ev (st_model st) = Ok (m, b) →
  (m = st_model st ∧ b = None) ∨ ∃ op, local_op (st_model st) m op b.
Proof.
  intros [HM HS] Hs H. destruct (HS s st Hs) as [Hsite _]. pose proof Hsite as [S1 _ _ [text Sm] _ _ _].
  destruct ev; simpl in H; [right|by eapply LocalBackspace_back|by eapply LocalDelete_back].
  eapply LocalInsert_back; [exact Sm| |exact H]. rewrite S1.
  eapply next_id_fresh; [exact HM|exact Hsite|by apply clock_of_site].
Qed.

Lemma inv_step sys sys' : editors_inv sys → editor_step sys sys' → editors_inv sys'.
Proof.
  intros HI Hstep. pose proof HI as [HM HS]. destruct Hstep as
    [s st ev m b Hs Hv Hc H|s st op m Hs Hop H|s st ev buf Hs H|s st width buf Hs Hw H];
    destruct (HS s st Hs) as [Hsite Hq]; pose proof Hsite as [S1 S2 S3 [text Sm] S5 S6 S7].
  - destruct (run_local_op sys s st ev m b HI Hs H) as [[-> ->]|[op Hop]].
    + rewrite app_nil_r. by eapply inv_update.
    + by eapply inv_local.
  - destruct (receive_ok _ _ _ HM s (st_model st) (st_received st) op m Hsite Hq) as (? & ? & ? & ? & _);
      [by apply version_of_site|done..|]. by eapply inv_update.
  - eapply inv_update; try done; [|by destruct Hq].
    split; try done. exists text. destruct Sm as [W Ht Hl Hvw]. split; try done.
    eapply moves_back; [exact Hl|]. destruct ev; simpl in H; tauto.
  - eapply inv_update; try done; [|by destruct Hq].
    split; try done. exists text. destruct Sm as [W Ht Hl Hvw]. split; try done.
    by eapply Resize_width_back.
Qed.

Lemma reachable_inv sys : reachable sys → editors_inv sys.
Proof. induction 1; [by apply inv_initial|by eapply inv_step]. Qed.
