(* ===== verification/EditorConverges.v ===== *)
(** What holds in every reachable state of the sites: the screen shows the
    document, what was delivered everywhere is applied everywhere, and sites
    that have applied the same operations show the same text. *)
From S2P Require Import Prelude Common Version BufferOp Buffer BufferSpec Treedoc TreedocInv TreedocWf TreedocSpec TreedocConv TreedocCausal OperationLog OperationQueue DocumentModel DocumentProps EditorSystem.

Open Scope Z_scope.

(** The text of a site, on the screen and in the tree document. *)
Definition shows (st : site) (text : list byte) : Prop :=
  Buffer.ToString (dm_Buffer (st_model st)) = Ok text ∧
  DocToString (dm_Treedoc (st_model st)) = Ok text.

Definition vector_of (st : site) : VersionVector := lg_Vector (dm_Log (st_model st)).

(** Every broadcast operation was handed to the site, but for its own. *)
Definition received_all (sys : editors) (s : SiteId) (st : site) : Prop :=
  ∀ q, q ∈ ed_sent sys → ro_Id q = s ∨ q ∈ st_received st.

Lemma site_shows sys s st :
  editors_inv sys → ed_sites sys !! s = Some st → shows st (dstr (dm_Treedoc (st_model st))).
Proof.
  intros [_ HS] Hs. destruct (HS s st Hs) as [[_ _ _ [text [W <- Hl _]] _ _ _] _].
  split; [by apply ToString_lines|by apply DocToString_dstr].
Qed.

(** By induction on the order of sending: the causes of an operation were sent
    before it, so they are applied, and nothing that is ready waits. *)
Lemma all_stale sys s st :
  editors_inv sys → ed_sites sys !! s = Some st → received_all sys s st →
  ∀ q, q ∈ ed_sent sys → stale (vector_of st) q.
Proof.
  intros [HM HS] Hs Hall. destruct (HS s st Hs) as [Hsite [Q1 Q2 Q3]].
  assert (∀ A B, ed_sent sys = A ++ B → Forall (stale (vector_of st)) A) as HA.
  { intros A. induction A as [|q A IH] using rev_ind; intros B HAB; [constructor|].
    rewrite <-app_assoc in HAB. specialize (IH _ HAB). apply Forall_app. split; [done|].
    apply Forall_singleton. assert (q ∈ ed_sent sys) as Hq by (rewrite HAB; set_solver).
    destruct (Hall q Hq) as [Hid|Hr].
    { eapply own_stale; [exact HM|exact Hsite|by apply version_of_site|done|done]. }
    destruct (Q3 q Hr) as [Hst|Hqq]; [done|].
    destruct (Z.le_gt_cases (ro_Version q) (Get (vector_of st) (ro_Id q))) as [|Hgt]; [done|].
    exfalso. pose proof (proj1 (Forall_forall _ _) Q2 q Hqq) as Hnr. apply Hnr. split; [exact Hgt|].
    intros id. destruct (si_model _ _ _ Hsite) as [text Sm]. pose proof (mi_vector _ _ Sm id) as Hwf.
    destruct (Z.le_gt_cases 1 (Get (ro_Vector q) id)) as [Hge|]; [|lia].
    destruct (ms_causes _ _ _ HM A q B HAB id (Get (ro_Vector q) id)) as (q' & Hq' & Hid & Hv); [lia|].
    pose proof (proj1 (Forall_forall _ _) IH q' Hq') as Hst. unfold stale in Hst. rewrite Hid, Hv in Hst.
    exact Hst. }
  intros q Hq. specialize (HA (ed_sent sys) []). rewrite app_nil_r in HA.
  by eapply Forall_forall in HA.
Qed.

Lemma same_covered_text sys a b sta stb :
  editors_inv sys → ed_sites sys !! a = Some sta → ed_sites sys !! b = Some stb →
  (∀ q, q ∈ ed_sent sys → stale (vector_of sta) q ↔ stale (vector_of stb) q) →
  dstr (dm_Treedoc (st_model sta)) = dstr (dm_Treedoc (st_model stb)).
Proof.
  intros [HM HS] Ha Hb Hst. destruct (HS a sta Ha) as [[_ _ _ [ta Ma] Ca _ _] _].
  destruct (HS b stb Hb) as [[_ _ _ [tb Mb] Cb _ _] _].
  eapply content_text; [apply Ma|apply Mb|exact Ca|]. eapply content_iff; [|exact Cb].
  intros o. split; intros (q & Hq & Hs & <-); exists q; (split_and!; [done| |done]); by apply Hst.
Qed.

(** C3: strong eventual consistency of the editor. In every state that typing,
    deleting, moving, resizing and delivering (late, twice, in any order) can
    lead to, two sites that have been handed every broadcast operation show the
    same text, on the screen and in the tree document. *)
Theorem editors_converge sys a b sta stb :
  reachable sys → ed_sites sys !! a = Some sta → ed_sites sys !! b = Some stb →
  received_all sys a sta → received_all sys b stb →
  ∃ text, shows sta text ∧ shows stb text.
Proof.
  intros HR Ha Hb Ra Rb. apply reachable_inv in HR.
  exists (dstr (dm_Treedoc (st_model sta))). split; [by eapply site_shows|].
  rewrite (same_covered_text sys a b sta stb); [by eapply site_shows|done..|].
  intros q Hq. split; intros _; by eapply all_stale.
Qed.

(** Two sites with the same vector show the same text, even while
    operations are still under way. *)
Theorem same_vector_same_text sys a b sta stb :
  reachable sys → ed_sites sys !! a = Some sta → ed_sites sys !! b = Some stb →
  veq (vector_of sta) (vector_of stb) →
  ∃ text, shows sta text ∧ shows stb text.
Proof.
  intros HR Ha Hb Hv. apply reachable_inv in HR.
  exists (dstr (dm_Treedoc (st_model sta))). split; [by eapply site_shows|].
  rewrite (same_covered_text sys a b sta stb); [by eapply site_shows|done..|].
  intros q _. unfold stale. by rewrite (Hv (ro_Id q)).
Qed.

(** C6: nothing is stuck in a queue: once a site has been handed every
    broadcast operation, its vector covers all of them, and what its queue may
    still hold are duplicates of operations it has applied. *)
Theorem received_is_applied sys s st :
  reachable sys → ed_sites sys !! s = Some st → received_all sys s st →
  (∀ q, q ∈ ed_sent sys → ro_Version q ≤ Get (vector_of st) (ro_Id q)) ∧
  (∀ q, q ∈ oq_queue (dm_Queue (st_model st)) → ro_Version q ≤ Get (vector_of st) (ro_Id q)).
Proof.
  intros HR Hs Hall. apply reachable_inv in HR. split; [by eapply all_stale|].
  intros q Hq. destruct HR as [HM HS]. destruct (HS s st Hs) as [_ [Q1 _ _]].
  eapply all_stale; [by split|done|done|by apply Q1].
Qed.

(** C7: the invariant of a site. Its screen shows its tree document; its own
    entry in the vector is its version counter; every entry of the vector is
    backed by a broadcast operation; and no operation waits that could be
    applied. *)
Theorem site_invariant sys s st :
  reachable sys → ed_sites sys !! s = Some st →
  (∃ text, shows st text) ∧
  Get (vector_of st) s = dm_OpVersion (st_model st) ∧
  (∀ id i, 1 ≤ i ≤ Get (vector_of st) id →
     ∃ q, q ∈ ed_sent sys ∧ ro_Id q = id ∧ ro_Version q = i) ∧
  Forall (λ q, ¬ ready (vector_of st) q) (oq_queue (dm_Queue (st_model st))).
Proof.
  intros HR Hs. apply reachable_inv in HR as HI. destruct (ei_site _ HI s st Hs) as [Hsite Hq].
  split_and!; [eexists; by eapply site_shows|apply Hsite|apply Hsite|apply Hq].
Qed.

Lemma fills_clash o1 o2 id n ch1 ch2 :
  ¬ clash o1 o2 → ¬ clash o2 o1 → fills o1 id n ch1 → fills o2 id n ch2 → False.
Proof.
  intros C1 C2 F1 F2. pose proof F1 as (T1 & -> & -> & _). pose proof F2 as (T2 & Hid & Hn & _).
  assert (op_Type o2 = INSERT ∨ op_Type o2 = INSERT_NEW ∨ op_Type o2 = INSERT_ROOT) as T2' by set_solver.
  clear T2. unfold clash in C1, C2. rewrite !elem_of_cons, elem_of_nil in T1.
  destruct T2' as [E2|E2].
  { rewrite E2, <-Hid, <-Hn in C1. eauto. }
  assert (op_Type o1 = INSERT_NEW ∨ op_Type o1 = INSERT_ROOT) as E1.
  { destruct T1 as [E1|T1]; [|naive_solver]. exfalso. rewrite E1 in C2. apply C2. by exists ch2. }
  apply C1. destruct E2 as [-> | ->], E1 as [E1|E1]; eexists; (split; [done|]);
    [by left|by right|by left|by right].
Qed.

(** Broadcast operations never conflict: each is numbered by its site from
    one on, with the vector its site had before it, no two of a site have the
    same number, and no two fill the same slot or create the same node. *)
Theorem messages_never_clash sys q1 q2 :
  reachable sys → q1 ∈ ed_sent sys → q2 ∈ ed_sent sys →
  stamped q1 ∧
  (ro_Id q1 = ro_Id q2 → ro_Version q1 = ro_Version q2 → q1 = q2) ∧
  (q1 ≠ q2 → ∀ id, ¬ (∃ n ch1 ch2, fills (ro_Op q1) id n ch1 ∧ fills (ro_Op q2) id n ch2) ∧
     ¬ (∃ l1 l2, creates (ro_Op q1) id l1 ∧ creates (ro_Op q2) id l2)).
Proof.
  intros HR H1 H2. apply reachable_inv in HR as [HM _].
  split_and!; [by eapply ms_stamped|by eapply ms_unique|]. intros Hne id.
  pose proof (ms_clash _ _ _ HM q1 q2 H1 H2 Hne) as C1.
  pose proof (ms_clash _ _ _ HM q2 q1 H2 H1 (not_eq_sym Hne)) as C2. split.
  - intros (n & ch1 & ch2 & F1 & F2). by eapply fills_clash.
  - intros (l1 & l2 & (-> & E1) & (E2 & F)). apply C2. unfold clash.
    destruct E1 as [[-> _]|[-> _]]; exists l2; by split.
Qed.

(** ** Running the system *)

Inductive command : Type :=
  | CLocal (s : SiteId) (ev : local_event)
  | CReceive (s : SiteId) (i : nat)
  | CCursor (s : SiteId) (ev : cursor_event).

(** One command; [None] when the handler panics or the command is senseless. *)
Definition exec (sys : editors) (c : command) : option editors :=
  match c with
  | CLocal s ev =>
      st ← ed_sites sys !! s;
      if (dm_OpVersion (st_model st) + 1 <? w32) && (dm_NodeIdClock (st_model st) + 1 <? w32) then
        match run_local ev (st_model st) with
        | Ok (m, b) => Some (update s m (st_received st) (ed_sent sys ++ option_list b) sys)
        | _ => None
        end
      else None
  | CReceive s i =>
      st ← ed_sites sys !! s;
      op ← ed_sent sys !! i;
      match ApplyRemoteOperation (st_model st) op with
      | Ok m => Some (update s m (op :: st_received st) (ed_sent sys) sys)
      | _ => None
      end
  | CCursor s ev =>
      st ← ed_sites sys !! s;
      match run_cursor ev (dm_Buffer (st_model st)) with
      | Ok buf => Some (update s (set_text (dm_Treedoc (st_model st)) buf (st_model st))
                          (st_received st) (ed_sent sys) sys)
      | _ => None
      end
  end.

Lemma exec_step sys c sys' : exec sys c = Some sys' → editor_step sys sys'.
Proof.
  destruct c as [s ev|s i|s ev]; simpl; intros H; apply bind_Some in H as (st & Hs & H).
  - destruct (_ && _) eqn:Hc; [|done]. apply andb_prop in Hc as [Hv%Z.ltb_lt Hn%Z.ltb_lt].
    destruct (run_local ev (st_model st)) as [[m b]| |] eqn:HL; [|done..]. injection H as <-.
    by econstructor.
  - apply bind_Some in H as (op & Hop & H).
    destruct (ApplyRemoteOperation (st_model st) op) as [m| |] eqn:HA; [|done..]. injection H as <-.
    econstructor; [done| |done]. by eapply list_elem_of_lookup_2.
  - destruct (run_cursor ev (dm_Buffer (st_model st))) as [buf| |] eqn:HC; [|done..]. injection H as <-.
    by econstructor.
Qed.

Definition exec_all (sys : editors) (cs : list command) : option editors :=
  foldl (λ r c, r ≫= λ sys, exec sys c) (Some sys) cs.

Lemma exec_all_reachable sys cs sys' : reachable sys → exec_all sys cs = Some sys' → reachable sys'.
Proof.
  unfold exec_all. revert sys. induction cs as [|c cs IH]; intros sys Hr; simpl; [by intros [= <-]|].
  destruct (exec sys c) as [sys1|] eqn:E.
  - apply IH. eapply reachable_step; [done|by eapply exec_step].
  - intros H. exfalso. clear -H. induction cs as [|c cs IH]; [done|by apply IH].
Qed.

Definition fresh_site (s : SiteId) (width : Z) : site :=
  match NewDocumentModel s width true with
  | Ok m => mkSite m []
  | _ => mkSite (mkDocumentModel s 0 0 NewDocument (mkBuffer 0 0 0 [] 0 0 0 0) NewLog NewQueue true) []
  end.

Definition site1 : SiteId := replicate 16 x01.
Definition site2 : SiteId := replicate 16 x02.

Definition two_sites : editors :=
  mkEditors (<[site1 := fresh_site site1 8]> (<[site2 := fresh_site site2 12]> ∅)) [].

Lemma two_sites_initial : initial two_sites.
Proof.
  split; [done|]. intros s st Hs. simpl in Hs.
  rewrite lookup_insert in Hs. case_decide as H1; [|rewrite lookup_insert in Hs; case_decide as H2].
  - injection Hs as <-. subst s. split_and!; [done|done|]. exists 8. split; [lia|]. vm_compute. reflexivity.
  - injection Hs as <-. subst s. split_and!; [done|done|]. exists 12. split; [lia|]. vm_compute. reflexivity.
  - by rewrite lookup_empty in Hs.
Qed.

(** Both type at once, the second twice; the second's operations arrive in the
    wrong order, one of them twice, and the first deletes its own character. *)
Definition sample_run : list command :=
  [CLocal site1 (TypeChar x61); CLocal site2 (TypeChar x62); CLocal site2 (TypeChar x63);
   CReceive site1 2; CReceive site1 1; CReceive site1 2; CLocal site1 Backspace;
   CReceive site2 3; CCursor site2 KeyLeft; CReceive site2 0].

Definition sample_system : editors := default two_sites (exec_all two_sites sample_run).

Lemma sample_reachable : reachable sample_system.
Proof.
  assert (∃ sys, exec_all two_sites sample_run = Some sys) as [sys H].
  { destruct (exec_all two_sites sample_run) as [sys|] eqn:E; [by exists sys|exfalso].
    assert (bool_decide (exec_all two_sites sample_run = None) = false) as Hn.
    { vm_compute. reflexivity. }
    rewrite E in Hn. done. }
  unfold sample_system. rewrite H. simpl. eapply exec_all_reachable; [|exact H].
  apply reachable_initial, two_sites_initial.
Qed.

#[export] Instance received_all_dec sys s st : Decision (received_all sys s st).
Proof.
  refine (cast_if (decide (Forall (λ q, ro_Id q = s ∨ q ∈ st_received st) (ed_sent sys))));
    unfold received_all; by rewrite <-Forall_forall.
Defined.

Definition sample_site (s : SiteId) : site := default (fresh_site s 8) (ed_sites sample_system !! s).

Lemma sample_received s : s = site1 ∨ s = site2 → received_all sample_system s (sample_site s).
Proof.
  intros [-> | ->]; apply (bool_decide_eq_true_1 _); vm_compute; reflexivity.
Qed.

Lemma sample_lookup s : s = site1 ∨ s = site2 → ed_sites sample_system !! s = Some (sample_site s).
Proof.
  intros H. unfold sample_site.
  assert (bool_decide (ed_sites sample_system !! s = None) = false) as Hn
    by (destruct H as [-> | ->]; vm_compute; reflexivity).
  apply bool_decide_eq_false in Hn. destruct (ed_sites sample_system !! s); [done|by destruct Hn].
Qed.

Lemma editors_converge_witness : ∃ text, shows (sample_site site1) text ∧ shows (sample_site site2) text.
Proof.
  apply (editors_converge sample_system site1 site2 (sample_site site1) (sample_site site2) sample_reachable).
  - apply sample_lookup. tauto.
  - apply sample_lookup. tauto.
  - apply sample_received. tauto.
  - apply sample_received. tauto.
Defined.

Lemma same_vector_same_text_witness :
  ∃ text, shows (sample_site site1) text ∧ shows (sample_site site2) text.
Proof.
  apply (same_vector_same_text sample_system site1 site2 (sample_site site1) (sample_site site2) sample_reachable).
  - apply sample_lookup. tauto.
  - apply sample_lookup. tauto.
  - assert (Compare (vector_of (sample_site site1)) (vector_of (sample_site site2)) = EQUAL) as H
      by (vm_compute; reflexivity).
    pose proof (Compare_spec (vector_of (sample_site site1)) (vector_of (sample_site site2))) as Hs.
    rewrite H in Hs. destruct Hs as [H1 H2]. intros id. specialize (H1 id). specialize (H2 id). lia.
Defined.

Lemma received_is_applied_witness :
  (∀ q, q ∈ ed_sent sample_system → ro_Version q ≤ Get (vector_of (sample_site site1)) (ro_Id q)) ∧
  (∀ q, q ∈ oq_queue (dm_Queue (st_model (sample_site site1))) →
     ro_Version q ≤ Get (vector_of (sample_site site1)) (ro_Id q)).
Proof.
  apply (received_is_applied sample_system site1 (sample_site site1) sample_reachable).
  - apply sample_lookup. tauto.
  - apply sample_received. tauto.
Defined.

Lemma site_invariant_witness :
  (∃ text, shows (sample_site site2) text) ∧
  Get (vector_of (sample_site site2)) site2 = dm_OpVersion (st_model (sample_site site2)) ∧
  (∀ id i, 1 ≤ i ≤ Get (vector_of (sample_site site2)) id →
     ∃ q, q ∈ ed_sent sample_system ∧ ro_Id q = id ∧ ro_Version q = i) ∧
  Forall (λ q, ¬ ready (vector_of (sample_site site2)) q) (oq_queue (dm_Queue (st_model (sample_site site2)))).
Proof.
  apply (site_invariant sample_system site2 (sample_site site2) sample_reachable).
  apply sample_lookup. tauto.
Defined.

Definition sample_message (i : nat) : RemoteOperation :=
  default (mkRemoteOperation NewVector [] 0 (mkOperation Treedoc.NO_OPERATION [] 0 [] 0 x00)) (ed_sent sample_system !! i).

Lemma sample_sent i : (i < 4)%nat → sample_message i ∈ ed_sent sample_system.
Proof.
  intros Hi. unfold sample_message.
  assert (length (ed_sent sample_system) = 4%nat) as Hl by (vm_compute; reflexivity).
  destruct (lookup_lt_is_Some_2 (ed_sent sample_system) i) as [q Hq]; [by rewrite Hl|].
  rewrite Hq. by eapply list_elem_of_lookup_2.
Qed.

Lemma messages_never_clash_witness :
  stamped (sample_message 1) ∧
  (ro_Id (sample_message 1) = ro_Id (sample_message 2) →
   ro_Version (sample_message 1) = ro_Version (sample_message 2) → sample_message 1 = sample_message 2) ∧
  (sample_message 1 ≠ sample_message 2 → ∀ id,
     ¬ (∃ n ch1 ch2, fills (ro_Op (sample_message 1)) id n ch1 ∧ fills (ro_Op (sample_message 2)) id n ch2) ∧
     ¬ (∃ l1 l2, creates (ro_Op (sample_message 1)) id l1 ∧ creates (ro_Op (sample_message 2)) id l2)).
Proof.
  apply (messages_never_clash sample_system (sample_message 1) (sample_message 2) sample_reachable);
    apply sample_sent; lia.
Defined.
