(* ===== verification/OperationCopies.v ===== *)
(** Operations that travel without their vector, as
    [GetMissingOperations] sends them: the queue and the document treat such a
    copy as the operation itself, when what the operation needs is there. *)
From S2P Require Import Prelude Common Version BufferOp Buffer Treedoc OperationLog OperationQueue DocumentModel.

Open Scope Z_scope.

(** ** Related computations *)

Definition res_rel {A B} (R : A → B → Prop) (a : res A) (b : res B) : Prop :=
  match a, b with
  | Ok a, Ok b => R a b
  | Panic p, Panic q => p = q
  | OutOfFuel, OutOfFuel => True
  | _, _ => False
  end.

Lemma res_rel_bind {A B C D} (R : A → B → Prop) (S : C → D → Prop) a b f g :
  res_rel R a b → (∀ x y, R x y → res_rel S (f x) (g y)) → res_rel S (a ≫= f) (b ≫= g).
Proof. destruct a, b; simpl; try done. intros H Hf. by apply Hf. Qed.

Lemma res_rel_impl {A B} (R S : A → B → Prop) a b :
  (∀ x y, R x y → S x y) → res_rel R a b → res_rel S a b.
Proof. destruct a, b; simpl; auto. Qed.

(** ** The queue *)

Definition same_op (q' q : RemoteOperation) : Prop :=
  ro_Id q' = ro_Id q ∧ ro_Version q' = ro_Version q ∧ ro_Op q' = ro_Op q.

Lemma same_op_refl q : same_op q q.
Proof. done. Qed.
#[local] Hint Resolve same_op_refl : core.

(** What a queue may hold in place of an operation: a copy of it that has
    been applied already. *)
Definition copy_of (v : VersionVector) (q' q : RemoteOperation) : Prop :=
  q' = q ∨ (same_op q' q ∧ ro_Vector q' = NewVector ∧ stale v q ∧ vle (ro_Vector q) v).

Lemma copy_of_same v q' q : copy_of v q' q → same_op q' q.
Proof. intros [->|[? _]]; done. Qed.

Lemma copy_of_mono v v' q' q : vle v v' → copy_of v q' q → copy_of v' q' q.
Proof.
  intros Hv [->|(? & ? & ? & ?)]; [by left|right]. split_and!; [done..|by eapply stale_mono|by etrans].
Qed.

Definition queue_rel (v : VersionVector) (Q' Q : OperationQueue) : Prop :=
  oq_vector Q' = oq_vector Q ∧ Forall2 (copy_of v) (oq_queue Q') (oq_queue Q).

Lemma queue_rel_mono v v' Q' Q : vle v v' → queue_rel v Q' Q → queue_rel v' Q' Q.
Proof.
  intros Hv [? HF]. split; [done|]. eapply Forall2_impl; [exact HF|]. intros ? ?. by apply copy_of_mono.
Qed.

Record deque_rel (st' st : deque_state) : Prop := {
  dr_result : Forall2 same_op (dq_result st') (dq_result st);
  dr_vector : dq_vector st' = dq_vector st;
  dr_queue : Forall2 (copy_of (dq_vector st)) (dq_queue st') (dq_queue st);
  dr_wf : vector_wf (dq_vector st);
  dr_bounded : Forall bounded (dq_queue st)
}.

Definition dequed_rel (v : VersionVector) (r' r : deque_state * nat) : Prop :=
  deque_rel r'.1 r.1 ∧ r'.2 = r.2 ∧ vle v (dq_vector r.1).

Section deque.
Context (rec : nat → deque_state → res (deque_state * nat)).
Hypothesis rec_rel : ∀ upto st' st, deque_rel st' st →
  res_rel (dequed_rel (dq_vector st)) (rec upto st') (rec upto st).

Lemma deque_loop_rel n i offset st' st :
  deque_rel st' st →
  res_rel (dequed_rel (dq_vector st)) (deque_loop rec n i offset st') (deque_loop rec n i offset st).
Proof using rec_rel.
  revert i offset st' st. induction n as [|n IH]; intros i offset [r' q' v'] [r q v] [Hr Hv Hq Hw Hb];
    cbn [dq_result dq_queue dq_vector] in *; subst v'; cbn [deque_loop dq_result dq_queue dq_vector].
  { split_and!; [by split|done..]. }
  destruct (q !! i) as [elem|] eqn:He.
  2:{ apply lookup_ge_None in He. rewrite (lookup_ge_None_2 q' i); [done|].
      by rewrite (Forall2_length _ _ _ Hq). }
  destruct (Forall2_lookup_r _ _ _ _ _ Hq He) as (elem' & He' & Hc).
  rewrite He', !require_Some, !bind_Ok. destruct (copy_of_same _ _ _ Hc) as (-> & -> & _).
  set (q0 := if decide (offset ≠ 0%nat) then <[(i - offset)%nat := elem]> q else q).
  set (q0' := if decide (offset ≠ 0%nat) then <[(i - offset)%nat := elem']> q' else q').
  assert (Forall2 (copy_of v) q0' q0 ∧ Forall bounded q0) as [Hq0 Hb0].
  { unfold q0, q0'. case_decide; [|done]. split; [by apply Forall2_insert|].
    apply Forall_insert; [done|]. by eapply Forall_lookup_1. }
  destruct (Get v (ro_Id elem) >=? ro_Version elem) eqn:Hst; [by apply IH|].
  assert (elem' = elem) as ->.
  { destruct Hc as [?|(_ & _ & Hs & _)]; [done|]. unfold stale in Hs. lia. }
  rewrite !Compare_vle. case_decide as Hle; [|by apply IH].
  assert (bounded elem) as Hbe by exact (Forall_lookup_1 _ _ _ _ Hb He).
  assert (ready v elem) as Hre by (split; [lia|done]).
  pose proof (ready_vle v elem Hw Hbe Hre) as Hgrow.
  eapply res_rel_bind.
  { apply rec_rel. split; cbn [dq_result dq_queue dq_vector]; [apply Forall2_app; [done|by repeat constructor]|done| | |done].
    - eapply Forall2_impl; [exact Hq0|]. intros ? ?. by apply copy_of_mono.
    - by apply vector_wf_Increment. }
  intros [s' o'] [s o] (Hs & Ho & Hvs). cbn [fst snd] in *. subst o'.
  eapply res_rel_impl; [|by apply IH]. intros x y (? & ? & ?). split_and!; [done..|].
  cbn [dq_vector] in Hvs. by do 2 (etrans; [eassumption|]).
Qed.
End deque.

Lemma dequeHelper_rel fuel upto st' st :
  deque_rel st' st →
  res_rel (dequed_rel (dq_vector st)) (dequeHelper fuel upto st') (dequeHelper fuel upto st).
Proof.
  revert upto st' st. induction fuel as [|fuel IH]; intros upto st' st H; [done|].
  cbn [dequeHelper]. by apply deque_loop_rel.
Qed.

(** What is enqueued: an operation, or a copy of it without its vector when
    everything it needs is there. *)
Definition incoming (v : VersionVector) (e' e : RemoteOperation) : Prop :=
  e' = e ∨ (same_op e' e ∧ ro_Vector e' = NewVector ∧ vle (ro_Vector e) v).

Lemma Enqueue_rel v Q' Q e' e :
  vector_wf v → stamped e → Forall bounded (oq_queue Q) →
  queue_rel v Q' Q → incoming v e' e →
  res_rel (λ '(ops', Q', v') '(ops, Q, v), Forall2 same_op ops' ops ∧ queue_rel v Q' Q ∧ v' = v)
    (Enqueue Q' e' v) (Enqueue Q e v).
Proof.
  intros Hw Hs Hb [Hqv Hq] He. pose proof (stamped_bounded _ Hs) as Hbe.
  assert (same_op e' e) as Hsame by (destruct He as [->|[? _]]; done).
  assert (copy_of v e' e ∨ Get v (ro_Id e) = ro_Version e - 1) as Hwait.
  { destruct He as [->|(_ & Hnew & Hle)]; [left; by left|]. specialize (Hle (ro_Id e)) as Hle'.
    destruct Hs as [Hs1 Hs2]. destruct (Z.eq_dec (Get v (ro_Id e)) (ro_Version e - 1)); [by right|left; right].
    split_and!; [done..|unfold stale; lia|done]. }
  assert (Get v (ro_Id e) = ro_Version e - 1 → vle (ro_Vector e') v ↔ vle (ro_Vector e) v) as Hcmp.
  { intros _. destruct He as [->|(_ & -> & Hle)]; [done|]. split; [done|]. intros _ id.
    unfold NewVector. rewrite Get_empty. apply Hw. }
  unfold Enqueue. destruct Hsame as (E1 & E2 & E3). rewrite E1, E2.
  rewrite wrap32_pred by (apply Hs).
  destruct (Z.eqb_spec (Get v (ro_Id e)) (ro_Version e - 1)) as [Hg|Hg].
  2:{ split_and!; [constructor| |done]. split; [done|]. apply Forall2_app; [done|].
      constructor; [|constructor]. by destruct Hwait. }
  rewrite !Compare_vle. destruct (decide (vle (ro_Vector e) v)) as [Hle|Hle].
  2:{ rewrite decide_False by (by rewrite Hcmp). split_and!; [constructor| |done]. split; [done|].
      apply Forall2_app; [done|]. constructor; [|constructor]. destruct He as [->|(_ & _ & ?)]; [by left|done]. }
  rewrite decide_True by (by rewrite Hcmp). rewrite (Forall2_length _ _ _ Hq).
  assert (ready v e) as Hre by (split; [lia|done]).
  pose proof (ready_vle v e Hw Hbe Hre) as Hgrow.
  eapply res_rel_bind.
  { apply (dequeHelper_rel _ _ _ (mkDeque [e] (oq_queue Q) (Increment v (ro_Id e)))).
    split; cbn [dq_result dq_queue dq_vector]; [by repeat constructor|done| | |done].
    - eapply Forall2_impl; [exact Hq|]. intros ? ?. by apply copy_of_mono.
    - by apply vector_wf_Increment. }
  intros [s' o'] [s o] ([D1 D2 D3 D4 D5] & Ho & Hvs). cbn [fst snd] in *. subst o'. split_and!; [done| |done].
  split; [done|]. cbn [oq_queue]. rewrite (Forall2_length _ _ _ D3). by apply Forall2_take.
Qed.

Lemma Enqueue_vector Q e v ops Q1 v1 : Enqueue Q e v = Ok (ops, Q1, v1) → oq_vector Q1 = oq_vector Q.
Proof.
  unfold Enqueue. destruct (_ =? _); [|by intros [= <- <- <-]].
  rewrite Compare_vle. case_decide; [|by intros [= <- <- <-]].
  intros ([st o] & _ & E)%bind_Ok_inv. by injection E as <- <- <-.
Qed.

(** ** The document *)

(** The real document and the one whose queue holds the operations
    themselves. *)
Definition model_rel (m' m : DocumentModel) : Prop :=
  m' = set_queue (dm_Queue m') m ∧ queue_rel (lg_Vector (dm_Log m)) (dm_Queue m') (dm_Queue m).

(** The handlers read and write the queue only in [Enqueue]. *)
Lemma apply_remote_queue Q m q' q :
  same_op q' q →
  apply_remote (set_queue Q m) q' = (m1 ← apply_remote m q; Ok (set_queue Q m1)).
Proof.
  intros (E1 & E2 & E3). unfold apply_remote. rewrite E1, E2, E3. cbn [dm_Treedoc dm_Buffer set_queue].
  destruct (Treedoc.ApplyOperation _ _) as [[doc bop]| |]; [|done..]. rewrite !bind_Ok.
  destruct (Buffer.ApplyOperation _ _) as [buf| |]; [|done..]. rewrite !bind_Ok.
  unfold AssertEqual. cbn [dm_Buffer dm_Treedoc set_log set_text].
  destruct (Buffer.ToString buf) as [b| |]; [|done..]. rewrite !bind_Ok.
  destruct (DocToString doc) as [d| |]; [|done..]. rewrite !bind_Ok. by case_decide.
Qed.

Lemma apply_all_queue Q m ops' ops :
  Forall2 same_op ops' ops →
  foldM apply_remote (set_queue Q m) ops' = (m1 ← foldM apply_remote m ops; Ok (set_queue Q m1)).
Proof.
  intros H. revert m. induction H as [|q' q ops' ops Hq _ IH]; intros m; [done|]. cbn [foldM].
  rewrite (apply_remote_queue Q m q' q) by done. destruct (apply_remote m q) as [m1| |]; [|done..].
  rewrite !bind_Ok. apply IH.
Qed.

Lemma log_local_queue Q m op :
  log_local op (set_queue Q m) = ('(m1, b) ← log_local op m; Ok (set_queue Q m1, b)).
Proof.
  unfold log_local, AssertEqual. cbn [dm_Buffer dm_Treedoc set_log set_clocks set_queue dm_Log dm_OwnerId dm_OpVersion dm_BroadcastRemote].
  destruct (Buffer.ToString _) as [b| |]; [|done..]. rewrite !bind_Ok.
  destruct (DocToString _) as [d| |]; [|done..]. rewrite !bind_Ok. by case_decide.
Qed.

Lemma LocalInsert_queue Q m ch :
  LocalInsert (set_queue Q m) ch = ('(m1, b) ← LocalInsert m ch; Ok (set_queue Q m1, b)).
Proof.
  unfold LocalInsert. cbn [dm_Buffer dm_Treedoc set_queue dm_OwnerId dm_NodeIdClock].
  destruct (InsertAtCurrent _ _) as [buf| |]; [|done..]. rewrite !bind_Ok.
  destruct (InsertPos _ _ _ _) as [[doc op]| |]; [|done..]. rewrite !bind_Ok.
  rewrite <-log_local_queue. by destruct (op_Type op).
Qed.

Lemma LocalBackspace_queue Q m :
  LocalBackspace (set_queue Q m) = ('(m1, b) ← LocalBackspace m; Ok (set_queue Q m1, b)).
Proof.
  unfold LocalBackspace. cbn [dm_Buffer dm_Treedoc set_queue]. destruct (_ <? 0); [done|].
  destruct (BackspaceAtCurrent _) as [buf| |]; [|done..]. rewrite !bind_Ok.
  destruct (DeletePos _ _) as [[doc op]| |]; [|done..]. rewrite !bind_Ok. by rewrite <-log_local_queue.
Qed.

Lemma LocalDelete_queue Q m :
  LocalDelete (set_queue Q m) = ('(m1, b) ← LocalDelete m; Ok (set_queue Q m1, b)).
Proof.
  unfold LocalDelete. cbn [dm_Buffer dm_Treedoc set_queue]. destruct (_ >=? _); [done|].
  destruct (DeleteAtCurrent _) as [buf| |]; [|done..]. rewrite !bind_Ok.
  destruct (DeletePos _ _) as [[doc op]| |]; [|done..]. rewrite !bind_Ok. by rewrite <-log_local_queue.
Qed.
