(* ===== verification/EditorSync.v ===== *)
(** Sites that ask each other for missing operations, as the periodic version
    check does: broadcasts may be lost, and the operations that are sent again
    come without their vectors
    (CPSC418/project/documentmanager, gui/gui.go, network/session.go). *)
From S2P Require Import Prelude Common Version BufferOp Buffer Treedoc OperationLog OperationQueue DocumentModel DocumentProps DocumentSync EditorSystem EditorConverges OperationCopies.

Open Scope Z_scope.

(** ** The system *)

(** An answer that a site has not applied to its end, and the vector of the
    site that gave it (only for the proofs). *)
Record reply : Type := mkReply {
  rp_to : SiteId;
  rp_ops : list RemoteOperation;
  rp_vector : VersionVector
}.

(** The documents, the operations that were broadcast, the questions that
    were sent, and the answers. *)
Record network : Type := mkNetwork {
  nw_models : gmap SiteId DocumentModel;
  nw_sent : list RemoteOperation;
  nw_asked : list (SiteId * VersionVector);
  nw_replies : list reply
}.

Definition set_model (s : SiteId) (m : DocumentModel) (net : network) : network :=
  mkNetwork (<[s := m]> (nw_models net)) (nw_sent net) (nw_asked net) (nw_replies net).

(** A handler runs and returns. A site applies an answer operation by
    operation, and other handlers run in between; a broadcast, a question or
    an answer may never arrive, or more than once. *)
Inductive sync_step (net : network) : network → Prop :=
  | sync_local s m ev m1 b :
      nw_models net !! s = Some m →
      dm_OpVersion m + 1 < w32 → dm_NodeIdClock m + 1 < w32 →
      run_local ev m = Ok (m1, b) →
      sync_step net (mkNetwork (<[s := m1]> (nw_models net)) (nw_sent net ++ option_list b)
        (nw_asked net) (nw_replies net))
  | sync_receive s m op m1 :
      nw_models net !! s = Some m → op ∈ nw_sent net →
      ApplyRemoteOperation m op = Ok m1 → sync_step net (set_model s m1 net)
  | sync_cursor s m ev buf :
      nw_models net !! s = Some m → run_cursor ev (dm_Buffer m) = Ok buf →
      sync_step net (set_model s (set_text (dm_Treedoc m) buf m) net)
  | sync_resize s m width buf :
      nw_models net !! s = Some m → 4 ≤ width → Resize (dm_Buffer m) width = Ok buf →
      sync_step net (set_model s (set_text (dm_Treedoc m) buf m) net)
  | sync_ask s m :
      nw_models net !! s = Some m →
      sync_step net (mkNetwork (nw_models net) (nw_sent net)
        ((s, GetVersionVectorReceived m) :: nw_asked net) (nw_replies net))
  | sync_answer t m s vector ops queueOps :
      nw_models net !! t = Some m → (s, vector) ∈ nw_asked net →
      GetMissingOperations m vector = Ok (ops, queueOps) →
      sync_step net (mkNetwork (nw_models net) (nw_sent net) (nw_asked net)
        (mkReply s (ops ++ queueOps) (lg_Vector (dm_Log m)) :: nw_replies net))
  | sync_apply s m op ops goal others m1 :
      nw_models net !! s = Some m →
      nw_replies net ≡ₚ mkReply s (op :: ops) goal :: others →
      ApplyRemoteOperation m op = Ok m1 →
      sync_step net (mkNetwork (<[s := m1]> (nw_models net)) (nw_sent net) (nw_asked net)
        (mkReply s ops goal :: others))
  | sync_again r :
      r ∈ nw_replies net →
      sync_step net (mkNetwork (nw_models net) (nw_sent net) (nw_asked net) (r :: nw_replies net)).

Definition sync_initial (net : network) : Prop :=
  nw_sent net = [] ∧ nw_asked net = [] ∧ nw_replies net = [] ∧
  ∀ s m, nw_models net !! s = Some m → site_id_wf s ∧
    ∃ width, 4 ≤ width ∧ NewDocumentModel s width true = Ok m.

Inductive sync_reachable : network → Prop :=
  | sync_reachable_initial net : sync_initial net → sync_reachable net
  | sync_reachable_step net net' : sync_reachable net → sync_step net net' → sync_reachable net'.

(** ** Answers that can be applied from front to back *)

(** What a site counts, and what it counts after an operation. *)
Abbreviation count := (SiteId → Z).
Definition raise (K : count) (id : SiteId) (version : Z) : count :=
  λ x, if decide (id = x) then K x `max` version else K x.

(** Applied from front to back by a site that counts at least [K], every
    operation without its vector finds its causes there; the site then counts
    at least [K']. When [whole] holds the list may also have operations with
    their vectors, which can wait in the queue. *)
Inductive chain (whole : Prop) (M : list RemoteOperation) : count → list RemoteOperation → count → Prop :=
  | chain_nil K : chain whole M K [] K
  | chain_whole K q l K' : whole → q ∈ M → chain whole M K l K' → chain whole M K (q :: l) K'
  | chain_bare K q' q l K' :
      q ∈ M → same_op q' q → ro_Vector q' = NewVector → (∀ x, Get (ro_Vector q) x ≤ K x) →
      chain whole M (raise K (ro_Id q) (ro_Version q)) l K' → chain whole M K (q' :: l) K'.

Definition cle (K1 K2 : count) : Prop := ∀ x, K1 x ≤ K2 x.

Lemma raise_mono K1 K2 id n : cle K1 K2 → cle (raise K1 id n) (raise K2 id n).
Proof. intros H x. unfold raise. specialize (H x). case_decide; lia. Qed.
Lemma raise_below K1 K2 id n : cle K1 K2 → n ≤ K2 id → cle (raise K1 id n) K2.
Proof. intros H Hn x. unfold raise. specialize (H x). case_decide; [subst|]; lia. Qed.
Lemma raise_above K id n : cle K (raise K id n).
Proof. intros x. unfold raise. case_decide; lia. Qed.

Lemma chain_mono whole M M2 K l K' K2 :
  chain whole M K l K' → (∀ q, q ∈ M → q ∈ M2) → cle K K2 →
  ∃ K2', chain whole M2 K2 l K2' ∧ cle K' K2'.
Proof.
  intros H HM. revert K2. induction H as [K|K q l K' Hw Hq _ IH|K q' q l K' Hq Hs Hv Hc _ IH]; intros K2 HK.
  - exists K2. split; [constructor|done].
  - destruct (IH K2 HK) as (K2' & ? & ?). exists K2'. split; [by apply chain_whole; auto|done].
  - destruct (IH (raise K2 (ro_Id q) (ro_Version q))) as (K2' & ? & ?); [by apply raise_mono|].
    exists K2'. split; [|done]. eapply chain_bare; eauto. intros x. etrans; [apply Hc|apply HK].
Qed.

Lemma chain_grows whole M K l K' : chain whole M K l K' → cle K K'.
Proof.
  induction 1 as [K|K q l K' Hw Hq _ IH|K q' q l K' Hq Hs Hv Hc _ IH]; [by intros x|done|].
  intros x. etrans; [|apply IH]. apply raise_above.
Qed.

Lemma chain_app whole M K l1 K1 l2 K2 :
  chain whole M K l1 K1 → chain whole M K1 l2 K2 → chain whole M K (l1 ++ l2) K2.
Proof.
  intros H H2. induction H as [K|K q l K' Hw Hq _ IH|K q' q l K' Hq Hs Hv Hc _ IH]; simpl;
    [done|apply chain_whole; auto|eapply chain_bare; eauto].
Qed.

(** The operations of a log that a vector does not count. *)
Lemma chain_newer M K E K' v K2 :
  chain False M K (entry_op <$> E) K' → cle K K2 → cle (Get v) K2 →
  ∃ K2', chain True M K2 (entry_op <$> filter (newer v) E) K2' ∧ cle K' K2'.
Proof.
  revert K K2. induction E as [|e E IH]; intros K K2 H HK Hv.
  - inversion H; subst. exists K2. rewrite filter_nil. split; [constructor|done].
  - inversion H as [|? ? ? ? []|? ? q ? ? Hq (E1 & E2 & E3) Hvq Hc Hch]; subst.
    cbn [entry_op ro_Id ro_Version ro_Op] in E1, E2, E3. rewrite filter_cons. case_decide as Hn.
    + destruct (IH _ (raise K2 (ro_Id q) (ro_Version q)) Hch) as (K2' & Hch' & Hle).
      { by apply raise_mono. }
      { intros x. etrans; [apply Hv|apply raise_above]. }
      exists K2'. split; [|done]. cbn [fmap list_fmap]. eapply chain_bare; [exact Hq|by split_and!|done| |exact Hch'].
      intros x. etrans; [apply Hc|apply HK].
    + apply (IH _ _ Hch); [|done]. apply raise_below; [done|]. unfold newer in Hn.
      rewrite <-E1, <-E2. specialize (Hv (le_Id e)). lia.
Qed.

(** ** The log of a site *)

Definition log_chain (M : list RemoteOperation) (log : OperationLog) : Prop :=
  ∃ K', chain False M (λ _, 0) (entry_op <$> lg_Log log) K' ∧ cle (Get (lg_Vector log)) K'.

Lemma log_chain_mono M M2 log : (∀ q, q ∈ M → q ∈ M2) → log_chain M log → log_chain M2 log.
Proof.
  intros HM (K' & Hc & Hle). destruct (chain_mono _ _ M2 _ _ _ (λ _, 0) Hc HM) as (K2 & ? & Hle2); [by intros x|].
  exists K2. split; [done|]. intros x. etrans; [apply Hle|apply Hle2].
Qed.

Lemma log_chain_Write M log q :
  log_chain M log → q ∈ M → vle (ro_Vector q) (lg_Vector log) →
  log_chain M (Write log (ro_Id q) (ro_Version q) (ro_Op q)).
Proof.
  intros (K' & Hc & Hle) Hq Hv. exists (raise K' (ro_Id q) (ro_Version q)). split.
  - cbn [Write lg_Log]. rewrite fmap_app. eapply chain_app; [exact Hc|].
    eapply (chain_bare _ _ _ _ q); [done..| |constructor]. intros x. etrans; [apply Hv|apply Hle].
  - intros x. cbn [Write lg_Vector]. rewrite Get_IncrementTo. unfold raise. specialize (Hle x).
    case_decide; [subst|]; lia.
Qed.

Lemma log_chain_writes clocks versions M log ops v' :
  messages_ok clocks versions M → log_chain M log → vector_wf (lg_Vector log) →
  Forall (λ q, q ∈ M) ops → delivers (lg_Vector log) ops v' → log_chain M (writes log ops).
Proof.
  intros HM. revert log. induction ops as [|q ops IH]; intros log Hlog Hw; [done|].
  intros [Hq HF]%Forall_cons [Hr Hd]. apply IH; [by apply log_chain_Write; [..|apply Hr]| |done|];
    rewrite (Write_ready _ _ _ HM) by done; [by apply vector_wf_Increment|done].
Qed.

(** The vector of the queue stays empty. *)
Record log_inv (M : list RemoteOperation) (m : DocumentModel) : Prop := {
  lv_chain : log_chain M (dm_Log m);
  lv_queue : oq_vector (dm_Queue m) = NewVector
}.

Lemma log_inv_vector M m : log_inv M m → vector_wf (lg_Vector (dm_Log m)) →
  veq (GetVersionVectorReceived m) (lg_Vector (dm_Log m)).
Proof.
  intros [_ Hq] Hw id. rewrite received_vector by done. rewrite Hq. unfold NewVector. rewrite Get_empty.
  specialize (Hw id). lia.
Qed.

(** The operations of a queue. *)
Lemma queue_chain M v P `{!∀ q, Decision (P q)} l' l K :
  Forall2 (copy_of v) l' l → (∀ q, q ∈ l → q ∈ M) → cle (Get v) K →
  ∃ K', chain True M K (filter P l') K' ∧ cle K K'.
Proof.
  intros HF. revert K. induction HF as [|q' q l' l Hq _ IH]; intros K HM HK.
  { exists K. split; [constructor|by intros x]. }
  assert (q ∈ M) as HqM by set_solver. assert (∀ q, q ∈ l → q ∈ M) as HM' by set_solver.
  rewrite filter_cons. case_decide as Hp; [|by apply IH]. destruct Hq as [->|(Hs & Hn & _ & Hc)].
  - destruct (IH K HM' HK) as (K' & ? & ?). exists K'. split; [by apply chain_whole|done].
  - destruct (IH (raise K (ro_Id q) (ro_Version q)) HM') as (K' & ? & Hle).
    { intros x. etrans; [apply HK|apply raise_above]. }
    exists K'. split; [|intros x; etrans; [apply raise_above|apply Hle]].
    eapply chain_bare; try done. intros x. etrans; [apply Hc|apply HK].
Qed.

(** What a site answers can be applied by the site that asked. *)
Lemma answer_chain M m m' v K ops queueOps :
  log_inv M m → (∀ q, q ∈ oq_queue (dm_Queue m) → q ∈ M) →
  vector_wf (lg_Vector (dm_Log m)) → model_rel m' m → cle (Get v) K → (∀ x, 0 ≤ K x) →
  GetMissingOperations m' v = Ok (ops, queueOps) →
  ∃ K', chain True M K (ops ++ queueOps) K' ∧ cle (Get (lg_Vector (dm_Log m))) K'.
Proof.
  intros Hinv HQ Hw [Hm [Hqv Hqq]] Hv H0. rewrite Hm. pose proof (log_inv_vector _ _ Hinv Hw) as Hrec.
  destruct Hinv as [(Kl & Hc & Hle) _]. unfold GetMissingOperations.
  assert (GetVersionVectorReceived (set_queue (dm_Queue m') m) = GetVersionVectorReceived m) as ->.
  { unfold GetVersionVectorReceived. cbn [set_queue dm_Log dm_Queue]. by rewrite Hqv. }
  cbn [set_queue dm_Log dm_Queue].
  pose proof (Compare_behind (GetVersionVectorReceived m) v) as Hcmp.
  assert (vle (GetVersionVectorReceived m) v → ∃ K', chain True M K ([] ++ []) K' ∧
    cle (Get (lg_Vector (dm_Log m))) K') as Hnone.
  { intros Hb. exists K. split; [constructor|]. intros x. rewrite <-(Hrec x). etrans; [apply Hb|apply Hv]. }
  destruct (Compare _ v); try (intros [= <- <-]; by apply Hnone).
  all: rewrite log_GetMissingOperations_ok, bind_Ok, queue_GetMissingOperations_ok; intros [= <- <-].
  all: destruct (chain_newer M (λ _, 0) (lg_Log (dm_Log m)) Kl v K) as (K1 & Hc1 & Hle1); [done..|].
  all: destruct (queue_chain M _ (λ op, Get v (ro_Id op) < ro_Version op) _ _ K1 Hqq HQ) as (K2 & Hc2 & Hle2);
    [intros x; etrans; [apply Hle|apply Hle1]|].
  all: exists K2; split; [by eapply chain_app|intros x; etrans; [apply Hle|etrans; [apply Hle1|apply Hle2]]].
Qed.

(** ** Refinement of the system where broadcasts are all that is sent *)

Definition site_rel (M : list RemoteOperation) (om : option DocumentModel) (os : option site) : Prop :=
  match om, os with
  | Some m', Some st => model_rel m' (st_model st) ∧ log_inv M (st_model st)
  | None, None => True
  | _, _ => False
  end.

Definition question_ok (sys : editors) (p : SiteId * VersionVector) : Prop :=
  ∃ st, ed_sites sys !! p.1 = Some st ∧ vle p.2 (vector_of st).

Definition reply_ok (sys : editors) (r : reply) : Prop :=
  ∃ st K', ed_sites sys !! rp_to r = Some st ∧
    chain True (ed_sent sys) (Get (vector_of st)) (rp_ops r) K' ∧ cle (Get (rp_vector r)) K'.

Record refines (net : network) (sys : editors) : Prop := {
  rf_reach : reachable sys;
  rf_sent : ed_sent sys = nw_sent net;
  rf_sites s : site_rel (ed_sent sys) (nw_models net !! s) (ed_sites sys !! s);
  rf_asked p : p ∈ nw_asked net → question_ok sys p;
  rf_replies r : r ∈ nw_replies net → reply_ok sys r
}.

Lemma refines_site net sys s m' :
  refines net sys → nw_models net !! s = Some m' →
  ∃ st, ed_sites sys !! s = Some st ∧ model_rel m' (st_model st) ∧ log_inv (ed_sent sys) (st_model st).
Proof.
  intros HR Hs. pose proof (rf_sites _ _ HR s) as H. rewrite Hs in H. unfold site_rel in H.
  destruct (ed_sites sys !! s) as [st|]; [|done]. by exists st.
Qed.

(** One site moves on. *)
Section update.
Context (net : network) (sys : editors) (s : SiteId) (st : site) (m1' m1 : DocumentModel).
Context (received M2 : list RemoteOperation).
Hypothesis HR : refines net sys.
Hypothesis Hs : ed_sites sys !! s = Some st.
Hypothesis HM : ∀ q, q ∈ ed_sent sys → q ∈ M2.
Hypothesis Hv : vle (vector_of st) (lg_Vector (dm_Log m1)).

Let sys1 := update s m1 received M2 sys.

Lemma update_grows s0 st0 :
  ed_sites sys !! s0 = Some st0 → ∃ st1, ed_sites sys1 !! s0 = Some st1 ∧ vle (vector_of st0) (vector_of st1).
Proof using Hs Hv.
  intros H0. unfold sys1, update. cbn [ed_sites]. rewrite lookup_insert. case_decide as Hd.
  - subst s0. rewrite Hs in H0. injection H0 as <-. by eexists.
  - by exists st0.
Qed.

Lemma update_question p : question_ok sys p → question_ok sys1 p.
Proof using Hs Hv.
  intros (st0 & H0 & Hle). destruct (update_grows _ _ H0) as (st1 & ? & ?). exists st1. split; [done|by etrans].
Qed.

Lemma update_reply r : reply_ok sys r → reply_ok sys1 r.
Proof using Hs Hv HM.
  intros (st0 & K & H0 & Hc & Hle). destruct (update_grows _ _ H0) as (st1 & H1 & Hle1).
  destruct (chain_mono _ _ M2 _ _ _ (Get (vector_of st1)) Hc HM Hle1) as (K1 & Hc1 & HK).
  exists st1, K1. split_and!; [done..|]. intros x. etrans; [apply Hle|apply HK].
Qed.

Lemma refines_update asked replies :
  reachable sys1 → model_rel m1' m1 → log_inv M2 m1 →
  (∀ p, p ∈ asked → p ∈ nw_asked net) →
  (∀ r, r ∈ replies → r ∈ nw_replies net ∨ reply_ok sys1 r) →
  refines (mkNetwork (<[s := m1']> (nw_models net)) M2 asked replies) sys1.
Proof using All.
  intros Hreach Hrel Hlog Ha Hr. split; cbn [nw_models nw_sent nw_asked nw_replies]; [done|done|..].
  - intros s0. unfold sys1, update. cbn [ed_sites ed_sent]. rewrite !lookup_insert. case_decide; [done|].
    pose proof (rf_sites _ _ HR s0) as H0. unfold site_rel in *.
    destruct (nw_models net !! s0), (ed_sites sys !! s0); try done. destruct H0 as [? [? ?]].
    split; [done|]. split; [|done]. by eapply log_chain_mono.
  - intros p Hp. by apply update_question, (rf_asked _ _ HR), Ha.
  - intros r Hin. destruct (Hr r Hin) as [?|?]; [|done]. by apply update_reply, (rf_replies _ _ HR).
Qed.
End update.

(** What the invariant of the simple system says of a site. *)
Lemma site_facts sys s st :
  editors_inv sys → ed_sites sys !! s = Some st →
  vector_wf (vector_of st) ∧ (∀ q, q ∈ oq_queue (dm_Queue (st_model st)) → q ∈ ed_sent sys).
Proof.
  intros [_ HS] Hs. destruct (HS s st Hs) as [[_ _ _ [text Sm] _ _ _] [Q1 _ _]]. split; [apply Sm|done].
Qed.

(** A site gets an operation, with its vector or as a copy that it can use. *)
Lemma receive_refines net sys s st m' e' e m1' :
  refines net sys → ed_sites sys !! s = Some st → model_rel m' (st_model st) → log_inv (ed_sent sys) (st_model st) →
  e ∈ ed_sent sys → incoming (vector_of st) e' e → ApplyRemoteOperation m' e' = Ok m1' →
  ∃ m1, editor_step sys (update s m1 (e :: st_received st) (ed_sent sys) sys) ∧
    model_rel m1' m1 ∧ log_inv (ed_sent sys) m1 ∧ vle (vector_of st) (lg_Vector (dm_Log m1)) ∧
    (vle (ro_Vector e) (vector_of st) → stale (lg_Vector (dm_Log m1)) e).
Proof.
  intros HR Hs [Hm [Hqv Hqq]] [Hlc Hq0] He Hin H. pose proof (reachable_inv _ (rf_reach _ _ HR)) as HI.
  destruct (site_facts _ _ _ HI Hs) as [Hw HQ]. destruct HI as [HM HS].
  destruct (HS s st Hs) as [Hsite Hqi]. pose proof (ms_stamped _ _ _ HM) as Hst.
  assert (Forall bounded (oq_queue (dm_Queue (st_model st)))) as Hb.
  { apply Forall_forall. intros q Hq. by apply stamped_bounded, Hst, HQ. }
  assert (∃ ops Q1 v1, Enqueue (dm_Queue (st_model st)) e (vector_of st) = Ok (ops, Q1, v1)) as (ops & Q1 & v1 & HE).
  { destruct (Enqueue_causal (dm_Queue (st_model st)) e (vector_of st)) as (? & ? & ? & ? & HE & _); eauto; [|apply Hqi].
    apply Forall_cons. split; [by apply Hst|]. apply Forall_forall. intros q Hq. by apply Hst, HQ. }
  pose proof (Enqueue_rel (vector_of st) (dm_Queue m') (dm_Queue (st_model st)) e' e Hw (Hst _ He) Hb
    (conj Hqv Hqq) Hin) as Hrel.
  unfold ApplyRemoteOperation in H. rewrite Copy_eq in H.
  assert (lg_Vector (dm_Log m') = vector_of st) as Hvm by (by rewrite Hm). rewrite Hvm, HE in *.
  destruct (Enqueue (dm_Queue m') e' (vector_of st)) as [[[ops' Q1'] v1']| |]; [|done..].
  destruct Hrel as (Hops & Hq1 & ->). rewrite bind_Ok in H.
  assert (set_queue Q1' m' = set_queue Q1' (set_queue Q1 (st_model st))) as EQ by (by rewrite Hm).
  rewrite EQ, (apply_all_queue Q1' _ _ _ Hops) in H. apply bind_Ok_inv in H as (m1 & H & [= <-]).
  assert (ApplyRemoteOperation (st_model st) e = Ok m1) as HA.
  { unfold ApplyRemoteOperation. rewrite Copy_eq. fold (vector_of st). rewrite HE, bind_Ok. exact H. }
  destruct (receive_ok _ _ _ HM s (st_model st) (st_received st) e m1 Hsite Hqi) as
    (Hsite1 & [_ Q2 Q3] & _ & _ & (ops2 & Q2' & v2 & HE2 & HF & Hd & Hlog & Hv2 & HQ2)); [by apply version_of_site|done..|].
  fold (vector_of st) in HE2. rewrite HE in HE2. injection HE2 as <- <- <-.
  assert (vle (vector_of st) (lg_Vector (dm_Log m1))) as Hle.
  { rewrite Hv2. eapply delivers_mono; [exact Hw| |exact Hd]. eapply Forall_impl; [exact HF|].
    intros q Hq. by apply stamped_bounded, Hst. }
  exists m1. split_and!; [by eapply step_receive| | |done|].
  - split; [done|]. cbn [set_queue dm_Queue]. rewrite Hv2, HQ2. done.
  - split; [|by rewrite HQ2, (Enqueue_vector _ _ _ _ _ _ HE)].
    rewrite Hlog. by eapply log_chain_writes.
  - intros Hc. destruct (Q3 e) as [?|Hin2]; [by left|done|].
    destruct (Z.le_gt_cases (ro_Version e) (Get (lg_Vector (dm_Log m1)) (ro_Id e))) as [?|Hgt]; [done|].
    exfalso. pose proof (proj1 (Forall_forall _ _) Q2 e Hin2) as Hnr. apply Hnr. split; [lia|by etrans].
Qed.

(** A local handler. *)
Lemma run_local_queue Q m ev :
  run_local ev (set_queue Q m) = ('(m1, b) ← run_local ev m; Ok (set_queue Q m1, b)).
Proof. destruct ev; [apply LocalInsert_queue|apply LocalBackspace_queue|apply LocalDelete_queue]. Qed.

Lemma local_refines net sys s st m' ev m1' b :
  refines net sys → ed_sites sys !! s = Some st → model_rel m' (st_model st) → log_inv (ed_sent sys) (st_model st) →
  dm_OpVersion m' + 1 < w32 → dm_NodeIdClock m' + 1 < w32 → run_local ev m' = Ok (m1', b) →
  ∃ m1, editor_step sys (update s m1 (st_received st) (ed_sent sys ++ option_list b) sys) ∧
    model_rel m1' m1 ∧ log_inv (ed_sent sys ++ option_list b) m1 ∧ vle (vector_of st) (lg_Vector (dm_Log m1)).
Proof.
  intros HR Hs [Hm Hq] [Hlc Hq0] Hv Hc H. pose proof (reachable_inv _ (rf_reach _ _ HR)) as HI.
  assert (dm_OpVersion m' = dm_OpVersion (st_model st) ∧ dm_NodeIdClock m' = dm_NodeIdClock (st_model st))
    as [Ev Ec] by (by rewrite Hm). rewrite Ev in Hv. rewrite Ec in Hc. clear Ev Ec.
  rewrite Hm, run_local_queue in H. apply bind_Ok_inv in H as ([m1 b1] & H & [= <- <-]).
  assert (editor_step sys (update s m1 (st_received st) (ed_sent sys ++ option_list b1) sys)) as Hstep
    by (by eapply step_local).
  exists m1. split; [done|]. destruct (run_local_op sys s st ev m1 b1 HI Hs H) as [[-> ->]|[op Hop]].
  - rewrite app_nil_r. split_and!; [by split|by split|done].
  - destruct HI as [HM HS]. destruct (HS s st Hs) as [Hsite _].
    pose proof (new_vector_le _ _ _ Hsite _ _ _ Hop Hv) as Hle. pose proof (lo_message _ _ _ _ Hop) as Hb.
    rewrite (si_broadcasts _ _ _ Hsite) in Hb. subst b1. split_and!; [| |done].
    + split; [done|]. cbn [set_queue dm_Queue]. rewrite (lo_queue _ _ _ _ Hop). by eapply queue_rel_mono.
    + split; [|by rewrite (lo_queue _ _ _ _ Hop)]. rewrite (lo_log _ _ _ _ Hop).
      set (msg := mkRemoteOperation _ _ _ _).
      apply (log_chain_Write _ _ msg); [|set_solver|done]. eapply log_chain_mono; [|exact Hlc]. set_solver.
Qed.

(** A handler that touches the screen only. *)
Lemma buffer_refines net sys s st m' buf :
  refines net sys → ed_sites sys !! s = Some st → model_rel m' (st_model st) → log_inv (ed_sent sys) (st_model st) →
  reachable (update s (set_text (dm_Treedoc (st_model st)) buf (st_model st)) (st_received st) (ed_sent sys) sys) →
  refines (set_model s (set_text (dm_Treedoc m') buf m') net)
    (update s (set_text (dm_Treedoc (st_model st)) buf (st_model st)) (st_received st) (ed_sent sys) sys).
Proof.
  intros HR Hs [Hm Hq] [Hlc Hq0] Hreach. unfold set_model. rewrite <-(rf_sent _ _ HR).
  eapply refines_update; try done; [|by left]. split; [by rewrite Hm|]. exact Hq.
Qed.

Lemma sync_step_refines net net' sys :
  refines net sys → sync_step net net' → ∃ sys', refines net' sys'.
Proof.
  intros HR Hstep. destruct Hstep as
    [s m ev m1 b Hs Hv Hc H|s m op m1 Hs Hop H|s m ev buf Hs H|s m width buf Hs Hw H|s m Hs
    |t m s v ops queueOps Hs Hin H|s m op ops goal others m1 Hs Hp H|r Hin];
    try (destruct (refines_site _ _ _ _ HR Hs) as (st & Hst & Hrel & Hlog)); pose proof (rf_reach _ _ HR) as Hreach.
  - destruct (local_refines net sys s st m ev m1 b HR Hst Hrel Hlog Hv Hc H) as (m2 & Hstep & Hrel2 & Hlog2 & Hle).
    eexists. rewrite <-(rf_sent _ _ HR).
    eapply refines_update; try done; [set_solver|by eapply reachable_step|by left].
  - rewrite <-(rf_sent _ _ HR) in Hop.
    destruct (receive_refines net sys s st m op op m1 HR Hst Hrel Hlog Hop) as (m2 & Hstep & Hrel2 & Hlog2 & Hle & _);
      [by left|done|].
    eexists. unfold set_model. rewrite <-(rf_sent _ _ HR).
    eapply refines_update; try done; [by eapply reachable_step|by left].
  - eexists. eapply buffer_refines; try done. eapply reachable_step; [done|]. eapply step_cursor; [done|].
    destruct Hrel as [Hm _]. rewrite Hm in H. exact H.
  - eexists. eapply buffer_refines; try done. eapply reachable_step; [done|]. eapply step_resize; [done..|].
    destruct Hrel as [Hm _]. rewrite Hm in H. exact H.
  - exists sys. destruct HR as [R1 R2 R3 R4 R5]. split; try done. intros p [->|Hp]%elem_of_cons; [|by apply R4].
    exists st. split; [done|]. cbn [snd]. destruct (site_facts _ _ _ (reachable_inv _ Hreach) Hst) as [Hw _].
    destruct Hrel as [Hm [Hqv _]]. intros id. rewrite received_vector by (by rewrite Hm).
    rewrite Hqv, (lv_queue _ _ Hlog). unfold NewVector. rewrite Get_empty, Hm. cbn [set_queue dm_Log].
    specialize (Hw id). unfold vector_of in *. lia.
  - exists sys. destruct (rf_asked _ _ HR _ Hin) as (sta & Ha & Hle).
    destruct (site_facts _ _ _ (reachable_inv _ Hreach) Hst) as [Hw HQ].
    destruct (site_facts _ _ _ (reachable_inv _ Hreach) Ha) as [Hwa _].
    destruct (answer_chain (ed_sent sys) (st_model st) m v (Get (vector_of sta)) ops queueOps) as (K & HK & HK2); try done.
    { intros x. apply Hwa. }
    destruct HR as [R1 R2 R3 R4 R5]. split; try done. intros r [->|Hr]%elem_of_cons; [|by apply R5].
    exists sta, K. split_and!; [done..|]. destruct Hrel as [-> _]. exact HK2.
  - assert (reply_ok sys (mkReply s (op :: ops) goal)) as (st' & K' & Hst' & Hch & Hgoal)
      by (apply (rf_replies _ _ HR); rewrite Hp; by left).
    cbn [rp_to] in Hst'. rewrite Hst in Hst'. injection Hst' as <-. cbn [rp_ops rp_vector] in *.
    assert (∃ e, e ∈ ed_sent sys ∧ incoming (vector_of st) op e ∧
      ∀ v1, vle (vector_of st) v1 → (vle (ro_Vector e) (vector_of st) → stale v1 e) →
        ∃ K1, chain True (ed_sent sys) (Get v1) ops K1 ∧ cle K' K1) as (e & He & Hinc & Hrest).
    { inversion Hch as [|? q ? ? _ Hq Hc|? ? q ? ? Hq Hsame Hnew Hcauses Hc]; subst.
      - exists op. split_and!; [done|by left|]. intros v1 Hv1 _. by eapply chain_mono.
      - exists q. split_and!; [done|right; by split_and!|]. intros v1 Hv1 Hstale. eapply chain_mono; [exact Hc|done|].
        apply raise_below; [exact Hv1|]. by apply Hstale. }
    destruct (receive_refines net sys s st m op e m1 HR Hst Hrel Hlog He Hinc H) as (m2 & Hstep & Hrel2 & Hlog2 & Hle & Hst2).
    eexists. rewrite <-(rf_sent _ _ HR).
    eapply refines_update; try done; [by eapply reachable_step|].
    intros r [->|Hr]%elem_of_cons; [right|left; rewrite Hp; by right].
    destruct (Hrest _ Hle Hst2) as (K1 & Hc1 & HK1). exists (mkSite m2 (e :: st_received st)), K1.
    split_and!; [|done|intros x; etrans; [apply Hgoal|apply HK1]].
    unfold update. cbn [ed_sites rp_to]. by rewrite lookup_insert_eq.
  - exists sys. destruct HR as [R1 R2 R3 R4 R5]. split; try done. intros r' [->|Hr]%elem_of_cons; by apply R5.
Qed.

Lemma sync_initial_refines net : sync_initial net → ∃ sys, refines net sys.
Proof.
  intros (HM & HA & HP & HS). exists (mkEditors ((λ m, mkSite m []) <$> nw_models net) []). split.
  - apply reachable_initial. split; [done|]. intros s st. cbn [ed_sites]. rewrite lookup_fmap.
    intros (m & Hs & ->)%fmap_Some. destruct (HS s m Hs) as (? & width & ? & ?). split_and!; [done..|].
    by exists width.
  - done.
  - intros s. cbn [ed_sites ed_sent]. rewrite lookup_fmap. destruct (nw_models net !! s) as [m|] eqn:Hs; [|done].
    destruct (HS s m Hs) as (_ & width & Hw & Hn). cbn. unfold NewDocumentModel in Hn.
    apply bind_Ok_inv in Hn as (buf & _ & [= <-]). split; [|split; [|done]].
    + split; [done|]. split; [done|constructor].
    + exists (λ _, 0). split; [constructor|]. intros x. cbn [dm_Log NewLog lg_Vector]. unfold NewVector. by rewrite Get_empty.
  - rewrite HA. by intros p ?%elem_of_nil.
  - rewrite HP. by intros p ?%elem_of_nil.
Qed.

Lemma sync_reachable_refines net : sync_reachable net → ∃ sys, refines net sys.
Proof.
  induction 1 as [net Hi|net net' _ [sys HR] Hstep]; [by apply sync_initial_refines|by eapply sync_step_refines].
Qed.
