(* ===== verification/EditorCatchUp.v ===== *)
(** Sites that lose broadcasts and catch up by asking each other: what holds
    in every reachable state, and when two of them show the same text
    (CPSC418/project/documentmanager, gui/gui.go, network/session.go). *)
From S2P Require Import Prelude Common Version BufferOp Buffer Treedoc TreedocInv TreedocWf TreedocSpec OperationLog OperationQueue DocumentModel DocumentProps DocumentSync EditorSystem EditorConverges OperationCopies EditorSync.

Open Scope Z_scope.

(** The text of a document, on the screen and in the tree document. *)
Definition model_shows (m : DocumentModel) (text : list byte) : Prop :=
  Buffer.ToString (dm_Buffer m) = Ok text ∧ DocToString (dm_Treedoc m) = Ok text.

(** The site has applied to its end an answer of a site that counted at
    least [v] when it gave it. *)
Definition caught_up (net : network) (s : SiteId) (v : VersionVector) : Prop :=
  ∃ goal, mkReply s [] goal ∈ nw_replies net ∧ vle v goal.

(** ** Properties *)

(** C11: Catching up with lossy broadcasts is sound: although the operations
    of an answer carry no vectors, wait for nothing and are mixed with
    broadcasts and other answers, every reachable state is one that the sites
    reach by exchanging broadcasts alone: with the same broadcasts, the same
    texts, logs and vectors. *)
Theorem catch_up_is_sound net :
  sync_reachable net →
  ∃ sys, reachable sys ∧ ed_sent sys = nw_sent net ∧
    ∀ s m, nw_models net !! s = Some m → ∃ st, ed_sites sys !! s = Some st ∧
      dm_Buffer m = dm_Buffer (st_model st) ∧ dm_Treedoc m = dm_Treedoc (st_model st) ∧
      dm_Log m = dm_Log (st_model st).
Proof.
  intros Hr. destruct (sync_reachable_refines _ Hr) as [sys HR]. exists sys.
  split_and!; [apply HR..|]. intros s m Hs. destruct (refines_site _ _ _ _ HR Hs) as (st & Hst & [-> _] & _).
  by exists st.
Qed.

Lemma caught_up_above net sys s m v :
  refines net sys → nw_models net !! s = Some m → caught_up net s v → vle v (lg_Vector (dm_Log m)).
Proof.
  intros HR Hs (goal & Hin & Hv). destruct (refines_site _ _ _ _ HR Hs) as (st & Hst & [-> _] & _).
  destruct (rf_replies _ _ HR _ Hin) as (st' & K & Hst' & Hch & Hgoal). cbn [rp_to rp_ops rp_vector] in *.
  rewrite Hst in Hst'. injection Hst' as <-. inversion Hch; subst. by etrans.
Qed.

Lemma refines_shows net sys s m :
  refines net sys → nw_models net !! s = Some m → ∃ st, ed_sites sys !! s = Some st ∧
    lg_Vector (dm_Log m) = vector_of st ∧ model_shows m (dstr (dm_Treedoc (st_model st))).
Proof.
  intros HR Hs. destruct (refines_site _ _ _ _ HR Hs) as (st & Hst & [-> _] & _). exists st.
  split_and!; [done..|]. apply (site_shows sys s); [by apply reachable_inv, HR|done].
Qed.

(** C5: Convergence in spite of lost broadcasts: when each of two sites has
    applied an answer to its end that the other could give for its present
    state, both show the same text, on the screen and in the tree document. *)
Theorem catch_up_converges net a b ma mb :
  sync_reachable net → nw_models net !! a = Some ma → nw_models net !! b = Some mb →
  caught_up net a (lg_Vector (dm_Log mb)) → caught_up net b (lg_Vector (dm_Log ma)) →
  ∃ text, model_shows ma text ∧ model_shows mb text.
Proof.
  intros Hr Ha Hb Ca Cb. destruct (sync_reachable_refines _ Hr) as [sys HR].
  pose proof (caught_up_above _ _ _ _ _ HR Ha Ca) as Hba. pose proof (caught_up_above _ _ _ _ _ HR Hb Cb) as Hab.
  destruct (refines_shows _ _ _ _ HR Ha) as (sta & Hsta & Va & Sa).
  destruct (refines_shows _ _ _ _ HR Hb) as (stb & Hstb & Vb & Sb).
  eexists. split; [exact Sa|]. rewrite (same_covered_text sys a b sta stb); [done|apply reachable_inv, HR|done..|].
  rewrite Va, Vb in *. intros q _. split; by apply stale_mono.
Qed.

(** ** A run *)

Inductive net_command : Type :=
  | NLocal (s : SiteId) (ev : local_event)
  | NReceive (s : SiteId) (i : nat)
  | NAsk (s : SiteId)
  | NAnswer (t : SiteId) (i : nat)
  | NApply.

(** One command; [None] when the handler panics or the command is senseless. *)
Definition net_exec (net : network) (c : net_command) : option network :=
  match c with
  | NLocal s ev =>
      m ← nw_models net !! s;
      if (dm_OpVersion m + 1 <? w32) && (dm_NodeIdClock m + 1 <? w32) then
        match run_local ev m with
        | Ok (m1, b) => Some (mkNetwork (<[s := m1]> (nw_models net)) (nw_sent net ++ option_list b)
            (nw_asked net) (nw_replies net))
        | _ => None
        end
      else None
  | NReceive s i =>
      m ← nw_models net !! s;
      op ← nw_sent net !! i;
      match ApplyRemoteOperation m op with Ok m1 => Some (set_model s m1 net) | _ => None end
  | NAsk s =>
      m ← nw_models net !! s;
      Some (mkNetwork (nw_models net) (nw_sent net)
        ((s, GetVersionVectorReceived m) :: nw_asked net) (nw_replies net))
  | NAnswer t i =>
      m ← nw_models net !! t;
      p ← nw_asked net !! i;
      match GetMissingOperations m p.2 with
      | Ok (ops, queueOps) => Some (mkNetwork (nw_models net) (nw_sent net) (nw_asked net)
          (mkReply p.1 (ops ++ queueOps) (lg_Vector (dm_Log m)) :: nw_replies net))
      | _ => None
      end
  | NApply =>
      match nw_replies net with
      | mkReply s (op :: ops) goal :: others =>
          m ← nw_models net !! s;
          match ApplyRemoteOperation m op with
          | Ok m1 => Some (mkNetwork (<[s := m1]> (nw_models net)) (nw_sent net) (nw_asked net)
              (mkReply s ops goal :: others))
          | _ => None
          end
      | _ => None
      end
  end.

Lemma net_exec_step net c net' : net_exec net c = Some net' → sync_step net net'.
Proof.
  destruct c as [s ev|s i|s|t i|]; cbn [net_exec]; intros H.
  - apply bind_Some in H as (m & Hs & H).
    destruct (_ && _) eqn:Hc; [|done]. apply andb_prop in Hc as [Hv%Z.ltb_lt Hn%Z.ltb_lt].
    destruct (run_local ev m) as [[m1 b]| |] eqn:HL; [|done..]. injection H as <-. by eapply sync_local.
  - apply bind_Some in H as (m & Hs & H). apply bind_Some in H as (op & Hop & H).
    destruct (ApplyRemoteOperation m op) as [m1| |] eqn:HA; [|done..]. injection H as <-.
    eapply sync_receive; [done| |done]. by eapply list_elem_of_lookup_2.
  - apply bind_Some in H as (m & Hs & H). injection H as <-. by eapply sync_ask.
  - apply bind_Some in H as (m & Hs & H). apply bind_Some in H as ([s v] & Hp & H).
    destruct (GetMissingOperations m _) as [[ops queueOps]| |] eqn:HG; [|done..]. injection H as <-.
    eapply sync_answer; [done| |done]. by eapply list_elem_of_lookup_2.
  - destruct (nw_replies net) as [|[s [|op ops] goal] others] eqn:HR; [done..|].
    apply bind_Some in H as (m & Hs & H).
    destruct (ApplyRemoteOperation m op) as [m1| |] eqn:HA; [|done..]. injection H as <-.
    eapply sync_apply; [done| |done]. by rewrite HR.
Qed.

Definition net_exec_all (net : network) (cs : list net_command) : option network :=
  foldl (λ r c, r ≫= λ net, net_exec net c) (Some net) cs.

Lemma net_exec_all_reachable net cs net' :
  sync_reachable net → net_exec_all net cs = Some net' → sync_reachable net'.
Proof.
  unfold net_exec_all. revert net. induction cs as [|c cs IH]; intros net Hr; cbn [foldl]; [by intros [= <-]|].
  cbn [mbind option_bind]. destruct (net_exec net c) as [net1|] eqn:E.
  - apply IH. eapply sync_reachable_step; [done|by eapply net_exec_step].
  - intros H. exfalso. clear -H. induction cs as [|c cs IH]; [done|by apply IH].
Qed.

Definition two_models : network :=
  mkNetwork (<[site1 := st_model (fresh_site site1 8)]> (<[site2 := st_model (fresh_site site2 12)]> ∅)) [] [] [].

Lemma two_models_initial : sync_initial two_models.
Proof.
  split_and!; [done..|]. intros s m Hs. cbn [nw_models two_models] in Hs.
  rewrite lookup_insert in Hs. case_decide as H1; [|rewrite lookup_insert in Hs; case_decide as H2].
  - injection Hs as <-. subst s. split; [done|]. exists 8. split; [lia|]. vm_compute. reflexivity.
  - injection Hs as <-. subst s. split; [done|]. exists 12. split; [lia|]. vm_compute. reflexivity.
  - by rewrite lookup_empty in Hs.
Qed.

(** Both type and every broadcast but one is lost; the one that arrives waits
    for its cause, which the answer brings. The last answer is empty. *)
Definition catch_up_run : list net_command :=
  [NLocal site1 (TypeChar x61); NLocal site1 (TypeChar x62); NLocal site2 (TypeChar x63);
   NReceive site2 1; NAsk site2; NAnswer site1 0; NApply; NApply;
   NAsk site1; NAnswer site2 0; NApply; NAsk site2; NAnswer site1 0].

Definition caught_up_network : network := default two_models (net_exec_all two_models catch_up_run).

Lemma caught_up_reachable : sync_reachable caught_up_network.
Proof.
  assert (∃ net, net_exec_all two_models catch_up_run = Some net) as [net H].
  { destruct (net_exec_all two_models catch_up_run) as [net|] eqn:E; [by exists net|exfalso].
    assert (bool_decide (net_exec_all two_models catch_up_run = None) = false) as Hn.
    { vm_compute. reflexivity. }
    rewrite E in Hn. done. }
  unfold caught_up_network. rewrite H. cbn [default]. eapply net_exec_all_reachable; [|exact H].
  apply sync_reachable_initial, two_models_initial.
Qed.

Definition caught_up_model (s : SiteId) : DocumentModel :=
  default (st_model (fresh_site s 8)) (nw_models caught_up_network !! s).

Lemma caught_up_lookup s : s = site1 ∨ s = site2 → nw_models caught_up_network !! s = Some (caught_up_model s).
Proof.
  intros H. unfold caught_up_model.
  assert (bool_decide (nw_models caught_up_network !! s = None) = false) as Hn
    by (destruct H as [-> | ->]; vm_compute; reflexivity).
  apply bool_decide_eq_false in Hn. destruct (nw_models caught_up_network !! s); [done|by destruct Hn].
Qed.

(** The answer at index [i] is at its end and covers a vector. *)
Definition covers (i : nat) (s : SiteId) (v : VersionVector) : bool :=
  match nw_replies caught_up_network !! i with
  | Some (mkReply t [] goal) =>
      bool_decide (t = s) && match Compare goal v with GREATER_THAN | EQUAL => true | _ => false end
  | _ => false
  end.

Lemma covers_caught_up i s v : covers i s v = true → caught_up caught_up_network s v.
Proof.
  unfold covers. destruct (nw_replies caught_up_network !! i) as [[t [|] goal]|] eqn:E; [|done..].
  intros [->%bool_decide_eq_true Hc]%andb_prop. exists goal. split; [by eapply list_elem_of_lookup_2|].
  rewrite Compare_vle in Hc. by case_decide.
Qed.

Lemma catch_up_converges_witness :
  ∃ text, model_shows (caught_up_model site1) text ∧ model_shows (caught_up_model site2) text.
Proof.
  apply (catch_up_converges caught_up_network site1 site2 _ _ caught_up_reachable).
  - apply caught_up_lookup. tauto.
  - apply caught_up_lookup. tauto.
  - apply (covers_caught_up 1). vm_compute. reflexivity.
  - apply (covers_caught_up 0). vm_compute. reflexivity.
Defined.

Lemma catch_up_is_sound_witness :
  ∃ sys, reachable sys ∧ ed_sent sys = nw_sent caught_up_network ∧
    ∀ s m, nw_models caught_up_network !! s = Some m → ∃ st, ed_sites sys !! s = Some st ∧
      dm_Buffer m = dm_Buffer (st_model st) ∧ dm_Treedoc m = dm_Treedoc (st_model st) ∧
      dm_Log m = dm_Log (st_model st).
Proof. apply (catch_up_is_sound caught_up_network caught_up_reachable). Defined.
