(* ===== verification/DocumentWire.v ===== *)
(** The JSON forms of version vectors and remote operations
    (CPSC418/project/documentmanager/remoteop.go, version/version.go). *)
From S2P Require Import Prelude Json Common Version Treedoc OperationLog.

Open Scope Z_scope.

Record RemoteOperationJson : Type := mkRemoteOperationJson {
  roj_Vector : VersionVectorJson;
  roj_Id : SiteId;
  roj_Version : Z;
  roj_Op : Operation
}.

Definition operation_json (op : RemoteOperation) : RemoteOperationJson :=
  mkRemoteOperationJson (ToJsonable (ro_Vector op)) (ro_Id op) (ro_Version op) (ro_Op op).

Definition operation_of_json (opJson : RemoteOperationJson) : RemoteOperation :=
  mkRemoteOperation (FromVersionVectorJson (roj_Vector opJson)) (roj_Id opJson) (roj_Version opJson)
    (roj_Op opJson).

(** [newOps[i] = ...] for the operations in their order. *)
Fixpoint fill_ops {A B} (f : A → B) (i : nat) (ops : list A) (newOps : list B) : res (list B) :=
  match ops with
  | [] => Ok newOps
  | op :: ops => newOps ← slice_set i (f op) newOps; fill_ops f (S i) ops newOps
  end.

Section Wire.
Context `{Json VersionVectorJson, Json RemoteOperationJson, Json (list RemoteOperationJson)}.
(** The zero values of the elements of a new slice. *)
Context (zero_json : RemoteOperationJson) (zero_op : RemoteOperation).

(** The method [MarshalJSON] of a vector. *)
Definition MarshalJSON (version : VersionVector) : list byte := Marshal (ToJsonable version).

(** The error and the vector. *)
Definition UnmarshalJSON (data : list byte) : bool * option VersionVector :=
  let '(newVector, err) := Unmarshal data in
  if err then (true, None) else (false, Some (FromVersionVectorJson newVector)).

Definition RemoteOperationToSlice (op : RemoteOperation) : list byte := Marshal (operation_json op).

Definition RemoteOperationFromSlice (slice : list byte) : RemoteOperation :=
  operation_of_json (Unmarshal slice).1.

Definition RemoteOperationsToSlice (ops : list RemoteOperation) : res (list byte) :=
  newOps ← fill_ops operation_json 0 ops (replicate (length ops) zero_json);
  Ok (Marshal newOps).

Definition RemoteOperationsFromSlice (slice : list byte) : res (list RemoteOperation) :=
  let opsJson := (Unmarshal slice).1 in
  fill_ops operation_of_json 0 opsJson (replicate (length opsJson) zero_op).
End Wire.

(** ** Round trips *)

Lemma fill_ops_from {A B} (f : A → B) ops pre post :
  length post = length ops →
  fill_ops f (length pre) ops (pre ++ post) = Ok (pre ++ (f <$> ops)).
Proof.
  revert pre post; induction ops as [|op ops IH]; intros pre post Hl.
  - by destruct post.
  - destruct post as [|x post]; [done|]. cbn [fill_ops]. injection Hl as Hl.
    rewrite slice_set_Ok by (rewrite length_app; simpl; lia). rewrite bind_Ok.
    rewrite insert_app_r_alt, Nat.sub_diag by lia. cbn [list_insert insert].
    specialize (IH (pre ++ [f op]) post Hl). rewrite length_app, Nat.add_1_r, <-!app_assoc in IH. exact IH.
Qed.

Lemma fill_ops_ok {A B} (f : A → B) ops (z : B) :
  fill_ops f 0 ops (replicate (length ops) z) = Ok (f <$> ops).
Proof. apply (fill_ops_from f ops []). by rewrite length_replicate. Qed.

(** The sites that a vector counts are arrays of 16 bytes. *)
Definition vector_sites (v : VersionVector) : Prop := ∀ id, is_Some (v !! id) → site_id_wf id.

Lemma operation_json_roundtrip op :
  vector_sites (ro_Vector op) → operation_of_json (operation_json op) = op.
Proof.
  intros Hv. destruct op. unfold operation_of_json, operation_json. cbn in *.
  by rewrite FromVersionVectorJson_ToJsonable.
Qed.

Lemma slices_roundtrip `{JsonLaws (list RemoteOperationJson) valid} zero_json zero_op ops :
  Forall (λ op, vector_sites (ro_Vector op)) ops → valid (operation_json <$> ops) →
  ∃ slice, RemoteOperationsToSlice zero_json ops = Ok slice ∧ RemoteOperationsFromSlice zero_op slice = Ok ops.
Proof.
  intros Hops Hval. unfold RemoteOperationsToSlice, RemoteOperationsFromSlice.
  rewrite fill_ops_ok, bind_Ok. eexists. split; [reflexivity|].
  rewrite Unmarshal_Marshal by done. cbn [fst].
  rewrite fill_ops_ok, <-list_fmap_compose. f_equal. rewrite <-(list_fmap_id ops) at 2.
  apply list_fmap_ext. intros i x Hx. apply operation_json_roundtrip.
  by eapply Forall_lookup_1 in Hops.
Qed.

(** C40: Operations survive the wire: what a site decodes from a message is the
    list of operations that the other site encoded, when the vectors count
    sites by their 16 bytes and the JSON text of the list can be read back. A
    single operation and a version vector survive it likewise. *)
Theorem operations_survive_the_wire
    `{JsonLaws (list RemoteOperationJson) valid, JsonLaws RemoteOperationJson valid1,
      JsonLaws VersionVectorJson validv}
    zero_json zero_op ops op v :
  Forall (λ op, vector_sites (ro_Vector op)) ops → valid (operation_json <$> ops) →
  vector_sites (ro_Vector op) → valid1 (operation_json op) →
  vector_sites v → validv (ToJsonable v) →
  (slice ← RemoteOperationsToSlice zero_json ops; RemoteOperationsFromSlice zero_op slice) = Ok ops ∧
  RemoteOperationFromSlice (RemoteOperationToSlice op) = op ∧
  UnmarshalJSON (MarshalJSON v) = (false, Some v).
Proof.
  intros Hops Hval Hop Hval1 Hv Hvalv. split_and!.
  - destruct (slices_roundtrip zero_json zero_op ops Hops Hval) as (slice & -> & Hs). exact Hs.
  - unfold RemoteOperationFromSlice, RemoteOperationToSlice. rewrite Unmarshal_Marshal by done.
    by apply operation_json_roundtrip.
  - unfold UnmarshalJSON, MarshalJSON. rewrite Unmarshal_Marshal by done.
    by rewrite FromVersionVectorJson_ToJsonable.
Qed.

#[export] Instance OpType_countable : Countable Treedoc.OpType.
Proof.
  refine (inj_countable' (λ t, match t with NO_OPERATION => 0 | INSERT_NEW => 1 | INSERT => 2 | DELETE => 3
    | INSERT_ROOT => 4 end%nat)
    (λ n, match n with 0 => NO_OPERATION | 1 => INSERT_NEW | 2 => INSERT | 3 => DELETE | _ => INSERT_ROOT end%nat) _).
  by intros [].
Defined.

#[export] Instance Operation_countable : Countable Operation.
Proof.
  refine (inj_countable' (λ o, (op_Type o, op_ParentId o, op_ParentN o, op_Id o, op_N o, op_Atom o))
    (λ '(t, pi, pn, i, n, a), mkOperation t pi pn i n a) _). by intros [].
Defined.

#[export] Instance RemoteOperationJson_eq_dec : EqDecision RemoteOperationJson.
Proof. solve_decision. Defined.
#[export] Instance RemoteOperationJson_countable : Countable RemoteOperationJson.
Proof.
  refine (inj_countable' (λ o, (roj_Vector o, roj_Id o, roj_Version o, roj_Op o))
    (λ '(v, i, n, op), mkRemoteOperationJson v i n op) _). by intros [].
Defined.

Definition wire_op : RemoteOperation :=
  mkRemoteOperation (<[replicate 16 x41 := 3]> ∅) (replicate 16 x42) 1 (mkOperation INSERT_ROOT [] 0 (replicate 20 x42) 0 x61).
Definition zero_operation_json : RemoteOperationJson := operation_json wire_op.

Lemma wire_op_sites : vector_sites (ro_Vector wire_op).
Proof.
  intros id Hid. cbn in Hid. destruct (decide (id = replicate 16 x41)) as [->|Hne]; [done|].
  rewrite lookup_insert_ne, lookup_empty in Hid by done. by destruct Hid.
Qed.

Lemma operations_survive_the_wire_witness :
  let _ := counted_json (A := list RemoteOperationJson) [] in
  let _ := counted_json (A := RemoteOperationJson) zero_operation_json in
  let _ := counted_json (A := VersionVectorJson) ∅ in
  (slice ← RemoteOperationsToSlice zero_operation_json [wire_op; wire_op];
   RemoteOperationsFromSlice wire_op slice) = Ok [wire_op; wire_op] ∧
  RemoteOperationFromSlice (RemoteOperationToSlice wire_op) = wire_op ∧
  UnmarshalJSON (MarshalJSON (ro_Vector wire_op)) = (false, Some (ro_Vector wire_op)).
Proof.
  intros j1 j2 j3.
  apply (@operations_survive_the_wire j1 _ (counted_json_laws _) j2 _ (counted_json_laws _) j3 _ (counted_json_laws _)).
  - apply Forall_cons_2; [|apply Forall_cons_2; [|done]]; apply wire_op_sites.
  - done.
  - apply wire_op_sites.
  - done.
  - apply wire_op_sites.
  - done.
Defined.
