(* ===== verification/EditorIds.v ===== *)
(** The ids of sites are 16 bytes: every id in a vector, an operation, a log
    entry or an answer is the id of a site of the network
    (CPSC418/project/documentmanager, version/version.go). *)
From S2P Require Import Prelude Common Version BufferOp Buffer Treedoc OperationLog OperationQueue DocumentModel DocumentWire DocumentSync EditorSystem EditorSync.

Open Scope Z_scope.

Section Ids.
Context (P : SiteId → Prop).

(** The ids that a vector and an operation mention. *)
Definition vector_ids (v : VersionVector) : Prop := ∀ id, is_Some (v !! id) → P id.
Definition operation_ids (op : RemoteOperation) : Prop := P (ro_Id op) ∧ vector_ids (ro_Vector op).

Record model_ids (m : DocumentModel) : Prop := {
  mi_owner : P (dm_OwnerId m);
  mi_log : Forall (λ e, P (le_Id e)) (lg_Log (dm_Log m));
  mi_vector : vector_ids (lg_Vector (dm_Log m));
  mi_queue : Forall operation_ids (oq_queue (dm_Queue m));
  mi_received : vector_ids (oq_vector (dm_Queue m))
}.

Record network_ids (net : network) : Prop := {
  ni_models s m : nw_models net !! s = Some m → model_ids m;
  ni_sent : Forall operation_ids (nw_sent net);
  ni_asked : Forall (λ p, vector_ids p.2) (nw_asked net);
  ni_replies : Forall (λ r, Forall operation_ids (rp_ops r)) (nw_replies net)
}.

(** ** Vectors *)

Lemma insert_ids v id n : P id → vector_ids v → vector_ids (<[id := n]> v).
Proof using.
  intros Hid Hv id' Hs. destruct (decide (id = id')) as [<-|Hne]; [done|].
  rewrite lookup_insert_ne in Hs by done. by apply Hv.
Qed.

Lemma empty_ids : vector_ids NewVector.
Proof using. intros id [n Hn]. unfold NewVector in Hn. by rewrite lookup_empty in Hn. Qed.

Lemma IncrementTo_ids v id n : P id → vector_ids v → vector_ids (IncrementTo v id n).
Proof using. unfold IncrementTo. destruct (_ <? _); [apply insert_ids|done]. Qed.

Lemma entries_ids v p : vector_ids v → p ∈ map_to_list v → P p.1.
Proof using. destruct p as [id n]. intros Hv Hp%elem_of_map_to_list. apply Hv. by exists n. Qed.

Lemma Copy_ids v : vector_ids v → vector_ids (Version.Copy v).
Proof using.
  intros Hv. unfold Copy, Copy_range.
  assert (∀ l acc, (∀ p, p ∈ l → P p.1) → vector_ids acc →
    vector_ids (foldl (λ vec '(k, v), <[k := v]> vec) acc l)) as H.
  { induction l as [|[k n] l IH]; intros acc Hl Hacc; [done|]. apply IH; [set_solver|].
    apply insert_ids; [apply (Hl (k, n)); by left|done]. }
  apply H; [intros p; by apply entries_ids|apply empty_ids].
Qed.

Lemma Merge_ids v1 v2 : vector_ids v1 → vector_ids v2 → vector_ids (Merge v1 v2).
Proof using.
  intros H1 H2. unfold Merge, Merge_range.
  assert (∀ l acc, (∀ p, p ∈ l → P p.1) → vector_ids acc →
    vector_ids (foldl (λ vec '(k, v), if Get vec k <? v then <[k := v]> vec else vec) acc l)) as H.
  { induction l as [|[k n] l IH]; intros acc Hl Hacc; [done|]. apply IH; [set_solver|].
    destruct (_ <? _); [|done]. apply insert_ids; [apply (Hl (k, n)); by left|done]. }
  apply H; [intros p; by apply entries_ids|done].
Qed.

Lemma received_ids m : model_ids m → vector_ids (GetVersionVectorReceived m).
Proof using. intros Hm. apply Merge_ids; [apply Copy_ids|]; apply Hm. Qed.

(** ** The queue *)

Lemma deque_loop_ids rec n i offset st st' offset' :
  (∀ k st st' off, rec k st = Ok (st', off) → Forall operation_ids (dq_result st) → Forall operation_ids (dq_queue st) →
     Forall operation_ids (dq_result st') ∧ Forall operation_ids (dq_queue st')) →
  deque_loop rec n i offset st = Ok (st', offset') →
  Forall operation_ids (dq_result st) → Forall operation_ids (dq_queue st) →
  Forall operation_ids (dq_result st') ∧ Forall operation_ids (dq_queue st').
Proof using.
  intros Hrec. revert i offset st. induction n as [|n IH]; intros i offset st E Hr Hq; cbn [deque_loop] in E;
    [by simplify_eq|].
  apply bind_Ok_inv in E as (elem & Helem%require_Ok_inv & E).
  assert (operation_ids elem) as He by (by eapply Forall_lookup_1).
  set (q := if decide (offset ≠ 0%nat) then _ else _) in E.
  assert (Forall operation_ids q) as Hq' by (unfold q; destruct (decide _); [by apply Forall_insert|done]).
  destruct (_ >=? _); [by eapply IH|].
  destruct (Compare _ _); try (by eapply IH);
    (apply bind_Ok_inv in E as ([st1 off] & E1 & E);
     apply Hrec in E1 as [Hr1 Hq1]; [by eapply IH| |done]; cbn; apply Forall_app; by auto).
Qed.

Lemma dequeHelper_ids fuel upto st st' offset :
  dequeHelper fuel upto st = Ok (st', offset) →
  Forall operation_ids (dq_result st) → Forall operation_ids (dq_queue st) →
  Forall operation_ids (dq_result st') ∧ Forall operation_ids (dq_queue st').
Proof using.
  revert upto st st' offset. induction fuel as [|fuel IH]; intros upto st st' offset E; [done|].
  cbn [dequeHelper] in E. by eapply deque_loop_ids.
Qed.

Lemma Enqueue_ids queue elem v ops queue' v' :
  Enqueue queue elem v = Ok (ops, queue', v') → operation_ids elem → Forall operation_ids (oq_queue queue) →
  Forall operation_ids ops ∧ Forall operation_ids (oq_queue queue') ∧ oq_vector queue' = oq_vector queue.
Proof using.
  unfold Enqueue. intros E He Hq.
  assert (Forall operation_ids (oq_queue queue ++ [elem])) as Hwait by (apply Forall_app; by auto).
  destruct (_ =? _); [|by simplify_eq/=].
  destruct (Compare _ _); try (by simplify_eq/=);
    (apply bind_Ok_inv in E as ([st off] & E1 & E); apply dequeHelper_ids in E1 as [Hr1 Hq1]; [|by cbn; auto|done];
     simplify_eq/=; split_and!; [done|by apply Forall_take|done]).
Qed.

(** ** The handlers *)

Lemma Write_ids m id version op :
  P id → model_ids m → model_ids (set_log (Write (dm_Log m) id version op) m).
Proof using.
  intros Hid [H1 H2 H3 H4 H5]. split; try done; cbn.
  - apply Forall_app. by auto.
  - by apply IncrementTo_ids.
Qed.

Lemma apply_remote_ids m q m' : apply_remote m q = Ok m' → operation_ids q → model_ids m → model_ids m'.
Proof using.
  unfold apply_remote. intros E [Hq _] Hm. apply bind_Ok_inv in E as ([doc bufOp] & _ & E).
  apply bind_Ok_inv in E as (buf & _ & E). apply bind_Ok_inv in E as (u & _ & E). injection E as <-.
  apply (Write_ids (set_text doc buf m)); [done|]. destruct Hm. by split.
Qed.

Lemma ApplyRemoteOperation_ids m q m' :
  ApplyRemoteOperation m q = Ok m' → operation_ids q → model_ids m → model_ids m'.
Proof using.
  unfold ApplyRemoteOperation. intros E Hq Hm. apply bind_Ok_inv in E as ([[ops queue] v] & E1 & E).
  apply Enqueue_ids in E1 as (Hops & Hqueue & Hv); [|done|by apply Hm].
  assert (model_ids (set_queue queue m)) as Hm1.
  { destruct Hm as [H1 H2 H3 H4 H5]. split; try done. cbn. by rewrite Hv. }
  clear Hm Hv Hqueue. revert Hm1 E. generalize (set_queue queue m). induction Hops as [|q1 ops Hq1 _ IH]; intros m1 Hm1 E.
  - by simplify_eq/=.
  - cbn [foldM] in E. apply bind_Ok_inv in E as (m2 & E2 & E). eapply IH; [|done]. by eapply apply_remote_ids.
Qed.

Lemma log_local_ids op m m' b :
  log_local op m = Ok (m', b) → model_ids m → model_ids m' ∧ Forall operation_ids (option_list b).
Proof using.
  unfold log_local. intros E Hm. apply bind_Ok_inv in E as (u & _ & [= <- <-]). cbn [dm_OwnerId dm_OpVersion set_clocks].
  assert (model_ids (set_clocks (wrap32 (dm_OpVersion m + 1)) (dm_NodeIdClock m) m)) as Hm1 by (destruct Hm; by split).
  split; [apply (Write_ids (set_clocks _ _ m)); [apply Hm|done]|].
  cbn. destruct (dm_BroadcastRemote m); [|constructor]. constructor; [|constructor].
  split; cbn; [apply Hm|apply Copy_ids, Hm].
Qed.

Lemma run_local_ids ev m m' b :
  run_local ev m = Ok (m', b) → model_ids m → model_ids m' ∧ Forall operation_ids (option_list b).
Proof using.
  intros E Hm.
  assert (∀ doc buf v c, model_ids (set_clocks v c (set_text doc buf m)) ∧ model_ids (set_text doc buf m)) as Hset
    by (destruct Hm; by split).
  destruct ev as [ch| |]; cbn [run_local] in E.
  - unfold LocalInsert in E. apply bind_Ok_inv in E as (buf & _ & E). apply bind_Ok_inv in E as ([doc op] & _ & E).
    eapply log_local_ids; [exact E|]. destruct (op_Type op); first [apply (Hset doc buf 0 0)|apply (Hset doc buf)].
  - unfold LocalBackspace in E. destruct (_ <? 0); [by simplify_eq|].
    apply bind_Ok_inv in E as (buf & _ & E). apply bind_Ok_inv in E as ([doc op] & _ & E).
    eapply log_local_ids; [exact E|]. by apply (Hset doc buf 0 0).
  - unfold LocalDelete in E. destruct (_ >=? _); [by simplify_eq|].
    apply bind_Ok_inv in E as (buf & _ & E). apply bind_Ok_inv in E as ([doc op] & _ & E).
    eapply log_local_ids; [exact E|]. by apply (Hset doc buf 0 0).
Qed.

(** ** Answers *)

Lemma missing_loop_ids entries v v2 result :
  Forall (λ e, P (le_Id e)) entries → Forall operation_ids result →
  Forall operation_ids (missing_loop entries v v2 result).
Proof using.
  intros He. revert v2 result. induction He as [|e entries Hid He IH]; intros v2 result Hr; cbn [missing_loop]; [done|].
  assert (Forall operation_ids (if Get v (le_Id e) <? le_Version e
    then result ++ [mkRemoteOperation NewVector (le_Id e) (le_Version e) (le_Operation e)] else result)) as Hr'.
  { destruct (_ <? _); [|done]. apply Forall_app. split; [done|]. constructor; [|constructor].
    split; [done|apply empty_ids]. }
  destruct (_ && _); [done|by apply IH].
Qed.

Lemma swap_loop_ids n l l' : swap_loop n l = Ok l' → Forall operation_ids l → Forall operation_ids l'.
Proof using.
  revert l. induction n as [|n IH]; intros l E Hl; cbn [swap_loop] in E; [by simplify_eq|].
  apply bind_Ok_inv in E as (a & Ha & E). apply bind_Ok_inv in E as (b & Hb & E).
  apply require_Ok_inv in Ha, Hb. eapply IH; [exact E|].
  assert (operation_ids a) as Pa by (destruct (_ <? 0); [done|by eapply Forall_lookup_1]).
  assert (operation_ids b) as Pb by (by eapply Forall_lookup_1).
  apply Forall_insert; [by apply Forall_insert|done].
Qed.

Lemma GetMissingOperations_ids m v ops queueOps :
  GetMissingOperations m v = Ok (ops, queueOps) → model_ids m → Forall operation_ids (ops ++ queueOps).
Proof using.
  unfold GetMissingOperations. intros E Hm.
  assert (Forall operation_ids (queue_GetMissingOperations (dm_Queue m) v)) as Hq.
  { unfold queue_GetMissingOperations. pose proof (mi_queue _ Hm) as Hq.
    assert (∀ acc, Forall operation_ids acc → Forall operation_ids
      (foldl (λ result elem, if Get v (ro_Id elem) <? ro_Version elem then result ++ [elem] else result) acc
        (oq_queue (dm_Queue m)))) as H; [|apply H; constructor].
    induction Hq as [|q l Hq' _ IH]; intros acc Hacc; [done|]. apply IH.
    destruct (_ <? _); [apply Forall_app; by auto|done]. }
  assert (log_GetMissingOperations (dm_Log m) v ≫= (λ ops, Ok (ops, queue_GetMissingOperations (dm_Queue m) v)) =
      Ok (ops, queueOps) → Forall operation_ids (ops ++ queueOps)) as H.
  { intros E1. apply bind_Ok_inv in E1 as (l & El & [= <- <-]). apply Forall_app. split; [|done].
    eapply swap_loop_ids; [exact El|]. apply missing_loop_ids; [|constructor].
    apply Forall_reverse, Hm. }
  destruct (Compare _ _); try (by simplify_eq/=); by apply H.
Qed.

(** ** The network *)

Lemma sync_step_ids net net' : network_ids net → sync_step net net' → network_ids net'.
Proof using.
  intros [Hm Hsent Hasked Hreplies] Hstep. rewrite Forall_forall in Hreplies.
  assert (∀ s m, model_ids m → ∀ s' m', <[s := m]> (nw_models net) !! s' = Some m' → model_ids m') as Hins.
  { intros s m Hm' s' m' [[<- <-]|[_ Hl]]%lookup_insert_Some; [done|by eapply Hm]. }
  destruct Hstep as
    [s m ev m1 b Hs Hv Hc E|s m op m1 Hs Hop E|s m ev buf Hs E|s m width buf Hs Hw E|s m Hs
    |t m s v ops queueOps Hs Hin E|s m op ops goal others m1 Hs Hp E|r Hin]; cbn;
    try (specialize (Hm _ _ Hs) as Hm1); split; cbn; try done; try (by eapply Hm);
    try (apply Forall_forall; done).
  - apply Hins. by eapply run_local_ids.
  - apply Forall_app. split; [done|]. by eapply run_local_ids.
  - apply Hins. rewrite Forall_forall in Hsent. eapply ApplyRemoteOperation_ids; eauto.
  - apply Hins. destruct Hm1; by split.
  - apply Hins. destruct Hm1; by split.
  - constructor; [by apply received_ids|done].
  - constructor; [|by apply Forall_forall]. by eapply GetMissingOperations_ids.
  - apply Hins. assert (Forall operation_ids (op :: ops)) as Hops by (apply (Hreplies (mkReply s (op :: ops) goal)); rewrite Hp; by left).
    inversion Hops; subst. by eapply ApplyRemoteOperation_ids.
  - assert (Forall operation_ids (op :: ops)) as Hops by (apply (Hreplies (mkReply s (op :: ops) goal)); rewrite Hp; by left).
    inversion Hops; subst. constructor; [done|]. apply Forall_forall. intros r Hr. apply Hreplies. rewrite Hp. by right.
  - constructor; [by apply Hreplies|by apply Forall_forall].
Qed.
End Ids.
