(* ===== verification/GoText.v ===== *)
(** Decimal numbers and text in Go: the part of strconv and strings that the
    repository's message formats rely on. *)
From S2P Require Import Prelude.

Open Scope Z_scope.

(** ** Decimal digits *)

Definition is_digit (b : byte) : bool := (48 <=? byte_val b) && (byte_val b <=? 57).
Definition digit (d : Z) : byte := byte_of (48 + d).

Lemma byte_val_digit d : 0 ≤ d < 10 → byte_val (digit d) = 48 + d.
Proof.
  intros Hd. unfold digit. rewrite byte_val_of. apply Z.mod_small. unfold w8. lia.
Qed.

Lemma digit_is_digit d : 0 ≤ d < 10 → is_digit (digit d) = true.
Proof. intros Hd. unfold is_digit. rewrite byte_val_digit by done. lia. Qed.

(** ** Formatting *)

Fixpoint format_loop (fuel : nat) (n : Z) (acc : list byte) : list byte :=
  match fuel with
  | O => acc
  | S fuel =>
      if n <? 10 then digit n :: acc
      else format_loop fuel (n / 10) (digit (n `mod` 10) :: acc)
  end.

(** [strconv.FormatUint(n, 10)]: a 64-bit number has at most twenty digits. *)
Definition FormatUint (n : Z) : list byte := format_loop 20 n [].

(** [strconv.Itoa]. *)
Definition Itoa (n : Z) : list byte :=
  if n <? 0 then x2d :: FormatUint (- n) else FormatUint n.

(** ** Parsing *)

Fixpoint parse_loop (max n : Z) (s : list byte) : Z * bool :=
  match s with
  | [] => (n, false)
  | b :: s =>
      if is_digit b then
        let n' := n * 10 + (byte_val b - 48) in
        if n' >? max then (max, true) else parse_loop max n' s
      else (0, true)
  end.

(** [strconv.ParseUint(s, 10, bits)] with [max] the largest number of that
    width: the value and whether an error came with it. A number out of range
    gives [max]. *)
Definition ParseUint (max : Z) (s : list byte) : Z * bool :=
  match s with [] => (0, true) | _ => parse_loop max 0 s end.

Definition max_uint64 : Z := 2 ^ 64 - 1.
Definition max_uint32 : Z := 2 ^ 32 - 1.

(** Whether the error of [ParseUint] is a range error. *)
Definition range_error (s : list byte) : bool :=
  match ParseUint max_uint64 s with (v, e) => e && (v =? max_uint64) end.

(** [strconv.Atoi] on a 64-bit machine. *)
Definition Atoi (s : list byte) : Z * bool :=
  match s with
  | [] => (0, true)
  | b :: s' =>
      let neg := bool_decide (b = x2d) in
      let u := if bool_decide (b = x2b) || neg then s' else s in
      let '(un, e) := ParseUint max_uint64 u in
      if e && negb (range_error u) then (0, true)
      else if negb neg && (un >=? 2 ^ 63) then (2 ^ 63 - 1, true)
      else if neg && (un >? 2 ^ 63) then (- 2 ^ 63, true)
      else (if neg then - un else un, e)
  end.

(** ** The round trip *)

Lemma format_loop_parse max f n acc :
  0 ≤ n < 10 ^ Z.of_nat f → n ≤ max →
  parse_loop max 0 (format_loop f n acc) = parse_loop max n acc.
Proof.
  revert n acc; induction f as [|f IH]; intros n acc Hn Hmax; simpl.
  { change (10 ^ Z.of_nat 0) with 1 in Hn. replace n with 0 by lia. done. }
  destruct (n <? 10) eqn:E; simpl.
  - rewrite digit_is_digit by lia. rewrite byte_val_digit by lia.
    replace (_ >? max) with false by lia. f_equal. lia.
  - rewrite Nat2Z.inj_succ, Z.pow_succ_r in Hn by lia.
    pose proof (Z.mod_pos_bound n 10 ltac:(lia)) as Hm.
    pose proof (Z.div_mod n 10 ltac:(lia)) as Hd.
    rewrite IH; [|split; [apply Z.div_pos; lia|apply Z.div_lt_upper_bound; lia]|nia].
    simpl. rewrite digit_is_digit by lia. rewrite byte_val_digit by lia.
    replace (_ >? max) with false by lia. f_equal. lia.
Qed.

Lemma format_loop_digits f n acc :
  0 ≤ n → Forall (λ b, is_digit b = true) acc →
  Forall (λ b, is_digit b = true) (format_loop f n acc).
Proof.
  revert n acc; induction f as [|f IH]; intros n acc Hn Hacc; simpl; [done|].
  destruct (n <? 10) eqn:E.
  - constructor; [apply digit_is_digit; lia|done].
  - apply IH; [apply Z.div_pos; lia|].
    constructor; [apply digit_is_digit; apply Z.mod_pos_bound; lia|done].
Qed.

Lemma format_loop_cons f n acc : acc ≠ [] → format_loop f n acc ≠ [].
Proof.
  revert n acc; induction f as [|f IH]; intros n acc Hacc; simpl; [done|].
  destruct (n <? 10); [done|by apply IH].
Qed.

Lemma FormatUint_digits n : 0 ≤ n → Forall (λ b, is_digit b = true) (FormatUint n).
Proof. intros. by apply format_loop_digits. Qed.

Lemma FormatUint_not_nil n : FormatUint n ≠ [].
Proof.
  unfold FormatUint. cbn [format_loop].
  destruct (n <? 10); [done|]. by apply (format_loop_cons 19).
Qed.

Lemma ParseUint_FormatUint max n :
  0 ≤ n ≤ max → max < 10 ^ 20 → ParseUint max (FormatUint n) = (n, false).
Proof.
  intros Hn Hmax. unfold ParseUint. pose proof (FormatUint_not_nil n) as Hne.
  destruct (FormatUint n) as [|b s] eqn:E; [done|]. rewrite <-E.
  unfold FormatUint. rewrite format_loop_parse; [done|change (Z.of_nat 20) with 20; lia|lia].
Qed.

Lemma is_digit_not b c : is_digit b = true → is_digit c = false → b ≠ c.
Proof. intros ?? ->. congruence. Qed.

Lemma Atoi_Itoa n : 0 ≤ n < 2 ^ 63 → Atoi (Itoa n) = (n, false).
Proof.
  intros Hn. unfold Itoa. replace (n <? 0) with false by lia.
  pose proof (FormatUint_not_nil n) as Hne.
  pose proof (FormatUint_digits n ltac:(lia)) as Hd.
  pose proof (ParseUint_FormatUint max_uint64 n ltac:(unfold max_uint64; lia)
    ltac:(unfold max_uint64; lia)) as Hp.
  unfold Atoi. destruct (FormatUint n) as [|b s]; [done|].
  apply Forall_cons in Hd as [Hb _].
  rewrite (bool_decide_eq_false_2 (b = x2d)) by (by eapply is_digit_not).
  rewrite (bool_decide_eq_false_2 (b = x2b)) by (by eapply is_digit_not).
  cbn [orb negb andb]. rewrite Hp. cbn [andb].
  replace (n >=? 2 ^ 63) with false by lia. done.
Qed.

Lemma Forall_not_elem (P : byte → bool) c s :
  Forall (λ b, P b = true) s → P c = false → c ∉ s.
Proof. rewrite Forall_forall. intros H Hc Hin. apply H in Hin. congruence. Qed.

(** A number has no other characters than digits. *)
Lemma FormatUint_no b n : 0 ≤ n → is_digit b = false → b ∉ FormatUint n.
Proof. intros Hn. apply Forall_not_elem. by apply FormatUint_digits. Qed.

(** ** Fields of a text *)

(** The number of bytes of the white space character a text starts with, zero
    if it does not start with one: unicode.IsSpace on UTF-8. *)
Definition space_len (s : list byte) : nat :=
  match s with
  | (x09 | x0a | x0b | x0c | x0d | x20) :: _ => 1
  | xc2 :: (x85 | xa0) :: _ => 2
  | xe1 :: x9a :: x80 :: _ => 3
  | xe2 :: x80 :: b :: _ =>
      if bool_decide (128 <= byte_val b <= 138)%Z || bool_decide (b = xa8)
         || bool_decide (b = xa9) || bool_decide (b = xaf) then 3%nat else 0%nat
  | xe2 :: x81 :: x9f :: _ => 3
  | xe3 :: x80 :: x80 :: _ => 3
  | _ => 0
  end%nat.

(** A field that is not empty. *)
Definition field (cur : list byte) : list (list byte) :=
  match cur with [] => [] | _ => [cur] end.

(** [skip] bytes belong to the last white space character. *)
Fixpoint fields_loop (skip : nat) (cur s : list byte) : list (list byte) :=
  match s with
  | [] => field cur
  | b :: s' =>
      match skip with
      | S skip => fields_loop skip cur s'
      | O =>
          match space_len s with
          | O => fields_loop 0 (cur ++ [b]) s'
          | S k => field cur ++ fields_loop k [] s'
          end
      end
  end.

(** [strings.Fields]. *)
Definition Fields (s : list byte) : list (list byte) := fields_loop 0 [] s.

(** [strings.Join]. *)
Fixpoint Join (l : list (list byte)) (sep : list byte) : list byte :=
  match l with
  | [] => []
  | [s] => s
  | s :: l => s ++ sep ++ Join l sep
  end.

(** [strings.Split] with a one-byte separator. *)
Fixpoint Split (s : list byte) (sep : byte) : list (list byte) :=
  match s with
  | [] => [[]]
  | b :: s =>
      if decide (b = sep) then [] :: Split s sep
      else match Split s sep with
           | t :: l => (b :: t) :: l
           | [] => [[b]]
           end
  end.

Lemma Split_app s sep t : sep ∉ s → Split (s ++ sep :: t) sep = s :: Split t sep.
Proof.
  induction s as [|b s IH]; intros Hs; simpl.
  - by rewrite decide_True.
  - rewrite decide_False by set_solver. by rewrite IH by set_solver.
Qed.

Lemma Split_single s sep : sep ∉ s → Split s sep = [s].
Proof.
  induction s as [|b s IH]; intros Hs; simpl; [done|].
  rewrite decide_False by set_solver. by rewrite IH by set_solver.
Qed.

Lemma Split_Join l sep :
  l ≠ [] → Forall (λ s, sep ∉ s) l → Split (Join l [sep]) sep = l.
Proof.
  induction l as [|s [|s' l] IH]; intros Hl Hs; [done| |].
  - apply Forall_inv in Hs. by apply Split_single.
  - apply Forall_cons in Hs as [Hs1 Hs].
    change (Join (s :: s' :: l) [sep]) with (s ++ sep :: Join (s' :: l) [sep]).
    rewrite Split_app by done. by rewrite IH.
Qed.
