(* ===== verification/Md5.v ===== *)
(** The parts of Go's standard library behind the hash of the fortune
    protocol: crypto/md5, encoding/hex and the varints of encoding/binary. *)
From S2P Require Import Prelude.

Open Scope Z_scope.

(** ** encoding/hex *)

Definition hex_digit (d : Z) : byte := byte_of (if d <? 10 then 48 + d else 87 + d).
Definition EncodeToString (bs : list byte) : list byte :=
  concat ((λ b, [hex_digit (byte_val b / 16); hex_digit (byte_val b mod 16)]) <$> bs).

(** ** encoding/binary *)

(** [PutUvarint] on 64 bits: ten bytes at most. *)
Fixpoint uvarint_loop (fuel : nat) (x : Z) : list byte :=
  match fuel with
  | O => [byte_of x]
  | S fuel => if 128 <=? x then byte_of (Z.lor x 128) :: uvarint_loop fuel (Z.shiftr x 7) else [byte_of x]
  end.
Definition PutUvarint (x : Z) : list byte := uvarint_loop 9 x.

Definition w64 : Z := 2 ^ 64.
(** The bits of a signed number, and its doubled magnitude with the sign last. *)
Definition uint64 (x : Z) : Z := x mod w64.
Definition int64 (x : Z) : Z := (x + 2 ^ 63) mod w64 - 2 ^ 63.
Definition zigzag (x : Z) : Z :=
  let ux := uint64 (Z.shiftl (uint64 x) 1) in
  if x <? 0 then w64 - 1 - ux else ux.
Definition PutVarint (x : Z) : list byte := PutUvarint (zigzag x).

(** ** crypto/md5 *)

Definition md5_shifts : list Z :=
  concat (replicate 4 [7; 12; 17; 22]) ++ concat (replicate 4 [5; 9; 14; 20]) ++
  concat (replicate 4 [4; 11; 16; 23]) ++ concat (replicate 4 [6; 10; 15; 21]).

Definition md5_table : list Z :=
  [0xd76aa478; 0xe8c7b756; 0x242070db; 0xc1bdceee; 0xf57c0faf; 0x4787c62a; 0xa8304613; 0xfd469501;
   0x698098d8; 0x8b44f7af; 0xffff5bb1; 0x895cd7be; 0x6b901122; 0xfd987193; 0xa679438e; 0x49b40821;
   0xf61e2562; 0xc040b340; 0x265e5a51; 0xe9b6c7aa; 0xd62f105d; 0x02441453; 0xd8a1e681; 0xe7d3fbc8;
   0x21e1cde6; 0xc33707d6; 0xf4d50d87; 0x455a14ed; 0xa9e3e905; 0xfcefa3f8; 0x676f02d9; 0x8d2a4c8a;
   0xfffa3942; 0x8771f681; 0x6d9d6122; 0xfde5380c; 0xa4beea44; 0x4bdecfa9; 0xf6bb4b60; 0xbebfbc70;
   0x289b7ec6; 0xeaa127fa; 0xd4ef3085; 0x04881d05; 0xd9d4d039; 0xe6db99e5; 0x1fa27cf8; 0xc4ac5665;
   0xf4292244; 0x432aff97; 0xab9423a7; 0xfc93a039; 0x655b59c3; 0x8f0ccc92; 0xffeff47d; 0x85845dd1;
   0x6fa87e4f; 0xfe2ce6e0; 0xa3014314; 0x4e0811a1; 0xf7537e82; 0xbd3af235; 0x2ad7d2bb; 0xeb86d391].

Definition rotl (x s : Z) : Z := wrap32 (Z.lor (Z.shiftl x s) (Z.shiftr x (32 - s))).
Definition lnot32 (x : Z) : Z := w32 - 1 - x.

(** Little-endian. *)
Fixpoint word (bs : list byte) : Z :=
  match bs with [] => 0 | b :: bs => byte_val b + 256 * word bs end.
Definition le_bytes (n : nat) (x : Z) : list byte :=
  (λ i, byte_of (Z.shiftr x (8 * Z.of_nat i))) <$> seq 0 n.

Record digest : Type := mkDigest { dg_a : Z; dg_b : Z; dg_c : Z; dg_d : Z }.

Definition md5_round (block : list Z) (i : nat) (g : digest) : digest :=
  let '(mkDigest a b c d) := g in
  let '(f, k) :=
    if (i <? 16)%nat then (Z.lor (Z.land b c) (Z.land (lnot32 b) d), i)
    else if (i <? 32)%nat then (Z.lor (Z.land d b) (Z.land (lnot32 d) c), (5 * i + 1) mod 16)%nat
    else if (i <? 48)%nat then (Z.lxor b (Z.lxor c d), (3 * i + 5) mod 16)%nat
    else (Z.lxor c (Z.lor b (lnot32 d)), (7 * i) mod 16)%nat in
  let f := wrap32 (f + a + nth i md5_table 0 + nth k block 0) in
  mkDigest d (wrap32 (b + rotl f (nth i md5_shifts 0))) b c.

Definition md5_block (g : digest) (block : list byte) : digest :=
  let words := (λ i, word (take 4 (drop (4 * i) block))) <$> seq 0 16 in
  let h := foldl (λ g i, md5_round words i g) g (seq 0 64) in
  mkDigest (wrap32 (dg_a g + dg_a h)) (wrap32 (dg_b g + dg_b h)) (wrap32 (dg_c g + dg_c h))
    (wrap32 (dg_d g + dg_d h)).

Definition md5_pad (msg : list byte) : list byte :=
  msg ++ [x80] ++ replicate (Z.to_nat ((55 - zlen msg) mod 64)) x00 ++ le_bytes 8 (8 * zlen msg).

Fixpoint md5_blocks (fuel : nat) (g : digest) (msg : list byte) : digest :=
  match fuel with
  | O => g
  | S fuel => md5_blocks fuel (md5_block g (take 64 msg)) (drop 64 msg)
  end.

Definition Sum (msg : list byte) : list byte :=
  let padded := md5_pad msg in
  let g := md5_blocks (length padded / 64) (mkDigest 0x67452301 0xefcdab89 0x98badcfe 0x10325476) padded in
  le_bytes 4 (dg_a g) ++ le_bytes 4 (dg_b g) ++ le_bytes 4 (dg_c g) ++ le_bytes 4 (dg_d g).

(** ** Varints determine their number *)

(** [binary.Uvarint]. *)
Fixpoint Uvarint (bs : list byte) : Z :=
  match bs with [] => 0 | b :: bs => byte_val b mod 128 + 128 * Uvarint bs end.

Lemma low_bits y : byte_val (byte_of y) mod 128 = y mod 128.
Proof.
  rewrite byte_val_of. unfold wrap8. change w8 with (2 ^ 8). change 128 with (2 ^ 7).
  rewrite <-!Z.land_ones, <-Z.land_assoc by lia. done.
Qed.

Lemma lor_128 x : Z.lor x 128 mod 128 = x mod 128.
Proof.
  change 128 with (2 ^ 7) at 2 3. rewrite <-!Z.land_ones, Z.land_lor_distr_l by lia.
  change (Z.land 128 (Z.ones 7)) with 0. by rewrite Z.lor_0_r.
Qed.

Lemma uvarint_loop_ok n x :
  0 ≤ x < 2 ^ (7 * (Z.of_nat n + 1)) →
  Uvarint (uvarint_loop n x) = x ∧ (1 ≤ length (uvarint_loop n x) ≤ n + 1)%nat.
Proof.
  assert (∀ x, 0 ≤ x < 128 → Uvarint [byte_of x] = x) as Hlast.
  { intros y Hy. cbn [Uvarint]. rewrite low_bits, Z.mod_small by lia. lia. }
  revert x; induction n as [|n IH]; intros x Hx; cbn [uvarint_loop].
  - split; [by apply Hlast|cbn; lia].
  - destruct (Z.leb_spec 128 x) as [Hge|Hlt]; [|split; [apply Hlast; lia|cbn; lia]].
    assert (Z.shiftr x 7 = x / 128) as Hs by (by rewrite Z.shiftr_div_pow2 by lia).
    destruct (IH (Z.shiftr x 7)) as [IHv IHl].
    { rewrite Hs. split; [apply Z.div_pos; lia|]. apply Z.div_lt_upper_bound; [lia|].
      replace (7 * (Z.of_nat (S n) + 1)) with (7 + 7 * (Z.of_nat n + 1)) in Hx by lia.
      rewrite Z.pow_add_r in Hx by lia. change (2 ^ 7) with 128 in Hx. lia. }
    cbn [Uvarint length]. split; [|lia]. rewrite low_bits, lor_128, IHv, Hs.
    pose proof (Z.div_mod x 128 ltac:(lia)). lia.
Qed.

Lemma zigzag_int64 x : - 2 ^ 63 ≤ x < 2 ^ 63 → zigzag x = if x <? 0 then - 2 * x - 1 else 2 * x.
Proof.
  intros Hx. unfold zigzag, uint64, w64. rewrite Z.shiftl_mul_pow2 by lia.
  destruct (Z.ltb_spec x 0).
  - rewrite <-(Z_mod_plus_full x 1 (2 ^ 64)), (Z.mod_small (x + 1 * 2 ^ 64)) by lia.
    rewrite <-(Z_mod_plus_full _ (-1) (2 ^ 64)), Z.mod_small by lia. lia.
  - rewrite (Z.mod_small x), Z.mod_small by lia. lia.
Qed.

Lemma int64_range x : - 2 ^ 63 ≤ int64 x < 2 ^ 63.
Proof. unfold int64, w64. pose proof (Z.mod_pos_bound (x + 2 ^ 63) (2 ^ 64)). lia. Qed.

Lemma int64_small x : - 2 ^ 63 ≤ x < 2 ^ 63 → int64 x = x.
Proof. intros Hx. unfold int64, w64. rewrite Z.mod_small by lia. lia. Qed.

Lemma PutVarint_ok x :
  - 2 ^ 63 ≤ x < 2 ^ 63 →
  Uvarint (PutVarint x) = zigzag x ∧ (1 ≤ length (PutVarint x) ≤ 10)%nat.
Proof.
  intros Hx. unfold PutVarint, PutUvarint. apply (uvarint_loop_ok 9).
  rewrite zigzag_int64 by done. change (2 ^ (7 * (Z.of_nat 9 + 1))) with (64 * 2 ^ 64).
  destruct (Z.ltb_spec x 0); lia.
Qed.

Lemma PutVarint_inj x y :
  - 2 ^ 63 ≤ x < 2 ^ 63 → - 2 ^ 63 ≤ y < 2 ^ 63 → PutVarint x = PutVarint y → x = y.
Proof.
  intros Hx Hy E. destruct (PutVarint_ok x Hx) as [Ex _]. destruct (PutVarint_ok y Hy) as [Ey _].
  rewrite E, Ey in Ex. rewrite !zigzag_int64 in Ex by done.
  destruct (Z.ltb_spec x 0), (Z.ltb_spec y 0); lia.
Qed.

Lemma int64_add_inj n x y :
  - 2 ^ 63 ≤ x < 2 ^ 63 → - 2 ^ 63 ≤ y < 2 ^ 63 → int64 (n + x) = int64 (n + y) → x = y.
Proof.
  intros Hx Hy E. unfold int64, w64 in E.
  pose proof (Z.div_mod (n + x + 2 ^ 63) (2 ^ 64) ltac:(lia)). pose proof (Z.div_mod (n + y + 2 ^ 63) (2 ^ 64) ltac:(lia)).
  assert ((n + x + 2 ^ 63) / 2 ^ 64 - (n + y + 2 ^ 63) / 2 ^ 64 = 0 ∨
    (n + x + 2 ^ 63) / 2 ^ 64 - (n + y + 2 ^ 63) / 2 ^ 64 ≠ 0) as [|] by lia; lia.
Qed.
