(* ===== verification/Fortune.v ===== *)
(** The fortune protocol: a client that shares a secret with an
    authentication server gets a fortune from a second server
    (CPSC418/assignment1/client.go, assignment2/auth-server.go and
    fortune-server.go).

    Datagrams may be sent by anyone from any address. A read has room for 1024
    bytes. *)
From Stdlib Require Import Strings.String.
From S2P Require Import Prelude Md5.

Open Scope Z_scope.

Abbreviation str := (list byte).
Definition text (s : String.string) : str := String.list_byte_of_string s.
Arguments text s%_string.

(** ** Messages *)

Record ErrMessage : Type := mkErrMessage { Error : str }.
Record NonceMessage : Type := mkNonceMessage { Nonce : Z }.
Record HashMessage : Type := mkHashMessage { Hash : str }.
Record FortuneInfoMessage : Type := mkFortuneInfoMessage {
  FortuneServer : str;
  FortuneInfoNonce : Z
}.
Record FortuneReqMessage : Type := mkFortuneReqMessage { FortuneNonce : Z }.
Record FortuneMessage : Type := mkFortuneMessage { Fortune : str }.

(** What a server or a client hands to [json.Marshal]. *)
Inductive message : Type :=
  | MErr (m : ErrMessage)
  | MNonce (m : NonceMessage)
  | MHash (m : HashMessage)
  | MInfo (m : FortuneInfoMessage)
  | MReq (m : FortuneReqMessage)
  | MFortune (m : FortuneMessage).

(** encoding/json on the messages: the text, and, for each type, the pointer
    that [json.Unmarshal] leaves and whether it reports an error. *)
Class FortuneJson : Type := {
  Marshal : message → list byte;
  Unmarshal_Err : list byte → option ErrMessage * bool;
  Unmarshal_Nonce : list byte → option NonceMessage * bool;
  Unmarshal_Hash : list byte → option HashMessage * bool;
  Unmarshal_Info : list byte → option FortuneInfoMessage * bool;
  Unmarshal_Req : list byte → option FortuneReqMessage * bool;
  Unmarshal_Fortune : list byte → option FortuneMessage * bool
}.

(** The text [null], which leaves a pointer nil and is no error. *)
Definition null : list byte := text "null".

(** What encoding/json does with the messages of a run: a text is read back;
    an object without the field [Error] leaves it empty; zero bytes are no
    JSON; [null] leaves a nil pointer. *)
Class FortuneJsonLaws `{FortuneJson} (valid : message → Prop) : Prop := {
  read_Err m : valid (MErr m) → Unmarshal_Err (Marshal (MErr m)) = (Some m, false);
  read_Nonce m : valid (MNonce m) → Unmarshal_Nonce (Marshal (MNonce m)) = (Some m, false);
  read_Hash m : valid (MHash m) → Unmarshal_Hash (Marshal (MHash m)) = (Some m, false);
  read_Info m : valid (MInfo m) → Unmarshal_Info (Marshal (MInfo m)) = (Some m, false);
  read_Req m : valid (MReq m) → Unmarshal_Req (Marshal (MReq m)) = (Some m, false);
  read_Fortune m : valid (MFortune m) → Unmarshal_Fortune (Marshal (MFortune m)) = (Some m, false);
  read_no_error m :
    valid m → (∀ e, m ≠ MErr e) → Unmarshal_Err (Marshal m) = (Some (mkErrMessage []), false);
  fits m : valid m → (length (Marshal m) ≤ 1024)%nat;
  zeros_no_json : (Unmarshal_Hash (replicate 1024 x00)).2 = true;
  null_Hash : Unmarshal_Hash null = (None, false);
  null_Req : Unmarshal_Req null = (None, false)
}.

(** [Read(buf[:])] of a datagram. *)
Definition read_datagram (datagram : list byte) : list byte := take 1024 datagram.

Section Programs.
Context `{FortuneJson}.

(** ** The authentication server *)

(** [addrNonceMap] of a server. *)
Abbreviation nonces := (gmap str Z).

Definition computeNonceSecretHash (nonce secret : Z) : str :=
  let sum := int64 (nonce + secret) in
  EncodeToString (Sum (PutVarint sum)).

Definition checkHash (m : nonces) (addr : str) (hashMessage : option HashMessage) (secret : Z)
    : res (option ErrMessage) :=
  match m !! addr with
  | None => Ok (Some (mkErrMessage (text "unknown remote client address")))
  | Some nonce =>
      hashMessage ← require NilPointer hashMessage;
      if decide (computeNonceSecretHash nonce secret ≠ Hash hashMessage)
      then Ok (Some (mkErrMessage (text "unexpected hash value")))
      else Ok None
  end.

(** The handler up to the call of the other server: the map and a reply, or
    no reply yet. [rand] is the draw of [rand.Int63]. *)
Definition handleAuthRequest_first (secret : Z) (m : nonces) (addr : str) (request : list byte)
    (rand : Z) : res (nonces * option message) :=
  let '(hashMessage, err) := Unmarshal_Hash request in
  if (err : bool) then
    let nonce := rand in
    Ok (<[addr := nonce]> m, Some (MNonce (mkNonceMessage nonce)))
  else
    errMessage ← checkHash m addr hashMessage secret;
    match errMessage with
    | Some errMessage => Ok (m, Some (MErr errMessage))
    | None => Ok (m, None)
    end.

(** ** The fortune server *)

Definition GetFortuneInfo (server : str) (m : nonces) (clientAddr : str) (rand : Z)
    : nonces * FortuneInfoMessage :=
  (<[clientAddr := rand]> m, mkFortuneInfoMessage server rand).

(** The whole handler of the authentication server: [called] is whether the
    call of the other server succeeded; no reply is sent when it failed. *)
Definition handleAuthRequestHelper (secret : Z) (server : str) (m fm : nonces) (addr : str)
    (request : list byte) (rand : Z) (called : bool) (frand : Z)
    : res (nonces * nonces * option message) :=
  '(m, reply) ← handleAuthRequest_first secret m addr request rand;
  match reply with
  | Some reply => Ok (m, fm, Some reply)
  | None =>
      if called then
        let '(fm, fortuneInfo) := GetFortuneInfo server fm addr frand in
        Ok (m, fm, Some (MInfo fortuneInfo))
      else Ok (m, fm, None)
  end.

Definition handleFortuneRequestHelper (fortune : str) (m : nonces) (request : list byte) (addr : str)
    : res message :=
  let '(fortuneReq, err) := Unmarshal_Req request in
  if (err : bool) then Ok (MErr (mkErrMessage (text "could not interpret message")))
  else
    match m !! addr with
    | None => Ok (MErr (mkErrMessage (text "unknown remote client address")))
    | Some nonce =>
        fortuneReq ← require NilPointer fortuneReq;
        if decide (nonce ≠ FortuneNonce fortuneReq)
        then Ok (MErr (mkErrMessage (text "incorrect fortune nonce")))
        else Ok (MFortune (mkFortuneMessage fortune))
    end.

(** ** The client *)

(** [None] is [os.Exit]. *)
Definition checkForErrMessage (bytes : list byte) : res (option unit) :=
  errMessage ← require NilPointer (Unmarshal_Err bytes).1;
  if decide (Error errMessage ≠ []) then Ok None else Ok (Some ()).

(** A reply that is not an error and that [unmarshal] can read. *)
Definition client_read {A} (unmarshal : list byte → option A * bool) (reply : list byte)
    : res (option A) :=
  let bytes := read_datagram reply in
  ok ← checkForErrMessage bytes;
  match ok with
  | None => Ok None
  | Some _ =>
      let '(m, err) := unmarshal bytes in
      if (err : bool) then Ok None else m ← require NilPointer m; Ok (Some m)
  end.

(** The datagrams of [main], one after the other. *)
Definition client_hello : list byte := replicate 1024 x00.

Definition client_hash (secret : Z) (reply : list byte) : res (option (list byte)) :=
  nonce ← client_read Unmarshal_Nonce reply;
  Ok (match nonce with
      | Some nonce =>
          let md5 := Sum (PutVarint (int64 (Nonce nonce + secret))) in
          Some (Marshal (MHash (mkHashMessage (EncodeToString md5))))
      | None => None
      end).

Definition client_request (reply : list byte) : res (option (str * list byte)) :=
  fortuneInfo ← client_read Unmarshal_Info reply;
  Ok (match fortuneInfo with
      | Some fortuneInfo =>
          Some (FortuneServer fortuneInfo,
                Marshal (MReq (mkFortuneReqMessage (FortuneInfoNonce fortuneInfo))))
      | None => None
      end).

Definition client_fortune (reply : list byte) : res (option str) :=
  fortuneMessage ← client_read Unmarshal_Fortune reply;
  Ok (match fortuneMessage with Some m => Some (Fortune m) | None => None end).
End Programs.
