(* ===== verification/FortuneProps.v ===== *)
(** The fortune protocol: a client with the secret gets the fortune, and
    nobody else does, whatever datagrams anybody sends in whatever order
    (CPSC418/assignment1/client.go, assignment2/auth-server.go and
    fortune-server.go). *)
From Stdlib Require Import Strings.String.
From S2P Require Import Prelude GoText Md5 Fortune.

Open Scope Z_scope.

(** ** The two servers against arbitrary datagrams *)

(** What has happened, oldest first. *)
Inductive fortune_event : Type :=
  | Issued (addr : str) (nonce : Z)
  | Accepted (addr hash : str)
  | Informed (addr : str) (nonce : Z)
  | Told (addr : str) (nonce : Z).

Record world : Type := mkWorld {
  w_auth : gmap str Z;
  w_fortune : gmap str Z;
  w_calling : list str;
  w_history : list fortune_event
}.

Definition empty_world : world := mkWorld ∅ ∅ [] [].

Section World.
Context `{FortuneJson} (secret : Z) (server fortune : str).

(** A handler of the authentication server checks a hash, and later, when
    other handlers have run, its call reaches the fortune server. *)
Inductive fortune_step (w : world) : world → Prop :=
  | step_issue addr request rand m r :
      handleAuthRequest_first secret (w_auth w) addr request rand = Ok (m, Some (MNonce r)) →
      fortune_step w (mkWorld m (w_fortune w) (w_calling w) (w_history w ++ [Issued addr (Nonce r)]))
  | step_reject addr request rand m e :
      handleAuthRequest_first secret (w_auth w) addr request rand = Ok (m, Some (MErr e)) →
      fortune_step w (mkWorld m (w_fortune w) (w_calling w) (w_history w))
  | step_accept addr request rand m hash :
      handleAuthRequest_first secret (w_auth w) addr request rand = Ok (m, None) →
      (Unmarshal_Hash request).1 = Some hash →
      fortune_step w (mkWorld m (w_fortune w) (addr :: w_calling w) (w_history w ++ [Accepted addr (Hash hash)]))
  | step_call addr calling rand m info :
      w_calling w ≡ₚ addr :: calling →
      GetFortuneInfo server (w_fortune w) addr rand = (m, info) →
      fortune_step w (mkWorld (w_auth w) m calling (w_history w ++ [Informed addr (FortuneInfoNonce info)]))
  | step_no_call addr calling :
      w_calling w ≡ₚ addr :: calling →
      fortune_step w (mkWorld (w_auth w) (w_fortune w) calling (w_history w))
  | step_tell addr request r m :
      handleFortuneRequestHelper fortune (w_fortune w) request addr = Ok (MFortune m) →
      (Unmarshal_Req request).1 = Some r →
      fortune_step w (mkWorld (w_auth w) (w_fortune w) (w_calling w) (w_history w ++ [Told addr (FortuneNonce r)]))
  | step_tell_no addr request e :
      handleFortuneRequestHelper fortune (w_fortune w) request addr = Ok (MErr e) →
      fortune_step w w.

(** ** What the servers remember *)

Definition last_issued (h : list fortune_event) (addr : str) : option Z :=
  foldl (λ o e, match e with Issued a n => if decide (a = addr) then Some n else o | _ => o end) None h.
Definition last_informed (h : list fortune_event) (addr : str) : option Z :=
  foldl (λ o e, match e with Informed a n => if decide (a = addr) then Some n else o | _ => o end) None h.

Definition accepted_hash (h : list fortune_event) (addr hash : str) : Prop :=
  ∃ nonce, last_issued h addr = Some nonce ∧ hash = computeNonceSecretHash nonce secret.

(** An event may follow a history. *)
Definition justified (h : list fortune_event) (e : fortune_event) : Prop :=
  match e with
  | Issued _ _ => True
  | Accepted addr hash => accepted_hash h addr hash
  | Informed addr _ => ∃ hash, Accepted addr hash ∈ h
  | Told addr nonce => last_informed h addr = Some nonce
  end.

Record world_ok (w : world) : Prop := {
  wo_auth addr : w_auth w !! addr = last_issued (w_history w) addr;
  wo_fortune addr : w_fortune w !! addr = last_informed (w_history w) addr;
  wo_calling addr : addr ∈ w_calling w → ∃ hash, Accepted addr hash ∈ w_history w;
  wo_history h1 e h2 : w_history w = h1 ++ e :: h2 → justified h1 e
}.

Lemma last_issued_snoc h e addr :
  last_issued (h ++ [e]) addr =
  match e with Issued a n => if decide (a = addr) then Some n else last_issued h addr | _ => last_issued h addr end.
Proof. unfold last_issued. by rewrite foldl_app. Qed.

Lemma last_informed_snoc h e addr :
  last_informed (h ++ [e]) addr =
  match e with Informed a n => if decide (a = addr) then Some n else last_informed h addr | _ => last_informed h addr end.
Proof. unfold last_informed. by rewrite foldl_app. Qed.

Lemma history_snoc h e :
  (∀ h1 e' h2, h = h1 ++ e' :: h2 → justified h1 e') → justified h e →
  ∀ h1 e' h2, h ++ [e] = h1 ++ e' :: h2 → justified h1 e'.
Proof.
  intros Hh He h1 e' h2 E. destruct h2 as [|e2 h2 _] using rev_ind.
  - apply app_inj_tail in E as [-> ->]. done.
  - rewrite app_comm_cons, app_assoc in E. apply app_inj_tail in E as [-> _]. by eapply Hh.
Qed.

(** What a handler returned tells what it found. *)
Lemma first_issues m addr request rand m' r :
  handleAuthRequest_first secret m addr request rand = Ok (m', Some (MNonce r)) →
  m' = <[addr := Nonce r]> m.
Proof.
  unfold handleAuthRequest_first. destruct (Unmarshal_Hash request) as [h []]; [by intros [= <- <-]|].
  intros E. apply bind_Ok_inv in E as ([e|] & _ & E); simplify_eq.
Qed.

Lemma first_rejects m addr request rand m' e :
  handleAuthRequest_first secret m addr request rand = Ok (m', Some (MErr e)) → m' = m.
Proof.
  unfold handleAuthRequest_first. destruct (Unmarshal_Hash request) as [h []]; [done|].
  intros E. apply bind_Ok_inv in E as ([e'|] & _ & E); by simplify_eq.
Qed.

Lemma first_accepts m addr request rand m' hash :
  handleAuthRequest_first secret m addr request rand = Ok (m', None) →
  (Unmarshal_Hash request).1 = Some hash →
  m' = m ∧ ∃ nonce, m !! addr = Some nonce ∧ Hash hash = computeNonceSecretHash nonce secret.
Proof.
  unfold handleAuthRequest_first. destruct (Unmarshal_Hash request) as [h []]; [done|].
  intros E [= ->]. apply bind_Ok_inv in E as ([e|] & E & E'); simplify_eq. split; [done|].
  unfold checkHash in E. destruct (m' !! addr) as [nonce|]; [|done]. rewrite require_Some, bind_Ok in E.
  exists nonce. split; [done|].
  destruct (decide (computeNonceSecretHash nonce secret = Hash hash)) as [Hd|Hd]; [done|].
  by rewrite decide_True in E.
Qed.

Lemma fortune_told_to m addr request f r :
  handleFortuneRequestHelper fortune m request addr = Ok (MFortune f) →
  (Unmarshal_Req request).1 = Some r → m !! addr = Some (FortuneNonce r).
Proof.
  unfold handleFortuneRequestHelper. destruct (Unmarshal_Req request) as [q []]; [done|].
  intros E [= ->]. destruct (m !! addr) as [n|]; [|done]. rewrite require_Some, bind_Ok in E.
  destruct (decide (n = FortuneNonce r)) as [->|Hd]; [done|]. by rewrite decide_True in E.
Qed.

Lemma world_step w w' : world_ok w → fortune_step w w' → world_ok w'.
Proof.
  intros [Ha Hf Hc Hh] Hstep. destruct Hstep as
    [addr request rand m r E|addr request rand m e E|addr request rand m hash E Eh
    |addr calling rand m info Ec E|addr calling Ec|addr request r m E Er|addr request e E]; [..|by split].
  - apply first_issues in E as ->. split; cbn [w_auth w_fortune w_calling w_history].
    + intros a. rewrite last_issued_snoc, lookup_insert, Ha. done.
    + intros a. by rewrite last_informed_snoc.
    + intros a Hin. destruct (Hc a Hin) as [hash ?]. exists hash. set_solver.
    + by apply history_snoc.
  - apply first_rejects in E as ->. by split.
  - destruct (first_accepts _ _ _ _ _ _ E Eh) as (-> & n & Hn & Hhash). split; cbn [w_auth w_fortune w_calling w_history].
    + intros a. by rewrite last_issued_snoc.
    + intros a. by rewrite last_informed_snoc.
    + intros a [->|Hin]%elem_of_cons; [exists (Hash hash); set_solver|].
      destruct (Hc a Hin) as [h' ?]. exists h'. set_solver.
    + apply history_snoc; [done|]. exists n. by rewrite <-Ha.
  - injection E as <- <-. split; cbn [w_auth w_fortune w_calling w_history].
    + intros a. by rewrite last_issued_snoc.
    + intros a. by rewrite last_informed_snoc, lookup_insert, Hf.
    + intros a Hin. destruct (Hc a) as [h' ?]; [rewrite Ec; set_solver|]. exists h'. set_solver.
    + apply history_snoc; [done|]. apply Hc. rewrite Ec. set_solver.
  - split; cbn [w_auth w_fortune w_calling w_history]; [done..| |done]. intros a Hin. apply Hc. rewrite Ec. set_solver.
  - pose proof (fortune_told_to _ _ _ _ _ E Er) as Hn. split; cbn [w_auth w_fortune w_calling w_history].
    + intros a. by rewrite last_issued_snoc.
    + intros a. by rewrite last_informed_snoc.
    + intros a Hin. destruct (Hc a Hin) as [h' ?]. exists h'. set_solver.
    + apply history_snoc; [done|]. cbn. by rewrite <-Hf.
Qed.

Lemma reachable_ok w : rtc fortune_step empty_world w → world_ok w.
Proof.
  assert (world_ok empty_world) as H0.
  { split; cbn; try done; [by intros a Hin%elem_of_nil|]. intros h1 e h2 E. by destruct h1. }
  intros Hr. revert H0. induction Hr as [|w1 w2 w3 Hs _ IH]; [done|]. intros Hw. by apply IH; eapply world_step.
Qed.

(** The nonce that a client was informed of last was given after a right hash
    came from its address. *)
Lemma last_informed_split h addr n :
  last_informed h addr = Some n → ∃ h1 h2, h = h1 ++ Informed addr n :: h2.
Proof.
  induction h as [|e h IH] using rev_ind; [done|]. rewrite last_informed_snoc. intros E.
  assert (last_informed h addr = Some n → ∃ h1 h2, h ++ [e] = h1 ++ Informed addr n :: h2) as Hrec.
  { intros Hl. destruct (IH Hl) as (h1 & h2 & ->). exists h1, (h2 ++ [e]). by rewrite <-app_assoc. }
  destruct e as [| |a m|]; [by apply Hrec..| |by apply Hrec].
  case_decide as Hd; [|by apply Hrec]. subst a. injection E as <-. by exists h, [].
Qed.
End World.

(** ** Reading replies *)

Section Client.
Context `{FortuneJsonLaws valid}.

Lemma reads_error e {A} (unmarshal : list byte → option A * bool) :
  valid (MErr e) → Error e ≠ [] → client_read unmarshal (Marshal (MErr e)) = Ok None.
Proof.
  intros Hv Hne. unfold client_read, read_datagram, checkForErrMessage.
  rewrite take_ge by (by apply fits). rewrite read_Err by done. cbn [fst]. rewrite require_Some, bind_Ok.
  by rewrite decide_True.
Qed.

Lemma reads_message m {A} (unmarshal : list byte → option A * bool) a :
  valid m → (∀ e, m ≠ MErr e) → unmarshal (Marshal m) = (Some a, false) →
  client_read unmarshal (Marshal m) = Ok (Some a).
Proof.
  intros Hv Hne Hu. unfold client_read, read_datagram, checkForErrMessage.
  rewrite take_ge by (by apply fits). rewrite read_no_error by done. cbn [fst]. rewrite require_Some, bind_Ok.
  rewrite decide_False by (intros E; by apply E). by rewrite Hu.
Qed.

Lemma first_hello secret m addr rand :
  handleAuthRequest_first secret m addr client_hello rand =
    Ok (<[addr := rand]> m, Some (MNonce (mkNonceMessage rand))).
Proof.
  unfold handleAuthRequest_first, client_hello. pose proof zeros_no_json as Hz.
  destruct (Unmarshal_Hash _) as [h err]. cbn in Hz. by rewrite Hz.
Qed.

Lemma first_hash secret m addr rand nonce hash :
  valid (MHash (mkHashMessage hash)) → m !! addr = Some nonce →
  handleAuthRequest_first secret m addr (Marshal (MHash (mkHashMessage hash))) rand =
    Ok (m, if decide (computeNonceSecretHash nonce secret = hash) then None
           else Some (MErr (mkErrMessage (text "unexpected hash value")))).
Proof.
  intros Hv Hm. unfold handleAuthRequest_first. rewrite read_Hash by done. unfold checkHash. rewrite Hm.
  rewrite require_Some, bind_Ok. cbn [Hash]. by repeat case_decide.
Qed.
End Client.

(** ** A JSON for the examples *)

Definition quoted (s : str) : str := x22 :: s ++ [x22].

Fixpoint strip (prefix s : str) : option str :=
  match prefix, s with
  | [], _ => Some s
  | p :: prefix, c :: s => if decide (p = c) then strip prefix s else None
  | _, [] => None
  end.

(** The text before the next quote, and the text after it. *)
Fixpoint to_quote (s : str) : option (str * str) :=
  match s with
  | [] => None
  | c :: s => if decide (c = x22) then Some ([], s)
              else match to_quote s with Some (a, b) => Some (c :: a, b) | None => None end
  end.

Definition json_key (name : String.string) : str := quoted (text name) ++ [x3a].
Arguments json_key name%_string.

Definition read_string (name : String.string) (b : str) : option str :=
  s ← strip (x7b :: json_key name ++ [x22]) b; p ← to_quote s; Some p.1.
Definition read_number (name : String.string) (b : str) : option Z :=
  s ← strip (x7b :: json_key name) b; Some (Atoi (take (length s - 1) s)).1.

(** A pointer for an object, an empty one for another object, nil and an
    error for what is none. *)
Definition pointer {A} (zero : A) (b : str) (o : option A) : option A * bool :=
  if decide (b = null) then (None, false)
  else match o, b with
  | Some a, _ => (Some a, false)
  | None, x7b :: _ => (Some zero, false)
  | None, _ => (None, true)
  end.

#[export] Instance sample_json : FortuneJson := {|
  Marshal m :=
    match m with
    | MErr e => x7b :: json_key "Error" ++ quoted (Error e) ++ [x7d]
    | MNonce n => x7b :: json_key "Nonce" ++ Itoa (Nonce n) ++ [x7d]
    | MHash h => x7b :: json_key "Hash" ++ quoted (Hash h) ++ [x7d]
    | MInfo i => x7b :: json_key "FortuneServer" ++ quoted (FortuneServer i) ++ x2c :: json_key "FortuneNonce" ++
                   Itoa (FortuneInfoNonce i) ++ [x7d]
    | MReq r => x7b :: json_key "FortuneNonce" ++ Itoa (FortuneNonce r) ++ [x7d]
    | MFortune f => x7b :: json_key "Fortune" ++ quoted (Fortune f) ++ [x7d]
    end;
  Unmarshal_Err b := pointer (mkErrMessage []) b (mkErrMessage <$> read_string "Error" b);
  Unmarshal_Nonce b := pointer (mkNonceMessage 0) b (mkNonceMessage <$> read_number "Nonce" b);
  Unmarshal_Hash b := pointer (mkHashMessage []) b (mkHashMessage <$> read_string "Hash" b);
  Unmarshal_Info b := pointer (mkFortuneInfoMessage [] 0) b
    (s ← strip (x7b :: json_key "FortuneServer" ++ [x22]) b; p ← to_quote s;
     n ← strip (x2c :: json_key "FortuneNonce") p.2;
     Some (mkFortuneInfoMessage p.1 (Atoi (take (length n - 1) n)).1));
  Unmarshal_Req b := pointer (mkFortuneReqMessage 0) b (mkFortuneReqMessage <$> read_number "FortuneNonce" b);
  Unmarshal_Fortune b := pointer (mkFortuneMessage []) b (mkFortuneMessage <$> read_string "Fortune" b)
|}.

Definition sample_hash : str := Eval vm_compute in computeNonceSecretHash 7 1984.
Definition wrong_hash : str := Eval vm_compute in computeNonceSecretHash 7 2.

Lemma sample_hash_eq : computeNonceSecretHash 7 1984 = sample_hash.
Proof. by vm_compute. Qed.
Lemma wrong_hash_eq : computeNonceSecretHash 7 2 = wrong_hash.
Proof. by vm_compute. Qed.

Definition sample_messages : list message :=
  [MNonce (mkNonceMessage 7); MHash (mkHashMessage sample_hash);
   MHash (mkHashMessage wrong_hash); MErr (mkErrMessage (text "unexpected hash value"));
   MInfo (mkFortuneInfoMessage (text "127.0.0.1:9000") 42); MReq (mkFortuneReqMessage 42);
   MFortune (mkFortuneMessage (text "hello"));
   MInfo (mkFortuneInfoMessage (text "127.0.0.1:9000") 7); MReq (mkFortuneReqMessage 7)].

#[export] Instance sample_json_laws : FortuneJsonLaws (λ m, m ∈ sample_messages).
Proof.
  split; [intros m Hm..|by vm_compute|by vm_compute|by vm_compute].
  all: unfold sample_messages in Hm; rewrite !elem_of_cons, elem_of_nil in Hm; try intros Hne.
  all: repeat match goal with H : _ ∨ _ |- _ => destruct H as [H|H] end; try discriminate Hm; try done.
  all: try (injection Hm as ->); subst; try (vm_compute; reflexivity); try (by edestruct Hne).
  all: apply Nat.leb_le; by vm_compute.
Qed.

(** ** The properties *)

(** A client with the secret of the server gets the fortune. Each of its
    three datagrams is answered by the next message of the protocol, whatever
    the servers remembered before, and it reads the fortune at the end. *)
Theorem fortune_told `{FortuneJsonLaws valid} secret server fortune m fm addr rand frand draw :
  let hash := computeNonceSecretHash rand secret in
  valid (MNonce (mkNonceMessage rand)) → valid (MHash (mkHashMessage hash)) →
  valid (MInfo (mkFortuneInfoMessage server frand)) → valid (MReq (mkFortuneReqMessage frand)) →
  valid (MFortune (mkFortuneMessage fortune)) →
  ∃ m1 fm1 hash_text req_text,
    handleAuthRequestHelper secret server m fm addr client_hello rand true draw =
      Ok (m1, fm, Some (MNonce (mkNonceMessage rand))) ∧
    client_hash secret (Marshal (MNonce (mkNonceMessage rand))) = Ok (Some hash_text) ∧
    handleAuthRequestHelper secret server m1 fm addr hash_text draw true frand =
      Ok (m1, fm1, Some (MInfo (mkFortuneInfoMessage server frand))) ∧
    client_request (Marshal (MInfo (mkFortuneInfoMessage server frand))) = Ok (Some (server, req_text)) ∧
    handleFortuneRequestHelper fortune fm1 req_text addr = Ok (MFortune (mkFortuneMessage fortune)) ∧
    client_fortune (Marshal (MFortune (mkFortuneMessage fortune))) = Ok (Some fortune).
Proof.
  intros hash Hn Hh Hi Hr Hf.
  exists (<[addr := rand]> m), (<[addr := frand]> fm), (Marshal (MHash (mkHashMessage hash))),
    (Marshal (MReq (mkFortuneReqMessage frand))).
  unfold handleAuthRequestHelper, client_hash, client_request, client_fortune.
  rewrite first_hello, (first_hash _ _ _ _ rand) by (done || by rewrite lookup_insert_eq).
  rewrite decide_True by done.
  split_and!; try done.
  - rewrite (reads_message _ _ (mkNonceMessage rand)); [done..|by apply read_Nonce].
  - rewrite (reads_message _ _ (mkFortuneInfoMessage server frand)); [done..|by apply read_Info].
  - unfold handleFortuneRequestHelper. rewrite read_Req, lookup_insert_eq by done.
    rewrite require_Some, bind_Ok. by rewrite decide_False by (intros E; by apply E).
  - rewrite (reads_message _ _ (mkFortuneMessage fortune)); [done..|by apply read_Fortune].
Qed.

Lemma fortune_told_witness :
  ∃ m1 fm1 hash_text req_text,
    handleAuthRequestHelper 1984 (text "127.0.0.1:9000") ∅ ∅ (text "127.0.0.1:2020") client_hello 7 true 0 =
      Ok (m1, ∅, Some (MNonce (mkNonceMessage 7))) ∧
    client_hash 1984 (Marshal (MNonce (mkNonceMessage 7))) = Ok (Some hash_text) ∧
    handleAuthRequestHelper 1984 (text "127.0.0.1:9000") m1 ∅ (text "127.0.0.1:2020") hash_text 0 true 42 =
      Ok (m1, fm1, Some (MInfo (mkFortuneInfoMessage (text "127.0.0.1:9000") 42))) ∧
    client_request (Marshal (MInfo (mkFortuneInfoMessage (text "127.0.0.1:9000") 42))) =
      Ok (Some (text "127.0.0.1:9000", req_text)) ∧
    handleFortuneRequestHelper (text "hello") fm1 req_text (text "127.0.0.1:2020") =
      Ok (MFortune (mkFortuneMessage (text "hello"))) ∧
    client_fortune (Marshal (MFortune (mkFortuneMessage (text "hello")))) = Ok (Some (text "hello")).
Proof.
  apply (fortune_told (valid := λ m, m ∈ sample_messages)); rewrite ?sample_hash_eq; unfold sample_messages; rewrite !elem_of_cons; tauto.
Defined.

(** C39: Whatever datagrams anybody sends from any address, in whatever order,
    and however the two servers interleave: the fortune server tells the
    fortune only to an address that sent it the last nonce it made for that
    address, and it made that nonce after the authentication server had got
    from the same address the hash of its secret with the last nonce it had
    issued to that address. *)
Theorem fortune_needs_secret `{FortuneJson} secret server fortune w h1 h2 addr nonce :
  rtc (fortune_step secret server fortune) empty_world w →
  w_history w = h1 ++ Told addr nonce :: h2 →
  last_informed h1 addr = Some nonce ∧
  ∃ h3 h4 h5 hash, h1 = h3 ++ Accepted addr hash :: h4 ++ Informed addr nonce :: h5 ∧
    accepted_hash secret h3 addr hash.
Proof.
  intros Hr Hh. apply reachable_ok in Hr as [_ _ _ Hok].
  pose proof (Hok _ _ _ Hh) as Hlast. split; [exact Hlast|].
  destruct (last_informed_split _ _ _ Hlast) as (ha & h5 & ->).
  rewrite <-app_assoc in Hh. destruct (Hok _ _ _ Hh) as [hash Hin].
  apply list_elem_of_split in Hin as (h3 & h4 & ->). exists h3, h4, h5, hash.
  rewrite <-!app_assoc in *. split; [done|]. by apply (Hok _ _ _ Hh).
Qed.

(** A run in which a client of the secret asks for the fortune. *)
Definition client_address : str := text "127.0.0.1:2020".
Definition sample_history : list fortune_event :=
  [Issued client_address 7; Accepted client_address sample_hash; Informed client_address 42].

Lemma sample_run_first :
  rtc (fortune_step 1984 [] (text "hello")) empty_world
    (mkWorld (<[client_address := 7]> ∅) (<[client_address := 42]> ∅) [] sample_history).
Proof.
  eapply rtc_l; [apply (step_issue _ _ _ _ client_address client_hello 7); reflexivity|].
  eapply rtc_l; [apply (step_accept _ _ _ _ client_address (Marshal (MHash (mkHashMessage sample_hash))) 0
    (<[client_address := 7]> ∅)
    (mkHashMessage sample_hash))|].
  - cbn [w_auth]. rewrite (first_hash (valid := λ m, m ∈ sample_messages) _ _ _ _ 7);
      [|unfold sample_messages; rewrite !elem_of_cons; tauto|by rewrite lookup_insert_eq].
    by rewrite sample_hash_eq, decide_True.
  - by vm_compute.
  - eapply rtc_l; [apply (step_call _ _ _ _ client_address [] 42); [done|reflexivity]|apply rtc_refl].
Qed.

Lemma sample_run :
  rtc (fortune_step 1984 [] (text "hello")) empty_world
    (mkWorld (<[client_address := 7]> ∅) (<[client_address := 42]> ∅) []
       (sample_history ++ [Told client_address 42])).
Proof.
  eapply rtc_r; [apply sample_run_first|].
  pose proof (step_tell 1984 [] (text "hello")
    (mkWorld (<[client_address := 7]> ∅) (<[client_address := 42]> ∅) [] sample_history)
    client_address (Marshal (MReq (mkFortuneReqMessage 42))) (mkFortuneReqMessage 42)
    (mkFortuneMessage (text "hello"))) as Hs.
  cbn [w_auth w_fortune w_calling w_history FortuneNonce] in Hs. apply Hs; by vm_compute.
Qed.

Lemma fortune_needs_secret_witness :
  last_informed sample_history client_address = Some 42 ∧
  ∃ h3 h4 h5 hash, sample_history = h3 ++ Accepted client_address hash :: h4 ++ Informed client_address 42 :: h5 ∧
    accepted_hash 1984 h3 client_address hash.
Proof.
  apply (fortune_needs_secret 1984 [] (text "hello") _ _ [] _ _ sample_run). reflexivity.
Defined.

(** A client with another secret is turned away: when the hashes of the two
    secrets differ, the server answers its hash with an error, makes no fortune
    nonce, and the client exits. The texts that are hashed differ whenever the
    secrets do. *)
Theorem wrong_secret_refused `{FortuneJsonLaws valid} secret secret' server m fm addr rand draw frand :
  let hash := computeNonceSecretHash rand secret' in
  let refusal := MErr (mkErrMessage (text "unexpected hash value")) in
  valid (MNonce (mkNonceMessage rand)) → valid (MHash (mkHashMessage hash)) → valid refusal →
  m !! addr = Some rand → computeNonceSecretHash rand secret ≠ hash →
  ∃ hash_text,
    client_hash secret' (Marshal (MNonce (mkNonceMessage rand))) = Ok (Some hash_text) ∧
    handleAuthRequestHelper secret server m fm addr hash_text draw true frand = Ok (m, fm, Some refusal) ∧
    client_request (Marshal refusal) = Ok None.
Proof.
  intros hash refusal Hn Hh He Hm Hne. exists (Marshal (MHash (mkHashMessage hash))).
  unfold client_hash, client_request, handleAuthRequestHelper.
  rewrite (reads_message _ _ (mkNonceMessage rand)); [|exact Hn|discriminate|by apply read_Nonce].
  rewrite (first_hash _ _ _ _ rand); [|exact Hh|exact Hm]. rewrite decide_False by done.
  split_and!; [done..|]. unfold refusal. by rewrite reads_error.
Qed.

Lemma wrong_secret_refused_witness :
  ∃ hash_text,
    client_hash 2 (Marshal (MNonce (mkNonceMessage 7))) = Ok (Some hash_text) ∧
    handleAuthRequestHelper 1984 [] (<[text "127.0.0.1:2020" := 7]> ∅) ∅ (text "127.0.0.1:2020") hash_text 0 true 42 =
      Ok (<[text "127.0.0.1:2020" := 7]> ∅, ∅, Some (MErr (mkErrMessage (text "unexpected hash value")))) ∧
    client_request (Marshal (MErr (mkErrMessage (text "unexpected hash value")))) = Ok None.
Proof.
  apply (wrong_secret_refused (valid := λ m, m ∈ sample_messages)); rewrite ?sample_hash_eq, ?wrong_hash_eq;
    unfold sample_messages; [rewrite !elem_of_cons; tauto..|by rewrite lookup_insert_eq|by vm_compute].
Defined.

(** The text that is hashed fits the buffers it is put in, and it
    determines the secret: with the same nonce, two secrets give the same text
    only when they are equal, although the sum with the nonce wraps around. *)
Theorem secret_determines_text nonce secret secret' :
  - 2 ^ 63 ≤ secret < 2 ^ 63 → - 2 ^ 63 ≤ secret' < 2 ^ 63 →
  ∃ t t', computeNonceSecretHash nonce secret = EncodeToString (Sum t) ∧
    computeNonceSecretHash nonce secret' = EncodeToString (Sum t') ∧
    (1 ≤ length t ≤ 10)%nat ∧ (t = t' → secret = secret').
Proof.
  intros Hs Hs'. exists (PutVarint (int64 (nonce + secret))), (PutVarint (int64 (nonce + secret'))).
  unfold computeNonceSecretHash. split_and!; [reflexivity|reflexivity|apply PutVarint_ok, int64_range..|].
  intros E. apply PutVarint_inj in E; [|apply int64_range..]. by apply int64_add_inj in E.
Qed.

Lemma secret_determines_text_witness :
  ∃ t t', computeNonceSecretHash 7 1984 = EncodeToString (Sum t) ∧
    computeNonceSecretHash 7 (-3) = EncodeToString (Sum t') ∧
    (1 ≤ length t ≤ 10)%nat ∧ (t = t' → 1984 = -3).
Proof. apply secret_determines_text; lia. Defined.

(** The datagram [null] brings the servers down: from an address that has
    a nonce, it is no error of encoding/json and leaves a nil pointer, which
    the handlers dereference. The client goes down when an answer is no JSON
    object, which leaves the pointer of [checkForErrMessage] nil. *)
Theorem null_panics `{FortuneJsonLaws valid} secret fortune m addr nonce rand reply :
  m !! addr = Some nonce → (Unmarshal_Err (read_datagram reply)).1 = None →
  handleAuthRequest_first secret m addr null rand = Panic NilPointer ∧
  handleFortuneRequestHelper fortune m null addr = Panic NilPointer ∧
  client_hash secret reply = Panic NilPointer.
Proof.
  intros Hm Hr. unfold handleAuthRequest_first, handleFortuneRequestHelper, client_hash, client_read, checkForErrMessage.
  rewrite null_Hash, null_Req, Hr. unfold checkHash. by rewrite Hm.
Qed.

Lemma null_panics_witness :
  handleAuthRequest_first 1984 (<[text "a" := 7]> ∅) (text "a") null 0 = Panic NilPointer ∧
  handleFortuneRequestHelper (text "hello") (<[text "a" := 7]> ∅) null (text "a") = Panic NilPointer ∧
  client_hash 1984 (text "hello") = Panic NilPointer.
Proof.
  apply (null_panics (valid := λ m, m ∈ sample_messages) 1984 (text "hello") _ _ 7);
    [by rewrite lookup_insert_eq|by vm_compute].
Defined.
