(* ===== verification/FortuneSystem.v ===== *)
(** The fortune protocol as one system: the client of CPSC418/assignment1 and
    both servers of assignment2 exchange datagrams, while other addresses send
    the servers whatever they like. Datagrams are delivered in any order; the
    faults lose them, fail the call between the servers, crash a server, or give
    the client an error of the network. A datagram is not delivered twice.

    The client is the only one that sends from its address. Its sockets are
    connected, so that it reads only what the server it dialed sends it. *)
From Stdlib Require Import Strings.String.
From S2P Require Import Prelude Md5 Fortune FortuneProps.

Open Scope Z_scope.

(** ** The client *)

(** Where [main] is: before it dials, at each of its three reads, and after
    it has printed the fortune, called [os.Exit] or panicked. *)
Inductive client_state : Type :=
  | AtStart
  | AtNonce
  | AtInfo
  | AtFortune (server : str)
  | Printed (fortune : str)
  | Exited
  | Panicked.
#[export] Instance client_state_eq_dec : EqDecision client_state.
Proof. solve_decision. Defined.

Inductive sender : Type := Auth | Fortunes.
#[export] Instance peer_eq_dec : EqDecision sender.
Proof. solve_decision. Defined.

Section Client.
Context `{FortuneJson} (secret : Z).

(** What [main] does with the reply it reads, up to its next read: the
    datagram that it sends, and where it is then. *)
Definition client_turn (st : client_state) (reply : list byte)
    : client_state * option (sender * list byte) :=
  match st with
  | AtNonce =>
      match client_hash secret reply with
      | Ok (Some hash) => (AtInfo, Some (Auth, hash))
      | Ok None => (Exited, None)
      | _ => (Panicked, None)
      end
  | AtInfo =>
      match client_request reply with
      | Ok (Some (server, request)) => (AtFortune server, Some (Fortunes, request))
      | Ok None => (Exited, None)
      | _ => (Panicked, None)
      end
  | AtFortune _ =>
      match client_fortune reply with
      | Ok (Some fortune) => (Printed fortune, None)
      | Ok None => (Exited, None)
      | _ => (Panicked, None)
      end
  | _ => (st, None)
  end.

(** The server whose datagrams the read waits for. *)
Definition reads_from (st : client_state) : option sender :=
  match st with
  | AtNonce | AtInfo => Some Auth
  | AtFortune _ => Some Fortunes
  | _ => None
  end.
End Client.

(** ** The system *)

(** A crashed server has no map of nonces any more. [y_calling] are the
    addresses whose handler waits for the call of the fortune server. *)
Record system : Type := mkSystem {
  y_client : client_state;
  y_auth : option (gmap str Z);
  y_fortune : option (gmap str Z);
  y_calling : list str;
  y_to_auth : list (str * list byte);
  y_to_fortune : list (str * list byte);
  y_to_client : list (sender * list byte)
}.

Definition system_start : system := mkSystem AtStart (Some ∅) (Some ∅) [] [] [] [].

Section System.
Context `{FortuneJson} (secret : Z) (server fortune : str) (me : str) (int63 : Z → Prop).

(** A reply of a server; those to other addresses are not followed. *)
Definition reply_to (addr : str) (from : sender) (reply : message) (net : list (sender * list byte))
    : list (sender * list byte) :=
  if decide (addr = me) then (from, Marshal reply) :: net else net.

Definition client_send (datagram : option (sender * list byte)) (y : system) : system :=
  match datagram with
  | Some (Auth, d) =>
      mkSystem (y_client y) (y_auth y) (y_fortune y) (y_calling y)
        ((me, d) :: y_to_auth y) (y_to_fortune y) (y_to_client y)
  | Some (Fortunes, d) =>
      mkSystem (y_client y) (y_auth y) (y_fortune y) (y_calling y)
        (y_to_auth y) ((me, d) :: y_to_fortune y) (y_to_client y)
  | None => y
  end.

Definition set_client (st : client_state) (net : list (sender * list byte)) (y : system) : system :=
  mkSystem st (y_auth y) (y_fortune y) (y_calling y) (y_to_auth y) (y_to_fortune y) net.

(** The steps of [main] while the network gives it no error. *)
Inductive client_step (y : system) : system → Prop :=
  | client_dials :
      y_client y = AtStart →
      client_step y (client_send (Some (Auth, client_hello)) (set_client AtNonce (y_to_client y) y))
  | client_reads p d net st' datagram :
      y_to_client y ≡ₚ (p, d) :: net → reads_from (y_client y) = Some p →
      client_turn secret (y_client y) d = (st', datagram) →
      client_step y (client_send datagram (set_client st' net y)).

(** [errExit] after an error of the network: at the first [Dial] and [Write],
    at each [Read] (a connected socket reports that the server refuses), and
    after a reply was read, at the second [Write], at [Close] or at the [Dial]
    of the fortune server. The error of the third [Write] is not looked at: its
    datagram is lost. *)
Inductive client_fails (y : system) : system → Prop :=
  | start_fails :
      y_client y = AtStart → client_fails y (set_client Exited (y_to_client y) y)
  | read_fails :
      is_Some (reads_from (y_client y)) → client_fails y (set_client Exited (y_to_client y) y)
  | write_fails p d net st' datagram :
      y_to_client y ≡ₚ (p, d) :: net → reads_from (y_client y) = Some p →
      client_turn secret (y_client y) d = (st', Some datagram) →
      client_fails y (set_client Exited net y).

(** The loop of the authentication server reads a datagram and starts its
    handler; the handler replies, or calls the other server. *)
Inductive auth_step (y : system) : system → Prop :=
  | auth_replies m addr d net rand m' reply :
      y_auth y = Some m → y_to_auth y ≡ₚ (addr, d) :: net → int63 rand →
      handleAuthRequest_first secret m addr (read_datagram d) rand = Ok (m', Some reply) →
      auth_step y (mkSystem (y_client y) (Some m') (y_fortune y) (y_calling y) net (y_to_fortune y)
                     (reply_to addr Auth reply (y_to_client y)))
  | auth_calls m addr d net rand m' :
      y_auth y = Some m → y_to_auth y ≡ₚ (addr, d) :: net → int63 rand →
      handleAuthRequest_first secret m addr (read_datagram d) rand = Ok (m', None) →
      auth_step y (mkSystem (y_client y) (Some m') (y_fortune y) (addr :: y_calling y) net
                     (y_to_fortune y) (y_to_client y))
  | auth_informs m fm addr calling rand fm' info :
      y_auth y = Some m → y_fortune y = Some fm → y_calling y ≡ₚ addr :: calling → int63 rand →
      GetFortuneInfo server fm addr rand = (fm', info) →
      auth_step y (mkSystem (y_client y) (Some m) (Some fm') calling (y_to_auth y) (y_to_fortune y)
                     (reply_to addr Auth (MInfo info) (y_to_client y))).

Inductive fortune_server_step (y : system) : system → Prop :=
  | fortune_replies fm addr d net reply :
      y_fortune y = Some fm → y_to_fortune y ≡ₚ (addr, d) :: net →
      handleFortuneRequestHelper fortune fm (read_datagram d) addr = Ok reply →
      fortune_server_step y
        (mkSystem (y_client y) (y_auth y) (y_fortune y) (y_calling y) (y_to_auth y) net
           (reply_to addr Fortunes reply (y_to_client y))).

(** Anybody else sends anything. *)
Inductive other_step (y : system) : system → Prop :=
  | other_asks addr d :
      addr ≠ me →
      other_step y (mkSystem (y_client y) (y_auth y) (y_fortune y) (y_calling y)
                      ((addr, d) :: y_to_auth y) (y_to_fortune y) (y_to_client y))
  | other_requests addr d :
      addr ≠ me →
      other_step y (mkSystem (y_client y) (y_auth y) (y_fortune y) (y_calling y)
                      (y_to_auth y) ((addr, d) :: y_to_fortune y) (y_to_client y)).

(** What can go wrong: datagrams are lost, the call returns an error, and a
    handler that panics ends its server. *)
Inductive fault_step (y : system) : system → Prop :=
  | loses to_auth to_fortune to_client :
      to_auth ⊆+ y_to_auth y → to_fortune ⊆+ y_to_fortune y → to_client ⊆+ y_to_client y →
      fault_step y (mkSystem (y_client y) (y_auth y) (y_fortune y) (y_calling y)
                      to_auth to_fortune to_client)
  | call_fails addr calling :
      y_calling y ≡ₚ addr :: calling →
      fault_step y (mkSystem (y_client y) (y_auth y) (y_fortune y) calling
                      (y_to_auth y) (y_to_fortune y) (y_to_client y))
  | auth_panics m addr d net rand p :
      y_auth y = Some m → y_to_auth y ≡ₚ (addr, d) :: net → int63 rand →
      handleAuthRequest_first secret m addr (read_datagram d) rand = Panic p →
      fault_step y (mkSystem (y_client y) None (y_fortune y) [] net (y_to_fortune y) (y_to_client y))
  | fortune_panics fm addr d net p :
      y_fortune y = Some fm → y_to_fortune y ≡ₚ (addr, d) :: net →
      handleFortuneRequestHelper fortune fm (read_datagram d) addr = Panic p →
      fault_step y (mkSystem (y_client y) (y_auth y) None (y_calling y) (y_to_auth y) net (y_to_client y)).

Inductive served_step (y y' : system) : Prop :=
  | by_client : client_step y y' → served_step y y'
  | by_auth : auth_step y y' → served_step y y'
  | by_fortune : fortune_server_step y y' → served_step y y'.

Inductive reliable_step (y y' : system) : Prop :=
  | serves : served_step y y' → reliable_step y y'
  | others : other_step y y' → reliable_step y y'.

Inductive system_step (y y' : system) : Prop :=
  | works : reliable_step y y' → system_step y y'
  | fails : fault_step y y' → system_step y y'
  | errs : client_fails y y' → system_step y y'.

(** ** What is under way for the client *)

Inductive token : Type :=
  | Ask (d : list byte)
  | Call
  | Request (d : list byte)
  | Reply (from : sender) (d : list byte).

Definition mine {A} (addr : A → str) (t : A → token) (l : list A) : list token :=
  t <$> filter (λ a, addr a = me) l.

Definition pend (asks : list (str * list byte)) (calls : list str) (requests : list (str * list byte))
    (replies : list (sender * list byte)) : list token :=
  mine fst (λ a, Ask a.2) asks ++ mine id (λ _, Call) calls ++
  mine fst (λ a, Request a.2) requests ++ ((λ r, Reply r.1 r.2) <$> replies).

Definition pending (y : system) : list token :=
  pend (y_to_auth y) (y_calling y) (y_to_fortune y) (y_to_client y).

Definition auth_knows (y : system) (nonce : Z) : Prop :=
  int63 nonce ∧ ∀ m, y_auth y = Some m → m !! me = Some nonce.
Definition fortune_knows (y : system) (nonce : Z) : Prop :=
  int63 nonce ∧ ∀ m, y_fortune y = Some m → m !! me = Some nonce.

Definition nonce_text (n : Z) : list byte := Marshal (MNonce (mkNonceMessage n)).
Definition hash_text (n : Z) : list byte :=
  Marshal (MHash (mkHashMessage (computeNonceSecretHash n secret))).
Definition info_text (n : Z) : list byte := Marshal (MInfo (mkFortuneInfoMessage server n)).
Definition request_text (n : Z) : list byte := Marshal (MReq (mkFortuneReqMessage n)).
Definition fortune_text : list byte := Marshal (MFortune (mkFortuneMessage fortune)).

(** What can be under way at each read of the client. *)
Inductive expected (y : system) : client_state → token → Prop :=
  | legit_hello : expected y AtNonce (Ask client_hello)
  | legit_nonce n : auth_knows y n → expected y AtNonce (Reply Auth (nonce_text n))
  | legit_hash n : auth_knows y n → expected y AtInfo (Ask (hash_text n))
  | legit_call : expected y AtInfo Call
  | legit_info n : fortune_knows y n → expected y AtInfo (Reply Auth (info_text n))
  | legit_request n : fortune_knows y n → expected y (AtFortune server) (Request (request_text n))
  | legit_fortune : expected y (AtFortune server) (Reply Fortunes fortune_text).

Definition client_ok (st : client_state) : Prop :=
  match st with Printed f => f = fortune | Exited | Panicked => False | _ => True end.

Record client_served (y : system) : Prop := {
  sv_client : client_ok (y_client y);
  sv_one : (length (pending y) ≤ 1)%nat;
  sv_legit t : t ∈ pending y → expected y (y_client y) t
}.

(** No fault has happened: somebody works for a client that waits. *)
Record servers_busy (y : system) : Prop := {
  bs_auth : is_Some (y_auth y);
  bs_fortune : is_Some (y_fortune y);
  bs_pending : is_Some (reads_from (y_client y)) → pending y ≠ []
}.

#[export] Instance mine_proper {A} (addr : A → str) t : Proper ((≡ₚ) ==> (≡ₚ)) (mine addr t).
Proof. intros l l' E. unfold mine. by rewrite E. Qed.
#[export] Instance pend_proper : Proper ((≡ₚ) ==> (≡ₚ) ==> (≡ₚ) ==> (≡ₚ) ==> (≡ₚ)) pend.
Proof. intros ?? E1 ?? E2 ?? E3 ?? E4. unfold pend. by rewrite E1, E2, E3, E4. Qed.

Lemma mine_cons {A} (addr : A → str) t a l :
  mine addr t (a :: l) = (if decide (addr a = me) then [t a] else []) ++ mine addr t l.
Proof. unfold mine. rewrite filter_cons. by case_decide. Qed.

Lemma pend_ask d asks calls requests replies addr :
  pend ((addr, d) :: asks) calls requests replies ≡ₚ
  (if decide (addr = me) then [Ask d] else []) ++ pend asks calls requests replies.
Proof. unfold pend. rewrite mine_cons. cbn [fst snd]. by rewrite <-app_assoc. Qed.

Lemma pend_call addr asks calls requests replies :
  pend asks (addr :: calls) requests replies ≡ₚ
  (if decide (addr = me) then [Call] else []) ++ pend asks calls requests replies.
Proof. unfold pend. rewrite mine_cons. cbn [id]. case_decide; cbn [app]; solve_Permutation. Qed.

Lemma pend_request d asks calls requests replies addr :
  pend asks calls ((addr, d) :: requests) replies ≡ₚ
  (if decide (addr = me) then [Request d] else []) ++ pend asks calls requests replies.
Proof. unfold pend. rewrite mine_cons. cbn [fst snd]. case_decide; cbn [app]; solve_Permutation. Qed.

Lemma pend_reply p d asks calls requests replies :
  pend asks calls requests ((p, d) :: replies) ≡ₚ Reply p d :: pend asks calls requests replies.
Proof. unfold pend. cbn. solve_Permutation. Qed.

Lemma pend_reply_to addr p reply asks calls requests replies :
  pend asks calls requests (reply_to addr p reply replies) ≡ₚ
  (if decide (addr = me) then [Reply p (Marshal reply)] else []) ++ pend asks calls requests replies.
Proof. unfold reply_to. case_decide; [apply pend_reply|done]. Qed.

End System.

(** ** The client alone at its address *)

Section Served.
Context `{HJ : FortuneJsonLaws valid} (secret : Z) (server fortune me : str) (int63 : Z → Prop).

(** encoding/json can carry the messages of a run. *)
Record messages_valid : Prop := {
  valid_nonce n : int63 n → valid (MNonce (mkNonceMessage n));
  valid_hash n : int63 n → valid (MHash (mkHashMessage (computeNonceSecretHash n secret)));
  valid_info n : int63 n → valid (MInfo (mkFortuneInfoMessage server n));
  valid_request n : int63 n → valid (MReq (mkFortuneReqMessage n));
  valid_fortune : valid (MFortune (mkFortuneMessage fortune))
}.
Hypothesis Hvalid : messages_valid.

Abbreviation hash_text := (hash_text secret).
Abbreviation info_text := (info_text server).
Abbreviation fortune_text := (fortune_text fortune).
Abbreviation pending := (pending me).
Abbreviation expected := (expected secret server fortune me int63).
Abbreviation client_served := (client_served secret server fortune me int63).
Abbreviation servers_busy := (servers_busy me).
Abbreviation auth_knows := (auth_knows me int63).
Abbreviation fortune_knows := (fortune_knows me int63).
Abbreviation served_step := (served_step secret server fortune me int63).

(** *** The answers to the datagrams of the client *)

Lemma reads_all m : valid m → read_datagram (Marshal m) = Marshal m.
Proof. intros Hm. apply take_ge. by apply fits. Qed.

Lemma ask_hello m rand :
  handleAuthRequest_first secret m me (read_datagram client_hello) rand =
    Ok (<[me := rand]> m, Some (MNonce (mkNonceMessage rand))).
Proof. apply first_hello. Qed.

Lemma ask_hash m n rand :
  int63 n → m !! me = Some n →
  handleAuthRequest_first secret m me (read_datagram (hash_text n)) rand = Ok (m, None).
Proof using HJ Hvalid.
  intros Hn Hm. unfold FortuneSystem.hash_text.
  rewrite reads_all by (by apply valid_hash). rewrite (first_hash _ _ _ _ n) by (by try apply valid_hash).
  by rewrite decide_True.
Qed.

Lemma request_granted fm n :
  int63 n → fm !! me = Some n →
  handleFortuneRequestHelper fortune fm (read_datagram (request_text n)) me =
    Ok (MFortune (mkFortuneMessage fortune)).
Proof using HJ Hvalid.
  intros Hn Hm. unfold request_text. rewrite reads_all by (by apply valid_request).
  unfold handleFortuneRequestHelper. rewrite read_Req by (by apply valid_request).
  rewrite Hm, require_Some, bind_Ok. by rewrite decide_False by (intros E; by apply E).
Qed.

Lemma turn_nonce n : int63 n → client_turn secret AtNonce (nonce_text n) = (AtInfo, Some (Auth, hash_text n)).
Proof using HJ Hvalid.
  intros Hn. unfold client_turn, client_hash, nonce_text.
  rewrite (reads_message _ _ (mkNonceMessage n)); [done| |done|];
    [|apply read_Nonce]; by apply valid_nonce.
Qed.

Lemma turn_info n :
  int63 n → client_turn secret AtInfo (info_text n) = (AtFortune server, Some (Fortunes, request_text n)).
Proof using HJ Hvalid.
  intros Hn. unfold client_turn, client_request, FortuneSystem.info_text.
  rewrite (reads_message _ _ (mkFortuneInfoMessage server n)); [done| |done|];
    [|apply read_Info]; by apply valid_info.
Qed.

Lemma turn_fortune s : client_turn secret (AtFortune s) fortune_text = (Printed fortune, None).
Proof using HJ Hvalid.
  unfold client_turn, client_fortune, FortuneSystem.fortune_text.
  rewrite (reads_message _ _ (mkFortuneMessage fortune)); [done| |done|];
    [|apply read_Fortune]; by apply valid_fortune.
Qed.

(** A handler only touches the entry of its address. *)
Lemma first_changes m addr request rand m' r a :
  handleAuthRequest_first secret m addr request rand = Ok (m', r) → a ≠ addr → m' !! a = m !! a.
Proof.
  unfold handleAuthRequest_first. destruct (Unmarshal_Hash request) as [h []].
  - intros [= <- _] Hne. by rewrite lookup_insert_ne.
  - intros E. by apply bind_Ok_inv in E as ([e|] & _ & [= <- _]).
Qed.

(** *** What is under way, one token at a time *)

Lemma served_head y t l : client_served y → pending y ≡ₚ t :: l → l = [] ∧ expected y (y_client y) t.
Proof.
  intros [_ H1 H2] E. split.
  - rewrite E in H1. destruct l; [done|cbn in H1; lia].
  - apply H2. rewrite E. apply elem_of_cons. by left.
Qed.

Lemma served_token y t :
  client_ok fortune (y_client y) → pending y ≡ₚ [t] → expected y (y_client y) t → client_served y.
Proof.
  intros Hc E Hl. split; [done|by rewrite E|]. intros t' Hin. rewrite E in Hin.
  apply list_elem_of_singleton in Hin as ->. done.
Qed.

Lemma legit_kept y y' st t :
  (∀ n, auth_knows y n → auth_knows y' n) → (∀ n, fortune_knows y n → fortune_knows y' n) →
  expected y st t → expected y' st t.
Proof. intros Ha Hf. destruct 1; constructor; auto. Qed.

Lemma served_kept y y' :
  client_served y → y_client y' = y_client y → pending y' ⊆+ pending y →
  (∀ n, auth_knows y n → auth_knows y' n) → (∀ n, fortune_knows y n → fortune_knows y' n) →
  client_served y'.
Proof.
  intros [H1 H2 H3] Ec Ep Ha Hf. split; rewrite ?Ec; [done| |].
  - apply submseteq_length in Ep. lia.
  - intros t Hin. eapply legit_kept; [done..|]. apply H3. by eapply elem_of_submseteq.
Qed.

(** What a step that keeps the client as it is does to its busy servers. *)
Lemma busy_kept y y' :
  servers_busy y → y_client y' = y_client y → pending y' ≡ₚ pending y →
  is_Some (y_auth y') → is_Some (y_fortune y') → servers_busy y'.
Proof.
  intros [_ _ Hp] Ec Ep Ha Hf. split; [done..|]. rewrite Ec. intros Hr E. apply (Hp Hr).
  rewrite E in Ep. by apply Permutation_nil.
Qed.

Lemma busy_token y' t :
  pending y' ≡ₚ [t] → is_Some (y_auth y') → is_Some (y_fortune y') → servers_busy y'.
Proof.
  intros Ep Ha Hf. split; [done..|]. intros _ E. rewrite E in Ep. by apply Permutation_nil_cons in Ep.
Qed.

(** The one token of a client in a given place. *)
Lemma start_pending y : client_served y → y_client y = AtStart → pending y = [].
Proof.
  intros [_ _ Hl] E. destruct (pending y) as [|t l]; [done|].
  specialize (Hl t ltac:(apply elem_of_cons; by left)). rewrite E in Hl. inversion Hl.
Qed.

(** What a step must do: the client stays served, and no work is lost. *)
Definition serves_on (y y' : system) : Prop := client_served y' ∧ (servers_busy y → servers_busy y').

Lemma effect_token y y' t :
  client_ok fortune (y_client y') → pending y' ≡ₚ [t] → expected y' (y_client y') t →
  (is_Some (y_auth y) → is_Some (y_auth y')) → (is_Some (y_fortune y) → is_Some (y_fortune y')) →
  serves_on y y'.
Proof.
  intros Hc Hp Hl Ha Hf. split; [by eapply served_token|]. intros [??]. eapply busy_token; eauto.
Qed.

Lemma effect_kept y y' :
  client_served y → y_client y' = y_client y → pending y' ≡ₚ pending y →
  (∀ n, auth_knows y n → auth_knows y' n) → (∀ n, fortune_knows y n → fortune_knows y' n) →
  (is_Some (y_auth y) → is_Some (y_auth y')) → (is_Some (y_fortune y) → is_Some (y_fortune y')) →
  serves_on y y'.
Proof.
  intros Hs Ec Ep Ka Kf Ha Hf. split; [eapply served_kept; eauto; by rewrite Ep|].
  intros Hb. pose proof Hb as [??]. eapply busy_kept; eauto.
Qed.

Lemma send_pending datagram st net y :
  pending (client_send me datagram (set_client st net y)) ≡ₚ
  match datagram with Some (Auth, d) => [Ask d] | Some (Fortunes, d) => [Request d] | None => [] end ++
  pend me (y_to_auth y) (y_calling y) (y_to_fortune y) net.
Proof.
  unfold FortuneSystem.pending.
  destruct datagram as [[[] d]|]; cbn [client_send set_client y_to_auth y_calling y_to_fortune y_to_client].
  - rewrite pend_ask. by rewrite decide_True.
  - rewrite pend_request. by rewrite decide_True.
  - done.
Qed.

Lemma pending_reply y p d net :
  y_to_client y ≡ₚ (p, d) :: net →
  pending y ≡ₚ Reply p d :: pend me (y_to_auth y) (y_calling y) (y_to_fortune y) net.
Proof. intros E. unfold FortuneSystem.pending. by rewrite E, pend_reply. Qed.

Lemma client_effect y y' : client_step secret me y y' → client_served y → serves_on y y'.
Proof using HJ Hvalid.
  intros [E|p d net st' datagram E Er Et] Hs.
  - eapply (effect_token _ _ (Ask client_hello)); [done|..|constructor|done|done].
    rewrite send_pending. change (pend me _ _ _ _) with (pending y). by rewrite start_pending.
  - destruct (served_head y _ _ Hs (pending_reply y p d net E)) as [El Hl].
    assert (∀ n, auth_knows y n → auth_knows (client_send me datagram (set_client st' net y)) n) as Ka
      by (by destruct datagram as [[[] ?]|]).
    assert (∀ n, fortune_knows y n → fortune_knows (client_send me datagram (set_client st' net y)) n) as Kf
      by (by destruct datagram as [[[] ?]|]).
    inversion Hl as [|n Hn Ec Ed|n|n|n Hn Ec Ed|n|Ec Ed]; subst; rewrite <-Ec in Et.
    + rewrite turn_nonce in Et by apply Hn. injection Et as <- <-.
      eapply (effect_token _ _ (Ask (hash_text n))); try done; [by rewrite send_pending, El|].
      constructor. by apply Ka.
    + rewrite turn_info in Et by apply Hn. injection Et as <- <-.
      eapply (effect_token _ _ (Request (request_text n))); try done; [by rewrite send_pending, El|].
      constructor. by apply Kf.
    + rewrite turn_fortune in Et. injection Et as <- <-. split.
      * split; [done|by rewrite send_pending, El; cbn; lia|].
        intros t Hin. rewrite send_pending, El in Hin. by apply elem_of_nil in Hin.
      * intros [Ha Hf _]. split; [done..|]. by intros [? [=]].
Qed.

Lemma pending_ask y addr d net :
  y_to_auth y ≡ₚ (addr, d) :: net →
  pending y ≡ₚ (if decide (addr = me) then [Ask d] else []) ++
               pend me net (y_calling y) (y_to_fortune y) (y_to_client y).
Proof. intros E. unfold FortuneSystem.pending. by rewrite E, pend_ask. Qed.

Lemma pending_call y addr calling :
  y_calling y ≡ₚ addr :: calling →
  pending y ≡ₚ (if decide (addr = me) then [Call] else []) ++
               pend me (y_to_auth y) calling (y_to_fortune y) (y_to_client y).
Proof. intros E. unfold FortuneSystem.pending. by rewrite E, pend_call. Qed.

Lemma pending_request y addr d net :
  y_to_fortune y ≡ₚ (addr, d) :: net →
  pending y ≡ₚ (if decide (addr = me) then [Request d] else []) ++
               pend me (y_to_auth y) (y_calling y) net (y_to_client y).
Proof. intros E. unfold FortuneSystem.pending. by rewrite E, pend_request. Qed.

(** The handler of a datagram from another address. *)
Lemma knows_other y y' addr m m' request rand r n :
  addr ≠ me → y_auth y = Some m → y_auth y' = Some m' →
  handleAuthRequest_first secret m addr request rand = Ok (m', r) →
  auth_knows y n → auth_knows y' n.
Proof.
  intros Hne Ha Ha' E [Hn Hk]. split; [done|]. intros m1 Hm1. rewrite Ha' in Hm1. injection Hm1 as <-.
  rewrite (first_changes _ _ _ _ _ _ _ E) by done. by apply Hk.
Qed.

(** Its own datagrams: what was sent decides what the handler does. *)
Lemma ask_effect y m d net rand m' r :
  client_served y → y_auth y = Some m → y_to_auth y ≡ₚ (me, d) :: net → int63 rand →
  handleAuthRequest_first secret m me (read_datagram d) rand = Ok (m', r) →
  pend me net (y_calling y) (y_to_fortune y) (y_to_client y) = [] ∧
  match r with
  | Some reply => y_client y = AtNonce ∧ reply = MNonce (mkNonceMessage rand) ∧ m' !! me = Some rand
  | None => y_client y = AtInfo ∧ m' = m
  end.
Proof using HJ Hvalid.
  intros Hs Ha E Hrand Er. pose proof (pending_ask _ _ _ _ E) as Hp. rewrite decide_True in Hp by done.
  destruct (served_head _ _ _ Hs Hp) as [El Hl]. split; [done|].
  inversion Hl as [Ec Ed| |n [Hn Hk] Ec Ed| | | |]; subst.
  - rewrite ask_hello in Er. injection Er as <- <-. by rewrite lookup_insert_eq.
  - rewrite (ask_hash _ n) in Er by auto. by injection Er as <- <-.
Qed.

Lemma informs_effect y m fm addr calling rand :
  client_served y → y_auth y = Some m → y_fortune y = Some fm → y_calling y ≡ₚ addr :: calling → int63 rand →
  serves_on y (mkSystem (y_client y) (Some m) (Some (<[addr := rand]> fm)) calling (y_to_auth y) (y_to_fortune y)
              (reply_to me addr Auth (MInfo (mkFortuneInfoMessage server rand)) (y_to_client y))).
Proof.
  intros Hs Ha Hf E Hr. destruct (decide (addr = me)) as [->|Hne].
  - pose proof (pending_call _ _ _ E) as Hp. rewrite decide_True in Hp by done.
    destruct (served_head _ _ _ Hs Hp) as [El Hl].
    inversion Hl as [| | |Ec Et| | |].
    eapply (effect_token _ _ (Reply Auth (info_text rand))); cbn [y_client y_auth y_fortune]; rewrite <-?Ec; try done.
    + unfold FortuneSystem.pending. cbn [y_to_auth y_calling y_to_fortune y_to_client].
      by rewrite pend_reply_to, El, decide_True.
    + constructor. split; [done|]. intros ? [= <-]. apply lookup_insert_eq.
  - apply effect_kept; try done.
    + unfold FortuneSystem.pending at 1. cbn [y_to_auth y_calling y_to_fortune y_to_client].
      by rewrite (pending_call _ _ _ E), pend_reply_to, !decide_False.
    + intros n [Hn Hk]. split; [done|by rewrite <-Ha].
    + intros n [Hn Hk]. split; [done|]. intros ? [= <-]. rewrite lookup_insert_ne by done. by apply Hk.
Qed.

Lemma auth_effect y y' :
  auth_step secret server me int63 y y' → client_served y → serves_on y y'.
Proof using HJ Hvalid.
  intros [m addr d net rand m' reply Ha E Hr Er|m addr d net rand m' Ha E Hr Er
         |m fm addr calling rand fm' info Ha Hf E Hr Er] Hs;
    [destruct (decide (addr = me)) as [->|Hne]..|injection Er as <- <-; by apply informs_effect].
  - destruct (ask_effect _ _ _ _ _ _ _ Hs Ha E Hr Er) as (El & Ec & -> & Hm).
    eapply (effect_token _ _ (Reply Auth (nonce_text rand))); cbn [y_client y_auth y_fortune]; rewrite ?Ec; try done.
    + unfold FortuneSystem.pending. cbn [y_to_auth y_calling y_to_fortune y_to_client].
      by rewrite pend_reply_to, El, decide_True.
    + constructor. split; [done|]. by intros ? [= <-].
  - apply effect_kept; try done.
    + unfold FortuneSystem.pending at 1. cbn [y_to_auth y_calling y_to_fortune y_to_client].
      by rewrite (pending_ask _ _ _ _ E), pend_reply_to, !decide_False.
    + intros n. by eapply knows_other.
  - destruct (ask_effect _ _ _ _ _ _ _ Hs Ha E Hr Er) as (El & Ec & ->).
    eapply (effect_token _ _ Call); cbn [y_client y_auth y_fortune]; rewrite ?Ec; try done; [|constructor].
    unfold FortuneSystem.pending. cbn [y_to_auth y_calling y_to_fortune y_to_client].
    by rewrite pend_call, El, decide_True.
  - apply effect_kept; try done.
    + unfold FortuneSystem.pending at 1. cbn [y_to_auth y_calling y_to_fortune y_to_client].
      by rewrite (pending_ask _ _ _ _ E), pend_call, !decide_False.
    + intros n. by eapply knows_other.
Qed.

Lemma fortune_effect y y' :
  fortune_server_step fortune me y y' → client_served y → serves_on y y'.
Proof using HJ Hvalid.
  intros [fm addr d net reply Hf E Er] Hs. pose proof (pending_request _ _ _ _ E) as Hp.
  destruct (decide (addr = me)) as [->|Hne].
  - destruct (served_head _ _ _ Hs Hp) as [El Hl]. inversion Hl as [| | | | |n [Hn Hk] Ec Ed|]; subst.
    rewrite (request_granted _ n) in Er by auto. injection Er as <-.
    eapply (effect_token _ _ (Reply Fortunes fortune_text)); cbn [y_client y_auth y_fortune];
      rewrite <-?Ec; try done; [|constructor].
    unfold FortuneSystem.pending. cbn [y_to_auth y_calling y_to_fortune y_to_client].
    by rewrite pend_reply_to, El, decide_True.
  - apply effect_kept; try done. rewrite Hp.
    unfold FortuneSystem.pending at 1. cbn [y_to_auth y_calling y_to_fortune y_to_client].
    by rewrite pend_reply_to, decide_False.
Qed.

Lemma other_effect y y' : other_step me y y' → client_served y → serves_on y y'.
Proof.
  intros [addr d Hne|addr d Hne] Hs; apply effect_kept; try done;
    unfold FortuneSystem.pending at 1; cbn [y_to_auth y_calling y_to_fortune y_to_client].
  - by rewrite pend_ask, decide_False.
  - by rewrite pend_request, decide_False.
Qed.

Lemma reliable_effect y y' :
  reliable_step secret server fortune me int63 y y' → client_served y → serves_on y y'.
Proof using HJ Hvalid.
  intros [[Hs|Hs|Hs]|Hs]; [by apply client_effect|by apply auth_effect|by apply fortune_effect|
    by apply other_effect].
Qed.

Lemma mine_submseteq {A} (addr : A → str) (t : A → token) l l' :
  l ⊆+ l' → mine me addr t l ⊆+ mine me addr t l'.
Proof.
  intros [k ->]%submseteq_Permutation. unfold mine. rewrite filter_app, fmap_app.
  by apply submseteq_inserts_r.
Qed.

Lemma pend_submseteq a a' c c' r r' p p' :
  a ⊆+ a' → c ⊆+ c' → r ⊆+ r' → p ⊆+ p' → pend me a c r p ⊆+ pend me a' c' r' p'.
Proof.
  intros. unfold pend. repeat apply submseteq_app; try by apply mine_submseteq. by apply fmap_submseteq.
Qed.

Lemma fault_served y y' : fault_step secret fortune int63 y y' → client_served y → client_served y'.
Proof.
  intros [ta tf tc Ha Hf Hc|addr calling E|m addr d net rand p Ha E Hr Er|fm addr d net p Hf E Er] Hs;
    (eapply served_kept; [exact Hs|done| |try by intros n [? ?]..]);
    try (apply pend_submseteq; try done).
  - rewrite E. by apply submseteq_cons.
  - rewrite E. by apply submseteq_cons.
  - apply submseteq_nil_l.
  - rewrite E. by apply submseteq_cons.
Qed.

Lemma start_served : client_served system_start ∧ servers_busy system_start.
Proof.
  split; split; try done; cbn; [lia|by intros t Hin%elem_of_nil|by eexists..|by intros [? [=]]].
Qed.

(** *** Progress *)

Definition place (st : client_state) : nat :=
  match st with AtStart => 40 | AtNonce => 30 | AtInfo => 20 | AtFortune _ => 10 | _ => 0 end.
Definition token_weight (t : token) : nat :=
  match t with Ask _ | Request _ => 3 | Call => 2 | Reply _ _ => 1 end.

(** It falls with every step that is taken for the client. *)
Definition work (y : system) : nat := place (y_client y) + sum_list_with token_weight (pending y).

Lemma work_pending y l : pending y ≡ₚ l → work y = (place (y_client y) + sum_list_with token_weight l)%nat.
Proof. intros E. unfold work. by rewrite E. Qed.

Lemma mine_elem {A} (addr : A → str) (t : A → token) l x :
  x ∈ mine me addr t l → ∃ a net, x = t a ∧ addr a = me ∧ l ≡ₚ a :: net.
Proof.
  intros (a & -> & Ha)%list_elem_of_fmap. apply list_elem_of_filter in Ha as [Ha Hin].
  apply elem_of_Permutation in Hin as [net E]. eauto.
Qed.

(** Where the token of the client is. *)
Lemma pending_elem y t :
  t ∈ pending y →
  match t with
  | Ask d => ∃ net, y_to_auth y ≡ₚ (me, d) :: net
  | Call => ∃ calling, y_calling y ≡ₚ me :: calling
  | Request d => ∃ net, y_to_fortune y ≡ₚ (me, d) :: net
  | Reply p d => ∃ net, y_to_client y ≡ₚ (p, d) :: net
  end.
Proof.
  unfold FortuneSystem.pending, pend. intros Hin.
  repeat (apply elem_of_app in Hin as [Hin|Hin]).
  - apply mine_elem in Hin as ([a d] & net & -> & Ea & E). cbn in *. subst. eauto.
  - apply mine_elem in Hin as (a & net & -> & Ea & E). cbn in *. subst. eauto.
  - apply mine_elem in Hin as ([a d] & net & -> & Ea & E). cbn in *. subst. eauto.
  - apply list_elem_of_fmap in Hin as ([p d] & -> & Hin).
    apply elem_of_Permutation in Hin as [net E]. cbn. eauto.
Qed.

(** Some server, or the client, has a step that brings the client closer. *)
Definition closer (y : system) : Prop := ∃ y', served_step y y' ∧ (work y' < work y)%nat.

Lemma reply_closer y p d net st' datagram :
  y_to_client y ≡ₚ (p, d) :: net → reads_from (y_client y) = Some p →
  client_turn secret (y_client y) d = (st', datagram) → (place st' + 3 ≤ place (y_client y))%nat →
  closer y.
Proof.
  intros E Er Et Hp. exists (client_send me datagram (set_client st' net y)).
  split; [apply by_client; by eapply client_reads|].
  rewrite (work_pending _ _ (send_pending datagram st' net y)), (work_pending _ _ (pending_reply _ _ _ _ E)).
  rewrite sum_list_with_app. destruct datagram as [[[] ?]|]; cbn [client_send set_client y_client]; cbn; lia.
Qed.

Lemma ask_closer y m d net rand m' r :
  y_auth y = Some m → y_to_auth y ≡ₚ (me, d) :: net → int63 rand →
  handleAuthRequest_first secret m me (read_datagram d) rand = Ok (m', r) → closer y.
Proof.
  intros Ha E Hr Er. pose proof (pending_ask _ _ _ _ E) as Hp. rewrite decide_True in Hp by done.
  destruct r as [reply|]; eexists; (split; [apply by_auth; by econstructor|]);
    rewrite (work_pending _ _ Hp); unfold work, FortuneSystem.pending;
    cbn [y_client y_to_auth y_calling y_to_fortune y_to_client].
  - rewrite pend_reply_to, decide_True by done. cbn. lia.
  - rewrite pend_call, decide_True by done. cbn. lia.
Qed.

Lemma call_closer y m fm calling rand :
  y_auth y = Some m → y_fortune y = Some fm → y_calling y ≡ₚ me :: calling → int63 rand → closer y.
Proof.
  intros Ha Hf E Hr. pose proof (pending_call _ _ _ E) as Hp. rewrite decide_True in Hp by done.
  eexists; (split; [apply by_auth; by eapply auth_informs|]).
  rewrite (work_pending _ _ Hp). unfold work, FortuneSystem.pending.
  cbn [y_client y_to_auth y_calling y_to_fortune y_to_client].
  rewrite pend_reply_to, decide_True by done. cbn. lia.
Qed.

Lemma request_closer y fm d net reply :
  y_fortune y = Some fm → y_to_fortune y ≡ₚ (me, d) :: net →
  handleFortuneRequestHelper fortune fm (read_datagram d) me = Ok reply → closer y.
Proof.
  intros Hf E Er. pose proof (pending_request _ _ _ _ E) as Hp. rewrite decide_True in Hp by done.
  eexists; (split; [apply by_fortune; by eapply fortune_replies|]).
  rewrite (work_pending _ _ Hp). unfold work, FortuneSystem.pending.
  cbn [y_client y_to_auth y_calling y_to_fortune y_to_client].
  rewrite pend_reply_to, decide_True by done. cbn. lia.
Qed.

Lemma progress y rand :
  int63 rand → client_served y → servers_busy y → y_client y ≠ Printed fortune → closer y.
Proof using HJ Hvalid.
  intros Hrand Hs [[m Ha] [fm Hf] Hb] Hne.
  destruct (decide (y_client y = AtStart)) as [Est|Hst].
  { exists (client_send me (Some (Auth, client_hello)) (set_client AtNonce (y_to_client y) y)).
    split; [apply by_client; by apply client_dials|].
    rewrite (work_pending _ _ (send_pending (Some (Auth, client_hello)) AtNonce (y_to_client y) y)).
    unfold work. change (pend me _ _ _ _) with (pending y).
    rewrite start_pending, Est by done. cbn. lia. }
  destruct (pending y) as [|t l] eqn:Ep.
  { pose proof (sv_client _ _ _ _ _ _ Hs) as Hc. destruct (y_client y) eqn:Ec; cbn in *;
      try done; try (by destruct Hb); by subst. }
  assert (t ∈ pending y) as Hin by (rewrite Ep; apply elem_of_cons; by left).
  pose proof (sv_legit _ _ _ _ _ _ Hs t Hin) as Hl. apply pending_elem in Hin.
  inversion Hl as [Ec Et|n [Hn Hk] Ec Et|n [Hn Hk] Ec Et|Ec Et|n [Hn Hk] Ec Et|n [Hn Hk] Ec Et|Ec Et]; subst t;
    destruct Hin as [net E]; symmetry in Ec.
  - eapply ask_closer; [done..|apply ask_hello].
  - eapply reply_closer; rewrite ?Ec; [done..|by apply turn_nonce|cbn; lia].
  - eapply ask_closer; [done..|]. apply ask_hash; [done|]. by apply Hk.
  - by eapply call_closer.
  - eapply reply_closer; rewrite ?Ec; [done..|by apply turn_info|cbn; lia].
  - eapply request_closer; [done..|]. apply request_granted; [done|]. by apply Hk.
  - eapply reply_closer; rewrite ?Ec; [done..|apply turn_fortune|cbn; lia].
Qed.

Lemma reliable_reachable y :
  rtc (reliable_step secret server fortune me int63) system_start y → client_served y ∧ servers_busy y.
Proof using HJ Hvalid.
  apply (rtc_ind_r (λ y, client_served y ∧ servers_busy y)); [apply start_served|].
  intros y1 y2 _ Hstep [Hs Hb]. destruct (reliable_effect _ _ Hstep Hs) as [Hs' Hb']. auto.
Qed.

(** Every step finds the client as it should be, or gone after an error. *)
Lemma system_effect y y' :
  system_step secret server fortune me int63 y y' → client_served y → client_served y' ∨ y_client y' = Exited.
Proof using HJ Hvalid.
  intros [Hstep|Hstep|[]] Hs; [left; by apply (reliable_effect _ _ Hstep Hs)|left; by eapply fault_served|by right..].
Qed.

Lemma exited_step y y' :
  system_step secret server fortune me int63 y y' → y_client y = Exited → y_client y' = Exited.
Proof.
  intros Hstep He. destruct Hstep as [[[[E|p d net st' datagram E Hr]|[]|[]]|[]]|[]|[E| |]]; try done; congruence || (by rewrite He in Hr).
Qed.

Lemma system_reachable y :
  rtc (system_step secret server fortune me int63) system_start y → client_served y ∨ y_client y = Exited.
Proof using HJ Hvalid.
  apply (rtc_ind_r (λ y, client_served y ∨ y_client y = Exited)); [left; apply start_served|].
  intros y1 y2 _ Hstep [Hs|He]; [by eapply system_effect|right; by eapply exited_step].
Qed.

Lemma finishes y rand :
  int63 rand → client_served y → servers_busy y → ∃ y', rtc served_step y y' ∧ y_client y' = Printed fortune.
Proof using HJ Hvalid.
  intros Hr. remember (work y) as n eqn:Hn. revert y Hn.
  induction (lt_wf n) as [n _ IH]. intros y -> Hs Hb.
  destruct (decide (y_client y = Printed fortune)) as [Hp|Hp]; [by exists y|].
  destruct (progress y rand Hr Hs Hb Hp) as (y1 & Hstep & Hlt).
  destruct (reliable_effect y y1) as [Hs1 Hb1]; [by apply serves|done|].
  destruct (IH (work y1) Hlt y1) as (y' & Hrun & Hy'); [done..|by apply Hb1|].
  exists y'. split; [by eapply rtc_l|done].
Qed.

(** *** A crashed server *)

(** The authentication server is down and has told the client nothing. *)
Record starved (y : system) : Prop := {
  st_served : client_served y;
  st_auth : y_auth y = None;
  st_client : y_client y = AtStart ∨ y_client y = AtNonce;
  st_replies : y_to_client y = []
}.

Lemma reply_to_nil y addr d net reply :
  client_served y → y_client y = AtStart ∨ y_client y = AtNonce → y_to_fortune y ≡ₚ (addr, d) :: net →
  reply_to me addr Fortunes reply [] = [].
Proof.
  intros Hs Hc E. unfold reply_to. case_decide as Hd; [|done]. subst addr.
  pose proof (pending_request _ _ _ _ E) as Hp. rewrite decide_True in Hp by done.
  destruct (served_head _ _ _ Hs Hp) as [_ Hl]. destruct Hc as [Hc|Hc]; rewrite Hc in Hl; inversion Hl.
Qed.

Lemma starved_step y y' :
  system_step secret server fortune me int63 y y' → starved y → starved y' ∨ y_client y' = Exited.
Proof using HJ Hvalid.
  intros Hstep [Hs Ha Hc Hr]. destruct (system_effect _ _ Hstep Hs) as [Hs'|]; [left|by right].
  revert Hs'.
  destruct Hstep as [[[[E|p d net st' datagram E]|[]|[]]|[]]|[to_auth to_fortune to_client ?? Hsub| | |]|[]];
    intros Hs'; try congruence; try (by split); try (by destruct (sv_client _ _ _ _ _ _ Hs')).
  - split; try done. by right.
  - rewrite Hr in E. by apply Permutation_nil_cons in E.
  - split; try done. cbn. rewrite Hr. eapply reply_to_nil; [exact Hs|exact Hc|eassumption].
  - split; try done. cbn. rewrite Hr in Hsub. by apply submseteq_nil_r in Hsub.
Qed.

Lemma starved_for_ever y y' :
  starved y → rtc (system_step secret server fortune me int63) y y' → starved y' ∨ y_client y' = Exited.
Proof using HJ Hvalid.
  intros Hy. revert y'. apply rtc_ind_r; [by left|].
  intros y1 y2 _ Hstep [Hs|He]; [by eapply starved_step|right; by eapply exited_step].
Qed.

(** Two datagrams from elsewhere: one to get a nonce, and the text [null]. *)
Lemma null_starves addr rand :
  addr ≠ me → int63 rand →
  ∃ y, rtc (system_step secret server fortune me int63) system_start y ∧ starved y.
Proof using HJ Hvalid.
  intros Hne Hr. eexists. split.
  - eapply rtc_l; [apply works, others; by apply (other_asks _ _ addr client_hello)|].
    eapply rtc_l; [apply works, serves, by_auth; eapply auth_replies; cbn; [done..| |apply first_hello]; done|].
    eapply rtc_l; [apply works, others; by apply (other_asks _ _ addr null)|].
    eapply rtc_once, fails. eapply auth_panics; cbn; [done..|exact Hr|].
    unfold handleAuthRequest_first. change (read_datagram null) with null. rewrite null_Hash.
    unfold checkHash. by rewrite lookup_insert_eq.
  - unfold reply_to. rewrite decide_False by done. split; cbn; auto. split; cbn; try done; [lia|].
    by intros t Hin%elem_of_nil.
Qed.

End Served.

(** ** The properties *)

(** C38: A client that is alone at its address is served, whatever other
    addresses send and whenever: as long as nothing is lost, no server crashes
    and the network gives the client no error, the client neither exits nor
    panics, it and the servers can always finish, and the fortune is printed.
    Whatever is lost, whoever crashes, and whatever errors its reads and writes
    return, the client never panics and prints nothing but the fortune: then it
    may wait for ever, or exit. *)
Theorem client_gets_the_fortune `{FortuneJsonLaws valid} secret server fortune me
    (int63 : Z → Prop) rand :
  int63 rand → messages_valid (valid := valid) secret server fortune int63 →
  (∀ y, rtc (reliable_step secret server fortune me int63) system_start y →
    y_client y ≠ Exited ∧ y_client y ≠ Panicked ∧
    ∃ y', rtc (served_step secret server fortune me int63) y y' ∧ y_client y' = Printed fortune) ∧
  (∀ y, rtc (system_step secret server fortune me int63) system_start y →
    match y_client y with Printed f => f = fortune | Panicked => False | _ => True end).
Proof.
  intros Hr Hv. split; intros y Hy.
  - apply (reliable_reachable _ _ _ _ _ Hv) in Hy as [Hs Hb]. pose proof (sv_client _ _ _ _ _ _ Hs) as Hc.
    split_and!; [by intros E; rewrite E in Hc..|by eapply finishes].
  - apply (system_reachable _ _ _ _ _ Hv) in Hy as [[Hc _ _]|He]; [by destruct (y_client y)|by rewrite He].
Qed.

Lemma sample_messages_valid :
  messages_valid (valid := λ m, m ∈ sample_messages) 1984 (text "127.0.0.1:9000") (text "hello") (λ n, n = 7).
Proof.
  split; intros; subst; rewrite ?sample_hash_eq; unfold sample_messages;
    rewrite !elem_of_cons; tauto.
Qed.

Lemma client_gets_the_fortune_witness :
  let step := reliable_step 1984 (text "127.0.0.1:9000") (text "hello") client_address (λ n, n = 7) in
  ∃ y, rtc step system_start y ∧ y_client y = Printed (text "hello").
Proof.
  destruct (client_gets_the_fortune (valid := λ m, m ∈ sample_messages) 1984 (text "127.0.0.1:9000")
    (text "hello") client_address (λ n, n = 7) 7 eq_refl sample_messages_valid) as [Hrun _].
  destruct (Hrun system_start (rtc_refl _ _)) as (_ & _ & y & Hy & Hp). exists y. split; [|exact Hp].
  eapply rtc_subrel; [|exact Hy]. intros ? ?. apply serves.
Defined.

(** Anybody can keep the client from its fortune: after two datagrams from
    another address the authentication server is down, and the client prints
    nothing, whatever happens then. *)
Theorem others_can_starve_the_client `{FortuneJsonLaws valid} secret server fortune me
    (int63 : Z → Prop) addr rand :
  int63 rand → messages_valid (valid := valid) secret server fortune int63 → addr ≠ me →
  ∃ y, rtc (system_step secret server fortune me int63) system_start y ∧
    ∀ y' f, rtc (system_step secret server fortune me int63) y y' → y_client y' ≠ Printed f.
Proof.
  intros Hr Hv Hne. destruct (null_starves secret server fortune me int63 Hv addr rand Hne Hr) as (y & Hy & Hst).
  exists y. split; [done|]. intros y' f Hrun E.
  destruct (starved_for_ever _ _ _ _ _ Hv _ _ Hst Hrun) as [[_ _ [Hc|Hc] _]|He]; congruence.
Qed.

Lemma others_can_starve_the_client_witness :
  ∃ y, rtc (system_step 1984 (text "127.0.0.1:9000") (text "hello") client_address (λ n, n = 7)) system_start y ∧
    y_client y ≠ Printed (text "hello").
Proof.
  destruct (others_can_starve_the_client (valid := λ m, m ∈ sample_messages) 1984 (text "127.0.0.1:9000")
    (text "hello") client_address (λ n, n = 7) [] 7 eq_refl sample_messages_valid) as (y & Hy & Hn); [done|].
  exists y. split; [exact Hy|]. exact (Hn y _ (rtc_refl _ _)).
Defined.
