(* ===== verification/Framing.v ===== *)
(** Length-prefixed messages on a byte stream: MessageReader and MessageWriter
    (CPSC418/project/util/util.go), KvReadLine and KvWriteLine
    (CPSC418/assignment4/util/util.go). *)
From S2P Require Import Prelude GoText.

Open Scope Z_scope.

Definition space : byte := x20.
Definition newline : byte := x0a.

(** ** Conversions *)

Definition UInt32ToStr (n : Z) : list byte := FormatUint n.
Definition StrToUInt32 (str : list byte) : Z := (ParseUint max_uint32 str).1.
Definition StrToInt (str : list byte) : Z := (Atoi str).1.

(** ** bufio.Reader on the bytes that arrive until the connection ends *)

Inductive read_error : Type := EOF | ErrBufferFull.

#[export] Instance read_error_eq_dec : EqDecision read_error.
Proof. solve_decision. Defined.

(** The bytes up to and including the first [delim], and those after it. *)
Fixpoint split_after (delim : byte) (s : list byte) : option (list byte * list byte) :=
  match s with
  | [] => None
  | b :: s =>
      if decide (b = delim) then Some ([b], s)
      else match split_after delim s with
           | Some (line, rest) => Some (b :: line, rest)
           | None => None
           end
  end.

Definition reader : Type := list byte → read_error + list byte * list byte.

(** [ReadString] and [ReadBytes]: a line of any length. *)
Definition ReadBytes (delim : byte) : reader := λ s,
  match split_after delim s with Some r => inr r | None => inl EOF end.

(** The size of the buffer of [bufio.NewReader]. *)
Definition defaultBufSize : nat := 4096.

(** [ReadSlice]: the line must fit in the buffer. *)
Definition ReadSlice (delim : byte) : reader := λ s,
  match split_after delim (take defaultBufSize s) with
  | Some (line, _) => inr (line, drop (length line) s)
  | None => if decide (defaultBufSize ≤ length s)%nat then inl ErrBufferFull else inl EOF
  end.

(** ** Reading a message *)

(** The loop [for i < n]: lines are read until [n] bytes are there. *)
Fixpoint read_loop (read : reader) (fuel : nat) (n i : Z) (buf s : list byte)
    : res (read_error + list byte * list byte) :=
  match fuel with
  | O => OutOfFuel
  | S fuel =>
      if i <? n then
        match read s with
        | inl err => Ok (inl err)
        | inr (k, s) => read_loop read fuel n (i + zlen k) (buf ++ k) s
        end
      else Ok (inr (buf, s))
  end.

Section Readers.
(** How a line is read: [ReadBytes] or [ReadSlice]. *)
Context (read : reader).

Definition read_buffer (s : list byte) : res (read_error + list byte * list byte) :=
  match ReadBytes space s with
  | inl err => Ok (inl err)
  | inr (toRead, s) =>
      let n := StrToInt (take (length toRead - 1) toRead) in
      read_loop read (S (length s)) n 0 [] s
  end.

Definition read_message (s : list byte) : res (read_error + list byte * list byte) :=
  r ← read_buffer s;
  match r with
  | inr (s, rest) =>
      if decide (0 < length s)%nat then Ok (inr (take (length s - 1) s, rest))
      else Ok (inr (take 0 s, rest))
  | inl err => Ok (inl err)
  end.
End Readers.

Definition ReadMessageBuffer := read_buffer (ReadBytes newline).
Definition ReadMessageSlice := read_message (ReadBytes newline).
Definition ReadMessage := read_message (ReadBytes newline).

Definition KvReadLineBuffer := read_buffer (ReadSlice newline).
Definition KvReadLineSlice := read_message (ReadSlice newline).
Definition KvReadLine := read_message (ReadSlice newline).

(** ** Writing a message *)

(** A [bufio.Writer]: the bytes it has accepted and how many more operations
    it will take before the connection under it fails; an error is final. *)
Record writer : Type := mkWriter {
  w_data : list byte;
  w_budget : option nat
}.

(** One operation of the writer: its result is whether it returned nil. *)
Definition write (w : writer) (s : list byte) : bool * writer :=
  match w_budget w with
  | Some O => (false, w)
  | Some (S n) => (true, mkWriter (w_data w ++ s) (Some n))
  | None => (true, mkWriter (w_data w ++ s) None)
  end.

(** The operations in order, up to the first error. *)
Fixpoint write_all (w : writer) (ss : list (list byte)) : bool * writer :=
  match ss with
  | [] => (true, w)
  | s :: ss =>
      match write w s with
      | (true, w) => write_all w ss
      | (false, w) => (false, w)
      end
  end.

(** The last operation is [Flush]. *)
Definition WriteMessage (w : writer) (str : list byte) : bool * writer :=
  write_all w [Itoa (zlen str); [space]; str; [newline]; []].
Definition WriteMessageSlice := WriteMessage.
Definition KvWriteLine := WriteMessage.
Definition KvWriteLineSlice := WriteMessage.

(** ** What a message looks like on the stream *)

Definition frame (str : list byte) : list byte :=
  Itoa (zlen str) ++ [space] ++ str ++ [newline].

(** The messages that the reader takes back as they were. *)
Definition framable (str : list byte) : Prop :=
  str ≠ [] ∧ last str ≠ Some newline.

#[export] Instance framable_dec str : Decision (framable str) := _.

(** The lines of a text, without their ends. *)
Fixpoint text_lines (str : list byte) : list (list byte) :=
  match str with
  | [] => [[]]
  | b :: str =>
      if decide (b = newline) then [] :: text_lines str
      else match text_lines str with
           | l :: ls => (b :: l) :: ls
           | [] => [[b]]
           end
  end.

(** [ReadSlice] takes a line whose end is in the buffer with it. *)
Definition short_line (l : list byte) : Prop := (length l < defaultBufSize)%nat.

#[export] Instance short_line_dec l : Decision (short_line l) := _.

(** ** Lemmas on lines *)

Lemma split_after_app delim s rest :
  delim ∉ s → split_after delim (s ++ delim :: rest) = Some (s ++ [delim], rest).
Proof.
  induction s as [|b s IH]; intros Hs; simpl.
  - by rewrite decide_True.
  - rewrite decide_False by set_solver. by rewrite IH by set_solver.
Qed.

Lemma split_after_inv delim s line rest :
  split_after delim s = Some (line, rest) →
  s = line ++ rest ∧ ∃ l, line = l ++ [delim] ∧ delim ∉ l.
Proof.
  revert line rest; induction s as [|b s IH]; intros line rest H; simpl in *; [done|].
  destruct (decide (b = delim)) as [->|Hb].
  - simplify_eq. split; [done|]. exists []. set_solver.
  - destruct (split_after delim s) as [[l r]|] eqn:E; [|done]. simplify_eq.
    destruct (IH _ _ eq_refl) as (-> & l' & -> & Hl). split; [done|].
    exists (b :: l'). split; [done|set_solver].
Qed.

Lemma Itoa_no_space (str : list byte) : space ∉ Itoa (zlen str).
Proof.
  unfold Itoa. pose proof (zlen_nonneg str). replace (_ <? 0) with false by lia.
  by apply (Forall_not_elem is_digit), eq_refl; apply FormatUint_digits.
Qed.

(** A message is digits, a space and its text. *)
Lemma ReadBytes_header (str rest : list byte) :
  ReadBytes space (Itoa (zlen str) ++ [space] ++ rest) =
  inr (Itoa (zlen str) ++ [space], rest).
Proof.
  unfold ReadBytes. change ([space] ++ rest) with (space :: rest).
  by rewrite split_after_app by apply Itoa_no_space.
Qed.

(** [s[:len(s)-1]]. *)
Lemma take_init (h : list byte) b : take (length (h ++ [b]) - 1) (h ++ [b]) = h.
Proof. rewrite length_app. simpl length. by rewrite Nat.add_sub, take_app_length. Qed.

(** A slice in memory is shorter than the largest [int]. *)
Definition in_memory (str : list byte) : Prop := zlen str < 2 ^ 63.

Lemma read_buffer_frame read str rest :
  in_memory str →
  read_buffer read (frame str ++ rest) =
  read_loop read (S (length (str ++ newline :: rest))) (zlen str) 0 [] (str ++ newline :: rest).
Proof.
  intros Hm. unfold read_buffer, frame. rewrite <-!app_assoc. rewrite ReadBytes_header.
  rewrite take_init. unfold StrToInt. rewrite Atoi_Itoa; [done|].
  unfold in_memory in Hm. pose proof (zlen_nonneg str). lia.
Qed.

(** A header that does not start with its digits counts as zero. *)
Lemma read_buffer_lost read str rest :
  read_buffer read (newline :: frame str ++ rest) =
  Ok (inr ([], str ++ newline :: rest)).
Proof.
  unfold read_buffer, frame, ReadBytes.
  rewrite <-!app_assoc, app_comm_cons. change ([space] ++ ?r) with (space :: r).
  rewrite split_after_app.
  - by rewrite take_init.
  - apply not_elem_of_cons. split; [done|]. apply Itoa_no_space.
Qed.

(** ** The two readers *)

(** What [read_loop] needs of a reader: it takes a line that is [ok], fails on
    one that is not, and always takes something. *)
Class LineReader (read : reader) (ok : list byte → Prop) : Prop := {
  read_line : ∀ l rest, newline ∉ l → ok l →
    read (l ++ newline :: rest) = inr (l ++ [newline], rest);
  read_bad_line : ∀ l rest, newline ∉ l → ¬ ok l →
    ∃ err, read (l ++ newline :: rest) = inl err;
  read_progress : ∀ s k rest, read s = inr (k, rest) → s = k ++ rest ∧ k ≠ []
}.

#[export] Instance ReadBytes_lines : LineReader (ReadBytes newline) (λ _, True).
Proof.
  split; unfold ReadBytes.
  - intros l rest Hl _. by rewrite split_after_app.
  - intros l rest _ H. by destruct H.
  - intros s k rest H. destruct (split_after newline s) as [[k' r']|] eqn:E; simplify_eq.
    apply split_after_inv in E as (-> & l & -> & _). split; [done|]. by destruct l.
Qed.

Lemma split_after_notin delim s : delim ∉ s → split_after delim s = None.
Proof.
  induction s as [|b s IH]; intros Hs; simpl; [done|].
  rewrite decide_False by set_solver. by rewrite IH by set_solver.
Qed.

#[export] Instance ReadSlice_lines : LineReader (ReadSlice newline) short_line.
Proof.
  split; unfold ReadSlice.
  - intros l rest Hl Hok. unfold short_line in Hok.
    replace (take defaultBufSize (l ++ newline :: rest)) with
      (l ++ newline :: take (defaultBufSize - length l - 1) rest).
    + rewrite split_after_app by done.
      replace (l ++ newline :: rest) with ((l ++ [newline]) ++ rest) by by rewrite <-app_assoc.
      by rewrite drop_app_length.
    + rewrite take_app, (take_ge l) by lia.
      destruct (defaultBufSize - length l)%nat as [|k] eqn:E; [lia|]. simpl.
      by rewrite Nat.sub_0_r.
  - intros l rest Hl Hok. unfold short_line in Hok. exists ErrBufferFull.
    rewrite take_app_le by lia. rewrite split_after_notin.
    + rewrite decide_True; [done|]. rewrite length_app. lia.
    + intros Hin. apply Hl. by eapply elem_of_take in Hin as (? & ? & _); eauto using list_elem_of_lookup_2.
  - intros s k rest H.
    destruct (split_after newline (take defaultBufSize s)) as [[k' r']|] eqn:E.
    + simplify_eq. apply split_after_inv in E as (E & l & -> & _).
      assert (s = (l ++ [newline]) ++ (r' ++ drop defaultBufSize s)) as Hs.
      { by rewrite app_assoc, <-E, take_drop. }
      split; [|by destruct l]. rewrite Hs at 1. f_equal.
      by rewrite Hs at 2; rewrite drop_app_length.
    + destruct (decide _); done.
Qed.

(** ** Lines of a text *)

(** Lines as they are on the stream. *)
Definition line_bytes (ls : list (list byte)) : list byte :=
  concat (map (λ l, l ++ [newline]) ls).

Lemma line_bytes_app ls1 ls2 : line_bytes (ls1 ++ ls2) = line_bytes ls1 ++ line_bytes ls2.
Proof. unfold line_bytes. by rewrite map_app, concat_app. Qed.

Lemma text_lines_bytes str : line_bytes (text_lines str) = str ++ [newline].
Proof.
  induction str as [|b str IH]; simpl; [done|].
  destruct (decide (b = newline)) as [->|]; cbn.
  - by rewrite <-IH.
  - destruct (text_lines str) as [|l ls]; [by destruct str|].
    cbn in *. by rewrite IH.
Qed.

Lemma text_lines_clean str : Forall (λ l, newline ∉ l) (text_lines str).
Proof.
  induction str as [|b str IH]; simpl; [repeat constructor; set_solver|].
  destruct (decide (b = newline)); [constructor; [set_solver|done]|].
  destruct (text_lines str) as [|l ls]; [repeat constructor; set_solver|].
  apply Forall_cons in IH as [??]. constructor; [set_solver|done].
Qed.

Lemma text_lines_line l : newline ∉ l → text_lines l = [l].
Proof.
  induction l as [|b l IH]; intros Hl; simpl; [done|].
  rewrite decide_False by set_solver. by rewrite IH by set_solver.
Qed.

(** The last line is empty just when the text is empty or ends a line. *)
Lemma text_lines_last str :
  ∃ ls l, text_lines str = ls ++ [l] ∧ (framable str → l ≠ []).
Proof.
  induction str as [|b str (ls & l & E & IH)]; simpl.
  - exists [], []. split; [done|]. by intros [H _].
  - rewrite E. destruct (decide (b = newline)) as [->|Hb].
    + exists ([] :: ls), l. split; [done|]. intros [_ H]. apply IH.
      destruct str as [|c str]; [done|]. by split.
    + destruct ls as [|l1 ls]; simpl.
      * exists [], (b :: l). split; [done|]. done.
      * exists ((b :: l1) :: ls), l. split; [done|]. intros [_ H]. apply IH.
        destruct str as [|c str]; [by simplify_eq/=; destruct ls|]. by split.
Qed.

(** ** The loop *)

Section Loop.
Context (read : reader) (ok : list byte → Prop) `{LR : !LineReader read ok}.

(** It always ends: a turn takes at least a byte of the input. *)
Lemma read_loop_ends fuel n i buf s :
  (length s < fuel)%nat → ∃ r, read_loop read fuel n i buf s = Ok r.
Proof using LR.
  revert i buf s; induction fuel as [|fuel IH]; intros i buf s Hf; simpl; [lia|].
  destruct (i <? n); [|eauto].
  destruct (read s) as [err|[k s']] eqn:E; [eauto|].
  apply read_progress in E as [-> Hk]. apply IH.
  rewrite length_app in Hf. destruct k; simpl in Hf; [done|lia].
Qed.

Lemma read_loop_done fuel n i buf s :
  n ≤ i → read_loop read (S fuel) n i buf s = Ok (inr (buf, s)).
Proof using. intros. simpl. by replace (i <? n) with false by lia. Qed.

(** It takes the lines up to the one that reaches [n] bytes. *)
Lemma read_loop_lines fuel n i buf ls l rest :
  (S (length ls) < fuel)%nat → Forall (λ l, newline ∉ l) (ls ++ [l]) →
  zlen (line_bytes ls) < n - i ≤ zlen (line_bytes (ls ++ [l])) →
  (Forall ok (ls ++ [l]) →
    read_loop read fuel n i buf (line_bytes (ls ++ [l]) ++ rest) =
    Ok (inr (buf ++ line_bytes (ls ++ [l]), rest))) ∧
  (¬ Forall ok (ls ++ [l]) → (∀ l, Decision (ok l)) →
    ∃ err, read_loop read fuel n i buf (line_bytes (ls ++ [l]) ++ rest) = Ok (inl err)).
Proof using LR.
  revert fuel i buf. induction ls as [|l1 ls IH]; intros [|fuel] i buf Hf Hcl Hn;
    simpl in Hf; [lia| |lia|]; simpl in Hcl; apply Forall_cons in Hcl as [Hl Hcl];
    cbn [read_loop app]; rewrite line_bytes_app in Hn;
    unfold line_bytes in Hn |- *; cbn [map concat app] in *.
  - autorewrite with golen in Hn. rewrite app_nil_r.
    replace (i <? n) with true by lia. rewrite <-app_assoc. cbn [app].
    split; [intros Hok|intros Hok ?].
    + apply Forall_cons in Hok as [Hok _]. rewrite (read_line (ok := ok)) by done.
      destruct fuel; [lia|]. rewrite read_loop_done; [done|]. autorewrite with golen. lia.
    + destruct (read_bad_line (ok := ok) l rest Hl) as [err ->]; [|eauto].
      intros H0. apply Hok. by repeat constructor.
  - autorewrite with golen in Hn. pose proof (zlen_nonneg l1).
    pose proof (zlen_nonneg (line_bytes ls)) as Hz. unfold line_bytes in Hz.
    replace (i <? n) with true by lia. rewrite <-!app_assoc. cbn [app].
    specialize (IH fuel (i + zlen (l1 ++ [newline])) (buf ++ l1 ++ [newline])
      ltac:(lia) Hcl) as [IHok IHbad].
    { rewrite line_bytes_app. unfold line_bytes. cbn [map concat app].
      autorewrite with golen. lia. }
    unfold line_bytes in IHok, IHbad.
    split; [intros Hok|intros Hok ?].
    + apply Forall_cons in Hok as [Hok1 Hok]. rewrite (read_line (ok := ok)) by done.
      rewrite (IHok Hok). by rewrite <-!app_assoc.
    + destruct (decide (ok l1)) as [H1|H1].
      * rewrite (read_line (ok := ok)) by done. apply IHbad; [|done].
        intros H2. apply Hok. by constructor.
      * edestruct (read_bad_line (ok := ok) l1) as [err ->]; eauto.
Qed.
End Loop.

(** ** Messages *)

Section Messages.
Context (read : reader) (ok : list byte → Prop)
  `{LR : !LineReader read ok} `{ok_dec : ∀ l, Decision (ok l)}.

Lemma read_message_ends s : ∃ r, read_message read s = Ok r.
Proof using LR.
  unfold read_message, read_buffer, ReadBytes.
  destruct (split_after space s) as [[h s']|]; [|by eexists].
  edestruct (read_loop_ends read ok (S (length s'))) as [r ->]; [lia|].
  destruct r as [err|[buf rest]]; simpl; [eauto|]. destruct (decide _); eauto.
Qed.

Lemma read_loop_suffix fuel n i buf s buf' rest :
  read_loop read fuel n i buf s = Ok (inr (buf', rest)) → (length rest ≤ length s)%nat.
Proof using LR.
  revert i buf s; induction fuel as [|fuel IH]; intros i buf s H; simpl in H; [done|].
  destruct (i <? n); [|by simplify_eq].
  destruct (read s) as [err|[k s']] eqn:E; [done|].
  apply read_progress in E as [-> Hk]. apply IH in H. rewrite length_app. lia.
Qed.

(** A message takes something of the stream: its header at least. *)
Lemma read_message_shorter s m rest :
  read_message read s = Ok (inr (m, rest)) → (length rest < length s)%nat.
Proof using LR.
  unfold read_message, read_buffer, ReadBytes. intros H.
  destruct (split_after space s) as [[h s']|] eqn:E; [|done].
  apply split_after_inv in E as (-> & l & -> & _).
  apply bind_Ok_inv in H as ([err|[buf r]] & Hl & H); [done|].
  apply read_loop_suffix in Hl. rewrite !length_app. simpl.
  destruct (decide _); simplify_eq; lia.
Qed.

(** The text of a message as lines. *)
Lemma frame_lines str rest :
  str ++ newline :: rest = line_bytes (text_lines str) ++ rest.
Proof using. by rewrite text_lines_bytes, <-app_assoc. Qed.

Lemma length_text_lines str : (length (text_lines str) ≤ S (length str))%nat.
Proof using.
  induction str as [|b str IH]; simpl; [lia|].
  destruct (decide (b = newline)); simpl; [lia|].
  destruct (text_lines str); simpl in *; lia.
Qed.

(** The loop takes a text and the newline after it when it waits for the
    length of the text, or for one byte more. *)
Lemma read_loop_text str n rest :
  framable str ∧ n = zlen str ∨ n = zlen str + 1 →
  let r := read_loop read (S (length (str ++ newline :: rest))) n 0 [] (str ++ newline :: rest) in
  (Forall ok (text_lines str) → r = Ok (inr (str ++ [newline], rest))) ∧
  (¬ Forall ok (text_lines str) → ∃ err, r = Ok (inl err)).
Proof using LR ok_dec.
  intros Hn r. subst r. pose proof (length_text_lines str) as Hlen.
  destruct (text_lines_last str) as (ls & l & E & Hl).
  pose proof (text_lines_clean str) as Hcl. pose proof (text_lines_bytes str) as Hb.
  rewrite frame_lines. rewrite E in *.
  destruct (read_loop_lines read ok (S (length (line_bytes (ls ++ [l]) ++ rest)))
    n 0 [] ls l rest) as [Hgood Hbad]; [|done| |].
  - rewrite Hb, !length_app. rewrite length_app in Hlen. simpl in *. lia.
  - assert (zlen (line_bytes (ls ++ [l])) = zlen str + 1) as Hz by (rewrite Hb; len).
    rewrite line_bytes_app, zlen_app in Hz |- *.
    assert (zlen (line_bytes [l]) = zlen l + 1) as Hone by (unfold line_bytes; simpl; len).
    pose proof (zlen_nonneg l). destruct Hn as [[Hf ->]| ->]; [|lia].
    specialize (Hl Hf). assert (0 < zlen l) by (destruct l; [done|len]). lia.
  - rewrite Hb in *. split; [done|]. intros Hno. by apply Hbad.
Qed.

(** A framable message is taken as it was. *)
Lemma read_message_framable str rest :
  framable str → in_memory str →
  (Forall ok (text_lines str) →
    read_message read (frame str ++ rest) = Ok (inr (str, rest))) ∧
  (¬ Forall ok (text_lines str) →
    ∃ err, read_message read (frame str ++ rest) = Ok (inl err)).
Proof using LR ok_dec.
  intros Hf Hm. unfold read_message. rewrite read_buffer_frame by done.
  destruct (read_loop_text str (zlen str) rest) as [Hgood Hbad]; [by left|]. split.
  - intros H. rewrite (Hgood H). rewrite bind_Ok. rewrite decide_True by (rewrite length_app; simpl; lia).
    by rewrite take_init.
  - intros H. destruct (Hbad H) as [err ->]. by exists err.
Qed.

(** One that ends with a newline loses it, and leaves one on the stream. *)
Lemma read_message_newline str rest :
  in_memory (str ++ [newline]) →
  (Forall ok (text_lines str) →
    read_message read (frame (str ++ [newline]) ++ rest) = Ok (inr (str, newline :: rest))) ∧
  (¬ Forall ok (text_lines str) →
    ∃ err, read_message read (frame (str ++ [newline]) ++ rest) = Ok (inl err)).
Proof using LR ok_dec.
  intros Hm. unfold read_message. rewrite read_buffer_frame by done.
  rewrite <-(app_assoc str [newline]). cbn [app].
  destruct (read_loop_text str (zlen (str ++ [newline])) (newline :: rest)) as [Hgood Hbad];
    [right; len|]. split.
  - intros H. rewrite (Hgood H). rewrite bind_Ok. rewrite decide_True by (rewrite length_app; simpl; lia).
    by rewrite take_init.
  - intros H. destruct (Hbad H) as [err ->]. by exists err.
Qed.

(** An empty one leaves its newline on the stream. *)
Lemma read_message_empty rest :
  read_message read (frame [] ++ rest) = Ok (inr ([], newline :: rest)).
Proof using. unfold read_message. rewrite read_buffer_frame by done. done. Qed.

Lemma read_message_frame_iff str rest :
  in_memory str →
  read_message read (frame str ++ rest) = Ok (inr (str, rest)) ↔
  framable str ∧ Forall ok (text_lines str).
Proof using LR ok_dec.
  intros Hm. split.
  - intros H. destruct (decide (str = [])) as [->|Hne].
    { rewrite read_message_empty in H. injection H as H. by apply (f_equal length), Nat.neq_succ_diag_l in H. }
    destruct (decide (last str = Some newline)) as [(str' & ->)%last_Some|Hl].
    { destruct (read_message_newline str' rest Hm) as [Hgood Hbad].
      destruct (decide (Forall ok (text_lines str'))) as [Hok|Hok].
      - rewrite (Hgood Hok) in H. injection H as H _. apply (f_equal length) in H.
        rewrite length_app in H. simpl in H. lia.
      - destruct (Hbad Hok) as [err Herr]. congruence. }
    destruct (read_message_framable str rest) as [_ Hbad]; [done..|].
    split; [done|]. destruct (decide (Forall ok (text_lines str))) as [Hok|Hok]; [done|].
    destruct (Hbad Hok) as [err Herr]. congruence.
  - intros [Hf Hok]. by apply read_message_framable.
Qed.
End Messages.

(** ** Streams of messages *)

(** [n] messages one after the other, up to an error. *)
Fixpoint ReadMessages (n : nat) (s : list byte)
    : res (read_error + list (list byte) * list byte) :=
  match n with
  | O => Ok (inr ([], s))
  | S n =>
      r ← ReadMessage s;
      match r with
      | inl err => Ok (inl err)
      | inr (m, s) =>
          r ← ReadMessages n s;
          match r with
          | inl err => Ok (inl err)
          | inr (ms, s) => Ok (inr (m :: ms, s))
          end
      end
  end.

Fixpoint WriteMessages (w : writer) (ms : list (list byte)) : bool * writer :=
  match ms with
  | [] => (true, w)
  | m :: ms =>
      match WriteMessage w m with
      | (true, w) => WriteMessages w ms
      | (false, w) => (false, w)
      end
  end.

(** A write that returns nil has put the whole frame on the stream. *)
Lemma WriteMessage_nil w str w' :
  WriteMessage w str = (true, w') → w_data w' = w_data w ++ frame str.
Proof.
  unfold WriteMessage. destruct w as [data [[|[|[|[|[|n]]]]]|]]; simpl; intros ?; simplify_eq;
    simpl; unfold frame; by rewrite <-!app_assoc, ?app_nil_r.
Qed.

Lemma WriteMessages_nil w ms w' :
  WriteMessages w ms = (true, w') → w_data w' = w_data w ++ concat (map frame ms).
Proof.
  revert w; induction ms as [|m ms IH]; intros w H; simpl in *.
  - simplify_eq. by rewrite app_nil_r.
  - destruct (WriteMessage w m) as [[] w1] eqn:E; [|done].
    apply IH in H. rewrite H. apply WriteMessage_nil in E as ->. by rewrite app_assoc.
Qed.

(** ** Properties *)

(** C35: messages that are not empty and do not end with a newline come back
    one by one, in order and unchanged, whatever follows them on the stream,
    when every write returned nil. *)
Theorem messages_roundtrip ms w w' rest :
  w_data w = [] → Forall framable ms → Forall in_memory ms →
  WriteMessages w ms = (true, w') →
  ReadMessages (length ms) (w_data w' ++ rest) = Ok (inr (ms, rest)).
Proof.
  intros Hw Hf Hm Hwr. apply WriteMessages_nil in Hwr. rewrite Hwr, Hw. clear Hwr. cbn [app].
  induction ms as [|m ms IH]; [done|].
  apply Forall_cons in Hf as [Hf1 Hf], Hm as [Hm1 Hm].
  cbn [length ReadMessages map concat]. rewrite <-app_assoc.
  destruct (read_message_framable (ReadBytes newline) (λ _, True) m
    (concat (map frame ms) ++ rest) Hf1 Hm1) as [Hgood _].
  unfold ReadMessage. rewrite Hgood by (by apply Forall_true).
  rewrite bind_Ok, (IH Hf Hm). done.
Qed.

Definition sample_messages : list (list byte) := [[x70; x6f; x6b; x65]; [x31; x0a; x32]].

Lemma messages_roundtrip_witness :
  ReadMessages 2 (w_data (WriteMessages (mkWriter [] None) sample_messages).2 ++ [x33]) =
  Ok (inr (sample_messages, [x33])).
Proof.
  apply (messages_roundtrip sample_messages (mkWriter [] None)); [done|..|done].
  - repeat constructor; done.
  - repeat constructor.
Defined.

(** The reader takes back what the writer wrote exactly for the messages
    that are not empty and do not end with a newline: it counts the bytes of
    whole lines, so any other message leaves its newline on the stream or
    loses it. *)
Theorem ReadMessage_frame_iff str rest :
  in_memory str →
  ReadMessage (frame str ++ rest) = Ok (inr (str, rest)) ↔ framable str.
Proof.
  intros Hm. unfold ReadMessage.
  rewrite (read_message_frame_iff (ReadBytes newline) (λ _, True)) by done.
  split; [by intros []|]. intros H. split; [done|by apply Forall_true].
Qed.

Lemma ReadMessage_frame_iff_witness :
  framable [x61; x0a; x62] ∧ ¬ framable [x61; x0a].
Proof.
  split.
  - apply (proj1 (ReadMessage_frame_iff [x61; x0a; x62] [x0a] eq_refl)). by vm_compute.
  - intros H. apply (proj2 (ReadMessage_frame_iff [x61; x0a] [] eq_refl)) in H.
    by vm_compute in H.
Defined.

(** The key-value nodes also need every line of a message to fit in the
    4096 bytes of the buffer with its newline; the other messages fail or come
    back changed. *)
Theorem KvReadLine_frame_iff str rest :
  in_memory str →
  KvReadLine (frame str ++ rest) = Ok (inr (str, rest)) ↔
  framable str ∧ Forall short_line (text_lines str).
Proof.
  intros Hm. exact (read_message_frame_iff (ReadSlice newline) short_line str rest Hm).
Qed.

Lemma KvReadLine_frame_iff_witness :
  ¬ short_line (replicate 4096 x61) ∧
  KvReadLine (frame (replicate 4096 x61)) ≠ Ok (inr (replicate 4096 x61, [])).
Proof.
  assert (¬ short_line (replicate 4096 x61)) as Hs.
  { unfold short_line. rewrite length_replicate. unfold defaultBufSize. lia. }
  split; [done|]. intros H. rewrite <-(app_nil_r (frame _)) in H.
  apply (proj1 (KvReadLine_frame_iff (replicate 4096 x61) [] eq_refl)) in H as [_ H].
  apply Hs. rewrite text_lines_line in H; [by apply Forall_inv in H|].
  intros Hin. by apply elem_of_replicate in Hin as [? _].
Defined.

(** After an empty message the reader is lost: the message that follows
    is read as empty too, and its text is taken for the header of the next
    one. *)
Theorem empty_message_desynchronises str rest :
  in_memory str →
  ReadMessages 2 (frame [] ++ frame str ++ rest) = Ok (inr ([[]; []], str ++ newline :: rest)).
Proof.
  intros Hm. cbn [ReadMessages]. unfold ReadMessage.
  rewrite read_message_empty, bind_Ok. unfold read_message.
  rewrite read_buffer_lost by done. done.
Qed.

(** A read of a message always comes to an end, with a message or an
    error, whatever bytes arrive. *)
Theorem ReadMessage_returns s :
  (∃ r, ReadMessage s = Ok r) ∧ (∃ r, KvReadLine s = Ok r).
Proof.
  split.
  - by apply (read_message_ends _ (λ _, True)).
  - by apply (read_message_ends _ short_line).
Qed.
