(* ===== verification/Utf8.v ===== *)
(** What encoding/json does to strings: bytes that are not UTF-8 are replaced
    (unicode/utf8 and encoding/json of the Go standard library), and what that
    does to the keys and the values of an object. *)
From S2P Require Import Prelude.

Open Scope Z_scope.

Definition between (lo hi : Z) (b : byte) : bool := (lo <=? byte_val b) && (byte_val b <=? hi).

(** The bounds of the second byte after a first byte of a longer sequence, and
    how many bytes follow after it. *)
Definition sequence (b : byte) : option (Z * Z * nat) :=
  let v := byte_val b in
  if (194 <=? v) && (v <=? 223) then Some (128, 191, 0%nat)
  else if v =? 224 then Some (160, 191, 1%nat)
  else if v =? 237 then Some (128, 159, 1%nat)
  else if (225 <=? v) && (v <=? 239) then Some (128, 191, 1%nat)
  else if v =? 240 then Some (144, 191, 2%nat)
  else if (241 <=? v) && (v <=? 243) then Some (128, 191, 2%nat)
  else if v =? 244 then Some (128, 143, 2%nat)
  else None.

(** [utf8.DecodeRune]: how many bytes the first character has; [None] is
    [RuneError] of width 1. *)
Definition rune_size (s : list byte) : option nat :=
  match s with
  | [] => None
  | b :: s =>
      if byte_val b <? 128 then Some 1%nat
      else
        '(lo, hi, n) ← sequence b;
        match s with
        | b1 :: s =>
            if between lo hi b1 && (n <=? length s)%nat && forallb (between 128 191) (take n s)
            then Some (2 + n)%nat else None
        | [] => None
        end
  end.

(** U+FFFD *)
Definition replacement : list byte := [xef; xbf; xbd].

(** The string that is decoded from what was encoded; the next [skip] bytes
    belong to a character that was looked at. *)
Fixpoint to_utf8_from (skip : nat) (s : list byte) : list byte :=
  match s with
  | [] => []
  | b :: s' =>
      match skip with
      | S skip => b :: to_utf8_from skip s'
      | O =>
          match rune_size s with
          | Some n => b :: to_utf8_from (pred n) s'
          | None => replacement ++ to_utf8_from 0 s'
          end
      end
  end.
Definition to_utf8 (s : list byte) : list byte := to_utf8_from 0 s.

(** Strings that JSON carries unchanged. *)
Definition utf8 (s : list byte) : Prop := to_utf8 s = s.
#[export] Instance utf8_dec s : Decision (utf8 s) := decide (to_utf8 s = s).

(** ** Objects *)

(** The keys are encoded in the order of their bytes, and the last of equal
    ones remains. *)
Definition key_le {A} (x y : list byte * A) : Prop := bytes_Compare x.1 y.1 ≠ Gt.
#[export] Instance key_le_dec {A} : RelDecision (@key_le A) := λ x y, decide (_ ≠ _).

Definition json_map {A} (f : A → A) (m : gmap (list byte) A) : gmap (list byte) A :=
  foldl (λ acc '(k, v), <[to_utf8 k := f v]> acc) ∅ (merge_sort key_le (map_to_list m)).

Lemma inserts_list_to_map {A} (l : list (list byte * A)) (acc : gmap (list byte) A) :
  NoDup l.*1 → (∀ k, k ∈ l.*1 → acc !! k = None) →
  foldl (λ acc '(k, v), <[k := v]> acc) acc l = list_to_map l ∪ acc.
Proof.
  revert acc. induction l as [|[k v] l IH]; intros acc Hnd Hacc; cbn in *.
  { by rewrite (left_id_L ∅ (∪)). }
  apply NoDup_cons in Hnd as [Hk Hnd]. rewrite IH; [|done|].
  - rewrite <-insert_union_r, <-insert_union_l; [done|]. by apply not_elem_of_list_to_map_1.
  - intros k' Hk'. destruct (decide (k = k')) as [->|Hne]; [done|].
    rewrite lookup_insert_ne by done. apply Hacc. by right.
Qed.

(** An object whose strings are UTF-8 is carried unchanged. *)
Lemma json_map_id {A} (f : A → A) (m : gmap (list byte) A) :
  (∀ k v, m !! k = Some v → utf8 k ∧ f v = v) → json_map f m = m.
Proof.
  intros Hm. unfold json_map. pose proof (merge_sort_Permutation key_le (map_to_list m)) as Hp.
  revert Hp. generalize (merge_sort key_le (map_to_list m)). intros l Hp.
  assert (∀ acc, foldl (λ acc '(k, v), <[to_utf8 k := f v]> acc) acc l =
                 foldl (λ acc '(k, v), <[k := v]> acc) acc l) as ->.
  { assert (∀ k v, (k, v) ∈ l → utf8 k ∧ f v = v) as Hl.
    { intros k v Hin. rewrite Hp in Hin. by apply elem_of_map_to_list in Hin; apply Hm. }
    clear -Hl. induction l as [|[k v] l IH]; intros acc; [done|]. cbn [foldl].
    destruct (Hl k v) as [-> ->]; [by left|]. apply IH. intros. apply Hl. by right. }
  rewrite inserts_list_to_map; [|rewrite Hp; apply NoDup_fst_map_to_list|intros; apply lookup_empty].
  rewrite (right_id_L ∅ (∪)), <-(list_to_map_to_list m). apply list_to_map_proper; [|done].
  rewrite Hp. apply NoDup_fst_map_to_list.
Qed.

(** ** Replaced strings are UTF-8 *)

Lemma to_utf8_skip k s : to_utf8_from k s = take k s ++ to_utf8 (drop k s).
Proof.
  revert k. induction s as [|b s IH]; intros [|k]; try done. cbn [to_utf8_from take drop app]. by rewrite IH.
Qed.

Lemma to_utf8_cons b s :
  to_utf8 (b :: s) =
  match rune_size (b :: s) with
  | Some n => b :: take (pred n) s ++ to_utf8 (drop (pred n) s)
  | None => replacement ++ to_utf8 s
  end.
Proof.
  unfold to_utf8 at 1. cbn [to_utf8_from]. destruct (rune_size (b :: s)); [|done]. by rewrite to_utf8_skip.
Qed.

(** The first character does not depend on what follows it. *)
Lemma rune_size_prefix b s n t :
  rune_size (b :: s) = Some n → (pred n ≤ length s)%nat ∧ rune_size (b :: take (pred n) s ++ t) = Some n.
Proof.
  cbn [rune_size]. destruct (byte_val b <? 128); [intros [= <-]; split; [cbn; lia|done]|].
  destruct (sequence b) as [[[lo hi] k]|]; [|done]. cbn [mbind option_bind]. destruct s as [|b1 s]; [done|].
  destruct (between lo hi b1) eqn:H1; [|done]. destruct (Nat.leb_spec k (length s)) as [Hk|]; [|done].
  destruct (forallb _ _) eqn:Hf; [|done]. cbn [andb]. intros [= <-].
  cbn [Nat.add pred take app length]. split; [lia|]. rewrite H1. cbn [andb].
  assert (take k (take k s ++ t) = take k s) as ->.
  { rewrite take_app_le by (rewrite length_take; lia). rewrite take_take. by rewrite Nat.min_id. }
  rewrite Hf, andb_true_r. rewrite (proj2 (Nat.leb_le _ _)); [done|]. rewrite length_app, length_take. lia.
Qed.

Lemma to_utf8_utf8 s : utf8 (to_utf8 s).
Proof.
  unfold utf8. remember (length s) as n eqn:Hn. revert s Hn.
  induction (lt_wf n) as [n _ IH]. intros [|b s] ->; [done|]. rewrite to_utf8_cons.
  destruct (rune_size (b :: s)) as [k|] eqn:Hr.
  - destruct (rune_size_prefix b s k (to_utf8 (drop (pred k) s)) Hr) as [Hk Hr'].
    rewrite to_utf8_cons, Hr', take_app_length', drop_app_length' by (rewrite length_take; lia).
    rewrite (IH (length (drop (pred k) s))); [done| |done]. rewrite length_drop. cbn. lia.
  - change (replacement ++ to_utf8 s) with (xef :: xbf :: xbd :: to_utf8 s). rewrite to_utf8_cons.
    replace (rune_size (xef :: xbf :: xbd :: to_utf8 s)) with (Some 3%nat) by done.
    cbn [pred take drop app]. do 3 f_equal. apply (IH (length s)); [cbn; lia|done].
Qed.

Lemma to_utf8_ascii s : Forall (λ b, byte_val b < 128) s → utf8 s.
Proof.
  unfold utf8, to_utf8. induction 1 as [|b s Hb _ IH]; [done|]. cbn [to_utf8_from rune_size].
  rewrite (proj2 (Z.ltb_lt _ _) Hb). cbn [pred]. by rewrite IH.
Qed.

(** The string that JSON makes of a byte that is no UTF-8, and a text of
    several bytes a character that it keeps. *)
Lemma to_utf8_samples :
  to_utf8 [x61; xff] = [x61; xef; xbf; xbd] ∧ to_utf8 [xed; xa0; x80] = replacement ++ replacement ++ replacement ∧
  utf8 [xc3; xa9; xe2; x82; xac; xf0; x9f; x98; x80] ∧ utf8 replacement.
Proof. repeat split; by vm_compute. Qed.
