(* ===== verification/KvNode.v ===== *)
(** A node of the replicated key-value store
    (CPSC418/assignment4/kv-node.go): its map, its requests, its main loop. *)
From S2P Require Import Prelude GoText Framing.

Open Scope Z_scope.

(** ** Requests and responses *)

Definition GET : Z := 0.
Definition PUT : Z := 1.
Definition TEST_PUT : Z := 2.
Definition QUERY : Z := 3.

(** Keys and values are strings. *)
Abbreviation str := (list byte).

Record KeyArg : Type := mkKeyArg {
  ka_Type : Z;
  ka_Version : Z;
  ka_TestVal : str;
  ka_NewVal : str
}.

Record KvArgs : Type := mkKvArgs {
  arg_RequestId : Z;
  arg_Keys : gmap str KeyArg;
  arg_Kill : bool
}.

Record KvValue : Type := mkKvValue {
  kv_Version : Z;
  kv_Value : str
}.

Record KvResponse : Type := mkKvResponse {
  resp_RequestId : Z;
  resp_Values : gmap str KvValue;
  resp_Kill : bool
}.

#[export] Instance KeyArg_eq_dec : EqDecision KeyArg.
Proof. solve_decision. Defined.
#[export] Instance KvValue_eq_dec : EqDecision KvValue.
Proof. solve_decision. Defined.
#[export] Instance KvResponse_eq_dec : EqDecision KvResponse.
Proof. solve_decision. Defined.

Abbreviation kvstore := (gmap str KvValue).

(** [kvmap[key]]: the zero value when the key is absent. *)
Definition kv_get (kvmap : kvstore) (key : str) : KvValue :=
  default (mkKvValue 0 []) (kvmap !! key).

(** The entry a read of an unknown key leaves behind. *)
Definition kv_touch (kvmap : kvstore) (key : str) : kvstore :=
  match kvmap !! key with
  | Some _ => kvmap
  | None => <[key := mkKvValue 0 []]> kvmap
  end.

(** The body of the loop over the keys of a request. *)
Definition handle_key (st : kvstore * gmap str KvValue) (p : str * KeyArg)
    : kvstore * gmap str KvValue :=
  let '(kvmap, responseMap) := st in
  let '(key, keyarg) := p in
  if decide (ka_Type keyarg = GET) then
    let responseMap := <[key := kv_get kvmap key]> responseMap in
    (kv_touch kvmap key, responseMap)
  else if decide (ka_Type keyarg = QUERY) then
    (kvmap, <[key := kv_get kvmap key]> responseMap)
  else if decide (ka_Type keyarg = PUT) then
    let kvmap :=
      if kv_Version (kv_get kvmap key) <? ka_Version keyarg
      then <[key := mkKvValue (ka_Version keyarg) (ka_NewVal keyarg)]> kvmap
      else kvmap in
    let responseMap :=
      <[key := mkKvValue (kv_Version (kv_get kvmap key)) []]> responseMap in
    (kv_touch kvmap key, responseMap)
  else if decide (ka_Type keyarg = TEST_PUT) then
    let kvmap :=
      if kv_Version (kv_get kvmap key) <? ka_Version keyarg then
        if decide (kv_Value (kv_get kvmap key) = ka_TestVal keyarg)
        then <[key := mkKvValue (ka_Version keyarg) (ka_NewVal keyarg)]> kvmap
        else <[key := mkKvValue (ka_Version keyarg) (kv_Value (kv_get kvmap key))]> kvmap
      else kvmap in
    let responseMap := <[key := kv_get kvmap key]> responseMap in
    (kv_touch kvmap key, responseMap)
  else (kvmap, responseMap).

(** The order in which [range] visits the keys of a map is not specified: it
    is an argument, a permutation of the entries. *)
Definition key_order : Type := gmap str KeyArg → list (str * KeyArg).
Definition is_order (order : key_order) : Prop := ∀ m, order m ≡ₚ map_to_list m.

(** A request that was decoded: the new map and the response that is put on
    the channel to the writer. *)
Definition handle_args (order : key_order) (kvmap : kvstore) (arg : KvArgs)
    : kvstore * KvResponse :=
  if arg_Kill arg then (kvmap, mkKvResponse (arg_RequestId arg) ∅ true)
  else
    let '(kvmap, responseMap) := foldl handle_key (kvmap, ∅) (order (arg_Keys arg)) in
    (kvmap, mkKvResponse (arg_RequestId arg) responseMap false).

Section Node.
(** encoding/json on these types. *)
Context (json_Unmarshal : list byte → option KvArgs).
Context (json_Marshal : KvResponse → list byte).
Context (order : key_order).

(** [None] is the exit of [util.CheckError]. *)
Definition handleRequest (kvmap : kvstore) (request : list byte)
    (writeChannel : list KvResponse) : option (kvstore * list KvResponse) :=
  match json_Unmarshal request with
  | None => None
  | Some arg =>
      let '(kvmap, response) := handle_args order kvmap arg in
      Some (kvmap, writeChannel ++ [response])
  end.

(** One turn of [writeRoutine]: whether the process exits after it. *)
Definition write_response (w : writer) (response : KvResponse) : writer * bool :=
  ((KvWriteLineSlice w (json_Marshal response)).2, resp_Kill response).

(** [writeRoutine] over the responses that are on the channel. *)
Fixpoint writeRoutine (w : writer) (rs : list KvResponse) : writer * bool :=
  match rs with
  | [] => (w, false)
  | r :: rs =>
      match write_response w r with
      | (w, true) => (w, true)
      | (w, false) => writeRoutine w rs
      end
  end.

(** The loop of [main], until a read or a request ends the process; [fuel]
    bounds the number of requests. *)
Fixpoint main_loop (fuel : nat) (kvmap : kvstore) (input : list byte)
    (writeChannel : list KvResponse) : res (kvstore * list KvResponse) :=
  match fuel with
  | O => OutOfFuel
  | S fuel =>
      r ← KvReadLineSlice input;
      match r with
      | inl _ => Ok (kvmap, writeChannel)
      | inr (request, input) =>
          match handleRequest kvmap request writeChannel with
          | None => Ok (kvmap, writeChannel)
          | Some (kvmap, writeChannel) => main_loop fuel kvmap input writeChannel
          end
      end
  end.
End Node.

(** ** One key at a time *)

(** What a request does to the entry of its key. *)
Definition key_step (o : option KvValue) (a : KeyArg) : option KvValue :=
  let v := default (mkKvValue 0 []) o in
  let newer := kv_Version v <? ka_Version a in
  if decide (ka_Type a = GET) then Some v
  else if decide (ka_Type a = QUERY) then o
  else if decide (ka_Type a = PUT) then
    Some (if newer then mkKvValue (ka_Version a) (ka_NewVal a) else v)
  else if decide (ka_Type a = TEST_PUT) then
    Some (if newer then
            mkKvValue (ka_Version a)
              (if decide (kv_Value v = ka_TestVal a) then ka_NewVal a else kv_Value v)
          else v)
  else o.

(** And what it answers. *)
Definition key_answer (o : option KvValue) (a : KeyArg) : option KvValue :=
  let v := default (mkKvValue 0 []) o in
  let v' := default (mkKvValue 0 []) (key_step o a) in
  if decide (ka_Type a = GET) then Some v
  else if decide (ka_Type a = QUERY) then Some v
  else if decide (ka_Type a = PUT) then Some (mkKvValue (kv_Version v') [])
  else if decide (ka_Type a = TEST_PUT) then Some v'
  else None.

Lemma kv_touch_lookup m k k' :
  kv_touch m k !! k' = if decide (k = k') then Some (kv_get m k) else m !! k'.
Proof.
  unfold kv_touch, kv_get. destruct (decide (k = k')) as [<-|Hk].
  - destruct (m !! k) eqn:E; simpl; [done|]. by rewrite lookup_insert_eq.
  - destruct (m !! k) eqn:E; simpl; [done|]. by rewrite lookup_insert_ne.
Qed.

Lemma kv_get_insert m k v : kv_get (<[k := v]> m) k = v.
Proof. unfold kv_get. by rewrite lookup_insert_eq. Qed.

Lemma handle_key_store kvmap rm k a k' :
  (handle_key (kvmap, rm) (k, a)).1 !! k' =
  if decide (k = k') then key_step (kvmap !! k) a else kvmap !! k'.
Proof.
  unfold handle_key, key_step. fold (kv_get kvmap k).
  repeat match goal with
  | |- context [if decide (ka_Type a = ?c) then _ else _] => destruct (decide (ka_Type a = c))
  end; simpl; rewrite ?kv_touch_lookup; try (destruct (kv_Version _ <? ka_Version a));
    try (destruct (decide (kv_Value _ = ka_TestVal a)));
    rewrite ?kv_get_insert, ?lookup_insert; destruct (decide (k = k')) as [<-|]; done.
Qed.

Lemma handle_key_answer kvmap rm k a k' :
  (handle_key (kvmap, rm) (k, a)).2 !! k' =
  if decide (k = k') then
    match key_answer (kvmap !! k) a with Some v => Some v | None => rm !! k end
  else rm !! k'.
Proof.
  unfold handle_key, key_answer, key_step. fold (kv_get kvmap k).
  repeat match goal with
  | |- context [if decide (ka_Type a = ?c) then _ else _] => destruct (decide (ka_Type a = c))
  end; simpl; try (destruct (kv_Version _ <? ka_Version a));
    try (destruct (decide (kv_Value _ = ka_TestVal a)));
    rewrite ?kv_get_insert, ?lookup_insert; destruct (decide (k = k')) as [<-|]; done.
Qed.

(** ** A request, key by key *)

Lemma fold_keys_store l kvmap rm k :
  NoDup l.*1 →
  (foldl handle_key (kvmap, rm) l).1 !! k =
  match (list_to_map l : gmap str KeyArg) !! k with
  | Some a => key_step (kvmap !! k) a
  | None => kvmap !! k
  end.
Proof.
  revert kvmap rm; induction l as [|[k1 a1] l IH]; intros kvmap rm Hnd; [done|].
  cbn [foldl]. apply NoDup_cons in Hnd as [Hk1 Hnd].
  pose proof (handle_key_store kvmap rm k1 a1 k) as Hs.
  destruct (handle_key (kvmap, rm) (k1, a1)) as [m1 rm1]. cbn [fst] in Hs.
  rewrite IH by done. rewrite Hs. cbn [list_to_map foldr].
  destruct (decide (k1 = k)) as [->|Hk].
  - rewrite lookup_insert_eq. rewrite not_elem_of_list_to_map_1; done.
  - by rewrite lookup_insert_ne.
Qed.

Lemma fold_keys_answer l kvmap rm k :
  NoDup l.*1 →
  (foldl handle_key (kvmap, rm) l).2 !! k =
  match (list_to_map l : gmap str KeyArg) !! k ≫= key_answer (kvmap !! k) with
  | Some v => Some v
  | None => rm !! k
  end.
Proof.
  revert kvmap rm; induction l as [|[k1 a1] l IH]; intros kvmap rm Hnd; [done|].
  cbn [foldl]. apply NoDup_cons in Hnd as [Hk1 Hnd].
  pose proof (handle_key_store kvmap rm k1 a1 k) as Hs.
  pose proof (handle_key_answer kvmap rm k1 a1 k) as Ha.
  destruct (handle_key (kvmap, rm) (k1, a1)) as [m1 rm1]. cbn [fst snd] in Hs, Ha.
  rewrite IH by done. rewrite Hs, Ha. cbn [list_to_map foldr].
  destruct (decide (k1 = k)) as [->|Hk].
  - rewrite lookup_insert_eq, not_elem_of_list_to_map_1 by done. done.
  - by rewrite lookup_insert_ne.
Qed.

Lemma order_list_to_map order m :
  is_order order → NoDup (order m).*1 ∧ list_to_map (order m) = m.
Proof.
  intros Ho. assert (NoDup (order m).*1) as Hnd.
  { rewrite (Ho m). apply NoDup_fst_map_to_list. }
  split; [done|]. rewrite <-(list_to_map_to_list m) at 2.
  by apply list_to_map_proper, Ho.
Qed.

Lemma handle_args_store order kvmap arg k :
  is_order order → arg_Kill arg = false →
  (handle_args order kvmap arg).1 !! k =
  match arg_Keys arg !! k with
  | Some a => key_step (kvmap !! k) a
  | None => kvmap !! k
  end.
Proof.
  intros Ho Hk. unfold handle_args. rewrite Hk.
  destruct (order_list_to_map order (arg_Keys arg) Ho) as [Hnd Hm].
  pose proof (fold_keys_store _ kvmap ∅ k Hnd) as Hs. rewrite Hm in Hs.
  by destruct (foldl handle_key _ _).
Qed.

Lemma handle_args_answer order kvmap arg k :
  is_order order → arg_Kill arg = false →
  resp_Values (handle_args order kvmap arg).2 !! k =
  arg_Keys arg !! k ≫= key_answer (kvmap !! k).
Proof.
  intros Ho Hk. unfold handle_args. rewrite Hk.
  destruct (order_list_to_map order (arg_Keys arg) Ho) as [Hnd Hm].
  pose proof (fold_keys_answer _ kvmap ∅ k Hnd) as Hs. rewrite Hm in Hs.
  destruct (foldl handle_key _ _). cbn [snd resp_Values] in *. rewrite Hs.
  rewrite lookup_empty. by destruct (_ ≫= _).
Qed.

(** ** Sequences of requests *)

Definition run (order : key_order) (kvmap : kvstore) (reqs : list KvArgs) : kvstore :=
  foldl (λ m a, (handle_args order m a).1) kvmap reqs.

(** What the requests ask of one key, in their order. *)
Definition asks (k : str) (reqs : list KvArgs) : list KeyArg :=
  omap (λ r, if arg_Kill r then None else arg_Keys r !! k) reqs.

Lemma run_lookup order kvmap reqs k :
  is_order order →
  run order kvmap reqs !! k = foldl key_step (kvmap !! k) (asks k reqs).
Proof.
  intros Ho. revert kvmap; induction reqs as [|r reqs IH]; intros kvmap; [done|].
  cbn [run foldl]. fold (run order (handle_args order kvmap r).1 reqs). rewrite IH.
  unfold asks. cbn [omap list_omap]. fold (asks k reqs).
  destruct (arg_Kill r) eqn:Hk.
  - unfold handle_args. by rewrite Hk.
  - rewrite handle_args_store by done. by destruct (arg_Keys r !! k).
Qed.

Definition zero_value : KvValue := mkKvValue 0 [].

Lemma key_step_version o a :
  let v := default zero_value o in
  let v' := default zero_value (key_step o a) in
  kv_Version v ≤ kv_Version v' ∧ (kv_Version v = kv_Version v' → v = v').
Proof.
  unfold key_step. change (mkKvValue 0 []) with zero_value.
  repeat match goal with
  | |- context [if decide (ka_Type a = ?c) then _ else _] => destruct (decide (ka_Type a = c))
  end; simpl; try (split; [lia|done]);
    destruct (kv_Version _ <? ka_Version a) eqn:E; simpl; split; (lia || done || idtac);
    intros; lia.
Qed.

Lemma key_steps_version l o :
  let v := default zero_value o in
  let v' := default zero_value (foldl key_step o l) in
  kv_Version v ≤ kv_Version v' ∧ (kv_Version v = kv_Version v' → v = v').
Proof.
  revert o; induction l as [|a l IH]; intros o; simpl; [split; [lia|done]|].
  destruct (key_step_version o a) as [H1 H2]. destruct (IH (key_step o a)) as [H3 H4].
  split; [lia|]. intros H. rewrite H2, H4 by lia. done.
Qed.

(** The requests that may come in any order: everything but a [TEST_PUT]. *)
Definition untested (a : KeyArg) : Prop := ka_Type a ≠ TEST_PUT.
Definition is_put (a : KeyArg) : Prop := ka_Type a = PUT.

Lemma key_steps_puts l o :
  Forall untested l →
  let v := default zero_value o in
  let v' := default zero_value (foldl key_step o l) in
  (v' = v ∨ ∃ a, a ∈ l ∧ is_put a ∧ v' = mkKvValue (ka_Version a) (ka_NewVal a) ∧
              kv_Version v < ka_Version a) ∧
  ∀ a, a ∈ l → is_put a → ka_Version a ≤ kv_Version v'.
Proof.
  revert o; induction l as [|a l IH]; intros o Hl; simpl.
  { split; [by left|]. intros a Ha. by apply elem_of_nil in Ha. }
  apply Forall_cons in Hl as [Ha Hl]. destruct (IH (key_step o a) Hl) as [H1 H2]. clear IH.
  destruct (key_steps_version l (key_step o a)) as [Hmon _].
  destruct (decide (is_put a)) as [Hp|Hp].
  - assert (default zero_value (key_step o a) =
      if kv_Version (default zero_value o) <? ka_Version a
      then mkKvValue (ka_Version a) (ka_NewVal a) else default zero_value o) as Hs.
    { unfold key_step, is_put in *. rewrite Hp. done. }
    destruct (kv_Version (default zero_value o) <? ka_Version a) eqn:E; rewrite Hs in *.
    + split.
      * right. destruct H1 as [->|(b & Hb & Hbp & -> & Hlt)].
        -- exists a. split; [set_solver|]. split; [done|]. split; [done|lia].
        -- exists b. simpl in *. split; [set_solver|]. split; [done|]. split; [done|lia].
      * intros b [->|Hb]%elem_of_cons Hbp; [done|eauto].
    + split.
      * destruct H1 as [->|(b & Hb & Hbp & -> & Hlt)]; [by left|right].
        exists b. split; [set_solver|]. done.
      * intros b [->|Hb]%elem_of_cons Hbp; [|eauto]. simpl in Hmon. lia.
  - assert (default zero_value (key_step o a) = default zero_value o) as Hs.
    { unfold key_step, is_put, untested in *.
      repeat match goal with
      | |- context [if decide (ka_Type a = ?c) then _ else _] => destruct (decide (ka_Type a = c))
      end; done. }
    rewrite Hs in *. split.
    + destruct H1 as [->|(b & Hb & Hbp & -> & Hlt)]; [by left|right].
      exists b. split; [set_solver|]. done.
    + intros b [->|Hb]%elem_of_cons Hbp; [done|eauto].
Qed.

(** Writes that carry one version carry one value. *)
Definition coherent (l : list KeyArg) : Prop :=
  ∀ a b, a ∈ l → b ∈ l → is_put a → is_put b →
    ka_Version a = ka_Version b → ka_NewVal a = ka_NewVal b.

Lemma key_steps_agree l1 l2 o :
  Forall untested l1 → Forall untested l2 → coherent (l1 ++ l2) →
  (∀ a, is_put a → a ∈ l1 ↔ a ∈ l2) →
  default zero_value (foldl key_step o l1) = default zero_value (foldl key_step o l2).
Proof.
  intros Hu1 Hu2 Hco Hset.
  destruct (key_steps_puts l1 o Hu1) as [C1 M1], (key_steps_puts l2 o Hu2) as [C2 M2].
  destruct C1 as [E1|(a & Ha & Hap & E1 & La)], C2 as [E2|(b & Hb & Hbp & E2 & Lb)].
  - by rewrite E1, E2.
  - apply Hset in Hb as Hb'; [|done]. apply M1 in Hb'; [|done]. rewrite E1 in Hb'. lia.
  - apply Hset in Ha as Ha'; [|done]. apply M2 in Ha'; [|done]. rewrite E2 in Ha'. lia.
  - apply Hset in Ha as Ha'; [|done]. apply M2 in Ha'; [|done]. rewrite E2 in Ha'.
    apply Hset in Hb as Hb'; [|done]. apply M1 in Hb'; [|done]. rewrite E1 in Hb'.
    simpl in *. assert (ka_Version a = ka_Version b) as E by lia.
    rewrite E1, E2, E. f_equal. apply Hco; set_solver.
Qed.

(** ** The main loop *)

Section Main.
Context (json_Unmarshal : list byte → option KvArgs) (order : key_order).

Abbreviation loop := (main_loop json_Unmarshal order).

Lemma main_loop_ends fuel kvmap input ch :
  (length input < fuel)%nat → ∃ r, loop fuel kvmap input ch = Ok r.
Proof using.
  revert kvmap input ch; induction fuel as [|fuel IH]; intros kvmap input ch Hf; [lia|].
  cbn [main_loop]. unfold KvReadLineSlice.
  destruct (read_message_ends (ReadSlice newline) short_line input) as [r Hr].
  rewrite Hr, bind_Ok. destruct r as [err|[m rest]]; [eauto|].
  destruct (handleRequest _ _ _ _ _) as [[kvmap' ch']|]; [|eauto].
  apply IH. apply (read_message_shorter _ short_line) in Hr. lia.
Qed.

Definition answers (kvmap : kvstore) (reqs : list KvArgs) : list KvResponse :=
  (foldl (λ '(m, rs) a, ((handle_args order m a).1, rs ++ [(handle_args order m a).2]))
    (kvmap, []) reqs).2.

(** A request as it comes over the connection: a line that the reader takes
    whole, and what it says. *)
Definition request_ok (line : list byte) (a : KvArgs) : Prop :=
  json_Unmarshal line = Some a ∧ framable line ∧ in_memory line ∧
  Forall short_line (text_lines line).

Lemma main_loop_frames lines reqs fuel kvmap ch :
  (length lines < fuel)%nat → Forall2 request_ok lines reqs →
  loop fuel kvmap (concat (map frame lines)) ch =
  Ok (foldl (λ '(m, rs) a, ((handle_args order m a).1, rs ++ [(handle_args order m a).2]))
        (kvmap, ch) reqs).
Proof using.
  intros Hf Hok. revert fuel kvmap ch Hf.
  induction Hok as [|line r lines reqs (Hdec & Hfr & Hm & Hl) _ IH]; intros [|fuel] kvmap ch Hf;
    simpl in Hf; try lia; cbn [main_loop map concat foldl]; [done|].
  unfold KvReadLineSlice.
  destruct (read_message_framable (ReadSlice newline) short_line line (concat (map frame lines)) Hfr Hm) as [Hgood _].
  rewrite (Hgood Hl), bind_Ok. unfold handleRequest at 1. rewrite Hdec.
  destruct (handle_args order kvmap r) as [m' resp]. apply IH. lia.
Qed.

Lemma answers_run kvmap ch reqs :
  foldl (λ '(m, rs) a, ((handle_args order m a).1, rs ++ [(handle_args order m a).2]))
    (kvmap, ch) reqs = (run order kvmap reqs, ch ++ answers kvmap reqs).
Proof using.
  unfold answers. revert kvmap ch.
  induction reqs as [|r reqs IH] using rev_ind; intros kvmap ch; simpl.
  - by rewrite app_nil_r.
  - unfold run. rewrite !foldl_app. fold (run order kvmap reqs).
    rewrite (IH kvmap ch). destruct (foldl _ (kvmap, []) reqs) as [m rs] eqn:E.
    pose proof (IH kvmap []) as H0. rewrite E in H0. injection H0 as ->.
    simpl. by rewrite app_assoc.
Qed.
End Main.

(** The responses that are written before the process exits: all, up to the
    first to a request to kill it. *)
Fixpoint upto_kill (rs : list KvResponse) : list KvResponse :=
  match rs with
  | [] => []
  | r :: rs => r :: (if resp_Kill r then [] else upto_kill rs)
  end.

Lemma WriteMessage_frame w str :
  w_budget w = None → KvWriteLineSlice w str = (true, mkWriter (w_data w ++ frame str) None).
Proof.
  destruct w as [data budget]. cbn. intros ->.
  unfold KvWriteLineSlice, WriteMessage, frame. cbn [write_all write w_budget w_data].
  by rewrite app_nil_r, <-!app_assoc.
Qed.

Lemma writeRoutine_writes json_Marshal w rs :
  w_budget w = None →
  writeRoutine json_Marshal w rs =
  (mkWriter (w_data w ++ concat (map (frame ∘ json_Marshal) (upto_kill rs))) None, existsb resp_Kill rs).
Proof.
  revert w. induction rs as [|r rs IH]; intros w Hw; cbn [writeRoutine upto_kill map concat existsb].
  { rewrite app_nil_r. destruct w. by cbn in Hw; subst. }
  unfold write_response. rewrite WriteMessage_frame by done. cbn [snd].
  destruct (resp_Kill r); cbn [map concat orb].
  - by rewrite app_nil_r.
  - rewrite IH by done. cbn [w_data]. by rewrite <-app_assoc.
Qed.

(** ** Properties *)

(** A request is answered key by key, whatever the order in which the
    loop visits the map of keys: each key's entry and answer depend on that
    key alone. *)
Theorem handleRequest_per_key order kvmap arg k :
  is_order order → arg_Kill arg = false →
  (handle_args order kvmap arg).1 !! k =
    match arg_Keys arg !! k with
    | Some a => key_step (kvmap !! k) a
    | None => kvmap !! k
    end ∧
  resp_Values (handle_args order kvmap arg).2 !! k =
    arg_Keys arg !! k ≫= key_answer (kvmap !! k).
Proof. intros. split; [by apply handle_args_store|by apply handle_args_answer]. Qed.

Definition sample_key : str := [x6b].
Definition sample_put (v : Z) (s : str) : KvArgs :=
  mkKvArgs v {[sample_key := mkKeyArg PUT v [] s]} false.
Definition sample_test_put (v : Z) (t s : str) : KvArgs :=
  mkKvArgs v {[sample_key := mkKeyArg TEST_PUT v t s]} false.

Lemma map_to_list_order : is_order map_to_list.
Proof. by intros m. Qed.

Lemma handleRequest_per_key_witness :
  (handle_args map_to_list ∅ (sample_put 1 [x61])).1 !! sample_key = Some (mkKvValue 1 [x61]).
Proof.
  destruct (handleRequest_per_key map_to_list ∅ (sample_put 1 [x61]) sample_key
    map_to_list_order eq_refl) as [-> _]. by vm_compute.
Defined.

(** Over any sequence of requests the version of a key never goes back,
    and its value changes only with its version. *)
Theorem versions_only_grow order kvmap reqs k :
  is_order order →
  let v := kv_get kvmap k in
  let v' := kv_get (run order kvmap reqs) k in
  kv_Version v ≤ kv_Version v' ∧ (kv_Version v = kv_Version v' → v = v').
Proof.
  intros Ho. unfold kv_get. rewrite run_lookup by done. apply key_steps_version.
Qed.

Lemma versions_only_grow_witness :
  kv_Version (kv_get (run map_to_list ∅ [sample_put 2 [x61]; sample_put 1 [x62]]) sample_key) = 2 ∧
  0 ≤ kv_Version (kv_get (run map_to_list ∅ [sample_put 2 [x61]; sample_put 1 [x62]]) sample_key).
Proof.
  split; [by vm_compute|].
  exact (proj1 (versions_only_grow map_to_list ∅ [sample_put 2 [x61]; sample_put 1 [x62]]
    sample_key map_to_list_order)).
Defined.

(** Replicas that were sent the same writes of a key, in any order and
    any number of times, with reads among them, hold the same value of it: the
    one with the largest version. *)
Theorem replicas_agree order1 order2 reqs1 reqs2 k :
  is_order order1 → is_order order2 →
  Forall untested (asks k reqs1) → Forall untested (asks k reqs2) →
  coherent (asks k reqs1 ++ asks k reqs2) →
  (∀ a, is_put a → a ∈ asks k reqs1 ↔ a ∈ asks k reqs2) →
  kv_get (run order1 ∅ reqs1) k = kv_get (run order2 ∅ reqs2) k.
Proof.
  intros Ho1 Ho2 Hu1 Hu2 Hco Hset. unfold kv_get. rewrite !run_lookup by done.
  by apply key_steps_agree.
Qed.

Lemma replicas_agree_witness :
  kv_get (run map_to_list ∅ [sample_put 2 [x61]; sample_put 1 [x62]]) sample_key =
  kv_get (run map_to_list ∅ [sample_put 1 [x62]; sample_put 2 [x61]; sample_put 1 [x62]])
    sample_key.
Proof.
  assert (∀ reqs, asks sample_key (map (λ '(v, s), sample_put v s) reqs) =
    map (λ '(v, s), mkKeyArg PUT v [] s) reqs) as Ha.
  { induction reqs as [|[v s] reqs IH]; [done|]. unfold asks in *. simpl.
    rewrite lookup_singleton_eq. by f_equal. }
  apply (replicas_agree map_to_list map_to_list
    (map (λ '(v, s), sample_put v s) [(2, [x61]); (1, [x62])])
    (map (λ '(v, s), sample_put v s) [(1, [x62]); (2, [x61]); (1, [x62])]));
    rewrite ?Ha; simpl.
  - apply map_to_list_order.
  - apply map_to_list_order.
  - repeat constructor; done.
  - repeat constructor; done.
  - intros a b. rewrite !elem_of_cons, !elem_of_nil.
    intros Hx Hy _ _. destruct_or!; subst; simpl; done.
  - intros a _. set_solver.
Defined.

(** C0: a [TEST_PUT] gives no such agreement: two replicas that take the same
    write and the same conditional write in different orders end with one
    version and two values. *)
Theorem TEST_PUT_diverges :
  let put := sample_put 1 [x61] in
  let test := sample_test_put 2 [x61] [x62] in
  kv_get (run map_to_list ∅ [put; test]) sample_key = mkKvValue 2 [x62] ∧
  kv_get (run map_to_list ∅ [test; put]) sample_key = mkKvValue 2 [].
Proof. split; by vm_compute. Qed.

(** C24: A node serves the requests that come over its connection in order, as
    long as each is a line that its reader can take (not empty, and no line of
    it has 4096 bytes or more): the main loop ends with their combined effect on
    its map and puts one answer for each on the channel to the writer; and the
    writer writes the answers in that order, up to the first to a request to
    kill the node, where the process exits (and all of them if there is none). *)
Theorem main_loop_serves json_Unmarshal json_Marshal order lines reqs w :
  Forall2 (request_ok json_Unmarshal) lines reqs → w_budget w = None →
  main_loop json_Unmarshal order (S (length lines)) ∅ (concat (map frame lines)) [] =
    Ok (run order ∅ reqs, answers order ∅ reqs) ∧
  writeRoutine json_Marshal w (answers order ∅ reqs) =
    (mkWriter (w_data w ++ concat (map (frame ∘ json_Marshal) (upto_kill (answers order ∅ reqs)))) None,
     existsb resp_Kill (answers order ∅ reqs)).
Proof.
  intros Hok Hw. split; [|by apply writeRoutine_writes].
  rewrite main_loop_frames with (reqs := reqs) by (done || lia). by rewrite answers_run.
Qed.

Definition sample_dec (s : list byte) : option KvArgs :=
  if decide (s = [x78]) then Some (mkKvArgs 9 ∅ true) else Some (sample_put (Atoi s).1 [x61]).
Definition sample_enc (r : KvResponse) : list byte := Itoa (resp_RequestId r).
Definition sample_reqs : list KvArgs := [sample_put 7 [x61]; mkKvArgs 9 ∅ true; sample_put 8 [x61]].

Lemma main_loop_serves_witness :
  main_loop sample_dec map_to_list 4 ∅ (concat (map frame [Itoa 7; [x78]; Itoa 8])) [] =
    Ok (run map_to_list ∅ sample_reqs, answers map_to_list ∅ sample_reqs) ∧
  writeRoutine sample_enc (mkWriter [] None) (answers map_to_list ∅ sample_reqs) =
    (mkWriter (concat (map (frame ∘ sample_enc) (upto_kill (answers map_to_list ∅ sample_reqs)))) None, true).
Proof.
  refine (main_loop_serves sample_dec sample_enc map_to_list [Itoa 7; [x78]; Itoa 8] sample_reqs
    (mkWriter [] None) _ eq_refl).
  unfold sample_reqs. do 3 (apply Forall2_cons; split;
    [split_and!; [reflexivity|done..|by vm_compute|]; apply Forall_singleton, Nat.ltb_lt; by vm_compute|]).
  by apply Forall2_nil.
Defined.

(** C0: the process comes to the end of any input. *)
Theorem main_loop_returns json_Unmarshal order kvmap input ch :
  ∃ r, main_loop json_Unmarshal order (S (length input)) kvmap input ch = Ok r.
Proof. apply main_loop_ends. lia. Qed.
