(* ===== verification/KvMeta.v ===== *)
(** The metadata of the key-value front end, its request queues and the
    commands of its clients (CPSC418/assignment4/kv-front-end.go). *)
From Stdlib Require Import Strings.String.
From S2P Require Import Prelude GoText Framing KvNode.

Open Scope Z_scope.

(** ** Data *)

Definition DISCONNECTED : Z := 4.
Definition KILL : Z := 5.

(** What a pointer or a channel stands for. *)
Abbreviation loc := nat.

Record FeResponse : Type := mkFeResponse {
  fr_RequestId : Z;
  fr_Values : gmap str KvValue;
  fr_Unavailable : bool;
  fr_Kill : bool
}.

(** [&KvResponse{Unavailable: true}] *)
Definition unavailable_response : FeResponse := mkFeResponse 0 ∅ true false.

Record KvRequest : Type := mkKvRequest {
  rq_Type : Z;
  rq_Key : str;
  rq_Keys : gmap str KeyArg;
  rq_Channel : option loc
}.

(** A queue keeps every request that was ever put on its channel. *)
Record KvRequestQueue : Type := mkQueue {
  q_Channel : list KvRequest;
  q_Closed : bool
}.

Record KeyMetadata : Type := mkKeyMetadata {
  km_Version : Z;
  km_Unavailable : bool;
  km_Sending : Z;
  km_Nodes : gmap str loc
}.

Record NodeMetadata : Type := mkNodeMetadata {
  nm_Id : str;
  nm_Keys : gmap str loc;
  nm_RequestQueue : loc;
  nm_Killed : bool
}.

(** The goroutine of [filterChannelUnavailable]: the responses it waits for
    and has had, the channel of the client and the key. *)
Record Filter : Type := mkFilter {
  f_upto : nat;
  f_i : nat;
  f_channel : option loc;
  f_key : loc
}.

(** [metadata], the objects its maps point to, the filters that run, and the
    responses that the front end has put on channels. *)
Record meta : Type := mkMeta {
  KeyMap : gmap str loc;
  NodeMap : gmap str loc;
  m_keys : gmap loc KeyMetadata;
  m_nodes : gmap loc NodeMetadata;
  m_queues : gmap loc KvRequestQueue;
  m_filters : gmap loc Filter;
  m_sent : list (loc * FeResponse);
  m_next : loc
}.

Definition empty_meta : meta := mkMeta ∅ ∅ ∅ ∅ ∅ ∅ [] 0.

Definition set_KeyMap f (st : meta) :=
  mkMeta (f (KeyMap st)) (NodeMap st) (m_keys st) (m_nodes st) (m_queues st) (m_filters st)
    (m_sent st) (m_next st).
Definition set_NodeMap f (st : meta) :=
  mkMeta (KeyMap st) (f (NodeMap st)) (m_keys st) (m_nodes st) (m_queues st) (m_filters st)
    (m_sent st) (m_next st).
Definition set_keys f (st : meta) :=
  mkMeta (KeyMap st) (NodeMap st) (f (m_keys st)) (m_nodes st) (m_queues st) (m_filters st)
    (m_sent st) (m_next st).
Definition set_nodes f (st : meta) :=
  mkMeta (KeyMap st) (NodeMap st) (m_keys st) (f (m_nodes st)) (m_queues st) (m_filters st)
    (m_sent st) (m_next st).
Definition set_queues f (st : meta) :=
  mkMeta (KeyMap st) (NodeMap st) (m_keys st) (m_nodes st) (f (m_queues st)) (m_filters st)
    (m_sent st) (m_next st).
Definition set_filters f (st : meta) :=
  mkMeta (KeyMap st) (NodeMap st) (m_keys st) (m_nodes st) (m_queues st) (f (m_filters st))
    (m_sent st) (m_next st).
Definition set_sent f (st : meta) :=
  mkMeta (KeyMap st) (NodeMap st) (m_keys st) (m_nodes st) (m_queues st) (m_filters st)
    (f (m_sent st)) (m_next st).
(** A new object or channel. *)
Definition alloc (st : meta) : loc * meta :=
  (m_next st,
   mkMeta (KeyMap st) (NodeMap st) (m_keys st) (m_nodes st) (m_queues st) (m_filters st)
     (m_sent st) (S (m_next st))).

(** Dereferences. *)
Definition key_at (st : meta) (l : loc) : res KeyMetadata := require NilPointer (m_keys st !! l).
Definition node_at (st : meta) (l : loc) : res NodeMetadata :=
  require NilPointer (m_nodes st !! l).
Definition queue_at (st : meta) (l : loc) : res KvRequestQueue :=
  require NilPointer (m_queues st !! l).

(** [channel <- response] *)
Definition send (st : meta) (c : option loc) (r : FeResponse) : meta :=
  match c with
  | Some c => set_sent (λ l, l ++ [(c, r)]) st
  | None => st
  end.

(** ** KvRequestQueue *)

Definition RequestAndClose (st : meta) (c : loc) (request : KvRequest) : res meta :=
  q ← queue_at st c;
  Ok (set_queues (<[c := mkQueue (q_Channel q ++ [request]) true]>) st).

Definition Request (st : meta) (c : loc) (request : KvRequest) : res meta :=
  q ← queue_at st c;
  if q_Closed q then Ok (send st (rq_Channel request) unavailable_response)
  else Ok (set_queues (<[c := mkQueue (q_Channel q ++ [request]) false]>) st).

(** The requests that the goroutine of the node receives: it returns at the
    request [DISCONNECTED]. *)
Definition disconnected (q : KvRequestQueue) : bool :=
  existsb (λ r, bool_decide (rq_Type r = DISCONNECTED)) (q_Channel q).

(** ** Node lists *)

(** The order in which [range] visits a map: a permutation of its entries. *)
Definition map_order : Type := gmap str loc → list (str * loc).
Definition is_map_order (order : map_order) : Prop := ∀ m, order m ≡ₚ map_to_list m.

Definition getNodesAsList (order : map_order) (nodes : gmap str loc) : list loc :=
  (order nodes).*2.

(** [rand.Intn(n)] is the draw [Intn i n] of turn [i]. *)
Fixpoint randomize_loop (Intn : nat → nat → nat) (n i : nat) (nodesList : list loc)
    : res (list loc) :=
  match n with
  | O => Ok nodesList
  | S n =>
      let k := Intn i (length nodesList - i)%nat in
      tmp ← require IndexOutOfRange (nodesList !! (i + k)%nat);
      ni ← require IndexOutOfRange (nodesList !! i);
      nodesList ← slice_set (i + k) ni nodesList;
      nodesList ← slice_set i tmp nodesList;
      randomize_loop Intn n (S i) nodesList
  end.

Definition randomizeNodes (Intn : nat → nat → nat) (nodesList : list loc) (upto : nat)
    : res (list loc) :=
  randomize_loop Intn upto 0 nodesList.

(** ** RPC *)

Definition lit (s : String.string) : str := String.list_byte_of_string s.
Arguments lit s%_string.
Definition UNAVAILABLE : str := lit "unavailable".

(** What becomes of a call: the reply, an error, a request for the main
    routine, or a wait for an answer that does not come. *)
Inductive outcome : Type :=
  | Reply (val : str)
  | ReplyError
  | Forward (request : KvRequest)
  | Waits.

(** [reply.Val] after [setResponse]; a missing key is a nil pointer. *)
Definition setResponse (key : str) (response : FeResponse) : res str :=
  if fr_Unavailable response then Ok UNAVAILABLE
  else v ← require NilPointer (fr_Values response !! key); Ok (kv_Value v).

(** The ids of the nodes that were not killed. *)
Definition list_live (st : meta) (nodes : list (str * loc)) : res (list str) :=
  foldM (λ nodesList '(id, l),
    node ← node_at st l;
    if nm_Killed node then Ok nodesList else Ok (nodesList ++ [id])) [] nodes.

Definition get_replicas_of (order : map_order) (st : meta) (key : str) : res str :=
  match KeyMap st !! key with
  | Some kl =>
      keyMetadata ← key_at st kl;
      nodesList ← list_live st (order (km_Nodes keyMetadata));
      Ok (Join nodesList [space])
  | None => Ok (Join [] [space])
  end.

(** Put [KILL] on the queue of a node, wait for the answer, mark the node:
    [None] when the goroutine of the node has returned, so that nobody
    answers. *)
Definition kill_node (st : meta) (l : loc) : res (option meta) :=
  node ← node_at st l;
  q ← queue_at st (nm_RequestQueue node);
  let '(c, st) := alloc st in
  st ← RequestAndClose st (nm_RequestQueue node) (mkKvRequest KILL [] ∅ (Some c));
  if disconnected q then Ok None
  else
    Ok (Some (set_nodes (<[l := mkNodeMetadata (nm_Id node) (nm_Keys node)
                                  (nm_RequestQueue node) true]>) st)).

Definition kill_replica (st : meta) (id : str) : res (option (meta * bool)) :=
  match NodeMap st !! id with
  | Some l =>
      node ← node_at st l;
      if nm_Killed node then Ok (Some (st, false))
      else
        r ← kill_node st l;
        Ok (match r with Some st => Some (st, true) | None => None end)
  | None => Ok (Some (st, false))
  end.

(** The loop that fills [nodesList] with the nodes to kill. *)
Fixpoint pick_loop (st : meta) (size i : nat) (nodesList : list loc) (nodes : list (str * loc))
    : res (list loc) :=
  match nodes with
  | [] => Ok (take i nodesList)
  | (_, l) :: nodes =>
      node ← node_at st l;
      if nm_Killed node then
        if decide (size ≤ i)%nat then Ok (take i nodesList)
        else pick_loop st size i nodesList nodes
      else
        nodesList ← slice_set i l nodesList;
        if decide (size ≤ S i)%nat then Ok (take (S i) nodesList)
        else pick_loop st size (S i) nodesList nodes
  end.

Fixpoint kill_loop (st : meta) (nodesList : list loc) : res (option meta) :=
  match nodesList with
  | [] => Ok (Some st)
  | l :: nodesList =>
      r ← kill_node st l;
      match r with
      | Some st => kill_loop st nodesList
      | None => Ok None
      end
  end.

Definition kill_replicas_of (order : map_order) (st : meta) (key : str) (nReplicas : Z)
    : res (option (meta * nat)) :=
  match KeyMap st !! key with
  | Some kl =>
      keyMetadata ← key_at st kl;
      let size := Z.to_nat (Z.min (Z.of_nat (size (km_Nodes keyMetadata))) nReplicas) in
      nodesList ← pick_loop st size 0 (replicate size 0%nat) (order (km_Nodes keyMetadata));
      r ← kill_loop st nodesList;
      Ok (match r with Some st => Some (st, length nodesList) | None => None end)
  | None => Ok (Some (st, 0%nat))
  end.

(** A request for one key, with a new channel. *)
Definition new_request (st : meta) (key : str) (arg : KeyArg) : meta * KvRequest :=
  let '(c, st) := alloc st in
  (st, mkKvRequest 0 key {[key := arg]} (Some c)).

Definition forward_get (st : meta) (key : str) : meta * outcome :=
  let '(st, r) := new_request st key (mkKeyArg GET 0 [] []) in (st, Forward r).

Definition Get (order : map_order) (st : meta) (key : str) : res (meta * outcome) :=
  if decide (length key < 3)%nat then Panic SliceOutOfRange
  else if decide (take 3 key = lit "CMD") then
    match Fields key with
    | [_; cmd; arg] =>
        if decide (cmd = lit "get-replicas-of") then
          val ← get_replicas_of order st arg;
          Ok (st, Reply val)
        else if decide (cmd = lit "kill-replica") then
          r ← kill_replica st arg;
          Ok (match r with
              | Some (st, true) => (st, Reply (lit "true"))
              | Some (st, false) => (st, Reply (lit "false"))
              | None => (st, Waits)
              end)
        else Ok (forward_get st key)
    | [_; cmd; arg; n] =>
        if decide (cmd = lit "kill-replicas-of") then
          let '(nReplicas, err) := Atoi n in
          if (err : bool) then Ok (st, ReplyError)
          else if nReplicas <? 0 then Ok (st, ReplyError)
          else
            r ← kill_replicas_of order st arg nReplicas;
            Ok (match r with
                | Some (st, n) => (st, Reply (Itoa (Z.of_nat n)))
                | None => (st, Waits)
                end)
        else Ok (forward_get st key)
    | _ => Ok (forward_get st key)
    end
  else Ok (forward_get st key).

Definition Put (st : meta) (key val : str) : meta * outcome :=
  let '(st, r) := new_request st key (mkKeyArg PUT 0 [] val) in (st, Forward r).

Definition TestSet (st : meta) (key testVal newVal : str) : meta * outcome :=
  let '(st, r) := new_request st key (mkKeyArg TEST_PUT 0 testVal newVal) in (st, Forward r).
