(* ===== verification/KvJson.v ===== *)
(** The JSON between the front end and the nodes of the key-value store: a
    request and a response as the other side decodes them
    (CPSC418/assignment4/kv-front-end.go and kv-node.go). Numbers are carried
    as they are; strings that are not UTF-8 are changed, by [Utf8]. *)
From S2P Require Import Prelude Utf8 GoText KvNode KvMeta.

Open Scope Z_scope.

Definition json_arg (a : KeyArg) : KeyArg :=
  mkKeyArg (ka_Type a) (ka_Version a) (to_utf8 (ka_TestVal a)) (to_utf8 (ka_NewVal a)).

(** [json.Marshal(args)] in [handleKvNode], and [json.Unmarshal] in
    [handleRequest]. *)
Definition json_args (args : KvArgs) : KvArgs :=
  mkKvArgs (arg_RequestId args) (json_map json_arg (arg_Keys args)) (arg_Kill args).

Definition json_value (v : KvValue) : KvValue := mkKvValue (kv_Version v) (to_utf8 (kv_Value v)).

(** [json.Marshal(response)] in [writeRoutine], and [json.Unmarshal] in
    [listenKvNodeResponse]. *)
Definition as_response (r : KvResponse) : FeResponse :=
  mkFeResponse (resp_RequestId r) (json_map json_value (resp_Values r)) false (resp_Kill r).

(** What the front end hands to [json.Marshal], without the number of the
    request, and what the node decodes. *)
Definition plain_args (rq : KvRequest) : KvArgs :=
  mkKvArgs 0 (rq_Keys rq) (bool_decide (rq_Type rq = KILL)).
Definition as_args (rq : KvRequest) : KvArgs := json_args (plain_args rq).

(** ** Strings that are UTF-8 *)

Definition arg_utf8 (a : KeyArg) : Prop := utf8 (ka_TestVal a) ∧ utf8 (ka_NewVal a).

Definition keys_utf8 (keys : gmap str KeyArg) : Prop := ∀ k a, keys !! k = Some a → utf8 k ∧ arg_utf8 a.
Definition values_utf8 (values : gmap str KvValue) : Prop :=
  ∀ k v, values !! k = Some v → utf8 k ∧ utf8 (kv_Value v).
Definition request_utf8 (rq : KvRequest) : Prop := keys_utf8 (rq_Keys rq).

Lemma keys_utf8_empty : keys_utf8 ∅.
Proof. intros k a. by rewrite lookup_empty. Qed.

Lemma keys_utf8_insert keys k a : keys_utf8 keys → utf8 k → arg_utf8 a → keys_utf8 (<[k := a]> keys).
Proof. intros Hm Hk Ha k' a' [[<- <-]|[_ ?]]%lookup_insert_Some; [done|by apply Hm]. Qed.

Lemma values_utf8_empty : values_utf8 ∅.
Proof. intros k a. by rewrite lookup_empty. Qed.

Lemma values_utf8_insert values k v :
  values_utf8 values → utf8 k → utf8 (kv_Value v) → values_utf8 (<[k := v]> values).
Proof. intros Hm Hk Hv k' v' [[<- <-]|[_ ?]]%lookup_insert_Some; [done|by apply Hm]. Qed.

Lemma as_args_plain rq : request_utf8 rq → as_args rq = plain_args rq.
Proof.
  intros Hrq. unfold as_args, json_args. cbn. rewrite json_map_id; [done|].
  intros k a Hk. destruct (Hrq k a Hk) as (Hu & Ht & Hv). split; [done|].
  unfold json_arg. rewrite Ht, Hv. by destruct a.
Qed.

Lemma json_values_plain values : values_utf8 values → json_map json_value values = values.
Proof.
  intros Hv. apply json_map_id. intros k v Hk. destruct (Hv k v Hk) as [Hu Hval]. split; [done|].
  unfold json_value. rewrite Hval. by destruct v.
Qed.

(** *** A node that is told UTF-8 holds and answers UTF-8 *)

Lemma kv_get_utf8 m k : values_utf8 m → utf8 (kv_Value (kv_get m k)).
Proof. intros Hm. unfold kv_get. destruct (m !! k) as [v|] eqn:E; [by apply (Hm k)|done]. Qed.

Lemma kv_touch_utf8 m k : values_utf8 m → utf8 k → values_utf8 (kv_touch m k).
Proof. intros Hm Hk. unfold kv_touch. destruct (m !! k); [done|]. by apply values_utf8_insert. Qed.

Lemma handle_key_utf8 m rs k a :
  values_utf8 m → values_utf8 rs → utf8 k → arg_utf8 a →
  let '(m', rs') := handle_key (m, rs) (k, a) in values_utf8 m' ∧ values_utf8 rs'.
Proof.
  intros Hm Hr Hk [Ht Hn]. unfold handle_key.
  repeat case_decide; try (destruct (_ <? _)); repeat case_decide; split;
    repeat first [apply kv_touch_utf8|apply values_utf8_insert|apply kv_get_utf8|assumption|done].
Qed.

Lemma handle_keys_utf8 l m rs :
  values_utf8 m → values_utf8 rs → Forall (λ p : str * KeyArg, utf8 p.1 ∧ arg_utf8 p.2) l →
  let '(m', rs') := foldl handle_key (m, rs) l in values_utf8 m' ∧ values_utf8 rs'.
Proof.
  revert m rs. induction l as [|[k a] l IH]; intros m rs Hm Hr; [done|]. intros [[Hk Ha] Hl]%Forall_cons.
  cbn [foldl]. pose proof (handle_key_utf8 m rs k a Hm Hr Hk Ha) as H.
  destruct (handle_key (m, rs) (k, a)) as [m1 rs1]. destruct H as [Hm1 Hr1]. by apply IH.
Qed.

Lemma handle_args_utf8 order m args :
  is_order order → values_utf8 m → keys_utf8 (arg_Keys args) →
  let '(m', r) := handle_args order m args in values_utf8 m' ∧ values_utf8 (resp_Values r).
Proof.
  intros Ho Hm Hk. unfold handle_args. destruct (arg_Kill args); [split; [done|apply values_utf8_empty]|].
  pose proof (handle_keys_utf8 (order (arg_Keys args)) m ∅ Hm values_utf8_empty) as H.
  destruct (foldl _ _ _) as [m' rs]. apply H. apply Forall_forall. intros [k a] Hin.
  rewrite (Ho (arg_Keys args)) in Hin. apply elem_of_map_to_list in Hin. by apply Hk.
Qed.

Lemma run_utf8 order m rqs :
  is_order order → values_utf8 m → Forall request_utf8 rqs → values_utf8 (run order m (plain_args <$> rqs)).
Proof.
  intros Ho. revert m. induction rqs as [|rq rqs IH]; intros m Hm; [done|]. intros [Hrq Hrqs]%Forall_cons.
  pose proof (handle_args_utf8 order m (plain_args rq) Ho Hm Hrq) as H.
  change (run order m (plain_args <$> rq :: rqs))
    with (run order (handle_args order m (plain_args rq)).1 (plain_args <$> rqs)).
  destruct (handle_args _ _ _) as [m' r]. by apply IH; [apply H|].
Qed.

Lemma run_as_args order m rqs :
  Forall request_utf8 rqs → run order m (as_args <$> rqs) = run order m (plain_args <$> rqs).
Proof.
  intros Hrqs. f_equal. apply list_fmap_ext. intros i rq Hi. apply as_args_plain. by eapply Forall_lookup_1.
Qed.

(** ** Strings that are not *)

(** Every key that is decoded is UTF-8. *)
Lemma json_map_keys {A} (f : A → A) m k : is_Some (json_map f m !! k) → utf8 k.
Proof.
  unfold json_map. generalize (merge_sort key_le (map_to_list m)). intros l.
  assert (∀ acc : gmap str A, (is_Some (acc !! k) → utf8 k) →
    is_Some (foldl (λ acc '(k, v), <[to_utf8 k := f v]> acc) acc l !! k) → utf8 k) as H.
  { induction l as [|[k' v] l IH]; intros acc Hacc; cbn [foldl]; [done|]. apply IH.
    intros [x [[<- _]|[_ Hx]]%lookup_insert_Some]; [apply to_utf8_utf8|by apply Hacc]. }
  apply H. rewrite lookup_empty. by intros [? [=]].
Qed.

Lemma json_map_values {A} (f : A → A) (P : A → Prop) m k v :
  (∀ x, P (f x)) → json_map f m !! k = Some v → P v.
Proof.
  intros Hf. unfold json_map. generalize (merge_sort key_le (map_to_list m)). intros l.
  assert (∀ acc : gmap str A, (acc !! k = Some v → P v) →
    foldl (λ acc '(k, v), <[to_utf8 k := f v]> acc) acc l !! k = Some v → P v) as H.
  { induction l as [|[k' x] l IH]; intros acc Hacc; cbn [foldl]; [done|]. apply IH.
    intros [[_ <-]|[_ Hx]]%lookup_insert_Some; [apply Hf|by apply Hacc]. }
  apply H. by rewrite lookup_empty.
Qed.

(** A client whose key is not UTF-8 gets no answer: what a node answers has no
    such key, and the front end dereferences nil. *)
Lemma setResponse_panics key r : ¬ utf8 key → setResponse key (as_response r) = Panic NilPointer.
Proof.
  intros Hk. unfold setResponse. cbn [as_response fr_Unavailable fr_Values].
  destruct (json_map json_value (resp_Values r) !! key) as [v|] eqn:E; [|done].
  destruct Hk. apply (json_map_keys json_value (resp_Values r)). by rewrite E.
Qed.

(** And a value that is not UTF-8 is not the value that is kept: a byte 255 is
    written, U+FFFD is there. *)
Lemma as_args_changes_value :
  kv_get (run map_to_list ∅ [as_args (mkKvRequest 0 [x6b] {[ [x6b] := mkKeyArg PUT 1 [] [xff] ]} None)]) [x6b] =
    mkKvValue 1 replacement.
Proof. by vm_compute. Qed.
