(* ===== verification/KvFrontEnd.v ===== *)
(** The routines of the key-value front end: requests and their filters,
    nodes that come and go, replication (CPSC418/assignment4/kv-front-end.go). *)
From S2P Require Import Prelude GoText Framing KvNode KvMeta.

Open Scope Z_scope.

Definition upd_key (st : meta) (kl : loc) (f : KeyMetadata → KeyMetadata) : res meta :=
  km ← key_at st kl;
  Ok (set_keys (<[kl := f km]>) st).

Definition upd_node (st : meta) (l : loc) (f : NodeMetadata → NodeMetadata) : res meta :=
  n ← node_at st l;
  Ok (set_nodes (<[l := f n]>) st).

Definition with_Sending (d : Z) (km : KeyMetadata) : KeyMetadata :=
  mkKeyMetadata (km_Version km) (km_Unavailable km) (km_Sending km + d) (km_Nodes km).
Definition with_Unavailable (km : KeyMetadata) : KeyMetadata :=
  mkKeyMetadata (km_Version km) true (km_Sending km) (km_Nodes km).
Definition with_Version (km : KeyMetadata) : KeyMetadata :=
  mkKeyMetadata ((km_Version km + 1) `mod` 2 ^ 64) (km_Unavailable km) (km_Sending km)
    (km_Nodes km).
Definition with_Nodes (f : gmap str loc → gmap str loc) (km : KeyMetadata) : KeyMetadata :=
  mkKeyMetadata (km_Version km) (km_Unavailable km) (km_Sending km) (f (km_Nodes km)).
Definition with_Keys (f : gmap str loc → gmap str loc) (n : NodeMetadata) : NodeMetadata :=
  mkNodeMetadata (nm_Id n) (f (nm_Keys n)) (nm_RequestQueue n) (nm_Killed n).

(** ** The main routine *)

(** [metadata.NodeMap[node.Id].Keys[key] = metadata.KeyMap[key]] and
    [keyMetadata.Nodes[node.Id] = node] for one node. *)
Definition place_key (key : str) (kl : loc) (st : meta) (l : loc) : res meta :=
  node ← node_at st l;
  nl ← require NilPointer (NodeMap st !! nm_Id node);
  st ← upd_node st nl (with_Keys (<[key := kl]>));
  upd_key st kl (with_Nodes (<[nm_Id node := l]>)).

Definition prepareNodesForFirstReplication (order : map_order) (Intn : nat → nat → nat)
    (st : meta) (key : str) (replicationFactor : nat) : res (meta * list loc * loc) :=
  let nodesList := getNodesAsList order (NodeMap st) in
  let upto := length nodesList in
  let upto := if decide (replicationFactor < upto)%nat then replicationFactor else upto in
  nodesList ← randomizeNodes Intn nodesList upto;
  let nodesList := take upto nodesList in
  let '(kl, st) := alloc st in
  let st := set_keys (<[kl := mkKeyMetadata 0 false 0 ∅]>) st in
  let st := set_KeyMap (<[key := kl]>) st in
  st ← foldM (place_key key kl) st nodesList;
  Ok (st, nodesList, kl).

(** [filterChannelUnavailable]: the goroutine it starts and its channel. *)
Definition filterChannelUnavailable (st : meta) (upto : nat) (channel : option loc) (kl : loc)
    : meta * loc :=
  let '(newChannel, st) := alloc st in
  (set_filters (<[newChannel := mkFilter upto 0 channel kl]>) st, newChannel).

(** The goroutine receives a response. *)
Definition filter_receive (st : meta) (c : loc) (response : FeResponse) : res meta :=
  match m_filters st !! c with
  | None => Ok st
  | Some f =>
      if fr_Unavailable response then
        if decide (S (f_i f) < f_upto f)%nat then
          Ok (set_filters (<[c := mkFilter (f_upto f) (S (f_i f)) (f_channel f) (f_key f)]>) st)
        else
          st ← upd_key st (f_key f) (λ km, with_Sending (-1) (with_Unavailable km));
          Ok (send (set_filters (delete c) st) (f_channel f) unavailable_response)
      else
        km ← key_at st (f_key f);
        st ← upd_key st (f_key f) (with_Sending (-1));
        Ok (send (set_filters (delete c) st) (f_channel f)
              (if km_Unavailable km then unavailable_response else response))
  end.

(** The first part of a turn, under the lock: the nodes and the object of the
    key, and whether the key was unavailable. *)
Definition main_lock (order : map_order) (Intn : nat → nat → nat) (replicationFactor : nat)
    (st : meta) (request : KvRequest) : res (meta * list loc * loc * bool) :=
  '(st, nodes, kl) ←
    match KeyMap st !! rq_Key request with
    | None => prepareNodesForFirstReplication order Intn st (rq_Key request) replicationFactor
    | Some kl =>
        km ← key_at st kl;
        Ok (st, getNodesAsList order (km_Nodes km), kl)
    end;
  km ← key_at st kl;
  st ← upd_key st kl (with_Sending 1);
  Ok (st, nodes, kl, km_Unavailable km).

(** The key is unavailable, or no node has it. *)
Definition main_refuse (st : meta) (request : KvRequest) (kl : loc) (unavailable : bool)
    : res meta :=
  st ← (if unavailable then Ok st
        else upd_key st kl (λ km, with_Sending (-1) (with_Unavailable km)));
  Ok (send st (rq_Channel request) unavailable_response).

(** The version of a write. *)
Definition main_version (st : meta) (request : KvRequest) (kl : loc) : res (meta * KvRequest) :=
  keyArg ← require NilPointer (rq_Keys request !! rq_Key request);
  if decide (ka_Type keyArg = PUT ∨ ka_Type keyArg = TEST_PUT) then
    st ← upd_key st kl with_Version;
    km ← key_at st kl;
    let keyArg := mkKeyArg (ka_Type keyArg) (km_Version km) (ka_TestVal keyArg)
                    (ka_NewVal keyArg) in
    Ok (st, mkKvRequest (rq_Type request) (rq_Key request)
              (<[rq_Key request := keyArg]> (rq_Keys request)) (rq_Channel request))
  else Ok (st, request).

Definition main_send (st : meta) (request : KvRequest) (nodes : list loc) : res meta :=
  foldM (λ st l, node ← node_at st l; Request st (nm_RequestQueue node) request) st nodes.

(** One turn of [mainRoutine]. *)
Definition mainRoutine (order : map_order) (Intn : nat → nat → nat) (replicationFactor : nat)
    (st : meta) (request : KvRequest) : res meta :=
  '(st, nodes, kl, unavailable) ← main_lock order Intn replicationFactor st request;
  if (unavailable : bool) || bool_decide (nodes = []) then
    main_refuse st request kl unavailable
  else
    let '(st, c) := filterChannelUnavailable st (length nodes) (rq_Channel request) kl in
    let request := mkKvRequest (rq_Type request) (rq_Key request) (rq_Keys request) (Some c) in
    '(st, request) ← main_version st request kl;
    main_send st request nodes.

(** ** Replication *)

(** The loop of [partitionAndReplicate]: the keys for each node. *)
Fixpoint partition_loop (st : meta) (keys : gset str) (nodesList : list loc)
    : res (list (loc * gset str)) :=
  match nodesList with
  | [] => Ok []
  | l :: nodesList =>
      node ← node_at st l;
      let subkeys := filter (λ key, nm_Keys node !! key = None) keys in
      let keys := keys ∖ subkeys in
      rest ← (if decide (keys = ∅) then Ok [] else partition_loop st keys nodesList);
      Ok (if decide (subkeys = ∅) then rest else (l, subkeys) :: rest)
  end.

Definition partitionAndReplicate (order : map_order) (Intn : nat → nat → nat) (st : meta)
    (keys : gset str) : res (list (loc * gset str)) :=
  let nodesList := getNodesAsList order (NodeMap st) in
  nodesList ← randomizeNodes Intn nodesList (length nodesList);
  partition_loop st keys nodesList.

(** The nodes that have the keys; the value of an id that is not in
    [NodeMap] is nil. *)
Definition repl_nodes (st : meta) (keys : gset str) : res (gmap str (option loc)) :=
  foldM (λ nodesMap key,
    kl ← require NilPointer (KeyMap st !! key);
    km ← key_at st kl;
    Ok (foldl (λ nodesMap id, <[id := NodeMap st !! id]> nodesMap) nodesMap
          (map_to_list (km_Nodes km)).*1)) ∅ (elements keys).

(** Ask each of them what it has. *)
Definition repl_query (st : meta) (nodesMap : gmap str (option loc)) (keys : gset str)
    : res (meta * loc) :=
  let '(responseChan, st) := alloc st in
  let request :=
    mkKvRequest 0 [] (gset_to_gmap (mkKeyArg QUERY 0 [] []) keys) (Some responseChan) in
  st ← foldM (λ st '(_, queryNode),
         l ← require NilPointer queryNode;
         node ← node_at st l;
         Request st (nm_RequestQueue node) request) st (map_to_list nodesMap);
  Ok (st, responseChan).

(** The values of one response, merged into the [PUT]s. *)
Definition merge_value (key : str) (value : KvValue) (keyMap : gmap str KeyArg)
    : gmap str KeyArg :=
  match keyMap !! key with
  | None => <[key := mkKeyArg PUT (kv_Version value) [] (kv_Value value)]> keyMap
  | Some keyArg =>
      if ka_Version keyArg <? kv_Version value
      then <[key := mkKeyArg (ka_Type keyArg) (kv_Version value) (ka_TestVal keyArg)
                      (kv_Value value)]> keyMap
      else keyMap
  end.

Definition merge_values (keyMap : gmap str KeyArg) (values : gmap str KvValue)
    : gmap str KeyArg :=
  map_fold merge_value keyMap values.

(** The loop of [mergeReplicatingQuery] over the responses in the order they
    come; [None] when it waits for one that does not come. *)
Fixpoint merge_loop (nodesUpto keysUpto : nat) (keyMap : gmap str KeyArg)
    (channel : list FeResponse) : option (gmap str KeyArg) :=
  match nodesUpto with
  | O => Some keyMap
  | S nodesUpto =>
      match channel with
      | [] => None
      | request :: channel =>
          if fr_Unavailable request then merge_loop nodesUpto keysUpto keyMap channel
          else
            let keyMap := merge_values keyMap (fr_Values request) in
            if decide (keysUpto ≤ size keyMap)%nat then Some keyMap
            else merge_loop nodesUpto keysUpto keyMap channel
      end
  end.

Definition mergeReplicatingQuery (nodesUpto keysUpto : nat) (channel : list FeResponse)
    : option (gmap str KeyArg) :=
  merge_loop nodesUpto keysUpto ∅ channel.

(** Put what was found in the new node. *)
Definition repl_put (st : meta) (l : loc) (requestKeys : gmap str KeyArg) : res (meta * loc) :=
  let '(responseChan, st) := alloc st in
  node ← node_at st l;
  st ← Request st (nm_RequestQueue node) (mkKvRequest 0 [] requestKeys (Some responseChan));
  Ok (st, responseChan).

(** The last loop of a turn of [replicationRoutine]: the keys left. *)
Definition repl_key (l : loc) (response : FeResponse) (acc : meta * gset str) (key : str)
    : res (meta * gset str) :=
  let '(st, keys) := acc in
  kl ← require NilPointer (KeyMap st !! key);
  km ← key_at st kl;
  if decide (km_Nodes km = ∅) then Ok (st, keys ∖ {[key]})
  else
    match fr_Values response !! key with
    | Some responseVal =>
        if negb (km_Unavailable km) && (km_Sending km =? 0) &&
           (kv_Version responseVal =? km_Version km) then
          node ← node_at st l;
          st ← upd_key st kl (with_Nodes (<[nm_Id node := l]>));
          st ← upd_node st l (with_Keys (<[key := kl]>));
          Ok (st, keys ∖ {[key]})
        else Ok (st, keys)
    | None => Ok (st, keys)
    end.

Definition repl_finish (st : meta) (l : loc) (keys : gset str) (response : FeResponse)
    : res (meta * gset str) :=
  foldM (repl_key l response) (st, keys) (elements keys).

(** One turn of [replicationRoutine]: [asked] and [put] are the responses that
    come. The result is the state, the keys left and the replications that
    start. *)
Definition replicationRoutine (order : map_order) (Intn : nat → nat → nat) (st : meta) (l : loc)
    (keys : gset str) (asked : list FeResponse) (put : FeResponse)
    : res (option (meta * gset str * list (loc * gset str))) :=
  nodesMap ← repl_nodes st keys;
  '(st, _) ← repl_query st nodesMap keys;
  match mergeReplicatingQuery (size nodesMap) (size keys) asked with
  | None => Ok None
  | Some requestKeys =>
      '(st, _) ← repl_put st l requestKeys;
      if fr_Unavailable put then
        started ← partitionAndReplicate order Intn st keys;
        Ok (Some (st, ∅, started))
      else
        '(st, keys) ← repl_finish st l keys put;
        Ok (Some (st, keys, []))
  end.

(** ** Nodes that come and go *)

(** A node connects: the keys to replicate to it, if any. *)
Definition nodes_connect (replicationFactor : nat) (st : meta) (id : str) (queue : loc)
    : res (meta * option (loc * gset str)) :=
  let '(l, st) := alloc st in
  let st := set_nodes (<[l := mkNodeMetadata id ∅ queue false]>) st in
  let st := set_NodeMap (<[id := l]>) st in
  if decide (size (NodeMap st) ≤ replicationFactor)%nat then
    keys ← foldM (λ keys '(key, kl),
             km ← key_at st kl;
             Ok (if decide (km_Nodes km = ∅) then keys else {[key]} ∪ keys))
             ∅ (map_to_list (KeyMap st));
    Ok (st, Some (l, keys))
  else Ok (st, None).

(** A node disconnects: the replications that start. *)
Definition nodes_disconnect (order : map_order) (Intn : nat → nat → nat) (st : meta) (id : str)
    : res (meta * list (loc * gset str)) :=
  l ← require NilPointer (NodeMap st !! id);
  node ← node_at st l;
  st ← foldM (λ st key,
         kl ← require NilPointer (KeyMap st !! key);
         upd_key st kl (with_Nodes (delete id))) st (map_to_list (nm_Keys node)).*1;
  let st := set_NodeMap (delete id) st in
  started ← partitionAndReplicate order Intn st (dom (nm_Keys node));
  Ok (st, started).

(** ** The goroutines of a node *)

(** [requestId] and [requestIdToChan]. *)
Record NodeConn : Type := mkNodeConn {
  nc_requestId : Z;
  nc_chans : gmap Z (option loc)
}.

(** [handleKvNode] starts: the queue of the node. *)
Definition node_queue (st : meta) : meta * loc :=
  let '(c, st) := alloc st in
  (set_queues (<[c := mkQueue [] false]>) st, c).

(** [handleKvNode] receives a request: what it writes to the node, or, when
    the node is gone, the broadcast and the responses to all that wait. *)
Definition handleKvNode (st : meta) (conn : NodeConn) (request : KvRequest)
    : meta * NodeConn * option KvArgs :=
  if decide (rq_Type request = DISCONNECTED) then
    (foldl (λ st '(_, c), send st c unavailable_response) st (map_to_list (nc_chans conn)),
     conn, None)
  else
    let id := nc_requestId conn in
    (st, mkNodeConn ((id + 1) `mod` 2 ^ 64) (<[id := rq_Channel request]> (nc_chans conn)),
     Some (mkKvArgs id (rq_Keys request) (bool_decide (rq_Type request = KILL)))).

(** [listenKvNodeResponse] decodes a response; the channel has room or the
    response is dropped. *)
Definition listenKvNodeResponse (room : loc → bool) (st : meta) (conn : NodeConn)
    (response : FeResponse) : meta * NodeConn :=
  let channel := nc_chans conn !! fr_RequestId response in
  let conn := mkNodeConn (nc_requestId conn) (delete (fr_RequestId response) (nc_chans conn)) in
  match channel with
  | Some (Some c) => (if room c then send st (Some c) response else st, conn)
  | _ => (st, conn)
  end.
