(* ===== verification/KvConn.v ===== *)
(** The front end and one node over their connection: requests go out with
    numbers, the node answers them in order, and each answer finds the channel
    of its request (CPSC418/assignment4/kv-front-end.go, kv-node.go). Requests
    and responses are on the connection as JSON carries them ([KvJson]), each as
    a whole: a line that the reader can take arrives as it was written
    ([Framing]), and on one that is too long it fails. *)
From S2P Require Import Prelude Utf8 GoText Framing KvNode KvMeta KvJson KvFrontEnd.

Open Scope Z_scope.

(** The goroutines of a node in the front end, what is on the connection in
    both directions (requests as the node decodes them, responses as it encodes
    them), and the process of the node. [nl_queue] are the requests
    that [handleKvNode] has not received; the last two fields are the history:
    those that it has, and how many responses [listenKvNodeResponse] took. *)
Record node_link : Type := mkNodeLink {
  nl_meta : meta;
  nl_queue : list KvRequest;
  nl_conn : NodeConn;
  nl_running : bool;
  nl_listening : bool;
  nl_down : list KvArgs;
  nl_kvmap : kvstore;
  nl_writeChannel : list KvResponse;
  nl_alive : bool;
  nl_up : list KvResponse;
  nl_broken : bool;
  nl_received : list KvRequest;
  nl_answered : nat
}.

Definition new_node_link (st : meta) : node_link :=
  mkNodeLink st [] (mkNodeConn 0 ∅) true true [] ∅ [] true [] false [] 0.

Section Link.
Context (order : key_order).
(** Whether the channel has room when the response with that number comes; and
    whether the JSON of a request or a response is a line that is short enough
    for the reader ([Framing.short_line]). *)
Context (room : Z → loc → bool) (request_fits : KvArgs → bool) (response_fits : KvResponse → bool).

Inductive node_step (l : node_link) : node_link → Prop :=
  (** A routine puts a request on the queue. *)
  | node_put rq :
      rq_Type rq ≠ DISCONNECTED →
      node_step l (mkNodeLink (nl_meta l) (nl_queue l ++ [rq]) (nl_conn l) (nl_running l) (nl_listening l) (nl_down l)
        (nl_kvmap l) (nl_writeChannel l) (nl_alive l) (nl_up l) (nl_broken l) (nl_received l) (nl_answered l))
  (** [handleKvNode] receives one: it writes it to the node, *)
  | node_request rq queue st conn args :
      nl_running l = true → nl_queue l = rq :: queue →
      handleKvNode (nl_meta l) (nl_conn l) rq = (st, conn, Some args) →
      node_step l (mkNodeLink st queue conn true (nl_listening l)
        (if nl_broken l then nl_down l else nl_down l ++ [json_args args]) (nl_kvmap l) (nl_writeChannel l) (nl_alive l)
        (nl_up l) (nl_broken l) (nl_received l ++ [rq]) (nl_answered l))
  (** or it is the last one. *)
  | node_disconnected rq queue st conn :
      nl_running l = true → nl_queue l = rq :: queue →
      handleKvNode (nl_meta l) (nl_conn l) rq = (st, conn, None) →
      node_step l (mkNodeLink st queue conn false (nl_listening l) (nl_down l) (nl_kvmap l) (nl_writeChannel l)
        (nl_alive l) (nl_up l) (nl_broken l) (nl_received l) (nl_answered l))
  (** The node handles a request, *)
  | node_handles args down kvmap response :
      nl_alive l = true → nl_down l = args :: down → request_fits args = true → handle_args order (nl_kvmap l) args = (kvmap, response) →
      node_step l (mkNodeLink (nl_meta l) (nl_queue l) (nl_conn l) (nl_running l) (nl_listening l) down kvmap
        (nl_writeChannel l ++ [response]) true (nl_up l) (nl_broken l) (nl_received l) (nl_answered l))
  (** or exits, as it cannot read it; *)
  | node_overlong args down :
      nl_alive l = true → nl_down l = args :: down → request_fits args = false →
      node_step l (mkNodeLink (nl_meta l) (nl_queue l) (nl_conn l) (nl_running l) (nl_listening l) (nl_down l)
        (nl_kvmap l) (nl_writeChannel l) false (nl_up l) (nl_broken l) (nl_received l) (nl_answered l))
  (** its [writeRoutine] writes a response, and exits after the last. *)
  | node_writes response rest :
      nl_alive l = true → nl_writeChannel l = response :: rest →
      node_step l (mkNodeLink (nl_meta l) (nl_queue l) (nl_conn l) (nl_running l) (nl_listening l) (nl_down l)
        (nl_kvmap l) rest (negb (resp_Kill response))
        (if nl_broken l then nl_up l else nl_up l ++ [response]) (nl_broken l) (nl_received l) (nl_answered l))
  (** The connection breaks, or the node dies: some of what is on its way is
      lost. *)
  | node_breaks i j alive :
      node_step l (mkNodeLink (nl_meta l) (nl_queue l) (nl_conn l) (nl_running l) (nl_listening l) (take i (nl_down l))
        (nl_kvmap l) (nl_writeChannel l) (nl_alive l && alive) (take j (nl_up l)) true (nl_received l) (nl_answered l))
  (** [listenKvNodeResponse] reads a response, *)
  | node_response response up st conn :
      nl_listening l = true → nl_up l = response :: up → response_fits response = true →
      listenKvNodeResponse (room (resp_RequestId response)) (nl_meta l) (nl_conn l) (as_response response) = (st, conn) →
      node_step l (mkNodeLink st (nl_queue l) conn (nl_running l) true (nl_down l) (nl_kvmap l)
        (nl_writeChannel l) (nl_alive l) up (nl_broken l) (nl_received l) (S (nl_answered l)))
  (** or finds that the node is gone, or sends what it cannot read. *)
  | node_lost :
      nl_listening l = true →
      nl_up l = [] ∧ (nl_broken l = true ∨ nl_alive l = false) ∨
      (∃ response up, nl_up l = response :: up ∧ response_fits response = false) →
      node_step l (mkNodeLink (nl_meta l) (nl_queue l ++ [mkKvRequest DISCONNECTED [] ∅ None]) (nl_conn l)
        (nl_running l) false (nl_down l) (nl_kvmap l) (nl_writeChannel l) (nl_alive l) (nl_up l) (nl_broken l)
        (nl_received l) (nl_answered l)).

(** ** What the node is asked and answers *)

(** The requests with their numbers, as the node gets them. *)
Fixpoint numbered_from (i : nat) (rqs : list KvRequest) : list KvArgs :=
  match rqs with
  | [] => []
  | rq :: rqs =>
      json_args (mkKvArgs (Z.of_nat i) (rq_Keys rq) (bool_decide (rq_Type rq = KILL))) :: numbered_from (S i) rqs
  end.

(** The answers of a node to requests one after the other. *)
Fixpoint answers (m : kvstore) (args : list KvArgs) : list KvResponse :=
  match args with
  | [] => []
  | a :: args => let '(m, r) := handle_args order m a in r :: answers m args
  end.

(** A response to a request reaches the channel of the request, if there is
    one and it has room at that time. *)
Definition reaches (p : KvRequest * KvResponse) : option (loc * FeResponse) :=
  c ← rq_Channel p.1; if room (resp_RequestId p.2) c then Some (c, as_response p.2) else None.

Definition told (rqs : list KvRequest) (rs : list KvResponse) : list (loc * FeResponse) := omap reaches (zip rqs rs).

(** The word that the node is gone. *)
Definition gone_to (rq : KvRequest) : option (loc * FeResponse) := (λ c, (c, unavailable_response)) <$> rq_Channel rq.

(** The channels of requests that wait, by their numbers. *)
Fixpoint waiting (i : nat) (rqs : list KvRequest) : list (Z * option loc) :=
  match rqs with
  | [] => []
  | rq :: rqs => (Z.of_nat i, rq_Channel rq) :: waiting (S i) rqs
  end.

Lemma numbered_from_app i l1 l2 :
  numbered_from i (l1 ++ l2) = numbered_from i l1 ++ numbered_from (i + length l1) l2.
Proof using.
  revert i. induction l1 as [|rq l1 IH]; intros i; cbn [app numbered_from length]; [by rewrite Nat.add_0_r|].
  rewrite IH. do 2 f_equal. f_equal. lia.
Qed.

Lemma length_numbered_from i l : length (numbered_from i l) = length l.
Proof using. revert i. induction l as [|rq l IH]; intros i; cbn; [done|]. by rewrite IH. Qed.

Lemma waiting_app i l1 l2 : waiting i (l1 ++ l2) = waiting i l1 ++ waiting (i + length l1) l2.
Proof using.
  revert i. induction l1 as [|rq l1 IH]; intros i; cbn [app waiting length]; [by rewrite Nat.add_0_r|].
  rewrite IH. do 2 f_equal. f_equal. lia.
Qed.

Lemma waiting_keys i l k : k ∈ (waiting i l).*1 → Z.of_nat i ≤ k < Z.of_nat (i + length l).
Proof using.
  revert i. induction l as [|rq l IH]; intros i; cbn [waiting fmap list_fmap length fst]; [by intros ?%elem_of_nil|].
  intros [->|H%IH]%elem_of_cons; lia.
Qed.

Lemma waiting_NoDup i l : NoDup (waiting i l).*1.
Proof using.
  revert i. induction l as [|rq l IH]; intros i; cbn [waiting fmap list_fmap fst]; constructor; [|done].
  intros H%waiting_keys. lia.
Qed.

Lemma answers_app m l1 l2 : answers m (l1 ++ l2) = answers m l1 ++ answers (run order m l1) l2.
Proof using.
  revert m. induction l1 as [|a l1 IH]; intros m; [done|]. cbn [app answers run foldl].
  destruct (handle_args order m a) as [m' r]. cbn [fst app]. by rewrite IH.
Qed.

Lemma length_answers m l : length (answers m l) = length l.
Proof using.
  revert m. induction l as [|a l IH]; intros m; [done|]. cbn [answers]. destruct (handle_args order m a). cbn. by rewrite IH.
Qed.

Lemma answers_take k m l : answers m (take k l) = take k (answers m l).
Proof using.
  revert k m. induction l as [|a l IH]; intros [|k] m; try done. cbn [take answers].
  destruct (handle_args order m a). cbn [take]. by rewrite IH.
Qed.

(** ** The invariant *)

Abbreviation args_of l := (numbered_from 0 (nl_received l)).
(** What the node has answered to its first [h] requests. *)
Abbreviation replies h l := (answers ∅ (take h (args_of l))).

(** [h] is the number of requests that the node handled, [w] that of the
    responses it wrote. *)
Record pipeline (l : node_link) (h w : nat) : Prop := {
  pl_map : nl_kvmap l = run order ∅ (take h (args_of l));
  pl_down : nl_down l `prefix_of` drop h (args_of l);
  pl_down_all : nl_broken l = false → nl_down l = drop h (args_of l);
  pl_chan : nl_writeChannel l = drop w (replies h l);
  pl_up : nl_up l `prefix_of` drop (nl_answered l) (replies h l);
  pl_up_all : nl_broken l = false → nl_up l = drop (nl_answered l) (take w (replies h l));
  pl_handled : (h ≤ length (nl_received l))%nat;
  pl_written : (w ≤ h)%nat;
  pl_answered : (nl_answered l + length (nl_up l) ≤ w)%nat
}.

Record front_ok (st0 : meta) (l : node_link) : Prop := {
  fo_id : nc_requestId (nl_conn l) = Z.of_nat (length (nl_received l));
  fo_chans : nc_chans (nl_conn l) = list_to_map (waiting (nl_answered l) (drop (nl_answered l) (nl_received l)));
  fo_queue : nl_listening l = true → Forall (λ rq, rq_Type rq ≠ DISCONNECTED) (nl_queue l);
  fo_gone : nl_running l = false → nl_listening l = false;
  fo_sent : ∃ rest, m_sent (nl_meta l) =
      m_sent st0 ++ told (nl_received l) (replies (nl_answered l) l) ++ rest ∧
    if nl_running l then rest = [] else rest ≡ₚ omap gone_to (drop (nl_answered l) (nl_received l))
}.

(** One more request. *)
Lemma take_received h l l' rq :
  nl_received l' = nl_received l ++ [rq] → (h ≤ length (nl_received l))%nat →
  take h (args_of l') = take h (args_of l) ∧
  drop h (args_of l') = drop h (args_of l) ++ numbered_from (length (nl_received l)) [rq].
Proof using.
  intros -> Hh. rewrite numbered_from_app, take_app_le, drop_app_le by (rewrite length_numbered_from; lia). done.
Qed.

Lemma drop_cons {A} n (l : list A) x l' : drop n l = x :: l' → l !! n = Some x ∧ drop (S n) l = l'.
Proof using.
  intros E. split; [by rewrite <-(Nat.add_0_r n), <-lookup_drop, E|].
  by rewrite <-Nat.add_1_r, <-drop_drop, E.
Qed.

(** One more request that the node handles. *)
Lemma handles_next l h args down kvmap response :
  nl_kvmap l = run order ∅ (take h (args_of l)) → drop h (args_of l) = args :: down →
  handle_args order (nl_kvmap l) args = (kvmap, response) →
  kvmap = run order ∅ (take (S h) (args_of l)) ∧ replies (S h) l = replies h l ++ [response].
Proof using.
  intros Hm [Hl _]%drop_cons Hh. rewrite (take_S_r _ _ _ Hl). unfold run. rewrite foldl_app. fold (run order).
  rewrite answers_app, <-Hm. cbn [foldl answers]. unfold run in Hm. rewrite <-Hm, Hh. done.
Qed.

Lemma length_replies h l : (h ≤ length (nl_received l))%nat → length (replies h l) = h.
Proof using. intros. rewrite length_answers, length_take, length_numbered_from. lia. Qed.

Lemma pipeline_step l l' h w :
  nc_requestId (nl_conn l) = Z.of_nat (length (nl_received l)) → pipeline l h w → node_step l l' →
  ∃ h' w', pipeline l' h' w'.
Proof using.
  intros Hid Hp Hs. destruct Hp as [P1 P2 P3 P4 P5 P6 P7 P8 P9].
  destruct Hs as [rq _|rq queue st conn args Hrun Hq Hk|rq queue st conn _ _ _|args down kvmap response _ Hd _ Hh
    |args down _ _ _|response rest _ Hw|i j alive|response up st conn _ Hu _ _|_ _]; try (by exists h, w).
  - exists h, w. set (l' := mkNodeLink _ _ _ _ _ _ _ _ _ _ _ _ _).
    destruct (take_received h l l' rq eq_refl P7) as [E1 E2].
    assert (args = mkKvArgs (Z.of_nat (length (nl_received l))) (rq_Keys rq) (bool_decide (rq_Type rq = KILL))) as ->.
    { unfold handleKvNode in Hk. case_decide; [done|]. injection Hk as _ _ <-. by rewrite Hid. }
    split; try rewrite E1; try rewrite E2; cbn [l' nl_kvmap nl_down nl_broken nl_writeChannel nl_up nl_answered nl_received];
      try done.
    + destruct (nl_broken l); [by apply prefix_app_r|]. by rewrite (P3 eq_refl).
    + intros Hb. rewrite Hb. by rewrite (P3 Hb).
    + rewrite length_app. lia.
  - rewrite Hd in P2. destruct P2 as [t Ht]. pose proof Ht as [Hlk _]%drop_cons.
    pose proof (lookup_lt_Some _ _ _ Hlk) as Hlt. rewrite length_numbered_from in Hlt.
    destruct (handles_next l h args (down ++ t) kvmap response P1 Ht Hh) as [E1 E2].
    pose proof (length_replies h l P7) as Hlen. pose proof Ht as [_ Hdr]%drop_cons.
    exists (S h), w. split; cbn [nl_kvmap nl_down nl_broken nl_writeChannel nl_up nl_answered nl_received]; try done; try lia.
    + rewrite Hdr. by eexists.
    + intros Hb. specialize (P3 Hb). rewrite Hd, Ht in P3. injection P3 as P3. rewrite Hdr. exact P3.
    + rewrite P4. change (drop w (replies h l) ++ [response] = drop w (replies (S h) l)).
      by rewrite E2, drop_app_le by lia.
    + change (nl_up l `prefix_of` drop (nl_answered l) (replies (S h) l)). rewrite E2, drop_app_le by lia. by apply prefix_app_r.
    + intros Hb. rewrite (P6 Hb). change (drop (nl_answered l) (take w (replies h l)) = drop (nl_answered l) (take w (replies (S h) l))).
      by rewrite E2, take_app_le by lia.
  - rewrite Hw in P4. symmetry in P4. pose proof P4 as [Hlk Hdr]%drop_cons.
    pose proof (lookup_lt_Some _ _ _ Hlk) as Hlt. rewrite (length_replies h l P7) in Hlt.
    exists h, (S w). pose proof (length_replies h l P7) as Hlen.
    assert (nl_broken l = false → nl_up l ++ [response] = drop (nl_answered l) (take (S w) (replies h l))) as Hup.
    { intros Hb. rewrite (take_S_r _ _ _ Hlk), drop_app_le, (P6 Hb) by (rewrite length_take; lia). done. }
    split; cbn [nl_kvmap nl_down nl_broken nl_writeChannel nl_up nl_answered nl_received]; try done; try lia.
    + destruct (nl_broken l) eqn:Eb; [done|]. rewrite (Hup eq_refl), skipn_firstn_comm. apply prefix_take.
    + intros Hb. rewrite Hb. by apply Hup.
    + destruct (nl_broken l); [lia|]. rewrite length_app. cbn [length]. lia.
  - exists h, w. split; cbn [nl_kvmap nl_down nl_broken nl_writeChannel nl_up nl_answered nl_received]; try done.
    + trans (nl_down l); [apply prefix_take|done].
    + trans (nl_up l); [apply prefix_take|done].
    + rewrite length_take. lia.
  - rewrite Hu in P5, P6, P9. destruct P5 as [t Ht]. pose proof Ht as [_ Hdr]%drop_cons.
    exists h, w. split; cbn [nl_kvmap nl_down nl_broken nl_writeChannel nl_up nl_answered nl_received]; try done.
    + change (up `prefix_of` drop (S (nl_answered l)) (replies h l)). rewrite Hdr. by eexists.
    + intros Hb. specialize (P6 Hb). symmetry in P6. by apply drop_cons in P6 as [_ <-].
    + cbn [length] in P9. lia.
Qed.

(** The number of an answer is that of its request. *)
Lemma answers_ids m i rqs k r :
  answers m (numbered_from i rqs) !! k = Some r → resp_RequestId r = Z.of_nat (i + k).
Proof using.
  revert m i k. induction rqs as [|rq rqs IH]; intros m i k; [done|]. cbn [numbered_from answers].
  unfold handle_args at 1. cbn [json_args arg_Kill arg_RequestId arg_Keys]. case_bool_decide; cbn iota.
  - destruct k as [|k]; cbn [lookup list_lookup]; [intros [= <-]; cbn; lia|]. intros E%IH. lia.
  - destruct (foldl _ _ _) as [m' rm]. destruct k as [|k]; cbn [lookup list_lookup]; [intros [= <-]; cbn; lia|].
    intros E%IH. lia.
Qed.

Lemma told_snoc rqs rs r rq :
  rqs !! length rs = Some rq → told rqs (rs ++ [r]) = told rqs rs ++ option_list (reaches (rq, r)).
Proof using.
  unfold told. revert rqs. induction rs as [|r0 rs IH]; intros [|rq0 rqs]; try done.
  - intros [= ->]. cbn. destruct (reaches (rq, r)); [|]; by destruct rqs.
  - cbn [length lookup list_lookup]. intros E%IH. cbn [app zip zip_with omap list_omap].
    destruct (reaches (rq0, r0)); cbn [app]; [f_equal|]; exact E.
Qed.

Lemma told_more rqs rq rs : (length rs ≤ length rqs)%nat → told (rqs ++ [rq]) rs = told rqs rs.
Proof using.
  unfold told. revert rqs. induction rs as [|r rs IH]; intros [|rq0 rqs] Hl; cbn in Hl; try done; [lia|].
  cbn [app zip zip_with omap list_omap]. unfold zip in IH. by rewrite IH by lia.
Qed.

Lemma m_sent_send st c r : m_sent (send st c r) = m_sent st ++ option_list ((λ c, (c, r)) <$> c).
Proof using. destruct c; cbn; [done|by rewrite app_nil_r]. Qed.

Lemma m_sent_gone i rqs st (l : list (Z * option loc)) :
  l ≡ₚ waiting i rqs →
  ∃ rest, m_sent (foldl (λ st '(_, c), send st c unavailable_response) st l) = m_sent st ++ rest ∧
    rest ≡ₚ omap gone_to rqs.
Proof using.
  intros Hl. exists (omap (λ p : Z * option loc, (λ c, (c, unavailable_response)) <$> p.2) l). split.
  - clear Hl. revert st. induction l as [|[k c] l IH]; intros st; cbn [foldl]; [by rewrite app_nil_r|].
    rewrite IH, m_sent_send, <-app_assoc. cbn [omap list_omap snd]. by destruct c.
  - rewrite Hl. clear Hl. revert i. induction rqs as [|rq rqs IH]; intros i; [done|].
    cbn [waiting omap list_omap snd]. unfold gone_to at 1. destruct (rq_Channel rq); cbn; [|apply IH].
    f_equiv. apply IH.
Qed.

Lemma front_step st0 l l' h w :
  Z.of_nat (length (nl_received l')) < 2 ^ 64 → front_ok st0 l → pipeline l h w → node_step l l' → front_ok st0 l'.
Proof using.
  intros Hn [F1 F2 F3 F4 (rest & F5 & F6)] Hp Hs.
  destruct Hs as [rq Hrq|rq queue st conn args Hrun Hq Hk|rq queue st conn Hrun Hq Hk|args down kvmap response _ _ _ _
    |args down _ _ _|response rest' _ _|i j alive|response up st conn Hl Hu _ Hk|Hl _];
    try (split; [done..|]; exists rest; split; [exact F5|exact F6]).
  - split; try done; cbn [nl_listening nl_queue]; [|by exists rest].
    intros Hl. apply Forall_app. split; [auto|]. by repeat constructor.
  - unfold handleKvNode in Hk. case_decide as Hd; [done|]. injection Hk as <- <- <-.
    rewrite Hrun in F6. subst rest. pose proof (pl_answered _ _ _ Hp) as Ha. pose proof (pl_written _ _ _ Hp).
    pose proof (pl_handled _ _ _ Hp). cbn [nl_received] in Hn. rewrite length_app in Hn. cbn [length] in Hn.
    split; cbn [nl_conn nl_received nl_answered nl_listening nl_queue nl_running nl_meta nc_requestId nc_chans].
    + rewrite F1, length_app, Z.mod_small; cbn [length]; lia.
    + rewrite F2, F1, drop_app_le, waiting_app, length_drop by lia. cbn [waiting].
      replace (nl_answered l + (length (nl_received l) - nl_answered l))%nat with (length (nl_received l)) by lia.
      rewrite list_to_map_snoc; [done|]. intros Hin%waiting_keys. rewrite length_drop in Hin. lia.
    + intros Hl. specialize (F3 Hl). rewrite Hq in F3. by apply Forall_cons in F3 as [_ ?].
    + done.
    + exists []. split; [|done]. rewrite F5, !app_nil_r. f_equal.
      rewrite numbered_from_app, take_app_le by (rewrite length_numbered_from; lia).
      rewrite told_more; [done|]. rewrite length_replies; lia.
  - unfold handleKvNode in Hk. case_decide as Hd; [|done]. injection Hk as <- <-.
    rewrite Hrun in F6. subst rest.
    assert (nl_listening l = false) as Hnl.
    { destruct (nl_listening l); [|done]. specialize (F3 eq_refl). rewrite Hq in F3. by apply Forall_cons in F3 as [? _]. }
    split; cbn [nl_conn nl_received nl_answered nl_listening nl_queue nl_running nl_meta]; try done; [by rewrite Hnl|].
    destruct (m_sent_gone (nl_answered l) (drop (nl_answered l) (nl_received l)) (nl_meta l)
      (map_to_list (nc_chans (nl_conn l)))) as (rest & Hm & Hperm).
    { rewrite F2. apply map_to_list_to_map, waiting_NoDup. }
    exists rest. split; [|done]. by rewrite Hm, F5, app_nil_r, <-app_assoc.
  - assert (nl_running l = true) as Hrun.
    { destruct (nl_running l); [done|]. by rewrite F4 in Hl. }
    rewrite Hrun in F6. subst rest. pose proof (pl_answered _ _ _ Hp) as Ha. pose proof (pl_written _ _ _ Hp).
    pose proof (pl_handled _ _ _ Hp). pose proof (pl_up _ _ _ Hp) as [t Ht]. rewrite Hu in Ht, Ha. cbn [length] in Ha.
    apply drop_cons in Ht as [Ht _].
    destruct (lookup_lt_is_Some_2 (nl_received l) (nl_answered l)) as [rq Hrq]; [lia|].
    pose proof (drop_S _ _ _ Hrq) as Hdrop.
    assert (resp_RequestId response = Z.of_nat (nl_answered l)) as Hid.
    { rewrite answers_take in Ht. apply lookup_take_Some in Ht as [Ht _]. by apply answers_ids in Ht. }
    assert (replies (S (nl_answered l)) l = replies (nl_answered l) l ++ [response]) as Hrep.
    { rewrite !answers_take. apply take_S_r. rewrite answers_take in Ht. by apply lookup_take_Some in Ht as [Ht _]. }
    assert (nc_chans (nl_conn l) !! Z.of_nat (nl_answered l) = Some (rq_Channel rq)) as Hc.
    { rewrite F2, Hdrop. cbn [waiting list_to_map foldr fst snd]. apply lookup_insert_eq. }
    unfold listenKvNodeResponse in Hk. cbn [as_response fr_RequestId] in Hk. rewrite Hid, Hc in Hk.
    assert (conn = mkNodeConn (nc_requestId (nl_conn l)) (delete (Z.of_nat (nl_answered l)) (nc_chans (nl_conn l))) ∧
      m_sent st = m_sent (nl_meta l) ++ option_list (reaches (rq, response))) as [-> Hsent].
    { unfold reaches. cbn [fst snd]. destruct (rq_Channel rq) as [c|]; cbn.
      - rewrite Hid. destruct (room _ c); injection Hk as <- <-; [done|by rewrite app_nil_r].
      - injection Hk as <- <-. by rewrite app_nil_r. }
    split; cbn [nl_conn nl_received nl_answered nl_listening nl_queue nl_running nl_meta nc_requestId nc_chans]; try done.
    + rewrite F2, Hdrop. cbn [waiting list_to_map foldr fst snd]. rewrite delete_insert_id; [done|].
      apply not_elem_of_list_to_map_1. intros Hin%waiting_keys. lia.
    + by rewrite Hl in F3.
    + by rewrite Hrun.
    + exists []. rewrite Hrun. split; [|done]. change (m_sent st = m_sent st0 ++ told (nl_received l) (replies (S (nl_answered l)) l) ++ []).
      rewrite Hsent, F5, Hrep, told_snoc with (rq := rq), !app_nil_r, <-app_assoc; [done|].
      by rewrite length_replies by lia.
Qed.

(** C23: Each answer of a node finds its request. Of the requests that
    [handleKvNode] has received, in that order, the first have been answered,
    each once: each answer goes to the channel of its own request, and is what
    the node says after all the requests before it, as JSON carries both; one
    that comes when the channel has no room is dropped. The other requests that
    [handleKvNode] has received wait; when it receives that the node is gone,
    the channel of each of them is told so once. (Requests that are on the
    queue behind that word are never received and never told.) *)
Theorem answers_find_their_requests st0 l :
  Z.of_nat (length (nl_received l)) < 2 ^ 64 → rtc node_step (new_node_link st0) l →
  ∃ rest, (nl_answered l ≤ length (nl_received l))%nat ∧
    m_sent (nl_meta l) =
      m_sent st0 ++
      told (nl_received l) (answers ∅ (take (nl_answered l) (numbered_from 0 (nl_received l)))) ++ rest ∧
    (if nl_running l then rest = [] else rest ≡ₚ omap gone_to (drop (nl_answered l) (nl_received l))) ∧
    nc_chans (nl_conn l) = list_to_map (waiting (nl_answered l) (drop (nl_answered l) (nl_received l))).
Proof using.
  intros Hn Hr. assert (∃ h w, front_ok st0 l ∧ pipeline l h w) as (h & w & [_ F2 _ _ (rest & F5 & F6)] & Hp).
  { apply rtc_nsteps_1 in Hr as [k Hr]. revert l Hn Hr. induction k as [|k IH]; intros l Hn Hr.
    - inversion Hr; subst. exists 0%nat, 0%nat. split; [|by split].
      split; [done..|]. exists []. split; [by rewrite !app_nil_r|done].
    - apply nsteps_inv_r in Hr as (l1 & Hr & Hs).
      assert (length (nl_received l1) ≤ length (nl_received l))%nat as Hle.
      { destruct Hs; cbn; rewrite ?length_app; lia. }
      destruct (IH l1) as (h & w & Hf & Hp); [lia|done|].
      destruct (pipeline_step l1 l h w (fo_id _ _ Hf) Hp Hs) as (h' & w' & Hp').
      exists h', w'. split; [by eapply front_step|done]. }
  exists rest. pose proof (pl_answered _ _ _ Hp). pose proof (pl_written _ _ _ Hp). pose proof (pl_handled _ _ _ Hp).
  split_and!; [lia|done..].
Qed.
End Link.

Definition sample_get : KvRequest := mkKvRequest GET [x61] {[[x61] := mkKeyArg GET 0 [] []]} (Some 7%nat).

Lemma answers_find_their_requests_witness :
  ∃ l, rtc (node_step map_to_list (λ _ _, true) (λ _, true) (λ _, true)) (new_node_link empty_meta) l ∧
    m_sent (nl_meta l) = [(7%nat, mkFeResponse 0 {[[x61] := mkKvValue 0 []]} false false)].
Proof.
  assert (∃ l, rtc (node_step map_to_list (λ _ _, true) (λ _, true) (λ _, true)) (new_node_link empty_meta) l ∧
    nl_received l = [sample_get] ∧ nl_answered l = 1%nat ∧ nl_running l = true) as (l & Hr & E1 & E2 & E3).
  { eexists. split; [|split; [|split]].
    - eapply rtc_l; [apply (node_put _ _ _ _ _ sample_get); discriminate|].
      eapply rtc_l; [eapply node_request; reflexivity|].
      eapply rtc_l; [eapply node_handles; reflexivity|].
      eapply rtc_l; [eapply node_writes; reflexivity|].
      eapply rtc_l; [eapply node_response; reflexivity|]. apply rtc_refl.
    - reflexivity.
    - reflexivity.
    - reflexivity. }
  destruct (answers_find_their_requests map_to_list (λ _ _, true) (λ _, true) (λ _, true) empty_meta l) as (rest & _ & Hm & Hrest & _).
  - rewrite E1. reflexivity.
  - exact Hr.
  - exists l. split; [exact Hr|]. rewrite Hm, E1, E2. rewrite E3 in Hrest. subst rest. vm_compute. reflexivity.
Defined.
