(* ===== verification/KvFrontProps.v ===== *)
(** The front end of the key-value store, routine by routine: shuffles,
    filters, merges, partitions, client commands. *)
From Stdlib Require Import Strings.String.
From S2P Require Import Prelude GoText Framing KvNode KvMeta KvFrontEnd.

Open Scope Z_scope.

(** ** Shuffling *)

Lemma swap_permutation {A} (l : list A) i j x y :
  l !! i = Some x → l !! j = Some y → <[i := y]> (<[j := x]> l) ≡ₚ l.
Proof.
  intros Hi Hj. destruct (decide (i = j)) as [->|Hij].
  - simplify_eq. by rewrite list_insert_insert_eq, list_insert_id.
  - apply Permutation_inj. split.
    + by rewrite !length_insert.
    + exists (λ k, if decide (k = i) then j else if decide (k = j) then i else k). split.
      * intros a b. repeat case_decide; congruence.
      * intros k. repeat case_decide; subst.
        -- rewrite list_lookup_insert_eq; [done|]. rewrite length_insert.
           by eapply lookup_lt_Some.
        -- rewrite list_lookup_insert_ne by done. rewrite list_lookup_insert_eq; [done|].
           by eapply lookup_lt_Some.
        -- by rewrite !list_lookup_insert_ne.
Qed.

(** What [rand.Intn] promises. *)
Definition draws_below (Intn : nat → nat → nat) : Prop :=
  ∀ i n, (0 < n)%nat → (Intn i n < n)%nat.

Lemma randomize_loop_permutes Intn n i l :
  draws_below Intn → (i + n ≤ length l)%nat →
  ∃ l', randomize_loop Intn n i l = Ok l' ∧ l' ≡ₚ l.
Proof.
  intros HI. revert i l; induction n as [|n IH]; intros i l Hl; simpl; [eauto|].
  pose proof (HI i (length l - i)%nat ltac:(lia)) as Hk.
  destruct (lookup_lt_is_Some_2 l (i + Intn i (length l - i))%nat) as [y Hy]; [lia|].
  destruct (lookup_lt_is_Some_2 l i) as [x Hx]; [lia|].
  rewrite Hy, Hx. res_step. rewrite slice_set_Ok by lia. res_step.
  rewrite slice_set_Ok by (rewrite length_insert; lia). res_step.
  pose proof (swap_permutation l i _ x y Hx Hy) as Hp.
  destruct (IH (S i) (<[i := y]> (<[(i + Intn i (length l - i))%nat := x]> l)))
    as (l' & -> & Hl'); [rewrite !length_insert; lia|].
  exists l'. split; [done|]. by rewrite Hl'.
Qed.

Lemma randomizeNodes_ok Intn l upto :
  draws_below Intn → (upto ≤ length l)%nat →
  ∃ l', randomizeNodes Intn l upto = Ok l' ∧ l' ≡ₚ l.
Proof. intros. by apply randomize_loop_permutes. Qed.

(** ** The filter of a request *)

Definition available (r : FeResponse) : bool := negb (fr_Unavailable r).

(** The response that the client gets. *)
Definition filtered (unavailable : bool) (rs : list FeResponse) : FeResponse :=
  match List.find available rs with
  | Some r => if unavailable then unavailable_response else r
  | None => unavailable_response
  end.

Lemma upd_key_ok st kl km f :
  m_keys st !! kl = Some km → upd_key st kl f = Ok (set_keys (<[kl := f km]>) st).
Proof. intros H. unfold upd_key, key_at. rewrite H. done. Qed.

(** A filter that is gone receives nothing more. *)
Lemma filter_gone rs st c :
  m_filters st !! c = None → foldM (λ st r, filter_receive st c r) st rs = Ok st.
Proof.
  intros H. induction rs as [|r rs IH]; [done|]. cbn [foldM].
  assert (filter_receive st c r = Ok st) as -> by (unfold filter_receive; by rewrite H).
  by rewrite bind_Ok.
Qed.

Section Receive.
Context (st : meta) (c : loc) (f : Filter) (km : KeyMetadata) (r : FeResponse).
Hypothesis Hf : m_filters st !! c = Some f.
Hypothesis Hk : m_keys st !! f_key f = Some km.

Definition waiting : meta :=
  set_filters (<[c := mkFilter (f_upto f) (S (f_i f)) (f_channel f) (f_key f)]>) st.
Definition settled (unavailable : bool) (answer : FeResponse) : meta :=
  send (set_filters (delete c)
    (set_keys (<[f_key f := mkKeyMetadata (km_Version km) unavailable (km_Sending km - 1)
                              (km_Nodes km)]>) st)) (f_channel f) answer.

Lemma filter_waits :
  fr_Unavailable r = true → (S (f_i f) < f_upto f)%nat → filter_receive st c r = Ok waiting.
Proof using Hf. intros Hr Hi. unfold filter_receive. by rewrite Hf, Hr, decide_True. Qed.

Lemma filter_fails :
  fr_Unavailable r = true → (f_upto f ≤ S (f_i f))%nat →
  filter_receive st c r = Ok (settled true unavailable_response).
Proof using Hf Hk.
  intros Hr Hi. unfold filter_receive. rewrite Hf, Hr, decide_False by lia.
  by rewrite (upd_key_ok _ _ km).
Qed.

Lemma filter_answers :
  fr_Unavailable r = false →
  filter_receive st c r =
  Ok (settled (km_Unavailable km) (if km_Unavailable km then unavailable_response else r)).
Proof using Hf Hk.
  intros Hr. unfold filter_receive. rewrite Hf, Hr. unfold key_at. rewrite Hk.
  by rewrite (upd_key_ok _ _ km).
Qed.
End Receive.

Lemma filtered_cons u r rs :
  filtered u (r :: rs) =
  if fr_Unavailable r then filtered u rs else if u then unavailable_response else r.
Proof.
  unfold filtered, available. simpl. by destruct (fr_Unavailable r).
Qed.

Lemma filter_receives rs st c f km :
  m_filters st !! c = Some f → m_keys st !! f_key f = Some km →
  (f_i f < f_upto f)%nat → length rs = (f_upto f - f_i f)%nat →
  ∃ st', foldM (λ st r, filter_receive st c r) st rs = Ok st' ∧
    m_filters st' = delete c (m_filters st) ∧
    m_sent st' = m_sent (send st (f_channel f) (filtered (km_Unavailable km) rs)) ∧
    m_keys st' = <[f_key f :=
      mkKeyMetadata (km_Version km) (km_Unavailable km || forallb fr_Unavailable rs)
        (km_Sending km - 1) (km_Nodes km)]> (m_keys st).
Proof.
  revert st f; induction rs as [|r rs IH]; intros st f Hf Hk Hi Hl; simpl in Hl; [lia|].
  cbn [foldM]. rewrite filtered_cons. cbn [forallb].
  destruct (fr_Unavailable r) eqn:Hr.
  - destruct (decide (S (f_i f) < f_upto f)%nat) as [Hlt|Hge].
    + rewrite (filter_waits _ _ _ _ Hf) by done. rewrite bind_Ok.
      destruct (IH (waiting st c f)
        (mkFilter (f_upto f) (S (f_i f)) (f_channel f) (f_key f)))
        as (st' & -> & H1 & H2 & H3); simpl; try lia; [by rewrite lookup_insert_eq|done|].
      exists st'. split; [done|]. rewrite H1, H2, H3. simpl.
      split; [apply delete_insert_eq|]. split; [by destruct (f_channel f)|done].
    + destruct rs; [|simpl in Hl; lia].
      rewrite (filter_fails _ _ _ km _ Hf Hk) by (done || lia). rewrite bind_Ok.
      eexists. split; [done|]. unfold settled, filtered.
      destruct (f_channel f); simpl; rewrite orb_true_r; done.
  - rewrite (filter_answers _ _ _ km _ Hf Hk) by done. rewrite bind_Ok, filter_gone.
    + eexists. split; [done|]. unfold settled.
      destruct (f_channel f); simpl; rewrite orb_false_r; done.
    + unfold settled. destruct (f_channel f); apply lookup_delete_eq.
Qed.

(** ** Merging what the replicas have *)

Definition merge_one (o : option KeyArg) (v : KvValue) : KeyArg :=
  match o with
  | None => mkKeyArg PUT (kv_Version v) [] (kv_Value v)
  | Some a =>
      if ka_Version a <? kv_Version v
      then mkKeyArg (ka_Type a) (kv_Version v) (ka_TestVal a) (kv_Value v) else a
  end.

Lemma merge_value_lookup k v m k' :
  merge_value k v m !! k' = if decide (k = k') then Some (merge_one (m !! k) v) else m !! k'.
Proof.
  unfold merge_value, merge_one. destruct (m !! k) as [a|] eqn:E;
    [destruct (_ <? _)|]; rewrite ?lookup_insert; destruct (decide (k = k')) as [<-|]; done.
Qed.

Lemma merge_values_lookup m vals k :
  merge_values m vals !! k =
  match vals !! k with Some v => Some (merge_one (m !! k) v) | None => m !! k end.
Proof.
  unfold merge_values. revert k.
  apply (map_fold_weak_ind (λ r vals, ∀ k, r !! k =
    match vals !! k with Some v => Some (merge_one (m !! k) v) | None => m !! k end)).
  - intros k. by rewrite lookup_empty.
  - intros i v vals' r Hi IH k. rewrite merge_value_lookup, lookup_insert, IH, Hi.
    destruct (decide (i = k)) as [<-|]; [done|by rewrite IH].
Qed.

(** What was merged from some responses: the newest value of each key. *)
Definition merged (rs : list FeResponse) (m : gmap str KeyArg) : Prop :=
  ∀ key,
    (∀ a, m !! key = Some a → ka_Type a = PUT ∧
       ∃ r, r ∈ rs ∧ available r = true ∧
            fr_Values r !! key = Some (mkKvValue (ka_Version a) (ka_NewVal a))) ∧
    (∀ r v, r ∈ rs → available r = true → fr_Values r !! key = Some v →
       ∃ a, m !! key = Some a ∧ kv_Version v ≤ ka_Version a).

Lemma merged_nil : merged [] ∅.
Proof. intros key. split; [intros a; by rewrite lookup_empty|]. intros r v Hr. by apply elem_of_nil in Hr. Qed.

Lemma merged_snoc rs m r :
  merged rs m → merged (rs ++ [r]) (if fr_Unavailable r then m else merge_values m (fr_Values r)).
Proof.
  intros Hm key. destruct (Hm key) as [H1 H2]. split.
  - intros a Ha. destruct (fr_Unavailable r) eqn:Hr.
    + destruct (H1 a Ha) as (? & r' & ? & ?). split; [done|]. exists r'. set_solver.
    + rewrite merge_values_lookup in Ha.
      assert (available r = true) as Hav by (unfold available; by rewrite Hr).
      destruct (fr_Values r !! key) as [v|] eqn:Hv.
      * unfold merge_one in Ha. destruct (m !! key) as [b|].
        -- destruct (H1 b eq_refl) as (? & r' & ? & ?).
           destruct (ka_Version b <? kv_Version v); simplify_eq/=.
           ++ split; [done|]. exists r. rewrite Hv. destruct v. set_solver.
           ++ split; [done|]. exists r'. set_solver.
        -- simplify_eq/=. split; [done|]. exists r. rewrite Hv. destruct v. set_solver.
      * destruct (H1 a Ha) as (? & r' & ? & ?). split; [done|]. exists r'. set_solver.
  - intros r' v [Hin| ->%list_elem_of_singleton]%elem_of_app Hav Hv.
    + destruct (H2 r' v Hin Hav Hv) as (a & Ha & Hle).
      destruct (fr_Unavailable r); [eauto|]. rewrite merge_values_lookup, Ha.
      destruct (fr_Values r !! key) as [v'|]; [|eauto]. eexists. split; [done|].
      simpl. destruct (ka_Version a <? kv_Version v') eqn:E; simpl; lia.
    + unfold available in Hav. destruct (fr_Unavailable r); [done|].
      rewrite merge_values_lookup, Hv. eexists. split; [done|].
      unfold merge_one. destruct (m !! key) as [b|]; simpl; [|lia].
      destruct (ka_Version b <? kv_Version v) eqn:E; simpl; lia.
Qed.

Lemma merge_loop_merged n keysUpto m pre rs :
  merged pre m → (n ≤ length rs)%nat →
  ∃ m' p, merge_loop n keysUpto m rs = Some m' ∧ (p ≤ n)%nat ∧
    merged (pre ++ take p rs) m' ∧ (p = n ∨ (keysUpto ≤ size m')%nat).
Proof.
  revert m pre rs; induction n as [|n IH]; intros m pre rs Hm Hl; simpl.
  - exists m, 0%nat. rewrite app_nil_r. eauto.
  - destruct rs as [|r rs]; simpl in Hl; [lia|].
    pose proof (merged_snoc pre m r Hm) as Hs.
    assert (∀ m1, merged (pre ++ [r]) m1 → ∃ m' p, merge_loop n keysUpto m1 rs = Some m' ∧
      (p ≤ S n)%nat ∧ merged (pre ++ take p (r :: rs)) m' ∧
      (p = S n ∨ (keysUpto ≤ size m')%nat)) as Hrec.
    { intros m1 Hm1. destruct (IH m1 (pre ++ [r]) rs Hm1) as (m' & p & -> & Hp & Hm' & Hor); [lia|].
      exists m', (S p). rewrite <-app_assoc in Hm'. split; [done|]. split; [lia|].
      split; [done|]. destruct Hor; [left; lia|by right]. }
    destruct (fr_Unavailable r); [by apply Hrec|].
    destruct (decide _) as [Hge|]; [|by apply Hrec].
    exists (merge_values m (fr_Values r)), 1%nat. split; [done|]. split; [lia|].
    split; [done|by right].
Qed.

(** ** Partitions *)

Lemma partition_loop_spec st nodesList keys plan :
  partition_loop st keys nodesList = Ok plan →
  (∀ l ks, (l, ks) ∈ plan → l ∈ nodesList ∧ ks ≠ ∅ ∧ ks ⊆ keys ∧
     ∃ node, m_nodes st !! l = Some node ∧ ∀ key, key ∈ ks → nm_Keys node !! key = None) ∧
  (∀ key, key ∈ keys →
     (∃ l ks, (l, ks) ∈ plan ∧ key ∈ ks) ∨
     (∀ l node, l ∈ nodesList → m_nodes st !! l = Some node → is_Some (nm_Keys node !! key))) ∧
  (∀ i j l1 l2 ks1 ks2, plan !! i = Some (l1, ks1) → plan !! j = Some (l2, ks2) →
     i ≠ j → ks1 ## ks2).
Proof.
  revert keys plan; induction nodesList as [|l nodesList IH]; intros keys plan H; simpl in H.
  - simplify_eq. split; [|split].
    + intros l ks Hin. by apply elem_of_nil in Hin.
    + intros key Hk. right. intros l node Hin. by apply elem_of_nil in Hin.
    + done.
  - apply bind_Ok_inv in H as (node & Hn & H). apply require_Ok_inv in Hn.
    set (subkeys := filter (λ key, nm_Keys node !! key = None) keys) in *.
    apply bind_Ok_inv in H as (rest & Hrest & H).
    assert (partition_loop st (keys ∖ subkeys) nodesList = Ok rest ∨
            keys ∖ subkeys = ∅ ∧ rest = []) as Hr.
    { destruct (decide (keys ∖ subkeys = ∅)); simplify_eq; auto. }
    clear Hrest.
    assert ((∀ l' ks, (l', ks) ∈ rest → l' ∈ nodesList ∧ ks ≠ ∅ ∧ ks ⊆ keys ∖ subkeys ∧
       ∃ node, m_nodes st !! l' = Some node ∧ ∀ key, key ∈ ks → nm_Keys node !! key = None) ∧
      (∀ key, key ∈ keys ∖ subkeys → (∃ l ks, (l, ks) ∈ rest ∧ key ∈ ks) ∨
         (∀ l node, l ∈ nodesList → m_nodes st !! l = Some node → is_Some (nm_Keys node !! key))) ∧
      (∀ i j l1 l2 ks1 ks2, rest !! i = Some (l1, ks1) → rest !! j = Some (l2, ks2) →
         i ≠ j → ks1 ## ks2)) as (R1 & R2 & R3).
    { destruct Hr as [Hr|[He ->]]; [by apply IH|]. split; [|split]; [set_solver..|done]. }
    clear IH Hr.
    assert (∀ key, key ∈ subkeys ↔ key ∈ keys ∧ nm_Keys node !! key = None) as Hsub
      by (intros key; unfold subkeys; rewrite elem_of_filter; tauto).
    assert (plan = if decide (subkeys = ∅) then rest else (l, subkeys) :: rest) as -> by congruence.
    split; [|split].
    + intros l' ks Hin.
      assert ((l', ks) ∈ rest ∨ l' = l ∧ ks = subkeys ∧ subkeys ≠ ∅) as [Hin'|(-> & -> & Hne)].
      { destruct (decide (subkeys = ∅)); [by left|]. apply elem_of_cons in Hin as [?|?]; [|by left].
        simplify_eq. by right. }
      * destruct (R1 l' ks Hin') as (? & ? & ? & ?). set_solver.
      * split; [set_solver|]. split; [done|]. split; [set_solver|]. exists node.
        split; [done|]. set_solver.
    + intros key Hk. destruct (decide (key ∈ subkeys)) as [Hs|Hs].
      * left. exists l, subkeys. split; [|done]. rewrite decide_False by set_solver. set_solver.
      * destruct (R2 key) as [(l' & ks & Hin & Hks)|Hall]; [set_solver| |].
        -- left. exists l', ks. split; [|done]. destruct (decide _); set_solver.
        -- right. intros l' node' [->|Hin]%elem_of_cons Hn'; [|by eapply Hall].
           assert (node' = node) as -> by congruence.
           destruct (nm_Keys node !! key) eqn:E; [eauto|]. set_solver.
    + intros i j l1 l2 ks1 ks2 Hi Hj Hij.
      destruct (decide (subkeys = ∅)); [by eapply R3|].
      destruct i as [|i], j as [|j]; simplify_eq/=.
      * apply list_elem_of_lookup_2, R1 in Hj. set_solver.
      * apply list_elem_of_lookup_2, R1 in Hi. set_solver.
      * eapply R3; eauto.
Qed.

(** ** Killing replicas *)

(** The nodes of a key, all known, with the queue of each. *)
Definition nodes_known (st : meta) (nodes : list (str * loc)) : Prop :=
  ∀ id l, (id, l) ∈ nodes → ∃ node q, m_nodes st !! l = Some node ∧
    m_queues st !! nm_RequestQueue node = Some q.

Definition live_node (st : meta) (l : loc) : bool :=
  match m_nodes st !! l with Some node => negb (nm_Killed node) | None => false end.

Definition live_nodes (st : meta) (nodes : list (str * loc)) : list loc :=
  filter (λ l, live_node st l = true) nodes.*2.

Lemma live_nodes_cons st id l nodes node :
  m_nodes st !! l = Some node →
  live_nodes st ((id, l) :: nodes) =
  if nm_Killed node then live_nodes st nodes else l :: live_nodes st nodes.
Proof.
  intros Hn. unfold live_nodes. cbn [fmap list_fmap snd].
  assert (live_node st l = negb (nm_Killed node)) as E by (unfold live_node; by rewrite Hn).
  destruct (nm_Killed node); simpl in E.
  - by rewrite filter_cons_False by (by rewrite E).
  - by rewrite filter_cons_True.
Qed.

Lemma pick_loop_zero st id l nodes node :
  m_nodes st !! l = Some node → nm_Killed node = false →
  pick_loop st 0 0 [] ((id, l) :: nodes) = Panic IndexOutOfRange.
Proof. intros Hn Hk. simpl. unfold node_at. by rewrite Hn, require_Some, bind_Ok, Hk. Qed.

Lemma pick_loop_live st size nodes i done_ pad :
  nodes_known st nodes → (i < size)%nat → length done_ = i → length pad = (size - i)%nat →
  pick_loop st size i (done_ ++ pad) nodes =
  Ok (done_ ++ take (size - i) (live_nodes st nodes)).
Proof.
  revert i done_ pad; induction nodes as [|[id l] nodes IH]; intros i done_ pad Hk Hi Hd Hp; simpl.
  - change (live_nodes st []) with (@nil loc). rewrite take_nil, app_nil_r.
    by rewrite <-Hd, take_app_length.
  - destruct (Hk id l) as (node & q & Hn & _); [set_solver|].
    unfold node_at. rewrite Hn, require_Some, bind_Ok.
    assert (nodes_known st nodes) as Hk' by (intros id' l' Hin; apply (Hk id' l'); set_solver).
    rewrite (live_nodes_cons _ _ _ _ _ Hn). destruct (nm_Killed node).
    + rewrite decide_False by lia. by apply IH.
    + destruct pad as [|x pad]; [simpl in Hp; lia|].
      rewrite slice_set_Ok by (rewrite length_app; simpl; lia). rewrite bind_Ok.
      rewrite insert_app_r_alt by lia. replace (i - length done_)%nat with 0%nat by lia.
      simpl. change (l :: pad) with ([l] ++ pad). rewrite app_assoc.
      replace (size - i)%nat with (S (size - S i)) by lia. cbn [take].
      change (l :: take ?n ?x) with ([l] ++ take n x). rewrite (app_assoc done_).
      destruct (decide _) as [Hge|Hlt].
      * replace (size - S i)%nat with 0%nat by lia. cbn [take]. rewrite app_nil_r.
        replace (S i) with (length (done_ ++ [l])) by (rewrite length_app; simpl; lia).
        by rewrite take_app_length.
      * apply IH; [done|lia|rewrite length_app; simpl; lia|simpl in Hp; lia].
Qed.

(** Some goroutine answers each of the nodes. *)
Definition answering (st : meta) (l : loc) : Prop :=
  ∃ node q, m_nodes st !! l = Some node ∧
    m_queues st !! nm_RequestQueue node = Some q ∧ disconnected q = false.

Definition killed (node : NodeMetadata) : NodeMetadata :=
  mkNodeMetadata (nm_Id node) (nm_Keys node) (nm_RequestQueue node) true.

Lemma disconnected_app q r :
  disconnected (mkQueue (q_Channel q ++ [r]) true) =
  disconnected q || bool_decide (rq_Type r = DISCONNECTED).
Proof. unfold disconnected. simpl. rewrite existsb_app. simpl. by rewrite orb_false_r. Qed.

Lemma kill_node_ok st l :
  answering st l →
  ∃ st', kill_node st l = Ok (Some st') ∧
    (∀ l', m_nodes st' !! l' = (if decide (l' = l) then killed <$> m_nodes st !! l'
                                else m_nodes st !! l')) ∧
    (∀ l', answering st l' → answering st' l').
Proof.
  intros (node & q & Hn & Hq & Hd). unfold kill_node, node_at, queue_at.
  rewrite Hn, require_Some, bind_Ok, Hq, require_Some, bind_Ok. cbn [alloc].
  unfold RequestAndClose, queue_at. cbn. rewrite Hq, require_Some, bind_Ok, Hd.
  eexists. split; [done|]. cbn. split.
  - intros l'. destruct (decide (l' = l)) as [->|].
    + by rewrite lookup_insert_eq, Hn.
    + by rewrite lookup_insert_ne.
  - intros l' (n' & q' & Hn' & Hq' & Hd').
    assert (∃ n1, <[l:=mkNodeMetadata (nm_Id node) (nm_Keys node) (nm_RequestQueue node) true]>
      (m_nodes st) !! l' = Some n1 ∧ nm_RequestQueue n1 = nm_RequestQueue n') as (n1 & Hn1 & Hr).
    { destruct (decide (l' = l)) as [->|].
      - rewrite lookup_insert_eq. simplify_eq. eauto.
      - rewrite lookup_insert_ne by done. eauto. }
    unfold answering. cbn. destruct (decide (nm_RequestQueue n' = nm_RequestQueue node)) as [E|E].
    + eexists _, _. split; [done|]. rewrite Hr, E, lookup_insert_eq. split; [done|].
      rewrite disconnected_app, Hd. done.
    + eexists _, q'. split; [done|]. rewrite Hr, lookup_insert_ne by done. done.
Qed.

Lemma kill_loop_ok ls st :
  (∀ l, l ∈ ls → answering st l) →
  ∃ st', kill_loop st ls = Ok (Some st') ∧
    ∀ l, m_nodes st' !! l = (if decide (l ∈ ls) then killed <$> m_nodes st !! l
                             else m_nodes st !! l).
Proof.
  revert st; induction ls as [|l ls IH]; intros st H; simpl.
  - exists st. split; [done|]. intros l. by destruct (decide (l ∈ [])) as [?%elem_of_nil|].
  - destruct (kill_node_ok st l) as (st1 & -> & H1 & H2); [apply H; set_solver|].
    rewrite bind_Ok. destruct (IH st1) as (st' & -> & H3).
    { intros l' Hl'. apply H2, H. set_solver. }
    exists st'. split; [done|]. intros l'. rewrite H3, H1.
    destruct (decide (l' ∈ ls)), (decide (l' = l)) as [E|E],
      (decide (l' ∈ l :: ls)); try done; try set_solver; subst.
    by destruct (m_nodes st !! l).
Qed.

(** ** Disconnections *)

(** A key lists a node only if the node lists the key. *)
Definition linked (st : meta) : Prop :=
  ∀ key kl km id l, KeyMap st !! key = Some kl → m_keys st !! kl = Some km →
    km_Nodes km !! id = Some l →
    NodeMap st !! id = Some l ∧ ∃ node, m_nodes st !! l = Some node ∧ is_Some (nm_Keys node !! key).

(** Every key has an object of its own. *)
Definition keys_known (st : meta) : Prop :=
  (∀ key kl, KeyMap st !! key = Some kl → is_Some (m_keys st !! kl)) ∧
  (∀ k1 k2 kl, KeyMap st !! k1 = Some kl → KeyMap st !! k2 = Some kl → k1 = k2).

Lemma forget_loop st id ks :
  keys_known st → (∀ key, key ∈ ks → is_Some (KeyMap st !! key)) →
  ∃ st', foldM (λ st key,
           kl ← require NilPointer (KeyMap st !! key);
           upd_key st kl (with_Nodes (delete id))) st ks = Ok st' ∧
    KeyMap st' = KeyMap st ∧ NodeMap st' = NodeMap st ∧ m_nodes st' = m_nodes st ∧
    ∀ key kl km, KeyMap st !! key = Some kl → m_keys st !! kl = Some km →
      m_keys st' !! kl = Some (if decide (key ∈ ks) then with_Nodes (delete id) km else km).
Proof.
  intros Hst Hks. revert st Hst Hks; induction ks as [|k ks IH]; intros st Hst Hks.
  - exists st. split_and!; [done..|]. intros key kl km _ Hk.
    by destruct (decide (key ∈ [])) as [?%elem_of_nil|].
  - cbn [foldM]. destruct (Hks k) as [kl Hkl]; [set_solver|]. destruct Hst as [Hst Hinj].
    destruct (Hst k kl Hkl) as [km Hkm].
    rewrite Hkl, require_Some, bind_Ok, (upd_key_ok _ _ km) by done. rewrite bind_Ok.
    destruct (IH (set_keys (<[kl := with_Nodes (delete id) km]>) st))
      as (st' & Hf & E1 & E2 & E3 & H).
    + split; [|done]. simpl. intros key kl' Hkl'. destruct (decide (kl' = kl)) as [->|].
      * rewrite lookup_insert_eq. eauto.
      * rewrite lookup_insert_ne by done. eauto.
    + intros key Hkey. apply Hks. set_solver.
    + exists st'. split; [done|]. split_and!; [done..|]. intros key kl' km' Hkey Hkm'.
      destruct (decide (key = k)) as [->|Hne].
      * simplify_eq. rewrite (H k kl (with_Nodes (delete id) km)) by
          (simpl; rewrite ?lookup_insert_eq; done).
        rewrite (decide_True (P := k ∈ k :: ks)) by set_solver.
        destruct (decide (k ∈ ks)); [|done]. unfold with_Nodes. simpl.
        by rewrite delete_delete_eq.
      * rewrite (H key kl' km') by (simpl; rewrite ?lookup_insert_ne; naive_solver).
        destruct (decide (key ∈ ks)), (decide (key ∈ k :: ks)); done || set_solver.
Qed.

Lemma partition_loop_ok st nodesList keys :
  (∀ l, l ∈ nodesList → is_Some (m_nodes st !! l)) →
  ∃ plan, partition_loop st keys nodesList = Ok plan.
Proof.
  revert keys; induction nodesList as [|l nodesList IH]; intros keys H; simpl; [eauto|].
  destruct (H l) as [node Hn]; [set_solver|]. unfold node_at.
  rewrite Hn, require_Some, bind_Ok.
  destruct (decide (keys ∖ _ = ∅)); [rewrite bind_Ok; eauto|].
  destruct (IH (keys ∖ filter (λ key, nm_Keys node !! key = None) keys)) as [plan ->];
    [set_solver|]. rewrite bind_Ok. eauto.
Qed.

(** Every node of [NodeMap] has an object, whose keys are known. *)
Definition nodes_wf (st : meta) : Prop :=
  ∀ id l, NodeMap st !! id = Some l → ∃ node, m_nodes st !! l = Some node ∧
    ∀ key, is_Some (nm_Keys node !! key) → is_Some (KeyMap st !! key).

Lemma getNodesAsList_elem order m l :
  is_map_order order → l ∈ getNodesAsList order m ↔ ∃ id, m !! id = Some l.
Proof.
  intros Ho. unfold getNodesAsList. rewrite (Ho m), list_elem_of_fmap. split.
  - intros ([id l'] & -> & H%elem_of_map_to_list). eauto.
  - intros [id H]. exists (id, l). by rewrite elem_of_map_to_list.
Qed.

Lemma partitionAndReplicate_ok order Intn st keys :
  is_map_order order → draws_below Intn →
  (∀ id l, NodeMap st !! id = Some l → is_Some (m_nodes st !! l)) →
  ∃ nodesList plan,
    nodesList ≡ₚ getNodesAsList order (NodeMap st) ∧
    partition_loop st keys nodesList = Ok plan ∧
    partitionAndReplicate order Intn st keys = Ok plan.
Proof.
  intros Ho HI Hn. unfold partitionAndReplicate.
  destruct (randomizeNodes_ok Intn (getNodesAsList order (NodeMap st))
    (length (getNodesAsList order (NodeMap st)))) as (nl & -> & Hp); [done|done|].
  rewrite bind_Ok. destruct (partition_loop_ok st nl keys) as [plan E].
  - intros l. rewrite Hp, getNodesAsList_elem by done. intros [id Hid]. eauto.
  - exists nl, plan. by rewrite E.
Qed.

(** ** Properties *)


Definition sample_value : FeResponse := mkFeResponse 0 {[sample_key := mkKvValue 1 [x61]]} false false.


(** The values that are put in a new replica are, key by key, the newest
    among the responses that were read, and all the responses were read unless
    every key was found. *)
Theorem mergeReplicatingQuery_newest nodesUpto keysUpto rs :
  (nodesUpto ≤ length rs)%nat →
  ∃ m p, mergeReplicatingQuery nodesUpto keysUpto rs = Some m ∧ (p ≤ nodesUpto)%nat ∧
    merged (take p rs) m ∧ (p = nodesUpto ∨ (keysUpto ≤ size m)%nat).
Proof. intros Hl. exact (merge_loop_merged nodesUpto keysUpto ∅ [] rs merged_nil Hl). Qed.

Lemma mergeReplicatingQuery_newest_witness :
  ∃ m p, mergeReplicatingQuery 2 1 [unavailable_response; sample_value] = Some m ∧ (p ≤ 2)%nat ∧
    merged (take p [unavailable_response; sample_value]) m ∧ (p = 2 ∨ (1 ≤ size m))%nat.
Proof.
  apply (mergeReplicatingQuery_newest 2 1 [unavailable_response; sample_value]). simpl. lia.
Defined.

(** The keys of a lost node are shared out: each goes to at most one other
    node, one that does not have it yet, and a key is left only if every node
    has it. *)
Theorem partitionAndReplicate_shares order Intn st keys :
  is_map_order order → draws_below Intn →
  (∀ id l, NodeMap st !! id = Some l → is_Some (m_nodes st !! l)) →
  ∃ plan, partitionAndReplicate order Intn st keys = Ok plan ∧
    (∀ l ks, (l, ks) ∈ plan → (∃ id, NodeMap st !! id = Some l) ∧ ks ≠ ∅ ∧ ks ⊆ keys ∧
       ∃ node, m_nodes st !! l = Some node ∧ ∀ key, key ∈ ks → nm_Keys node !! key = None) ∧
    (∀ key, key ∈ keys → (∃ l ks, (l, ks) ∈ plan ∧ key ∈ ks) ∨
       ∀ id l node, NodeMap st !! id = Some l → m_nodes st !! l = Some node →
         is_Some (nm_Keys node !! key)) ∧
    (∀ i j l1 l2 ks1 ks2, plan !! i = Some (l1, ks1) → plan !! j = Some (l2, ks2) →
       i ≠ j → ks1 ## ks2).
Proof.
  intros Ho HI Hn.
  destruct (partitionAndReplicate_ok order Intn st keys Ho HI Hn) as (nl & plan & Hp & E & ->).
  apply partition_loop_spec in E as (R1 & R2 & R3). exists plan.
  assert (∀ l, l ∈ nl ↔ ∃ id, NodeMap st !! id = Some l) as Hin
    by (intros l; by rewrite Hp, getNodesAsList_elem).
  split; [done|]. split; [|split; [|done]].
  - intros l ks H. destruct (R1 l ks H) as (? & ? & ? & ?). by rewrite <-Hin.
  - intros key Hk. destruct (R2 key Hk) as [?|Hall]; [by left|right].
    intros id l node Hid. apply Hall, Hin. eauto.
Qed.

Definition sample_node (id : str) (q : loc) : NodeMetadata := mkNodeMetadata id ∅ q false.
Definition sample_nodes : meta :=
  mkMeta ∅ {[[x61] := 1%nat; [x62] := 2%nat]} ∅
    {[1%nat := sample_node [x61] 3%nat; 2%nat := sample_node [x62] 4%nat]}
    {[3%nat := mkQueue [] false; 4%nat := mkQueue [] false]} ∅ [] 5.

Lemma sample_nodes_known id l :
  NodeMap sample_nodes !! id = Some l → is_Some (m_nodes sample_nodes !! l).
Proof.
  cbn [NodeMap sample_nodes]. rewrite lookup_insert_Some, lookup_singleton_Some.
  intros [[<- <-]|[_ [<- <-]]]; by eexists.
Qed.

Lemma map_to_list_map_order : is_map_order map_to_list.
Proof. by intros m. Qed.
Lemma first_draw_below : draws_below (λ _ _, 0%nat).
Proof. by intros i n. Qed.

Lemma partitionAndReplicate_shares_witness :
  ∃ plan, partitionAndReplicate map_to_list (λ _ _, 0%nat) sample_nodes {[sample_key]} = Ok plan ∧
    ∀ key, key ∈ ({[sample_key]} : gset str) → (∃ l ks, (l, ks) ∈ plan ∧ key ∈ ks) ∨
       ∀ id l node, NodeMap sample_nodes !! id = Some l → m_nodes sample_nodes !! l = Some node →
         is_Some (nm_Keys node !! key).
Proof.
  destruct (partitionAndReplicate_shares map_to_list (λ _ _, 0%nat) sample_nodes {[sample_key]}
    map_to_list_map_order first_draw_below sample_nodes_known) as (plan & E & _ & H & _).
  exists plan. split; [exact E|exact H].
Defined.
