(* ===== verification/KvCommands.v ===== *)
(** The commands of the front end's clients, and the nodes that leave: what
    they do, and the calls that bring the front end down. *)
From Stdlib Require Import Strings.String.
From S2P Require Import Prelude GoText Framing KvNode KvMeta KvFrontEnd KvFrontProps.

Open Scope Z_scope.

(** ** Listing *)

Lemma list_live_ok st nodes :
  nodes_known st nodes →
  list_live st nodes = Ok (map fst (filter (λ p, live_node st p.2 = true) nodes)).
Proof.
  intros Hk. unfold list_live.
  enough (∀ acc, foldM (λ nodesList '(id, l), node ← node_at st l;
    if nm_Killed node then Ok nodesList else Ok (nodesList ++ [id])) acc nodes =
    Ok (acc ++ map fst (filter (λ p, live_node st p.2 = true) nodes))) as -> by done.
  induction nodes as [|[id l] nodes IH]; intros acc; cbn [foldM].
  - by rewrite app_nil_r.
  - destruct (Hk id l) as (node & q & Hn & _); [set_solver|].
    unfold node_at. rewrite Hn, require_Some, bind_Ok.
    assert (nodes_known st nodes) as Hk'
      by (intros id' l' Hin; apply (Hk id' l'); set_solver).
    assert (live_node st l = negb (nm_Killed node)) as E by (unfold live_node; by rewrite Hn).
    destruct (nm_Killed node); cbn [negb] in E; rewrite bind_Ok.
    + rewrite filter_cons_False by (cbn [snd]; by rewrite E). by apply IH.
    + rewrite filter_cons_True by done. rewrite IH by done. by rewrite <-app_assoc.
Qed.

(** ** Properties *)

(** [kill-replicas-of] kills as many replicas of the key as it is asked
    for, or all that live, no more, and answers their number. *)
Theorem kill_replicas_of_kills order st key kl km n :
  is_map_order order →
  KeyMap st !! key = Some kl → m_keys st !! kl = Some km →
  (∀ id l, km_Nodes km !! id = Some l → answering st l) → 0 < n →
  let victims := take (Z.to_nat n) (live_nodes st (order (km_Nodes km))) in
  ∃ st', kill_replicas_of order st key n = Ok (Some (st', length victims)) ∧
    ∀ l, m_nodes st' !! l =
      (if decide (l ∈ victims) then killed <$> m_nodes st !! l else m_nodes st !! l).
Proof.
  intros Ho Hkl Hkm Hans Hn victims. unfold kill_replicas_of, key_at.
  rewrite Hkl, Hkm, require_Some, bind_Ok.
  assert (nodes_known st (order (km_Nodes km))) as Hkn.
  { intros id l. rewrite (Ho _). intros Hin%elem_of_map_to_list.
    destruct (Hans id l Hin) as (node & q & ? & ? & _). eauto. }
  assert (length (live_nodes st (order (km_Nodes km))) ≤ size (km_Nodes km))%nat as Hlen.
  { unfold live_nodes. etrans; [apply length_filter|]. rewrite length_fmap, (Ho _).
    by rewrite length_map_to_list. }
  set (sz := Z.to_nat (Z.min (Z.of_nat (size (km_Nodes km))) n)).
  assert (take sz (live_nodes st (order (km_Nodes km))) = victims) as Hv.
  { unfold victims, sz. destruct (decide (Z.of_nat (size (km_Nodes km)) ≤ n)).
    - rewrite !take_ge by lia. done.
    - f_equal. lia. }
  assert (pick_loop st sz 0 (replicate sz 0%nat) (order (km_Nodes km)) = Ok victims) as ->.
  { destruct (decide (sz = 0)%nat) as [E|E].
    - rewrite E. assert (size (km_Nodes km) = 0)%nat as Hz by lia.
      assert (order (km_Nodes km) = []) as Ho'.
      { apply Permutation_nil_r. rewrite (Ho _). by rewrite (map_size_empty_inv _ Hz), map_to_list_empty. }
      unfold victims. rewrite Ho'. by destruct (Z.to_nat n).
    - rewrite (pick_loop_live st sz _ 0 [] (replicate sz 0%nat)) by
        (done || lia || (rewrite length_replicate; lia)).
      by rewrite Nat.sub_0_r, Hv. }
  rewrite bind_Ok. destruct (kill_loop_ok victims st) as (st' & -> & H).
  - intros l Hl. apply elem_of_take in Hl as (i & Hl%list_elem_of_lookup_2 & _).
    unfold live_nodes in Hl. apply list_elem_of_filter in Hl as [_ Hl].
    apply list_elem_of_fmap in Hl as ([id l'] & -> & Hin). rewrite (Ho _) in Hin.
    apply elem_of_map_to_list in Hin. by apply (Hans id).
  - rewrite bind_Ok. exists st'. done.
Qed.

Definition sample_ids : gmap str loc := {[[x61] := 1%nat; [x62] := 2%nat]}.

Definition sample_replicas : meta :=
  set_keys (<[0%nat := mkKeyMetadata 1 false 0 sample_ids]>)
    (set_KeyMap (<[sample_key := 0%nat]>) sample_nodes).

Lemma sample_replicas_answer id l :
  km_Nodes (mkKeyMetadata 1 false 0 sample_ids) !! id = Some l →
  answering sample_replicas l.
Proof.
  cbn [km_Nodes]. unfold sample_ids. rewrite lookup_insert_Some, lookup_singleton_Some.
  intros [[<- <-]|[_ [<- <-]]]; by eexists _, _.
Qed.

Lemma kill_replicas_of_kills_witness :
  ∃ st', kill_replicas_of map_to_list sample_replicas sample_key 1 = Ok (Some (st', 1%nat)).
Proof.
  destruct (kill_replicas_of_kills map_to_list sample_replicas sample_key 0%nat
    (mkKeyMetadata 1 false 0 sample_ids) 1
    map_to_list_map_order eq_refl eq_refl sample_replicas_answer eq_refl) as (st' & E & _).
  exists st'. exact E.
Defined.

(** The text of a command with its arguments. *)
Definition kill_command (key n : str) : str := Join [lit "CMD"; lit "kill-replicas-of"; key; n] [space].

(** Two calls bring the front end down: a key shorter than three bytes,
    and a command to kill no replica of a key that has a live one. *)
Theorem Get_panics order st key :
  ((length key < 3)%nat → Get order st key = Panic SliceOutOfRange) ∧
  (∀ name kl km node l rest id,
     key = kill_command name (lit "0") → Fields key = [lit "CMD"; lit "kill-replicas-of"; name; lit "0"] →
     KeyMap st !! name = Some kl → m_keys st !! kl = Some km →
     order (km_Nodes km) = (id, l) :: rest →
     m_nodes st !! l = Some node → nm_Killed node = false →
     Get order st key = Panic IndexOutOfRange).
Proof.
  split.
  - intros Hl. unfold Get. by rewrite decide_True.
  - intros name kl km node l rest id -> HF Hkl Hkm Ho Hn Hk. unfold Get. rewrite HF.
    rewrite decide_False by (simpl; lia).
    rewrite decide_True by done. rewrite decide_True by done.
    change (Atoi (lit "0")) with (0, false). cbn [Z.ltb Z.compare].
    unfold kill_replicas_of, key_at. rewrite Hkl, Hkm, require_Some, bind_Ok, Ho.
    rewrite Z.min_r by lia. cbn [Z.to_nat replicate].
    by rewrite (pick_loop_zero _ _ _ _ _ Hn Hk).
Qed.

Lemma Get_panics_witness :
  Get map_to_list sample_replicas (kill_command sample_key (lit "0")) = Panic IndexOutOfRange.
Proof.
  destruct (map_to_list sample_ids) as [|[id l] rest] eqn:E;
    [by vm_compute in E|].
  apply (proj2 (Get_panics map_to_list sample_replicas (kill_command sample_key (lit "0")))
    sample_key 0%nat (mkKeyMetadata 1 false 0 sample_ids)
    (sample_node id (l + 2)) l rest id); try done.
  vm_compute in E. injection E as <- <- <-. by vm_compute.
Defined.

(** A command to kill a node whose goroutine has seen it disconnect waits
    for an answer that nobody sends, with the lock of the metadata held. *)
Theorem kill_waits_forever order st id l node q :
  NodeMap st !! id = Some l → m_nodes st !! l = Some node → nm_Killed node = false →
  m_queues st !! nm_RequestQueue node = Some q → disconnected q = true →
  Fields (Join [lit "CMD"; lit "kill-replica"; id] [space]) = [lit "CMD"; lit "kill-replica"; id] →
  ∃ st', Get order st (Join [lit "CMD"; lit "kill-replica"; id] [space]) = Ok (st', Waits).
Proof.
  intros Hid Hn Hk Hq Hd HF. unfold Get. rewrite HF.
  rewrite decide_False by (simpl; lia). rewrite decide_True by done.
  rewrite decide_False by done. rewrite decide_True by done.
  unfold kill_replica, kill_node, node_at, queue_at. rewrite Hid, Hn, require_Some, bind_Ok, Hk.
  rewrite bind_Ok, Hq, require_Some, bind_Ok. cbn [alloc].
  unfold RequestAndClose, queue_at. cbn. rewrite Hq, require_Some, bind_Ok, Hd.
  by eexists.
Qed.

Definition sample_gone : meta :=
  set_queues (<[3%nat := mkQueue [mkKvRequest DISCONNECTED [] ∅ None] true]>) sample_nodes.

Lemma kill_waits_forever_witness :
  ∃ st', Get map_to_list sample_gone (Join [lit "CMD"; lit "kill-replica"; [x61]] [space]) =
    Ok (st', Waits).
Proof.
  apply (kill_waits_forever map_to_list sample_gone [x61] 1%nat (sample_node [x61] 3%nat)
    (mkQueue [mkKvRequest DISCONNECTED [] ∅ None] true)); by vm_compute.
Defined.

(** When a node disconnects, no key lists it any more, its id is free, and
    the other nodes stay where they were. *)
Theorem nodes_disconnect_forgets order Intn st id l node :
  is_map_order order → draws_below Intn → linked st → keys_known st → nodes_wf st →
  NodeMap st !! id = Some l → m_nodes st !! l = Some node →
  ∃ st' started, nodes_disconnect order Intn st id = Ok (st', started) ∧
    NodeMap st' = delete id (NodeMap st) ∧
    ∀ key kl km, KeyMap st !! key = Some kl → m_keys st !! kl = Some km →
      ∃ km', m_keys st' !! kl = Some km' ∧ km_Nodes km' = delete id (km_Nodes km).
Proof.
  intros Ho HI Hli Hkk Hwf Hid Hn. unfold nodes_disconnect, node_at.
  rewrite Hid, require_Some, bind_Ok, Hn, require_Some, bind_Ok.
  assert (∀ key, key ∈ (map_to_list (nm_Keys node)).*1 ↔ is_Some (nm_Keys node !! key)) as Hin.
  { intros key. rewrite list_elem_of_fmap. split.
    - intros ([k x] & -> & Hx%elem_of_map_to_list). eauto.
    - intros [x Hx]. exists (key, x). by rewrite elem_of_map_to_list. }
  destruct (forget_loop st id (map_to_list (nm_Keys node)).*1 Hkk)
    as (st' & -> & E1 & E2 & E3 & H).
  { intros key Hkey%Hin. destruct (Hwf id l Hid) as (node' & Hn' & Hk). simplify_eq. eauto. }
  rewrite bind_Ok.
  destruct (partitionAndReplicate_ok order Intn (set_NodeMap (delete id) st')
    (dom (nm_Keys node)) Ho HI) as (nl & plan & _ & _ & ->).
  { intros id' l'. simpl. rewrite E2, E3. intros [_ Hid']%lookup_delete_Some.
    destruct (Hwf id' l' Hid') as (? & ? & _). eauto. }
  rewrite bind_Ok. eexists _, plan. split; [done|]. split; [by rewrite <-E2|].
  intros key kl km Hkl Hkm. simpl. rewrite (H key kl km Hkl Hkm). eexists. split; [done|].
  destruct (decide _) as [Hd|Hd]; [done|]. rewrite delete_id; [done|].
  destruct (km_Nodes km !! id) as [l'|] eqn:Hl'; [|done]. destruct Hd. apply Hin.
  destruct (Hli key kl km id l' Hkl Hkm Hl') as (Hid' & node' & Hn' & Hs). by simplify_eq.
Qed.

Definition sample_linked : meta :=
  mkMeta {[sample_key := 0%nat]} {[[x61] := 1%nat; [x62] := 2%nat]}
    {[0%nat := mkKeyMetadata 1 false 0 {[[x61] := 1%nat]}]}
    {[1%nat := mkNodeMetadata [x61] {[sample_key := 0%nat]} 3 false;
      2%nat := mkNodeMetadata [x62] ∅ 4 false]}
    {[3%nat := mkQueue [] false; 4%nat := mkQueue [] false]} ∅ [] 5.

Lemma sample_linked_ok : linked sample_linked ∧ keys_known sample_linked ∧ nodes_wf sample_linked.
Proof.
  unfold linked, keys_known, nodes_wf. split; [|split; [split|]]; cbn [sample_linked KeyMap NodeMap].
  - intros key kl km id l [<- <-]%lookup_singleton_Some. cbn [sample_linked m_keys].
    rewrite lookup_singleton_eq. intros [= <-]. cbn [km_Nodes]. intros [<- <-]%lookup_singleton_Some.
    split; [done|]. eexists. split; [done|]. by eexists.
  - intros key kl [<- <-]%lookup_singleton_Some. by eexists.
  - by intros k1 k2 kl [<- <-]%lookup_singleton_Some [<- _]%lookup_singleton_Some.
  - intros id l. cbn [sample_linked NodeMap]. rewrite lookup_insert_Some, lookup_singleton_Some.
    intros [[<- <-]|[_ [<- <-]]]; (eexists; split; [done|]); cbn [nm_Keys]; intros key [x Hx].
    + apply lookup_singleton_Some in Hx as [<- <-]. by eexists.
    + by rewrite lookup_empty in Hx.
Qed.

Lemma nodes_disconnect_forgets_witness :
  ∃ st' started, nodes_disconnect map_to_list (λ _ _, 0%nat) sample_linked [x61] = Ok (st', started).
Proof.
  destruct sample_linked_ok as (H1 & H2 & H3).
  destruct (nodes_disconnect_forgets map_to_list (λ _ _, 0%nat) sample_linked [x61] 1%nat
    (mkNodeMetadata [x61] {[sample_key := 0%nat]} 3 false) map_to_list_map_order
    first_draw_below H1 H2 H3 eq_refl eq_refl) as (st' & started & E & _).
  by exists st', started.
Defined.

(** The front end does not survive two races: two nodes that connect with
    one id and both leave; and a node that leaves between its answer to a
    replication and the end of that turn, which puts it back among the nodes
    of the key, so that the next replication of the key finds a nil node. *)
Theorem lost_nodes_panic :
  (∀ factor order Intn st id q1 q2 st1 st2 st3 r1 r2 r3,
     nodes_connect factor st id q1 = Ok (st1, r1) →
     nodes_connect factor st1 id q2 = Ok (st2, r2) →
     nodes_disconnect order Intn st2 id = Ok (st3, r3) →
     nodes_disconnect order Intn st3 id = Panic NilPointer) ∧
  (let order := map_to_list in
   let answer := mkFeResponse 0 {[sample_key := mkKvValue 1 []]} false false in
   ('(st, _) ← nodes_disconnect order (λ _ _, 0%nat) sample_linked [x62];
    '(st, _) ← repl_finish st 2 {[sample_key]} answer;
    nodesMap ← repl_nodes st {[sample_key]};
    '(st, _) ← repl_query st nodesMap {[sample_key]};
    Ok st) = Panic NilPointer).
Proof.
  split; [|by vm_compute].
  intros factor order Intn st id q1 q2 st1 st2 st3 r1 r2 r3 _ _ H.
  unfold nodes_disconnect in H. apply bind_Ok_inv in H as (l & _ & H).
  apply bind_Ok_inv in H as (node & _ & H). apply bind_Ok_inv in H as (st' & _ & H).
  apply bind_Ok_inv in H as (started & _ & H). injection H as <- _.
  unfold nodes_disconnect. simpl. by rewrite lookup_delete_eq.
Qed.

Lemma lost_nodes_panic_witness :
  ∃ st3 r, ('(st1, _) ← nodes_connect 0 empty_meta [x61] 8;
            '(st2, _) ← nodes_connect 0 st1 [x61] 9;
            nodes_disconnect map_to_list (λ _ _, 0%nat) st2 [x61]) = Ok (st3, r) ∧
    nodes_disconnect map_to_list (λ _ _, 0%nat) st3 [x61] = Panic NilPointer.
Proof.
  eexists _, _. split; [reflexivity|].
  eapply (proj1 lost_nodes_panic 0%nat map_to_list (λ _ _, 0%nat) empty_meta [x61] 8%nat 9%nat);
    reflexivity.
Defined.
