(* ===== verification/KvSystem.v ===== *)
(** The key-value store as one transition system: the main routine of the
    front end, the goroutines of its filters and of its nodes, clients,
    replication, nodes that come and go
    (CPSC418/assignment4/kv-front-end.go and kv-node.go).

    A routine gives up the lock of the metadata between its steps, so the
    steps of the routines interleave. A node is the queue of the requests sent
    to it: what it holds follows from them. *)
From S2P Require Import Prelude Utf8 GoText Framing KvNode KvMeta KvJson KvFrontEnd KvFrontProps.

Open Scope Z_scope.

(** ** What a node holds *)

(** The entry of a key after the requests of a queue. *)
Definition held (rqs : list KvRequest) (k : str) : KvValue :=
  default zero_value (foldl key_step None (asks k (plain_args <$> rqs))).

(** The argument of a request for a key, as the node sees it. *)
Definition ask (rq : KvRequest) (k : str) : option KeyArg :=
  if decide (rq_Type rq = KILL) then None else rq_Keys rq !! k.

Definition value_step (v : KvValue) (a : KeyArg) : KvValue :=
  default zero_value (key_step (Some v) a).

Lemma key_step_default o a :
  default zero_value (key_step o a) = value_step (default zero_value o) a.
Proof.
  unfold value_step, key_step. change (mkKvValue 0 []) with zero_value. cbn [default from_option].
  repeat case_decide; done.
Qed.

Lemma held_nil k : held [] k = zero_value.
Proof. done. Qed.

Lemma held_snoc rqs rq k :
  held (rqs ++ [rq]) k =
  match ask rq k with Some a => value_step (held rqs k) a | None => held rqs k end.
Proof.
  unfold held, ask. rewrite fmap_app. unfold asks. rewrite omap_app, foldl_app.
  cbn [fmap list_fmap omap list_omap plain_args arg_Kill arg_Keys].
  case_bool_decide as Hk; [by rewrite decide_True|]. rewrite decide_False by done.
  destruct (rq_Keys rq !! k) as [a|]; cbn [foldl]; [apply key_step_default|done].
Qed.

Lemma held_run order rqs k :
  is_order order → held rqs k = kv_get (run order ∅ (plain_args <$> rqs)) k.
Proof. intros Ho. unfold held, kv_get. by rewrite run_lookup. Qed.

(** ** The writes of a key *)

(** The value of a key after its first [u] writes. *)
Definition value_at (w : list str) (u : nat) : str := default [] ((([] : str) :: w) !! u).

(** The entry of a node that is at the [u]-th write. *)
Definition version_at (w : list str) (u : nat) : KvValue := mkKvValue (Z.of_nat u) (value_at w u).

Definition legit (w : list str) (v : KvValue) : Prop := ∃ u, (u ≤ length w)%nat ∧ v = version_at w u.

Lemma value_at_app w x u : (u ≤ length w)%nat → value_at (w ++ [x]) u = value_at w u.
Proof.
  intros Hu. unfold value_at. rewrite app_comm_cons, lookup_app_l; [done|simpl; lia].
Qed.

Lemma value_at_last w x : value_at (w ++ [x]) (S (length w)) = x.
Proof.
  unfold value_at. rewrite app_comm_cons, lookup_app_r by (simpl; lia).
  simpl length. by rewrite Nat.sub_diag.
Qed.

Lemma legit_app w x v : legit w v → legit (w ++ [x]) v.
Proof.
  intros (u & Hu & ->). exists u. rewrite length_app. split; [lia|].
  unfold version_at. by rewrite value_at_app.
Qed.

Lemma legit_zero w : legit w zero_value.
Proof. exists 0%nat. split; [lia|done]. Qed.

Lemma legit_version w v : legit w v → 0 ≤ kv_Version v ≤ Z.of_nat (length w) ∧ v = version_at w (Z.to_nat (kv_Version v)).
Proof. intros (u & Hu & ->). simpl. rewrite Nat2Z.id. split; [lia|done]. Qed.

(** A request that writes nothing new: it reads, or it copies a version. *)
Definition quiet_arg (w : list str) (a : KeyArg) : Prop :=
  ka_Type a = GET ∨ ka_Type a = QUERY ∨
  ka_Type a = PUT ∧ legit w (mkKvValue (ka_Version a) (ka_NewVal a)).

(** A write is a [PUT] or a [TEST_PUT]; the latter may leave the value as it is. *)
Definition is_write (a : KeyArg) : Prop := ka_Type a = PUT ∨ ka_Type a = TEST_PUT.
#[export] Instance is_write_dec a : Decision (is_write a) := _.

Definition written (a : KeyArg) (v : str) : str :=
  if decide (ka_Type a = PUT) then ka_NewVal a
  else if decide (v = ka_TestVal a) then ka_NewVal a else v.

Lemma value_step_read v a : ka_Type a = GET ∨ ka_Type a = QUERY → value_step v a = v.
Proof. unfold value_step, key_step. by intros [-> | ->]. Qed.

Lemma value_step_write v a :
  is_write a →
  value_step v a =
  if kv_Version v <? ka_Version a then mkKvValue (ka_Version a) (written a (kv_Value v)) else v.
Proof.
  unfold value_step, key_step, written. cbn [default from_option].
  by intros [-> | ->]; simpl; destruct (_ <? _).
Qed.

Lemma quiet_value_step w v a :
  legit w v → quiet_arg w a →
  legit w (value_step v a) ∧ kv_Version v ≤ kv_Version (value_step v a).
Proof.
  intros Hv [Ha|[Ha|[Ha Hl]]]; [rewrite value_step_read by auto; auto with lia..|].
  rewrite value_step_write by (by left). unfold written. rewrite decide_True by done.
  destruct (Z.ltb_spec (kv_Version v) (ka_Version a)); cbn; (split; [done|lia]).
Qed.

(** ** The system *)

(** Where the main routine is in its turn. *)
Inductive main_pc : Type :=
  | Idle
  | Locked (nodes : list loc) (kl : loc) (unavailable : bool) (request : KvRequest)
  | Filtered (nodes : list loc) (kl : loc) (request : KvRequest)
  | Sending (nodes : list loc) (kl : loc) (request : KvRequest).

(** The metadata, [requestChannel] and the main routine; and, as the
    specification of the store, the values written to each key, and for each
    request that was given a place among them its key, its argument and the
    number of writes at that place. *)
Record kv_system : Type := mkSystem {
  ks_meta : meta;
  ks_requests : list KvRequest;
  ks_pc : main_pc;
  ks_writes : gmap str (list str);
  ks_point : gmap loc (str * KeyArg * nat)
}.

Definition initial : kv_system := mkSystem empty_meta [] Idle ∅ ∅.

Definition writes (w : gmap str (list str)) (k : str) : list str := default [] (w !! k).

Definition new_writes (w : list str) (a : KeyArg) : list str :=
  if decide (is_write a) then w ++ [written a (value_at w (length w))] else w.

(** A response that a node gives: the one to request [i] of its queue, both
    of them over JSON. *)
Definition gives (q : KvRequestQueue) (i : nat) (r : FeResponse) : Prop :=
  ∃ order rq, is_order order ∧ q_Channel q !! i = Some rq ∧ fr_Unavailable r = false ∧
    fr_Values r =
      json_map json_value
        (resp_Values (handle_args order (run order ∅ (as_args <$> take i (q_Channel q)))
                        (as_args rq)).2).

(** The same of strings that JSON does not change. *)
Definition plain_gives (q : KvRequestQueue) (i : nat) (r : FeResponse) : Prop :=
  ∃ order rq, is_order order ∧ q_Channel q !! i = Some rq ∧ fr_Unavailable r = false ∧
    fr_Values r =
      resp_Values (handle_args order (run order ∅ (plain_args <$> take i (q_Channel q)))
                     (plain_args rq)).2.

(** A response that can come on channel [c]: what a node answers to a request
    with that channel, or the word that it is gone. *)
Definition comes (st : meta) (c : loc) (r : FeResponse) : Prop :=
  (∃ ql q i rq, m_queues st !! ql = Some q ∧ q_Channel q !! i = Some rq ∧ rq_Channel rq = Some c ∧
     (fr_Unavailable r = true ∨ gives q i r)) ∨
  fr_Unavailable r = true ∧ (c, r) ∈ m_sent st.

(** What some node answered to a query, or that it is gone. *)
Definition queried (st : meta) (r : FeResponse) : Prop :=
  fr_Unavailable r = true ∨ ∃ ql q i rq, m_queues st !! ql = Some q ∧ q_Channel q !! i = Some rq ∧
    rq_Type rq ≠ KILL ∧ (∀ k a, rq_Keys rq !! k = Some a → ka_Type a = QUERY) ∧ gives q i r.

Definition with_meta (st : meta) (s : kv_system) : kv_system :=
  mkSystem st (ks_requests s) (ks_pc s) (ks_writes s) (ks_point s).

(** A client calls: its request waits on [requestChannel]. *)
Definition issue (s : kv_system) (p : meta * outcome) : kv_system :=
  mkSystem p.1 (ks_requests s ++ match p.2 with Forward r => [r] | _ => [] end)
    (ks_pc s) (ks_writes s) (ks_point s).

(** The main routine numbers a request: its place among the writes. *)
Definition numbered (s : kv_system) (st : meta) (nodes : list loc) (kl : loc) (request : KvRequest)
    : kv_system :=
  let k := rq_Key request in
  match rq_Keys request !! k, rq_Channel request with
  | Some a, Some c =>
      let w := new_writes (writes (ks_writes s) k) a in
      mkSystem st (ks_requests s) (Sending nodes kl request) (<[k := w]> (ks_writes s))
        (<[c := (k, a, length w)]> (ks_point s))
  | _, _ => s
  end.

(** [sends] says which strings clients put in their calls. *)
Inductive kv_step (sends : str → Prop) (replicationFactor : nat) (s : kv_system) : kv_system → Prop :=
  | step_Get order key st' oc :
      sends key →
      Get order (ks_meta s) key = Ok (st', oc) →
      kv_step sends replicationFactor s (issue s (st', oc))
  | step_Put key val :
      sends key → sends val → kv_step sends replicationFactor s (issue s (Put (ks_meta s) key val))
  | step_TestSet key testVal newVal :
      sends key → sends testVal → sends newVal →
      kv_step sends replicationFactor s (issue s (TestSet (ks_meta s) key testVal newVal))
  | step_lock order Intn request requests st' nodes kl unavailable :
      is_map_order order →
      ks_pc s = Idle → ks_requests s = request :: requests →
      main_lock order Intn replicationFactor (ks_meta s) request = Ok (st', nodes, kl, unavailable) →
      kv_step sends replicationFactor s
        (mkSystem st' requests (Locked nodes kl unavailable request) (ks_writes s) (ks_point s))
  | step_refuse nodes kl unavailable request st' :
      ks_pc s = Locked nodes kl unavailable request →
      unavailable || bool_decide (nodes = []) = true →
      main_refuse (ks_meta s) request kl unavailable = Ok st' →
      kv_step sends replicationFactor s (mkSystem st' (ks_requests s) Idle (ks_writes s) (ks_point s))
  | step_filter nodes kl unavailable request st' c :
      ks_pc s = Locked nodes kl unavailable request →
      unavailable || bool_decide (nodes = []) = false →
      filterChannelUnavailable (ks_meta s) (length nodes) (rq_Channel request) kl = (st', c) →
      kv_step sends replicationFactor s
        (mkSystem st' (ks_requests s)
           (Filtered nodes kl (mkKvRequest (rq_Type request) (rq_Key request) (rq_Keys request) (Some c)))
           (ks_writes s) (ks_point s))
  | step_version nodes kl request st' request' :
      ks_pc s = Filtered nodes kl request →
      Z.of_nat (length (writes (ks_writes s) (rq_Key request))) + 1 < 2 ^ 64 →
      main_version (ks_meta s) request kl = Ok (st', request') →
      kv_step sends replicationFactor s (numbered s st' nodes kl request')
  | step_send l nodes kl request st' :
      ks_pc s = Sending (l :: nodes) kl request →
      main_send (ks_meta s) request [l] = Ok st' →
      kv_step sends replicationFactor s
        (mkSystem st' (ks_requests s) (Sending nodes kl request) (ks_writes s) (ks_point s))
  | step_sent kl request :
      ks_pc s = Sending [] kl request →
      kv_step sends replicationFactor s
        (mkSystem (ks_meta s) (ks_requests s) Idle (ks_writes s) (ks_point s))
  | step_receive c r st' :
      comes (ks_meta s) c r →
      filter_receive (ks_meta s) c r = Ok st' →
      kv_step sends replicationFactor s (with_meta st' s)
  | step_queue st' ql :
      node_queue (ks_meta s) = (st', ql) →
      kv_step sends replicationFactor s (with_meta st' s)
  | step_connect id ql st' started :
      is_Some (m_queues (ks_meta s) !! ql) →
      nodes_connect replicationFactor (ks_meta s) id ql = Ok (st', started) →
      kv_step sends replicationFactor s (with_meta st' s)
  | step_lost ql st' :
      RequestAndClose (ks_meta s) ql (mkKvRequest DISCONNECTED [] ∅ None) = Ok st' →
      kv_step sends replicationFactor s (with_meta st' s)
  | step_disconnect order Intn id st' started :
      nodes_disconnect order Intn (ks_meta s) id = Ok (st', started) →
      kv_step sends replicationFactor s (with_meta st' s)
  | step_query nodesMap keys st' c :
      keys ⊆ dom (KeyMap (ks_meta s)) →
      repl_query (ks_meta s) nodesMap keys = Ok (st', c) →
      kv_step sends replicationFactor s (with_meta st' s)
  | step_copy nodesUpto keysUpto asked l requestKeys st' c :
      Forall (queried (ks_meta s)) asked →
      mergeReplicatingQuery nodesUpto keysUpto asked = Some requestKeys →
      repl_put (ks_meta s) l requestKeys = Ok (st', c) →
      kv_step sends replicationFactor s (with_meta st' s)
  | step_finish l keys put st' keys' ql q i :
      nm_RequestQueue <$> m_nodes (ks_meta s) !! l = Some ql →
      m_queues (ks_meta s) !! ql = Some q → gives q i put →
      repl_finish (ks_meta s) l keys put = Ok (st', keys') →
      kv_step sends replicationFactor s (with_meta st' s).

Abbreviation reachable sends replicationFactor := (rtc (kv_step sends replicationFactor) initial).
