(* ===== verification/KvUtf8.v ===== *)
(** While the keys and the values in the calls of clients are UTF-8, so are
    all the strings of the key-value store, and the JSON between the front end
    and the nodes changes none of them
    (CPSC418/assignment4/kv-front-end.go and kv-node.go). *)
From S2P Require Import Prelude Utf8 GoText Framing KvNode KvMeta KvJson KvFrontEnd KvSystem.

Open Scope Z_scope.

(** ** The metadata *)

Record meta_utf8 (st : meta) : Prop := {
  u_keys k : is_Some (KeyMap st !! k) → utf8 k;
  u_queues ql q : m_queues st !! ql = Some q → Forall request_utf8 (q_Channel q)
}.

(** Most operations touch neither the keys nor the queues. *)
Lemma meta_utf8_same st st' :
  KeyMap st' = KeyMap st → m_queues st' = m_queues st → meta_utf8 st → meta_utf8 st'.
Proof. intros Hk Hq []. split; [rewrite Hk|rewrite Hq]; done. Qed.

Lemma send_utf8 st c r : meta_utf8 st → meta_utf8 (send st c r).
Proof. by destruct c; [apply meta_utf8_same|]. Qed.

Lemma append_utf8 st ql q rq closed :
  meta_utf8 st → m_queues st !! ql = Some q → request_utf8 rq →
  meta_utf8 (set_queues (<[ql := mkQueue (q_Channel q ++ [rq]) closed]>) st).
Proof.
  intros [Hk Hqs] Hq Hrq. split; [done|]. cbn. intros ql' q' [[<- <-]|[_ Hq']]%lookup_insert_Some.
  - cbn. apply Forall_app. split; [by eapply Hqs|by apply Forall_singleton].
  - by eapply Hqs.
Qed.

Lemma Request_utf8 st ql rq st' :
  meta_utf8 st → request_utf8 rq → Request st ql rq = Ok st' → meta_utf8 st'.
Proof.
  unfold Request, queue_at. intros Hst Hrq H. apply bind_Ok_inv in H as (q & Hq%require_Ok_inv & H).
  destruct (q_Closed q); injection H as <-; [by apply send_utf8|by apply append_utf8].
Qed.

Lemma RequestAndClose_utf8 st ql rq st' :
  meta_utf8 st → request_utf8 rq → RequestAndClose st ql rq = Ok st' → meta_utf8 st'.
Proof.
  unfold RequestAndClose, queue_at. intros Hst Hrq H. apply bind_Ok_inv in H as (q & Hq%require_Ok_inv & H).
  injection H as <-. by apply append_utf8.
Qed.

Lemma upd_key_utf8 st kl f st' : meta_utf8 st → upd_key st kl f = Ok st' → meta_utf8 st'.
Proof. intros Hst H. apply bind_Ok_inv in H as (km & _ & [= <-]). by apply meta_utf8_same with st. Qed.

Lemma upd_node_utf8 st l f st' : meta_utf8 st → upd_node st l f = Ok st' → meta_utf8 st'.
Proof. intros Hst H. apply bind_Ok_inv in H as (n & _ & [= <-]). by apply meta_utf8_same with st. Qed.

(** A fold keeps what its body keeps. *)
Lemma foldM_keeps {S A} (P : S → Prop) (f : S → A → res S) l s s' :
  (∀ s a s', P s → f s a = Ok s' → P s') → P s → foldM f s l = Ok s' → P s'.
Proof.
  intros Hf. revert s. induction l as [|a l IH]; intros s Hs; cbn; intros H; [by injection H as <-|].
  apply bind_Ok_inv in H as (s1 & H1 & H). eapply IH; [|exact H]. by eapply Hf.
Qed.

(** *** Clients *)

Lemma kill_utf8 c : request_utf8 (mkKvRequest KILL [] ∅ c).
Proof. apply keys_utf8_empty. Qed.

Lemma kill_node_utf8 st l st' : meta_utf8 st → kill_node st l = Ok (Some st') → meta_utf8 st'.
Proof.
  intros Hst H. unfold kill_node in H. apply bind_Ok_inv in H as (node & _ & H).
  apply bind_Ok_inv in H as (q & _ & H). cbn [alloc] in H. apply bind_Ok_inv in H as (st1 & H1 & H).
  apply RequestAndClose_utf8 in H1; [|by apply meta_utf8_same with st|apply kill_utf8].
  destruct (disconnected q); [done|]. injection H as <-. by apply meta_utf8_same with st1.
Qed.

Lemma kill_loop_utf8 st nodesList st' : meta_utf8 st → kill_loop st nodesList = Ok (Some st') → meta_utf8 st'.
Proof.
  revert st. induction nodesList as [|l nodesList IH]; intros st Hst H; [by injection H as <-|].
  cbn in H. apply bind_Ok_inv in H as ([st1|] & H1 & H); [|done]. eapply IH; [|exact H]. by eapply kill_node_utf8.
Qed.

(** A request of a client. *)
Definition client_utf8 (rq : KvRequest) : Prop := utf8 (rq_Key rq) ∧ request_utf8 rq.

Definition outcome_utf8 (oc : outcome) : Prop :=
  match oc with Forward rq => client_utf8 rq | _ => True end.

Lemma new_request_utf8 st key a :
  meta_utf8 st → utf8 key → arg_utf8 a →
  meta_utf8 (new_request st key a).1 ∧ client_utf8 (new_request st key a).2.
Proof.
  intros Hst Hk Ha. split; [by apply meta_utf8_same with st|]. split; [done|].
  apply (keys_utf8_insert ∅); [apply keys_utf8_empty|done..].
Qed.

Lemma Get_utf8 order st key st' oc :
  meta_utf8 st → utf8 key → Get order st key = Ok (st', oc) → meta_utf8 st' ∧ outcome_utf8 oc.
Proof.
  intros Hst Hk. pose proof (new_request_utf8 st key (mkKeyArg GET 0 [] []) Hst Hk (conj eq_refl eq_refl)) as Hf.
  assert (∀ p, Ok (forward_get st key) = Ok p → meta_utf8 p.1 ∧ outcome_utf8 p.2) as Hfwd
    by (intros p [= <-]; exact Hf).
  unfold Get. case_decide; [done|]. case_decide; [|apply (Hfwd (_, _))].
  destruct (Fields key) as [|? [|cmd [|arg [|n [|]]]]]; try apply (Hfwd (_, _)).
  - case_decide; [intros Hg; apply bind_Ok_inv in Hg as (v & _ & [= <- <-]); done|].
    case_decide; [|apply (Hfwd (_, _))]. intros Hg. apply bind_Ok_inv in Hg as (r & Hr & Hg).
    assert (match r with Some (st1, _) => meta_utf8 st1 | None => True end) as Hu.
    { unfold kill_replica in Hr. destruct (NodeMap st !! arg); [|by injection Hr as <-].
      apply bind_Ok_inv in Hr as (node & _ & Hr). destruct (nm_Killed node); [by injection Hr as <-|].
      apply bind_Ok_inv in Hr as ([st1|] & Hkill & [= <-]); [|done]. by eapply kill_node_utf8. }
    destruct r as [[st1 []]|]; injection Hg as <- <-; done.
  - case_decide; [|apply (Hfwd (_, _))]. destruct (Atoi n) as [m []]; [by intros [= <- <-]|].
    destruct (m <? 0); [by intros [= <- <-]|]. intros Hg. apply bind_Ok_inv in Hg as (r & Hr & Hg).
    assert (match r with Some (st1, _) => meta_utf8 st1 | None => True end) as Hu.
    { unfold kill_replicas_of in Hr. destruct (KeyMap st !! arg); [|by injection Hr as <-].
      apply bind_Ok_inv in Hr as (km & _ & Hr). apply bind_Ok_inv in Hr as (nodes & _ & Hr).
      apply bind_Ok_inv in Hr as ([st1|] & Hkill & [= <-]); [|done]. by eapply kill_loop_utf8. }
    destruct r as [[st1 k]|]; injection Hg as <- <-; done.
Qed.

(** *** The main routine *)

Lemma main_lock_utf8 order Intn rf st rq st' nodes kl u :
  meta_utf8 st → utf8 (rq_Key rq) → main_lock order Intn rf st rq = Ok (st', nodes, kl, u) → meta_utf8 st'.
Proof.
  intros Hst Hk H. unfold main_lock in H. apply bind_Ok_inv in H as ([[st1 nodes1] kl1] & H1 & H).
  apply bind_Ok_inv in H as (km & _ & H). apply bind_Ok_inv in H as (st2 & H2 & [= <- _ _ _]).
  eapply upd_key_utf8; [|exact H2]. clear H2. destruct (KeyMap st !! rq_Key rq) as [kl0|].
  - apply bind_Ok_inv in H1 as (km1 & _ & [= <- _ _]). done.
  - unfold prepareNodesForFirstReplication in H1. apply bind_Ok_inv in H1 as (list & _ & H1).
    cbn [alloc] in H1. apply bind_Ok_inv in H1 as (st3 & H3 & [= <- _ _]).
    eapply (foldM_keeps meta_utf8); [|..|exact H3].
    + intros s l s' Hs H. apply bind_Ok_inv in H as (node & _ & H). apply bind_Ok_inv in H as (nl & _ & H).
      apply bind_Ok_inv in H as (s1 & H1 & H). eapply upd_key_utf8; [|exact H]. by eapply upd_node_utf8.
    + destruct Hst as [Hkeys Hqs]. split; [|exact Hqs]. cbn. intros k [x [[<- _]|[_ Hx]]%lookup_insert_Some]; [done|].
      apply Hkeys. by eexists.
Qed.

Lemma main_refuse_utf8 st rq kl u st' : meta_utf8 st → main_refuse st rq kl u = Ok st' → meta_utf8 st'.
Proof.
  intros Hst H. apply bind_Ok_inv in H as (st1 & H1 & [= <-]). apply send_utf8.
  destruct u; [by injection H1 as <-|by eapply upd_key_utf8].
Qed.

Lemma main_version_utf8 st rq kl st' rq' :
  meta_utf8 st → client_utf8 rq → main_version st rq kl = Ok (st', rq') → meta_utf8 st' ∧ client_utf8 rq'.
Proof.
  intros Hst [Hk Hrq] H. unfold main_version in H. apply bind_Ok_inv in H as (a & Ha%require_Ok_inv & H).
  case_decide; [|by injection H as <- <-]. apply bind_Ok_inv in H as (st1 & H1 & H).
  apply bind_Ok_inv in H as (km & _ & [= <- <-]). split; [by eapply upd_key_utf8|]. split; [done|].
  apply keys_utf8_insert; [done..|]. destruct (Hrq _ _ Ha) as [_ Hau]. exact Hau.
Qed.

Lemma main_send_utf8 st rq nodes st' :
  meta_utf8 st → request_utf8 rq → main_send st rq nodes = Ok st' → meta_utf8 st'.
Proof.
  intros Hst Hrq. apply (foldM_keeps meta_utf8); [|done]. intros s l s' Hs H.
  apply bind_Ok_inv in H as (node & _ & H). by eapply Request_utf8.
Qed.

Lemma filter_receive_utf8 st c r st' : meta_utf8 st → filter_receive st c r = Ok st' → meta_utf8 st'.
Proof.
  intros Hst. unfold filter_receive. destruct (m_filters st !! c) as [f|]; [|by intros [= <-]].
  destruct (fr_Unavailable r).
  - case_decide; [intros [= <-]; by apply meta_utf8_same with st|]. intros Hu.
    apply bind_Ok_inv in Hu as (st1 & H1 & [= <-]). apply send_utf8.
    apply meta_utf8_same with st1; [done..|by eapply upd_key_utf8].
  - intros H. apply bind_Ok_inv in H as (km & _ & H). apply bind_Ok_inv in H as (st1 & H1 & [= <-]).
    apply send_utf8. apply meta_utf8_same with st1; [done..|by eapply upd_key_utf8].
Qed.

(** *** Nodes and replication *)

Lemma node_queue_utf8 st st' ql : meta_utf8 st → node_queue st = (st', ql) → meta_utf8 st'.
Proof.
  intros [Hk Hqs] [= <- _]. split; [done|]. cbn. intros ql' q [[_ <-]|[_ Hq]]%lookup_insert_Some; [constructor|].
  by eapply Hqs.
Qed.

Lemma nodes_connect_utf8 rf st id ql st' started :
  meta_utf8 st → nodes_connect rf st id ql = Ok (st', started) → meta_utf8 st'.
Proof.
  intros Hst H. unfold nodes_connect in H. cbn [alloc] in H.
  case_decide; [apply bind_Ok_inv in H as (keys & _ & [= <- _])|injection H as <- _];
    by apply meta_utf8_same with st.
Qed.

Lemma nodes_disconnect_utf8 order Intn st id st' started :
  meta_utf8 st → nodes_disconnect order Intn st id = Ok (st', started) → meta_utf8 st'.
Proof.
  intros Hst H. unfold nodes_disconnect in H. apply bind_Ok_inv in H as (l & _ & H).
  apply bind_Ok_inv in H as (node & _ & H). apply bind_Ok_inv in H as (st1 & H1 & H).
  apply bind_Ok_inv in H as (x & _ & [= <- _]). apply meta_utf8_same with st1; [done..|].
  eapply (foldM_keeps meta_utf8); [|exact Hst|exact H1]. intros s key s' Hs H.
  apply bind_Ok_inv in H as (kl & _ & H). by eapply upd_key_utf8.
Qed.

Lemma repl_query_utf8 st nodesMap keys st' c :
  meta_utf8 st → keys ⊆ dom (KeyMap st) → repl_query st nodesMap keys = Ok (st', c) → meta_utf8 st'.
Proof.
  intros Hst Hkeys H. unfold repl_query in H. cbn [alloc] in H. apply bind_Ok_inv in H as (st1 & H1 & [= <- _]).
  revert H1. apply (foldM_keeps meta_utf8); [|by apply meta_utf8_same with st].
  intros s [id ql] s' Hs H. apply bind_Ok_inv in H as (l & _ & H). apply bind_Ok_inv in H as (node & _ & H).
  eapply Request_utf8; [done| |exact H]. intros k a Ha. cbn in Ha.
  apply lookup_gset_to_gmap_Some in Ha as [Hk%Hkeys <-]. split; [|done].
  apply (u_keys _ Hst). by apply elem_of_dom in Hk.
Qed.

Lemma repl_put_utf8 st l requestKeys st' c :
  meta_utf8 st → keys_utf8 requestKeys → repl_put st l requestKeys = Ok (st', c) → meta_utf8 st'.
Proof.
  intros Hst Hkeys H. unfold repl_put in H. cbn [alloc] in H. apply bind_Ok_inv in H as (node & _ & H).
  apply bind_Ok_inv in H as (st1 & H1 & [= <- _]). eapply Request_utf8; [| |exact H1]; [by apply meta_utf8_same with st|exact Hkeys].
Qed.

Lemma repl_finish_utf8 st l keys put st' keys' :
  meta_utf8 st → repl_finish st l keys put = Ok (st', keys') → meta_utf8 st'.
Proof.
  intros Hst. apply (foldM_keeps (λ p : meta * gset str, meta_utf8 p.1) _ _ (st, keys) (st', keys')); [|done].
  intros [s ks] key [s' ks'] Hs. cbn [fst] in *. unfold repl_key. intros H.
  apply bind_Ok_inv in H as (kl & _ & H). apply bind_Ok_inv in H as (km & _ & H).
  destruct (decide _); [by injection H as <- _|]. destruct (fr_Values put !! key) as [v|]; [|by injection H as <- _].
  destruct (_ && _); [|by injection H as <- _]. apply bind_Ok_inv in H as (node & _ & H).
  apply bind_Ok_inv in H as (s1 & H1 & H). apply bind_Ok_inv in H as (s2 & H2 & [= <- _]).
  eapply upd_node_utf8; [|exact H2]. by eapply upd_key_utf8.
Qed.

(** *** What nodes answer *)

(** Over requests that are UTF-8, JSON changes nothing. *)
Lemma gives_plain q i r : Forall request_utf8 (q_Channel q) → gives q i r → plain_gives q i r.
Proof.
  intros Hq (order & rq & Ho & Hi & Hu & Hv). exists order, rq. split_and!; [done..|].
  assert (request_utf8 rq) as Hrq by (by eapply Forall_lookup_1).
  assert (Forall request_utf8 (take i (q_Channel q))) as Hpre by (by apply Forall_take).
  rewrite as_args_plain, run_as_args in Hv by done. rewrite Hv. apply json_values_plain.
  pose proof (run_utf8 order ∅ _ Ho values_utf8_empty Hpre) as Hm.
  pose proof (handle_args_utf8 order _ (plain_args rq) Ho Hm Hrq) as H. destruct (handle_args _ _ _). apply H.
Qed.

(** Whatever the requests are, what comes back over JSON is UTF-8. *)
Lemma gives_utf8 q i r : gives q i r → values_utf8 (fr_Values r).
Proof.
  intros (order & rq & _ & _ & _ & ->) k v Hv. split; [eapply json_map_keys; by eexists|].
  revert Hv. apply (json_map_values json_value (λ v, utf8 (kv_Value v))). intros w. apply to_utf8_utf8.
Qed.

Lemma queried_utf8 st r : queried st r → fr_Unavailable r = false → values_utf8 (fr_Values r).
Proof. intros [Hu|(ql & q & i & rq & _ & _ & _ & _ & Hg)] Hf; [congruence|]. by eapply gives_utf8. Qed.

Lemma merge_values_utf8 m values : keys_utf8 m → values_utf8 values → keys_utf8 (merge_values m values).
Proof.
  intros Hm. unfold merge_values. revert values.
  apply (map_fold_weak_ind (λ m' values, values_utf8 values → keys_utf8 m')); [done|].
  intros k v values m' Hk IH Hv.
  assert (keys_utf8 m') as Hm'.
  { apply IH. intros k' v' Hl. apply Hv. rewrite lookup_insert_ne; [done|]. intros <-. congruence. }
  destruct (Hv k v (lookup_insert_eq _ _ _)) as [Hku Hvu]. unfold merge_value.
  destruct (m' !! k) as [a|] eqn:E; [destruct (_ <? _); [|done]|]; apply keys_utf8_insert; try done.
  by destruct (Hm' _ _ E) as [_ []].
Qed.

Lemma merge_loop_utf8 st n keysUpto m rs m' :
  keys_utf8 m → Forall (queried st) rs → merge_loop n keysUpto m rs = Some m' → keys_utf8 m'.
Proof.
  revert m rs. induction n as [|n IH]; intros m rs Hm Hrs; cbn; [by intros [= <-]|].
  destruct rs as [|r rs]; [done|]. apply Forall_cons in Hrs as [Hr Hrs].
  destruct (fr_Unavailable r) eqn:Hu; [by apply IH|].
  pose proof (merge_values_utf8 m _ Hm (queried_utf8 _ _ Hr Hu)). case_decide; [by intros [= <-]|by apply IH].
Qed.

(** ** The system *)

Definition pc_utf8 (pc : main_pc) : Prop :=
  match pc with
  | Idle => True
  | Locked _ _ _ rq | Filtered _ _ rq | Sending _ _ rq => client_utf8 rq
  end.

Record kv_utf8 (s : kv_system) : Prop := {
  us_meta : meta_utf8 (ks_meta s);
  us_requests : Forall client_utf8 (ks_requests s);
  us_pc : pc_utf8 (ks_pc s)
}.

Lemma issue_utf8 s p : kv_utf8 s → meta_utf8 p.1 → outcome_utf8 p.2 → kv_utf8 (issue s p).
Proof.
  intros [_ Hr Hp] Hm Ho. split; [done| |done]. cbn. apply Forall_app. split; [done|].
  destruct p as [st []]; [apply Forall_nil_2..|by apply Forall_singleton|apply Forall_nil_2].
Qed.

Lemma with_meta_utf8 s st : kv_utf8 s → meta_utf8 st → kv_utf8 (with_meta st s).
Proof. by intros [] ?. Qed.

Lemma kv_utf8_initial : kv_utf8 initial.
Proof. split; [split; cbn; intros *|constructor|done]; [intros [? H]|intros H]; by rewrite lookup_empty in H. Qed.

Lemma kv_utf8_step rf s s' : kv_utf8 s → kv_step utf8 rf s s' → kv_utf8 s'.
Proof.
  intros Hs Hstep. pose proof Hs as [Hm Hr Hp].
  destruct Hstep as [order key st' oc Hk H|key val Hk Hv|key tv nv Hk Ht Hv
    |order Intn rq rqs st' nodes kl u _ Hpc Hreq H|nodes kl u rq st' Hpc _ H|nodes kl u rq st' c Hpc _ H
    |nodes kl rq st' rq' Hpc _ H|l nodes kl rq st' Hpc H|kl rq Hpc|c r st' _ H|st' ql H|id ql st' started _ H
    |ql st' H|order Intn id st' started H|nodesMap keys st' c Hkeys H|nu ku asked l rk st' c Ha Hmerge H
    |l keys put st' keys' ql q i _ _ _ H]; try rewrite Hpc in Hp; cbn [pc_utf8] in Hp.
  - destruct (Get_utf8 _ _ _ _ _ Hm Hk H). by apply issue_utf8.
  - destruct (new_request_utf8 (ks_meta s) key (mkKeyArg PUT 0 [] val) Hm Hk (conj eq_refl Hv)).
    by apply issue_utf8.
  - destruct (new_request_utf8 (ks_meta s) key (mkKeyArg TEST_PUT 0 tv nv) Hm Hk (conj Ht Hv)).
    by apply issue_utf8.
  - rewrite Hreq in Hr. apply Forall_cons in Hr as [[Hk Hrq] Hr]. split; [|done..].
    by eapply main_lock_utf8.
  - split; [by eapply main_refuse_utf8|done..].
  - split; [|done..]. injection H as <- _. by apply meta_utf8_same with (ks_meta s).
  - destruct (main_version_utf8 _ _ _ _ _ Hm Hp H). unfold numbered.
    destruct (rq_Keys rq' !! rq_Key rq'), (rq_Channel rq'); done.
  - split; [|done..]. destruct Hp. by eapply main_send_utf8.
  - done.
  - apply with_meta_utf8; [done|]. by eapply filter_receive_utf8.
  - apply with_meta_utf8; [done|]. by eapply node_queue_utf8.
  - apply with_meta_utf8; [done|]. by eapply nodes_connect_utf8.
  - apply with_meta_utf8; [done|]. eapply RequestAndClose_utf8; [done| |done]. apply keys_utf8_empty.
  - apply with_meta_utf8; [done|]. by eapply nodes_disconnect_utf8.
  - apply with_meta_utf8; [done|]. by eapply repl_query_utf8.
  - apply with_meta_utf8; [done|]. eapply repl_put_utf8; [done| |done].
    eapply merge_loop_utf8; [apply keys_utf8_empty|done..].
  - apply with_meta_utf8; [done|]. by eapply repl_finish_utf8.
Qed.
