(* ===== verification/KvInvariant.v ===== *)
(** The invariant of the key-value store, and the steps that do not belong to
    the main routine: clients, replication, nodes that come and go
    (CPSC418/assignment4/kv-front-end.go). *)
From S2P Require Import Prelude Utf8 GoText Framing KvNode KvMeta KvJson KvFrontEnd KvFrontProps KvSystem KvUtf8.

Open Scope Z_scope.

(** ** How the metadata changes *)

Definition queue_of (st : meta) (l : loc) : option loc := nm_RequestQueue <$> m_nodes st !! l.

(** Every object and every channel in use was allocated. *)
Record bounded (st : meta) : Prop := {
  b_keys kl : is_Some (m_keys st !! kl) → (kl < m_next st)%nat;
  b_nodes l : is_Some (m_nodes st !! l) → (l < m_next st)%nat;
  b_queues ql : is_Some (m_queues st !! ql) → (ql < m_next st)%nat;
  b_filters c : is_Some (m_filters st !! c) → (c < m_next st)%nat;
  b_filtered c f : m_filters st !! c = Some f → (f_key f < m_next st)%nat;
  b_callers c f d : m_filters st !! c = Some f → f_channel f = Some d → (d < m_next st)%nat;
  b_channels ql q rq c :
    m_queues st !! ql = Some q → rq ∈ q_Channel q → rq_Channel rq = Some c → (c < m_next st)%nat;
  b_sent c r : (c, r) ∈ m_sent st → (c < m_next st)%nat
}.

(** Requests that satisfy [P] are put at the end of a queue, and it may close. *)
Definition grown (P : KvRequest → Prop) (q q' : KvRequestQueue) : Prop :=
  ∃ more, q_Channel q' = q_Channel q ++ more ∧ Forall P more ∧
    (q_Closed q = true → q_Closed q' = true).

#[export] Instance grown_refl P : Reflexive (grown P).
Proof. intros q. exists []. by rewrite app_nil_r. Qed.
#[export] Instance grown_trans P : Transitive (grown P).
Proof.
  intros q1 q2 q3 (m1 & E1 & F1 & C1) (m2 & E2 & F2 & C2).
  exists (m1 ++ m2). rewrite E2, E1, app_assoc, Forall_app. auto.
Qed.

(** The metadata after requests that satisfy [P] were sent to nodes. *)
Record grows (P : KvRequest → Prop) (st st' : meta) : Prop := {
  gr_KeyMap : KeyMap st' = KeyMap st;
  gr_keys : m_keys st' = m_keys st;
  gr_filters : m_filters st' = m_filters st;
  gr_nodes l : queue_of st' l = queue_of st l;
  gr_next : (m_next st ≤ m_next st')%nat;
  gr_bounded : bounded st → bounded st';
  gr_queues ql : option_Forall2 (grown P) (m_queues st !! ql) (m_queues st' !! ql);
  gr_sent c r : (c, r) ∈ m_sent st' → (c, r) ∈ m_sent st ∨ ∃ rq, P rq ∧ rq_Channel rq = Some c
}.

#[export] Instance grows_refl P : Reflexive (grows P).
Proof. intros st. split; auto. intros ql. reflexivity. Qed.
#[export] Instance grows_trans P : Transitive (grows P).
Proof.
  intros st1 st2 st3 [] []. split; auto; try congruence; try lia.
  - intros ql. by transitivity (m_queues st2 !! ql).
  - intros c r Hc. destruct (gr_sent1 _ _ Hc) as [Hc'|]; eauto.
Qed.

Lemma sent_channel st c r d : m_sent (send st (Some c) r) = m_sent st ++ [(c, r)] ∧ (∀ x, (d, x) ∈ [(c, r)] → d = c).
Proof. split; [done|]. intros x Hx%list_elem_of_singleton. by injection Hx. Qed.

Lemma bounded_send st c r : bounded st → (∀ d, c = Some d → (d < m_next st)%nat) → bounded (send st c r).
Proof.
  intros Hb Hc. destruct c as [c|]; [|done]. destruct Hb. split; cbn in *; auto.
  intros d x [Hd|Hd%list_elem_of_singleton]%elem_of_app; [eauto|]. injection Hd as -> ->. eauto.
Qed.

Lemma bounded_alloc st : bounded st → bounded (alloc st).2.
Proof. intros []. split; cbn; intros; eapply Nat.lt_lt_succ_r; eauto. Qed.

Lemma bounded_append st ql q rq closed :
  bounded st → m_queues st !! ql = Some q →
  (∀ d, rq_Channel rq = Some d → (d < m_next st)%nat) →
  bounded (set_queues (<[ql := mkQueue (q_Channel q ++ [rq]) closed]>) st).
Proof.
  intros [] Hq Hd. split; cbn in *; auto.
  - intros ql'. destruct (decide (ql = ql')) as [<-|Hne]; [rewrite lookup_insert_eq|by rewrite lookup_insert_ne by done; auto].
    intros _. eauto.
  - intros ql' q' rq' c. destruct (decide (ql = ql')) as [<-|Hne].
    + rewrite lookup_insert_eq. intros [= <-]. cbn. intros [H|H%list_elem_of_singleton]%elem_of_app; subst; eauto.
    + rewrite lookup_insert_ne by done. eauto.
Qed.

Section Grows.
Context (P : KvRequest → Prop).

Lemma grows_append st ql q rq closed :
  m_queues st !! ql = Some q → P rq → (q_Closed q = true → closed = true) →
  (∀ d, bounded st → rq_Channel rq = Some d → (d < m_next st)%nat) →
  grows P st (set_queues (<[ql := mkQueue (q_Channel q ++ [rq]) closed]>) st).
Proof.
  intros Hq HP Hcl Hc. split; cbn; auto.
  - intros Hb. eapply bounded_append; eauto.
  - intros ql'. destruct (decide (ql = ql')) as [<-|Hne].
    + rewrite Hq, lookup_insert_eq. constructor. exists [rq]. auto using Forall_cons_2.
    + by rewrite lookup_insert_ne by done.
Qed.

Lemma grows_send st rq r :
  P rq → (∀ d, bounded st → rq_Channel rq = Some d → (d < m_next st)%nat) →
  grows P st (send st (rq_Channel rq) r).
Proof.
  intros HP Hc. assert (bounded st → bounded (send st (rq_Channel rq) r)) as Hb.
  { intros Hb. apply bounded_send; eauto. }
  destruct (rq_Channel rq) as [d|] eqn:E; [|reflexivity]. split; try done. intros c x. cbn. intros [H|H%list_elem_of_singleton]%elem_of_app; [auto|].
  right. exists rq. split; [done|]. injection H as -> _. done.
Qed.

Lemma grows_alloc st : grows P st (alloc st).2.
Proof. pose proof (bounded_alloc st). split; try done; cbn; auto with arith. Qed.

Lemma Request_grows st ql rq st' :
  Request st ql rq = Ok st' → P rq →
  (∀ d, bounded st → rq_Channel rq = Some d → (d < m_next st)%nat) → grows P st st'.
Proof.
  unfold Request, queue_at. intros H HP Hc. res_inv. destruct (q_Closed _) eqn:E; res_inv.
  - by apply grows_send.
  - eapply grows_append; eauto.
Qed.

Lemma RequestAndClose_grows st ql rq st' :
  RequestAndClose st ql rq = Ok st' → P rq →
  (∀ d, bounded st → rq_Channel rq = Some d → (d < m_next st)%nat) → grows P st st'.
Proof.
  unfold RequestAndClose, queue_at. intros H HP Hc. res_inv. by eapply grows_append.
Qed.

Lemma foldM_grows {A} n (f : meta → A → res meta) l st st' :
  (∀ st a st', (n ≤ m_next st)%nat → f st a = Ok st' → grows P st st') →
  (n ≤ m_next st)%nat → foldM f st l = Ok st' → grows P st st'.
Proof.
  intros Hf. revert st. induction l as [|a l IH]; intros st Hn; cbn; intros H; [by injection H as <-|].
  apply bind_Ok_inv in H as (st1 & H1 & H). pose proof (Hf _ _ _ Hn H1) as Hg.
  trans st1; [done|]. apply IH; [|done]. pose proof (gr_next _ _ _ Hg). lia.
Qed.
End Grows.

(** ** The invariant *)

(** What a client asks for. *)
Definition client_request (st : meta) (r : KvRequest) : Prop :=
  rq_Type r = 0 ∧ (∃ c, rq_Channel r = Some c ∧ (c < m_next st)%nat) ∧
  ∃ a, rq_Keys r = {[rq_Key r := a]} ∧ (ka_Type a = GET ∨ is_write a).

(** A request of the front end itself: what it writes are copies, and its
    channel is new. *)
Definition quiet (n : loc) (w : gmap str (list str)) (rq : KvRequest) : Prop :=
  (∀ k a, ask rq k = Some a → quiet_arg (writes w k) a) ∧
  (∀ c, rq_Channel rq = Some c → (n ≤ c)%nat).

Definition pc_key (pc : main_pc) : option str :=
  match pc with
  | Idle => None
  | Locked _ _ _ r | Filtered _ _ r | Sending _ _ r => Some (rq_Key r)
  end.
Definition pc_nodes (pc : main_pc) : list loc :=
  match pc with
  | Idle => []
  | Locked nodes _ _ _ | Filtered nodes _ _ | Sending nodes _ _ => nodes
  end.

(** The turn counts in [Sending] until its filter does. *)
Definition hold (pc : main_pc) (kl : loc) : Z :=
  match pc with
  | Locked _ kl' _ _ => if decide (kl' = kl) then 1 else 0
  | _ => 0
  end.

Definition writes_key (r : KvRequest) (k : str) : Prop :=
  match rq_Keys r !! k with Some a => is_write a | None => False end.
#[export] Instance writes_key_dec r k : Decision (writes_key r k).
Proof. unfold writes_key. destruct (_ !! _); apply _. Defined.

(** The writes of a key that the main routine has not sent to a node yet. *)
Definition lag (pc : main_pc) (k : str) (l : loc) : nat :=
  match pc with
  | Sending nodes _ r => if decide (writes_key r k ∧ l ∈ nodes) then 1 else 0
  | _ => 0
  end.

(** The nodes that have a key, or were captured by the main routine. *)
Definition listed (st : meta) (k : str) (l : loc) : Prop :=
  ∃ kl km id, KeyMap st !! k = Some kl ∧ m_keys st !! kl = Some km ∧ km_Nodes km !! id = Some l.
Definition is_holder (st : meta) (pc : main_pc) (k : str) (l : loc) : Prop :=
  listed st k l ∨ pc_key pc = Some k ∧ l ∈ pc_nodes pc.

(** A node that can be reached has, in the end, all but [n] of the writes. *)
Definition up_to_date (st : meta) (w : list str) (k : str) (l : loc) (n : nat) : Prop :=
  ∃ ql, queue_of st l = Some ql ∧ ∀ q, m_queues st !! ql = Some q → q_Closed q = false →
    Z.of_nat (length w) - Z.of_nat n ≤ kv_Version (held (q_Channel q) k).

Definition live_filters (st : meta) (kl : loc) : nat :=
  size (filter (λ cf, f_key cf.2 = kl) (m_filters st)).

Definition unanswered (st : meta) (c : loc) : Prop :=
  (∀ ql q rq, m_queues st !! ql = Some q → rq ∈ q_Channel q → rq_Channel rq ≠ Some c) ∧
  (∀ r, (c, r) ∉ m_sent st) ∧
  (∀ c' f, m_filters st !! c' = Some f → f_channel f ≠ Some c).

(** The argument of the last request that was numbered. *)
Definition numbered_arg (w : list str) (a : KeyArg) : Prop :=
  ka_Type a = GET ∨
  is_write a ∧ ka_Version a = Z.of_nat (length w) ∧
    ∃ w0, w = w0 ++ [written a (value_at w0 (length w0))].

Definition pc_ok (st : meta) (w : gmap str (list str)) (point : gmap loc (str * KeyArg * nat))
    (pc : main_pc) : Prop :=
  match pc with
  | Idle => True
  | Locked nodes kl u r =>
      client_request st r ∧ KeyMap st !! rq_Key r = Some kl ∧ (∀ l, listed st (rq_Key r) l → l ∈ nodes)
  | Filtered nodes kl r =>
      client_request st r ∧ KeyMap st !! rq_Key r = Some kl ∧ (∀ l, listed st (rq_Key r) l → l ∈ nodes) ∧
      ∃ c, rq_Channel r = Some c ∧ unanswered st c ∧ point !! c = None ∧
        ∃ f, m_filters st !! c = Some f ∧ f_key f = kl
  | Sending nodes kl r =>
      client_request st r ∧
      ∃ c a, rq_Channel r = Some c ∧ rq_Keys r = {[rq_Key r := a]} ∧
        numbered_arg (writes w (rq_Key r)) a ∧
        point !! c = Some (rq_Key r, a, length (writes w (rq_Key r)))
  end.

(** A request with a place among the writes finds the node at that place. *)
Definition points_ok (st : meta) (w : gmap str (list str)) (point : gmap loc (str * KeyArg * nat)) : Prop :=
  ∀ c k a u, point !! c = Some (k, a, u) → (c < m_next st)%nat ∧ (u ≤ length (writes w k))%nat ∧
    ∀ ql q i rq, m_queues st !! ql = Some q → q_Channel q !! i = Some rq → rq_Channel rq = Some c →
      ask rq k = Some a ∧ (ka_Type a = GET ∨ is_write a) ∧
      held (take (S i) (q_Channel q)) k = version_at (writes w k) u.

Record kv_inv (s : kv_system) : Prop := {
  inv_bounded : bounded (ks_meta s);
  inv_registered k kl :
    KeyMap (ks_meta s) !! k = Some kl →
    ∃ km, m_keys (ks_meta s) !! kl = Some km ∧ km_Version km = Z.of_nat (length (writes (ks_writes s) k));
  inv_unregistered k : KeyMap (ks_meta s) !! k = None → writes (ks_writes s) k = [];
  inv_distinct k1 k2 kl :
    KeyMap (ks_meta s) !! k1 = Some kl → KeyMap (ks_meta s) !! k2 = Some kl → k1 = k2;
  inv_connected l ql : queue_of (ks_meta s) l = Some ql → is_Some (m_queues (ks_meta s) !! ql);
  inv_legit ql q n k :
    m_queues (ks_meta s) !! ql = Some q →
    legit (writes (ks_writes s) k) (held (take n (q_Channel q)) k);
  inv_holders k l :
    is_holder (ks_meta s) (ks_pc s) k l →
    up_to_date (ks_meta s) (writes (ks_writes s) k) k l (lag (ks_pc s) k l);
  inv_sending kl km :
    m_keys (ks_meta s) !! kl = Some km →
    Z.of_nat (live_filters (ks_meta s) kl) + hold (ks_pc s) kl ≤ km_Sending km;
  inv_requests : Forall (client_request (ks_meta s)) (ks_requests s);
  inv_pc : pc_ok (ks_meta s) (ks_writes s) (ks_point s) (ks_pc s);
  inv_points : points_ok (ks_meta s) (ks_writes s) (ks_point s)
}.

(** ** Requests of the front end itself *)

Lemma quiet_held n w more rqs k :
  Forall (quiet n w) more → legit (writes w k) (held rqs k) →
  legit (writes w k) (held (rqs ++ more) k) ∧ kv_Version (held rqs k) ≤ kv_Version (held (rqs ++ more) k).
Proof.
  intros Hm Hl. induction more as [|rq more IH] using rev_ind.
  { rewrite app_nil_r. split; [done|lia]. }
  apply Forall_app in Hm as [Hm [[Hq _] _]%Forall_cons]. destruct (IH Hm) as [Hl' Hv].
  rewrite app_assoc, held_snoc. destruct (ask rq k) as [a|] eqn:E; [|done].
  destruct (quiet_value_step _ _ _ Hl' (Hq _ _ E)). split; [done|lia].
Qed.

Lemma client_request_mono st st' r :
  (m_next st ≤ m_next st')%nat → client_request st r → client_request st' r.
Proof. intros Hn (Ht & (c & Hc & Hlt) & Ha). split; [done|]. split; [|done]. exists c. split; [done|lia]. Qed.

(** A queue that grew, seen from the old one. *)
Lemma grows_queue P st st' ql q' :
  grows P st st' → m_queues st' !! ql = Some q' →
  ∃ q, m_queues st !! ql = Some q ∧ grown P q q'.
Proof.
  intros Hg Hq. pose proof (gr_queues _ _ _ Hg ql) as H. rewrite Hq in H.
  inversion H as [q q0 Hgr E|]; subst. eauto.
Qed.

Lemma listed_grows P st st' k l : grows P st st' → listed st' k l ↔ listed st k l.
Proof. intros []. unfold listed. by rewrite gr_KeyMap0, gr_keys0. Qed.

Lemma unanswered_grows n w st st' c :
  grows (quiet n w) st st' → (c < n)%nat → unanswered st c → unanswered st' c.
Proof.
  intros Hg Hc (Hq & Hs & Hf). split_and!.
  - intros ql q' rq Hq' Hin Hr. destruct (grows_queue _ _ _ _ _ Hg Hq') as (q & E & more & Ha & HF & _).
    rewrite Ha in Hin. apply elem_of_app in Hin as [Hin|Hin]; [by eapply Hq|].
    rewrite Forall_forall in HF. destruct (HF _ Hin) as [_ Hn]. apply Hn in Hr. lia.
  - intros r Hr. destruct (gr_sent _ _ _ Hg _ _ Hr) as [H|(rq & [_ Hn] & H)]; [by eapply Hs|].
    apply Hn in H. lia.
  - rewrite (gr_filters _ _ _ Hg). exact Hf.
Qed.

Section Quiet.
Context (s : kv_system) (st' : meta) (Hs : kv_inv s).
Let st := ks_meta s.
Let w := ks_writes s.
Context (Hg : grows (quiet (m_next st) w) st st').

Lemma quiet_legit ql q' n k :
  m_queues st' !! ql = Some q' → legit (writes w k) (held (take n (q_Channel q')) k).
Proof.
  intros Hq'. destruct (grows_queue _ _ _ _ _ Hg Hq') as (q & Hq & more & -> & HF & _).
  destruct (decide (n ≤ length (q_Channel q))%nat) as [Hn|Hn].
  { rewrite take_app_le by done. by eapply inv_legit. }
  rewrite take_app_ge by lia. eapply quiet_held; [by apply Forall_take|].
  rewrite <-(firstn_all (q_Channel q)). by eapply inv_legit.
Qed.

Lemma quiet_up_to_date k l n : up_to_date st (writes w k) k l n → up_to_date st' (writes w k) k l n.
Proof.
  intros (ql & Hl & Hv). exists ql. rewrite (gr_nodes _ _ _ Hg). split; [done|].
  intros q' Hq' Hc. destruct (grows_queue _ _ _ _ _ Hg Hq') as (q & Hq & more & E & HF & Hcl).
  assert (legit (writes w k) (held (q_Channel q) k)) as Hleg.
  { rewrite <-(firstn_all (q_Channel q)). by eapply inv_legit. }
  destruct (quiet_held _ _ _ _ k HF Hleg). rewrite E.
  specialize (Hv q Hq). destruct (q_Closed q); [by rewrite Hcl in Hc|]. specialize (Hv eq_refl). lia.
Qed.

Lemma quiet_points : points_ok st' w (ks_point s).
Proof.
  intros c k a u Hp. destruct (inv_points s Hs c k a u Hp) as (Hc & Hu & Hr).
  pose proof (gr_next _ _ _ Hg). split_and!; [fold st in Hc; lia|done|]. intros ql q' i rq Hq' Hi Hch.
  destruct (grows_queue _ _ _ _ _ Hg Hq') as (q & Hq & more & E & HF & _). rewrite E in Hi |- *.
  destruct (decide (i < length (q_Channel q))%nat) as [Hlt|Hge].
  - rewrite lookup_app_l in Hi by done. rewrite take_app_le by lia. eauto.
  - rewrite lookup_app_r in Hi by lia. apply list_elem_of_lookup_2 in Hi.
    rewrite Forall_forall in HF. destruct (HF _ Hi) as [_ Hn]. apply Hn in Hch. fold st in Hc. lia.
Qed.

Lemma quiet_pc : pc_ok st' w (ks_point s) (ks_pc s).
Proof.
  pose proof (inv_pc s Hs) as Hp. pose proof (gr_next _ _ _ Hg).
  destruct (ks_pc s) as [|nodes kl u r|nodes kl r|nodes kl r]; cbn in *; [done|..].
  - destruct Hp as (Hr & Hk & Hl). rewrite (gr_KeyMap _ _ _ Hg). split_and!; [by eapply client_request_mono|done|].
    intros l. rewrite (listed_grows _ _ _ _ _ Hg). auto.
  - destruct Hp as (Hr & Hk & Hl & c & Hc & Hun & Hpt & Hf). rewrite (gr_KeyMap _ _ _ Hg).
    split_and!; [by eapply client_request_mono|done| |].
    { intros l. rewrite (listed_grows _ _ _ _ _ Hg). auto. }
    exists c. rewrite (gr_filters _ _ _ Hg). split_and!; try done.
    eapply unanswered_grows; [done| |done]. destruct Hf as (f & Hf & _). by eapply b_filters; [apply inv_bounded|].
  - destruct Hp as (Hr & Hp). split; [by eapply client_request_mono|done].
Qed.

Lemma inv_grows new :
  Forall (client_request st') new →
  kv_inv (mkSystem st' (ks_requests s ++ new) (ks_pc s) w (ks_point s)).
Proof.
  intros Hnew. pose proof (gr_next _ _ _ Hg).
  split; cbn; eauto using quiet_legit, quiet_pc, quiet_points.
  - apply (gr_bounded _ _ _ Hg), inv_bounded, Hs.
  - intros k kl. rewrite (gr_KeyMap _ _ _ Hg), (gr_keys _ _ _ Hg). by apply inv_registered.
  - intros k. rewrite (gr_KeyMap _ _ _ Hg). by apply inv_unregistered.
  - intros k1 k2 kl. rewrite (gr_KeyMap _ _ _ Hg). by apply inv_distinct.
  - intros l ql. rewrite (gr_nodes _ _ _ Hg). intros Hl.
    apply (inv_connected s Hs) in Hl as [q Hq]. pose proof (gr_queues _ _ _ Hg ql) as Ho.
    unfold st in Ho. rewrite Hq in Ho. inversion Ho; eauto.
  - intros k l Hh. apply quiet_up_to_date, inv_holders; [done|].
    destruct Hh as [Hh|Hh]; [left|by right]. by apply (listed_grows _ _ _ _ _ Hg).
  - intros kl km. unfold live_filters. rewrite (gr_filters _ _ _ Hg), (gr_keys _ _ _ Hg). by apply inv_sending.
  - apply Forall_app. split; [|done]. eapply Forall_impl; [by apply inv_requests|].
    intros r. by apply client_request_mono.
Qed.

Lemma inv_quiet : kv_inv (with_meta st' s).
Proof. pose proof (inv_grows [] (Forall_nil_2 _)) as H. by rewrite app_nil_r in H. Qed.
End Quiet.

(** ** Clients and their commands *)

Lemma quiet_no_keys n w ty key c :
  (∀ d, c = Some d → (n ≤ d)%nat) → quiet n w (mkKvRequest ty key ∅ c).
Proof.
  intros Hc. split; [|done]. intros k a. unfold ask. cbn. case_decide; [done|]. by rewrite lookup_empty.
Qed.

Lemma kill_node_grows n w st l st' :
  (n ≤ m_next st)%nat → kill_node st l = Ok (Some st') → grows (quiet n w) st st'.
Proof.
  intros Hn. unfold kill_node, node_at. destruct (m_nodes st !! l) as [node|] eqn:Hl; [|done].
  rewrite require_Some, bind_Ok. intros H. apply bind_Ok_inv in H as (q & _ & H). cbn in H.
  apply bind_Ok_inv in H as (st1 & Hr & H). destruct (disconnected q); [done|]. injection H as <-.
  trans st1.
  - trans (alloc st).2; [apply grows_alloc|]. eapply RequestAndClose_grows; [exact Hr|..].
    + apply quiet_no_keys. intros d [= <-]. done.
    + intros d _ [= <-]. cbn. lia.
  - assert (m_nodes st1 = m_nodes st) as Hnd.
    { unfold RequestAndClose, queue_at in Hr. res_inv. done. }
    assert (∀ l', nm_RequestQueue <$> <[l:=mkNodeMetadata (nm_Id node) (nm_Keys node) (nm_RequestQueue node) true]> (m_nodes st1) !! l' = queue_of st1 l') as Hq.
    { intros l'. unfold queue_of. rewrite Hnd. destruct (decide (l = l')) as [<-|Hne].
      - by rewrite lookup_insert_eq, Hl.
      - by rewrite lookup_insert_ne. }
    split; auto; [|intros ql; reflexivity].
    intros []. split; auto. intros l' Hl'. apply b_nodes0. specialize (Hq l').
    apply (fmap_is_Some nm_RequestQueue) in Hl'. cbn in Hl'. rewrite Hq in Hl'. by apply fmap_is_Some in Hl'.
Qed.

Lemma kill_loop_grows n w ls st st' :
  (n ≤ m_next st)%nat → kill_loop st ls = Ok (Some st') → grows (quiet n w) st st'.
Proof.
  revert st. induction ls as [|l ls IH]; intros st Hn; cbn; intros H; [by simplify_eq|].
  res_inv. destruct x as [st1|]; [|done].
  assert (grows (quiet n w) st st1) as Hg by (by eapply kill_node_grows).
  trans st1; [done|]. apply IH; [|done]. pose proof (gr_next _ _ _ Hg). lia.
Qed.

Definition forwards (st : meta) (oc : outcome) : list KvRequest :=
  match oc with Forward r => [r] | _ => [] end.

Lemma new_request_ok st key arg P :
  ka_Type arg = GET ∨ is_write arg →
  grows P st (new_request st key arg).1 ∧
  client_request (new_request st key arg).1 (new_request st key arg).2.
Proof.
  intros Ha. split; [apply (grows_alloc P st)|]. split; [done|]. split; [|by exists arg].
  exists (m_next st). split; [done|cbn; lia].
Qed.

Lemma Get_grows order n w st key st' oc :
  (n ≤ m_next st)%nat → Get order st key = Ok (st', oc) →
  grows (quiet n w) st st' ∧ Forall (client_request st') (forwards st' oc).
Proof.
  intros Hn. unfold Get. case_decide; [done|].
  assert (grows (quiet n w) st st ∧ Forall (client_request st) []) as Hstay.
  { split; [reflexivity|constructor]. }
  assert (∀ st' oc, Ok (forward_get st key) = Ok (st', oc) →
    grows (quiet n w) st st' ∧ Forall (client_request st') (forwards st' oc)) as Hf.
  { intros st1 oc1 [= <- <-].
    destruct (new_request_ok st key (mkKeyArg GET 0 [] []) (quiet n w)) as [Hg Hr]; [by left|].
    split; [exact Hg|]. by apply Forall_cons_2. }
  case_decide; [|apply Hf].
  destruct (Fields key) as [|t1 [|cmd [|arg [|cnt [|]]]]]; try apply Hf.
  - case_decide; [|case_decide; [|apply Hf]]; intros H'; res_inv.
    + by simplify_eq.
    + destruct x as [[st1 b]|]; [|by simplify_eq].
      assert (grows (quiet n w) st st1) as Hg.
      { match goal with H : kill_replica _ _ = _ |- _ => revert H end. unfold kill_replica.
        destruct (NodeMap st !! arg); [|by intros [= <- _]]. intros Hk. res_inv.
        destruct (nm_Killed _); res_inv; [by simplify_eq|]. 
        destruct x0; simplify_eq. by eapply kill_node_grows. }
      destruct b; simplify_eq; split; (done || constructor).
  - case_decide; [|apply Hf]. destruct (Atoi cnt) as [nr err].
    destruct err; [by intros [= <- <-]|]. destruct (nr <? 0); [by intros [= <- <-]|].
    intros H'. res_inv.
    destruct x as [[st1 m]|]; [|by simplify_eq]. simplify_eq.
    split; [|constructor].
    match goal with H : kill_replicas_of _ _ _ _ = _ |- _ => revert H end. unfold kill_replicas_of.
    destruct (KeyMap st !! arg); [|by intros [= <- _]]. intros Hk. res_inv.
    match goal with H : match ?r with _ => _ end = Some _ |- _ => destruct r; simplify_eq end.
    by eapply kill_loop_grows.
Qed.

(** ** Replication *)

Lemma gives_lookup q i r rq k :
  plain_gives q i r → q_Channel q !! i = Some rq →
  fr_Values r !! k = ask rq k ≫= key_answer (foldl key_step None (asks k (plain_args <$> take i (q_Channel q)))).
Proof.
  intros (order & rq' & Ho & Hi & _ & Hv) Hrq. rewrite Hrq in Hi. injection Hi as <-.
  rewrite Hv. unfold ask. destruct (decide (rq_Type rq = KILL)) as [Hkill|Hkill].
  - unfold handle_args, plain_args. cbn. rewrite bool_decide_true by done. apply lookup_empty.
  - rewrite handle_args_answer, run_lookup, lookup_empty by (done || by apply bool_decide_eq_false).
    done.
Qed.

Lemma gives_value q i r rq k v :
  plain_gives q i r → q_Channel q !! i = Some rq → fr_Values r !! k = Some v →
  ∃ a, ask rq k = Some a ∧
    key_answer (foldl key_step None (asks k (plain_args <$> take i (q_Channel q)))) a = Some v.
Proof.
  intros Hg Hi Hk. rewrite (gives_lookup _ _ _ _ _ Hg Hi) in Hk.
  destruct (ask rq k) as [a|]; [|done]. eauto.
Qed.

Section Replication.
Context (s : kv_system) (Hs : kv_inv s) (Hu8 : meta_utf8 (ks_meta s)).
Let st := ks_meta s.
Let w := ks_writes s.

Lemma queried_legit r k v :
  queried st r → fr_Unavailable r = false → fr_Values r !! k = Some v → legit (writes w k) v.
Proof.
  intros [Hu|(ql & q & i & rq & Hq & Hi & Ht & Hask & Hg)] Hav Hv; [congruence|].
  apply (gives_plain _ _ _ (u_queues _ Hu8 _ _ Hq)) in Hg.
  destruct (gives_value _ _ _ _ _ _ Hg Hi Hv) as (a & Ha & Hans).
  unfold ask in Ha. rewrite decide_False in Ha by done. apply Hask in Ha.
  unfold key_answer in Hans. rewrite Ha in Hans. cbn in Hans.
  injection Hans as <-. by eapply (inv_legit s Hs).
Qed.

Definition copies (m : gmap str KeyArg) : Prop :=
  ∀ k a, m !! k = Some a → ka_Type a = PUT ∧ legit (writes w k) (mkKvValue (ka_Version a) (ka_NewVal a)).

Lemma merge_loop_copies n keysUpto m rs m' :
  copies m → Forall (queried st) rs → merge_loop n keysUpto m rs = Some m' → copies m'.
Proof.
  revert m rs. induction n as [|n IH]; intros m rs Hm Hrs; cbn; [by intros [= <-]|].
  destruct rs as [|r rs]; [done|]. apply Forall_cons in Hrs as [Hr Hrs].
  destruct (fr_Unavailable r) eqn:Hu; [by apply IH|].
  assert (copies (merge_values m (fr_Values r))) as Hm1.
  { intros k a. rewrite merge_values_lookup. destruct (fr_Values r !! k) as [v|] eqn:Hv; [|apply Hm].
    pose proof (queried_legit _ _ _ Hr Hu Hv) as Hl. intros [= <-]. unfold merge_one.
    destruct (m !! k) as [b|] eqn:Hb; [|destruct v; done].
    destruct (Hm _ _ Hb). destruct (_ <? _); [destruct v|]; done. }
  destruct (decide _); [by intros [= <-]|by apply IH].
Qed.

Lemma repl_put_quiet l requestKeys st' c :
  copies requestKeys → repl_put st l requestKeys = Ok (st', c) → grows (quiet (m_next st) w) st st'.
Proof.
  intros Hm. unfold repl_put. cbn. intros H. apply bind_Ok_inv in H as (node & _ & H).
  apply bind_Ok_inv in H as (st1 & H & [= <- <-]).
  trans (alloc st).2; [apply grows_alloc|]. eapply Request_grows; [eassumption|..].
  - split; [|intros d [= <-]; done]. intros k a. unfold ask. cbn. case_decide; [done|].
    intros Ha. right; right. by apply Hm.
  - intros d _ [= <-]. cbn. lia.
Qed.

Lemma repl_query_quiet nodesMap keys st' c :
  repl_query st nodesMap keys = Ok (st', c) → grows (quiet (m_next st) w) st st'.
Proof.
  unfold repl_query. cbn. intros H. apply bind_Ok_inv in H as (st1 & H & [= <- <-]).
  trans (alloc st).2; [apply grows_alloc|].
  eapply (foldM_grows _ (S (m_next st))); [|done|exact H]. clear st1 H.
  intros st1 [id o] st2 Hn H. res_inv. eapply Request_grows; [eassumption|..].
  - split; [|intros d [= <-]; done]. intros k a. unfold ask. cbn. case_decide; [done|].
    intros [_ <-]%lookup_gset_to_gmap_Some. right; by left.
  - intros d _ [= <-]. lia.
Qed.
End Replication.

(** ** Keys that gain and lose nodes *)

Definition rekeyed (A : loc → Prop) (km km' : KeyMetadata) : Prop :=
  km_Version km' = km_Version km ∧ km_Sending km' = km_Sending km ∧
  ∀ id l, km_Nodes km' !! id = Some l → km_Nodes km !! id = Some l ∨ A l.

#[export] Instance rekeyed_refl A : Reflexive (rekeyed A).
Proof. intros km. split_and!; auto. Qed.
#[export] Instance rekeyed_trans A : Transitive (rekeyed A).
Proof.
  intros km1 km2 km3 (V1 & S1 & N1) (V2 & S2 & N2). split_and!; [congruence..|].
  intros id l Hl. destruct (N2 _ _ Hl); auto.
Qed.

(** Only who has which key changes; [A kl l] says that the key at [kl] may be
    given to the node at [l]. *)
Record relisted (A : loc → loc → Prop) (st st' : meta) : Prop := {
  rl_KeyMap : KeyMap st' = KeyMap st;
  rl_queues : m_queues st' = m_queues st;
  rl_filters : m_filters st' = m_filters st;
  rl_sent : m_sent st' = m_sent st;
  rl_next : m_next st' = m_next st;
  rl_nodes l : queue_of st' l = queue_of st l;
  rl_keys kl : option_Forall2 (rekeyed (A kl)) (m_keys st !! kl) (m_keys st' !! kl)
}.

#[export] Instance relisted_refl A : Reflexive (relisted A).
Proof. intros st. split; auto. intros kl. reflexivity. Qed.
#[export] Instance relisted_trans A : Transitive (relisted A).
Proof.
  intros st1 st2 st3 [] []. split; try congruence. intros kl. by transitivity (m_keys st2 !! kl).
Qed.

Section Relist.
Context (A : loc → loc → Prop).

Lemma relisted_key st kl f st' :
  upd_key st kl (with_Nodes f) = Ok st' →
  (∀ ns id l, f ns !! id = Some l → ns !! id = Some l ∨ A kl l) → relisted A st st'.
Proof.
  unfold upd_key, key_at. intros H Hf. apply bind_Ok_inv in H as (km & Hkm%require_Ok_inv & [= <-]).
  split; auto. intros kl'. cbn. destruct (decide (kl = kl')) as [<-|Hne].
  - rewrite lookup_insert_eq, Hkm. constructor. by split_and!; [..|apply Hf].
  - by rewrite lookup_insert_ne.
Qed.

Lemma relisted_node st l f st' : upd_node st l (with_Keys f) = Ok st' → relisted A st st'.
Proof.
  unfold upd_node, node_at. intros H. apply bind_Ok_inv in H as (node & Hl%require_Ok_inv & [= <-]).
  split; auto; [|intros kl; reflexivity]. intros l'. unfold queue_of. cbn.
  destruct (decide (l = l')) as [<-|Hne]; [by rewrite lookup_insert_eq, Hl|by rewrite lookup_insert_ne].
Qed.

Lemma relisted_NodeMap st f : relisted A st (set_NodeMap f st).
Proof. split; auto. intros kl. reflexivity. Qed.

Lemma foldM_relisted {X} (f : meta → X → res meta) l st st' :
  (∀ st a st', f st a = Ok st' → relisted A st st') → foldM f st l = Ok st' → relisted A st st'.
Proof.
  intros Hf. revert st. induction l as [|a l IH]; intros st; cbn; intros H; [by injection H as <-|].
  apply bind_Ok_inv in H as (st1 & H1 & H). trans st1; [by eapply Hf|by apply IH].
Qed.

Lemma relisted_known st st' kl : relisted A st st' → is_Some (m_keys st' !! kl) ↔ is_Some (m_keys st !! kl).
Proof.
  intros Hr. pose proof (rl_keys _ _ _ Hr kl) as H.
  destruct (m_keys st !! kl), (m_keys st' !! kl); inversion H; subst; split; intros Hi; (exact Hi || by eexists).
Qed.

Lemma relisted_key_inv st st' kl km' :
  relisted A st st' → m_keys st' !! kl = Some km' →
  ∃ km, m_keys st !! kl = Some km ∧ rekeyed (A kl) km km'.
Proof. intros Hr Hkm. pose proof (rl_keys _ _ _ Hr kl) as H. rewrite Hkm in H. inversion H; subst; eauto. Qed.

Lemma relisted_listed st st' k l :
  relisted A st st' → listed st' k l →
  listed st k l ∨ ∃ kl, KeyMap st !! k = Some kl ∧ A kl l.
Proof.
  intros Hr (kl & km' & id & Hk & Hkm & Hid). rewrite (rl_KeyMap _ _ _ Hr) in Hk.
  destruct (relisted_key_inv _ _ _ _ Hr Hkm) as (km & Hkm0 & _ & _ & Hn).
  destruct (Hn _ _ Hid) as [Hl|Hl]; [left|right; eauto]. by exists kl, km, id.
Qed.

Lemma relisted_bounded st st' : relisted A st st' → bounded st → bounded st'.
Proof.
  intros Hr []. pose proof (relisted_known st st') as Hk. destruct Hr.
  split; rewrite ?rl_next0, ?rl_queues0, ?rl_filters0, ?rl_sent0; auto.
  - intros kl. rewrite Hk by (by split). auto.
  - intros l. rewrite <-(fmap_is_Some nm_RequestQueue). fold (queue_of st' l). rewrite rl_nodes0.
    unfold queue_of. rewrite fmap_is_Some. auto.
Qed.

Lemma relisted_up_to_date st st' w k l n :
  relisted A st st' → up_to_date st w k l n → up_to_date st' w k l n.
Proof. intros []. unfold up_to_date. by setoid_rewrite rl_nodes0; rewrite rl_queues0. Qed.
End Relist.

(** The main routine is between reading the nodes of the key and sending. *)
Definition busy (pc : main_pc) (kl : loc) : Prop :=
  match pc with
  | Locked _ kl' _ _ | Filtered _ kl' _ => kl' = kl
  | _ => False
  end.

Lemma live_filters_pos st c f : m_filters st !! c = Some f → (0 < live_filters st (f_key f))%nat.
Proof.
  intros Hf. unfold live_filters. destruct (size _) eqn:E; [|lia]. apply map_size_empty_inv in E.
  assert (filter (λ cf : loc * Filter, f_key cf.2 = f_key f) (m_filters st) !! c = Some f) as H
    by (by apply map_lookup_filter_Some). rewrite E in H. by rewrite lookup_empty in H.
Qed.

Lemma not_busy s kl km :
  kv_inv s → m_keys (ks_meta s) !! kl = Some km → km_Sending km = 0 → ¬ busy (ks_pc s) kl.
Proof.
  intros Hs Hkm H0. pose proof (inv_sending s Hs _ _ Hkm) as Hsend. pose proof (inv_pc s Hs) as Hp.
  destruct (ks_pc s); cbn in *; try tauto.
  - intros ->. rewrite decide_True in Hsend by done. lia.
  - intros ->. destruct Hp as (_ & _ & _ & c & _ & _ & _ & f & Hf & Hk).
    apply live_filters_pos in Hf. rewrite Hk in Hf. lia.
Qed.

Section Relisted.
Context (s : kv_system) (A : loc → loc → Prop) (st' : meta) (Hs : kv_inv s).
Let st := ks_meta s.
Let w := ks_writes s.
Context (Hr : relisted A st st').
Context (HA : ∀ k kl l, KeyMap st !! k = Some kl → A kl l →
  up_to_date st (writes w k) k l 0 ∧ ¬ busy (ks_pc s) kl).

Lemma relisted_pc : pc_ok st' w (ks_point s) (ks_pc s).
Proof.
  pose proof (inv_pc s Hs) as Hp. pose proof (rl_next _ _ _ Hr) as Hn.
  assert (∀ r, client_request (ks_meta s) r → client_request st' r) as Hcl.
  { intros r. apply client_request_mono. fold st. lia. }
  assert (∀ k kl (nodes : list loc), KeyMap st !! k = Some kl → busy (ks_pc s) kl →
    (∀ l, listed st k l → l ∈ nodes) → ∀ l, listed st' k l → l ∈ nodes) as Hlist.
  { intros k kl nodes Hk Hb Hl l Hl'. destruct (relisted_listed _ _ _ _ _ Hr Hl') as [H|(kl' & Hk' & Ha)]; [auto|].
    rewrite Hk in Hk'. injection Hk' as <-. by destruct (HA _ _ _ Hk Ha). }
  destruct (ks_pc s) as [|nodes kl u r|nodes kl r|nodes kl r]; cbn in *; [done|..].
  - destruct Hp as (? & Hk & Hl). rewrite (rl_KeyMap _ _ _ Hr). split_and!; [auto|done|]. by eapply Hlist.
  - destruct Hp as (? & Hk & Hl & c & Hc & (Hu1 & Hu2 & Hu3) & Hpt & Hf). rewrite (rl_KeyMap _ _ _ Hr).
    split_and!; [auto|done|by eapply Hlist|]. exists c. unfold unanswered.
    rewrite (rl_queues _ _ _ Hr), (rl_sent _ _ _ Hr), (rl_filters _ _ _ Hr). by split_and!.
  - destruct Hp as (? & Hp). auto.
Qed.

Lemma inv_relisted : kv_inv (with_meta st' s).
Proof.
  split; cbn.
  - eapply relisted_bounded; [done|]. apply Hs.
  - intros k kl. rewrite (rl_KeyMap _ _ _ Hr). intros Hk. destruct (inv_registered s Hs _ _ Hk) as (km & Hkm & Hv).
    pose proof (rl_keys _ _ _ Hr kl) as Ho. unfold st in Ho. rewrite Hkm in Ho. inversion Ho as [? km' (V & _)|]; subst.
    exists km'. split; [done|congruence].
  - intros k. rewrite (rl_KeyMap _ _ _ Hr). by apply Hs.
  - intros k1 k2 kl. rewrite (rl_KeyMap _ _ _ Hr). by apply Hs.
  - intros l ql. rewrite (rl_nodes _ _ _ Hr), (rl_queues _ _ _ Hr). by apply Hs.
  - intros ql q n k. rewrite (rl_queues _ _ _ Hr). by apply Hs.
  - intros k l Hh. eapply relisted_up_to_date; [done|].
    assert (is_holder st (ks_pc s) k l ∨ ∃ kl, KeyMap st !! k = Some kl ∧ A kl l) as [Hh'|(kl & Hk & Ha)].
    { destruct Hh as [Hh|Hh]; [|left; by right].
      destruct (relisted_listed _ _ _ _ _ Hr Hh) as [|]; [left; by left|by right]. }
    + by apply (inv_holders s Hs).
    + destruct (HA _ _ _ Hk Ha) as [(ql & Hl & Hv) _]. exists ql. split; [done|].
      intros q Hq Hc. specialize (Hv q Hq Hc). subst w. lia.
  - intros kl km' Hkm'. destruct (relisted_key_inv _ _ _ _ _ Hr Hkm') as (km & Hkm & _ & -> & _).
    unfold live_filters. rewrite (rl_filters _ _ _ Hr). by apply (inv_sending s Hs).
  - eapply Forall_impl; [apply (inv_requests s Hs)|]. intros r. apply client_request_mono.
    rewrite (rl_next _ _ _ Hr). fold st. lia.
  - apply relisted_pc.
  - unfold points_ok. rewrite (rl_next _ _ _ Hr), (rl_queues _ _ _ Hr). apply Hs.
Qed.
End Relisted.

Lemma value_step_version v a : kv_Version v ≤ kv_Version (value_step v a).
Proof. destruct (key_step_version (Some v) a) as [H _]. exact H. Qed.

Lemma held_mono rqs more k : kv_Version (held rqs k) ≤ kv_Version (held (rqs ++ more) k).
Proof.
  induction more as [|rq more IH] using rev_ind; [rewrite app_nil_r; lia|].
  rewrite app_assoc, held_snoc. destruct (ask rq k) as [a|]; [|done].
  pose proof (value_step_version (held (rqs ++ more) k) a). lia.
Qed.

Lemma held_take_mono q n k : kv_Version (held (take n q) k) ≤ kv_Version (held q k).
Proof. rewrite <-(take_drop n q) at 2. apply held_mono. Qed.

(** What a node answers is no newer than what it then holds. *)
Lemma answer_version o a v :
  key_answer o a = Some v → kv_Version v ≤ kv_Version (value_step (default zero_value o) a).
Proof.
  rewrite <-key_step_default. destruct (key_step_version o a) as [H _]. cbv zeta in H.
  unfold key_answer. change (mkKvValue 0 []) with zero_value.
  repeat case_decide; intros [= <-]; cbn; lia.
Qed.

Lemma gives_version q i r k v :
  plain_gives q i r → fr_Values r !! k = Some v → kv_Version v ≤ kv_Version (held (q_Channel q) k).
Proof.
  intros Hg Hv. assert (∃ rq, q_Channel q !! i = Some rq) as [rq Hi].
  { destruct Hg as (order & rq & _ & Hi & _). eauto. }
  destruct (gives_value _ _ _ _ _ _ Hg Hi Hv) as (a & Ha & Hans). apply answer_version in Hans.
  etrans; [exact Hans|]. etrans; [|apply (held_take_mono _ (S i))].
  rewrite (take_S_r _ _ _ Hi), held_snoc, Ha. done.
Qed.

Lemma inv_disconnect s order Intn id st' started :
  kv_inv s → nodes_disconnect order Intn (ks_meta s) id = Ok (st', started) → kv_inv (with_meta st' s).
Proof.
  intros Hs. unfold nodes_disconnect. intros H.
  apply bind_Ok_inv in H as (l & _ & H). apply bind_Ok_inv in H as (node & _ & H).
  apply bind_Ok_inv in H as (st1 & Hf & H). apply bind_Ok_inv in H as (x & _ & [= <- <-]).
  apply (inv_relisted s (λ _ _, False)); [done| |done].
  trans st1; [|apply relisted_NodeMap]. eapply foldM_relisted; [|exact Hf].
  intros st2 key st3 H. apply bind_Ok_inv in H as (kl & _ & H). eapply relisted_key; [done|].
  intros ns id' l' Hl. left. destruct (decide (id = id')) as [<-|]; [by rewrite lookup_delete_eq in Hl|].
  by rewrite lookup_delete_ne in Hl.
Qed.

Lemma repl_key_inv s l ql q i put keys key st' keys' :
  kv_inv s → queue_of (ks_meta s) l = Some ql → m_queues (ks_meta s) !! ql = Some q → plain_gives q i put →
  repl_key l put (ks_meta s, keys) key = Ok (st', keys') →
  kv_inv (with_meta st' s) ∧ m_queues st' = m_queues (ks_meta s) ∧ queue_of st' l = Some ql.
Proof.
  intros Hs Hl Hq Hg. unfold repl_key. intros H.
  apply bind_Ok_inv in H as (kl & Hkl%require_Ok_inv & H).
  apply bind_Ok_inv in H as (km & Hkm%require_Ok_inv & H).
  assert (kv_inv (with_meta (ks_meta s) s) ∧ m_queues (ks_meta s) = m_queues (ks_meta s) ∧
    queue_of (ks_meta s) l = Some ql) as Hsame by (by destruct s).
  case_decide; [by injection H as <- <-|].
  destruct (fr_Values put !! key) as [v|] eqn:Hv; [|by injection H as <- <-].
  destruct (negb (km_Unavailable km) && (km_Sending km =? 0) && (kv_Version v =? km_Version km)) eqn:E;
    [|by injection H as <- <-].
  apply andb_prop in E as [[_ Hsend%Z.eqb_eq]%andb_prop Hver%Z.eqb_eq].
  apply bind_Ok_inv in H as (node & _ & H). apply bind_Ok_inv in H as (st1 & H1 & H).
  apply bind_Ok_inv in H as (st2 & H2 & [= <- <-]).
  assert (relisted (λ kl' l', kl' = kl ∧ l' = l) (ks_meta s) st2) as Hr.
  { trans st1; [|by eapply relisted_node]. eapply relisted_key; [done|]. intros ns id l' Hl'.
    destruct (decide (nm_Id node = id)) as [<-|]; [|left; by rewrite lookup_insert_ne in Hl'].
    rewrite lookup_insert_eq in Hl'. injection Hl' as <-. by right. }
  rewrite (rl_nodes _ _ _ Hr), (rl_queues _ _ _ Hr). split; [|done].
  eapply inv_relisted; [done|exact Hr|]. intros k kl' l' Hk [-> ->]. split; [|by eapply not_busy].
  assert (k = key) as -> by (by eapply (inv_distinct s Hs)).
  destruct (inv_registered s Hs _ _ Hkl) as (km' & Hkm' & Hlen). unfold key_at in Hkm.
  rewrite Hkm in Hkm'. injection Hkm' as <-.
  exists ql. split; [done|]. intros q' Hq' _. rewrite Hq in Hq'. injection Hq' as <-.
  pose proof (gives_version _ _ _ _ _ Hg Hv). lia.
Qed.

Lemma inv_finish s l keys put st' keys' ql q i :
  kv_inv s → queue_of (ks_meta s) l = Some ql → m_queues (ks_meta s) !! ql = Some q → plain_gives q i put →
  repl_finish (ks_meta s) l keys put = Ok (st', keys') → kv_inv (with_meta st' s).
Proof.
  unfold repl_finish. intros Hs Hl Hq Hg. generalize (elements keys). intros todo.
  revert s keys Hs Hl Hq.
  induction todo as [|key todo IH]; intros s keys Hs Hl Hq; cbn [foldM]; intros H.
  { injection H as <- <-. by destruct s. }
  apply bind_Ok_inv in H as ([st1 keys1] & H1 & H).
  destruct (repl_key_inv _ _ _ _ _ _ _ _ _ _ Hs Hl Hq Hg H1) as (Hs1 & Hq1 & Hl1).
  apply (IH (with_meta st1 s) keys1 Hs1); [done|by cbn; rewrite Hq1|done].
Qed.

(** ** Nodes and their queues *)

Lemma inv_queue s st' ql : kv_inv s → node_queue (ks_meta s) = (st', ql) → kv_inv (with_meta st' s).
Proof.
  intros Hs [= <- <-]. pose proof (inv_bounded s Hs) as Hb.
  assert (m_queues (ks_meta s) !! m_next (ks_meta s) = None) as Hnew.
  { destruct (m_queues (ks_meta s) !! _) eqn:E; [|done]. exfalso.
    apply (Nat.lt_irrefl (m_next (ks_meta s))), (b_queues _ Hb). by eexists. }
  assert (∀ ql q, <[m_next (ks_meta s):=mkQueue [] false]> (m_queues (ks_meta s)) !! ql = Some q →
    m_queues (ks_meta s) !! ql = Some q ∨ q = mkQueue [] false) as Hold.
  { intros ql q. destruct (decide (m_next (ks_meta s) = ql)) as [<-|]; [rewrite lookup_insert_eq|rewrite lookup_insert_ne by done; by left].
    intros [= <-]. by right. }
  split; cbn; try apply Hs.
  - destruct Hb. split; cbn; intros; eauto using Nat.lt_lt_succ_r.
    + destruct (decide (m_next (ks_meta s) = ql)) as [<-|]; [lia|]. apply Nat.lt_lt_succ_r, b_queues0.
      by rewrite lookup_insert_ne in *.
    + destruct (Hold _ _ H) as [H'| ->]; [eauto using Nat.lt_lt_succ_r|]. by apply elem_of_nil in H0.
  - intros l ql Hl. apply (inv_connected s Hs) in Hl. rewrite lookup_insert_is_Some'. by right.
  - intros ql q n k [Hq| ->]%Hold; [by apply (inv_legit s Hs) with ql|]. cbn. rewrite take_nil. apply legit_zero.
  - intros k l Hh. destruct (inv_holders s Hs k l Hh) as (ql & Hl & Hv). exists ql. split; [done|].
    intros q Hq. apply Hv. destruct (inv_connected s Hs l ql Hl) as [q0 Hq0]. cbn in Hq.
    rewrite lookup_insert_ne in Hq; [congruence|]. intros <-. congruence.
  - eapply Forall_impl; [apply (inv_requests s Hs)|]. intros r. apply client_request_mono. cbn. lia.
  - pose proof (inv_pc s Hs) as Hp.
    assert (∀ c, unanswered (ks_meta s) c → unanswered (set_queues (<[m_next (ks_meta s):=mkQueue [] false]>) (alloc (ks_meta s)).2) c) as Hun.
    { intros c (H1 & H2 & H3). split_and!; [|done..]. intros ql q rq [Hq| ->]%Hold; [by apply H1 with ql|].
      intros H. by apply elem_of_nil in H. }
    assert (∀ r, client_request (ks_meta s) r → client_request (set_queues (<[m_next (ks_meta s):=mkQueue [] false]>) (alloc (ks_meta s)).2) r) as Hcl.
    { intros r. apply client_request_mono. cbn. lia. }
    destruct (ks_pc s); cbn in *; [done|naive_solver..].
  - intros c k a u Hp. destruct (inv_points s Hs c k a u Hp) as (Hc & Hu & Hr). cbn. split_and!; [lia|done|].
    intros ql q i rq [Hq| ->]%Hold; [by eapply Hr|done].
Qed.

Lemma inv_connect s rf id ql st' started :
  kv_inv s → is_Some (m_queues (ks_meta s) !! ql) →
  nodes_connect rf (ks_meta s) id ql = Ok (st', started) → kv_inv (with_meta st' s).
Proof.
  intros Hs Hql H. pose proof (inv_bounded s Hs) as Hb.
  assert (st' = set_NodeMap (<[id:=m_next (ks_meta s)]>)
    (set_nodes (<[m_next (ks_meta s):=mkNodeMetadata id ∅ ql false]>) (alloc (ks_meta s)).2)) as ->.
  { unfold nodes_connect in H. cbn in H. case_decide; res_inv; by simplify_eq. }
  assert (∀ l, is_Some (queue_of (ks_meta s) l) → l ≠ m_next (ks_meta s)) as Hne.
  { intros l Hl ->. unfold queue_of in Hl. rewrite fmap_is_Some in Hl.
    apply (b_nodes _ Hb) in Hl. lia. }
  split; cbn; try apply Hs.
  - destruct Hb. split; cbn; intros; eauto using Nat.lt_lt_succ_r.
    destruct (decide (m_next (ks_meta s) = l)) as [<-|]; [lia|]. apply Nat.lt_lt_succ_r, b_nodes0.
    by rewrite lookup_insert_ne in *.
  - intros l ql'. unfold queue_of. cbn. destruct (decide (m_next (ks_meta s) = l)) as [<-|].
    + rewrite lookup_insert_eq. by intros [= <-].
    + rewrite lookup_insert_ne by done. apply (inv_connected s Hs).
  - intros k l Hh. destruct (inv_holders s Hs k l Hh) as (ql' & Hl & Hv). exists ql'. split; [|done].
    unfold queue_of. cbn. rewrite lookup_insert_ne; [done|]. apply not_eq_sym, Hne. by rewrite Hl.
  - eapply Forall_impl; [apply (inv_requests s Hs)|]. intros r. apply client_request_mono. cbn. lia.
  - pose proof (inv_pc s Hs) as Hp.
    assert (∀ r, client_request (ks_meta s) r → client_request (set_NodeMap (<[id:=m_next (ks_meta s)]>)
      (set_nodes (<[m_next (ks_meta s):=mkNodeMetadata id ∅ ql false]>) (alloc (ks_meta s)).2)) r) as Hcl.
    { intros r. apply client_request_mono. cbn. lia. }
    destruct (ks_pc s); cbn in *; [done|naive_solver..].
  - intros c k a u Hp. destruct (inv_points s Hs c k a u Hp) as (Hc & Hu & Hr). cbn. split_and!; [lia|done|done].
Qed.
