(* ===== verification/KvTurns.v ===== *)
(** The invariant of the key-value store through a turn of the main routine and
    through the responses that its filters get
    (CPSC418/assignment4/kv-front-end.go). *)
From S2P Require Import Prelude GoText Framing KvNode KvMeta KvJson KvFrontEnd KvFrontProps KvSystem KvInvariant.

Open Scope Z_scope.

(** ** The main routine and the filters *)

Lemma point_fresh s : kv_inv s → ks_point s !! m_next (ks_meta s) = None.
Proof.
  intros Hs. destruct (ks_point s !! _) as [[[k a] u]|] eqn:E; [|done].
  apply (inv_points s Hs) in E as [E _]. lia.
Qed.

(** Counters, filters and responses change, the nodes and their queues do not. *)
Record recounted (st st' : meta) : Prop := {
  rc_KeyMap : KeyMap st' = KeyMap st;
  rc_queues : m_queues st' = m_queues st;
  rc_nodes l : queue_of st' l = queue_of st l;
  rc_next : (m_next st ≤ m_next st')%nat;
  rc_bounded : bounded st → bounded st';
  rc_keys kl : option_Forall2 (λ km km', km_Version km' = km_Version km ∧ km_Nodes km' = km_Nodes km)
                 (m_keys st !! kl) (m_keys st' !! kl)
}.

Lemma recounted_key st st' kl km' :
  recounted st st' → m_keys st' !! kl = Some km' →
  ∃ km, m_keys st !! kl = Some km ∧ km_Version km' = km_Version km ∧ km_Nodes km' = km_Nodes km.
Proof. intros Hr Hkm. pose proof (rc_keys _ _ Hr kl) as H. rewrite Hkm in H. inversion H; subst; eauto. Qed.

Lemma recounted_listed st st' k l : recounted st st' → listed st' k l → listed st k l.
Proof.
  intros Hr (kl & km' & id & Hk & Hkm & Hid). destruct (recounted_key _ _ _ _ Hr Hkm) as (km & Hkm0 & _ & Hn).
  exists kl, km, id. by rewrite <-Hn, <-(rc_KeyMap _ _ Hr).
Qed.

Lemma inv_recounted s st' requests pc :
  kv_inv s → recounted (ks_meta s) st' →
  (∀ k l, is_holder st' pc k l → up_to_date (ks_meta s) (writes (ks_writes s) k) k l (lag pc k l)) →
  (∀ kl km, m_keys st' !! kl = Some km → Z.of_nat (live_filters st' kl) + hold pc kl ≤ km_Sending km) →
  Forall (client_request (ks_meta s)) requests →
  pc_ok st' (ks_writes s) (ks_point s) pc →
  kv_inv (mkSystem st' requests pc (ks_writes s) (ks_point s)).
Proof.
  intros Hs Hr Hh Hsend Hreq Hpc. pose proof (rc_next _ _ Hr). split; cbn; auto.
  - apply (rc_bounded _ _ Hr), Hs.
  - intros k kl. rewrite (rc_KeyMap _ _ Hr). intros Hk. destruct (inv_registered s Hs _ _ Hk) as (km & Hkm & Hv).
    pose proof (rc_keys _ _ Hr kl) as Ho. rewrite Hkm in Ho. inversion Ho as [? km' (V & _)|]; subst.
    exists km'. split; [done|congruence].
  - intros k. rewrite (rc_KeyMap _ _ Hr). by apply Hs.
  - intros k1 k2 kl. rewrite (rc_KeyMap _ _ Hr). by apply Hs.
  - intros l ql. rewrite (rc_nodes _ _ Hr), (rc_queues _ _ Hr). by apply Hs.
  - intros ql q n k. rewrite (rc_queues _ _ Hr). by apply Hs.
  - intros k l Hl. destruct (Hh k l Hl) as (ql & Hql & Hv). exists ql.
    by rewrite (rc_nodes _ _ Hr), (rc_queues _ _ Hr).
  - eapply Forall_impl; [exact Hreq|]. intros r. by apply client_request_mono.
  - intros c k a u Hp. destruct (inv_points s Hs c k a u Hp) as (Hc & Hu & Hq).
    rewrite (rc_queues _ _ Hr). split_and!; [lia|done|done].
Qed.

Lemma recounted_refl st : recounted st st.
Proof. split; auto. intros kl. destruct (m_keys st !! kl); by constructor. Qed.

Lemma recounted_upd_key st kl km km' :
  m_keys st !! kl = Some km → km_Version km' = km_Version km → km_Nodes km' = km_Nodes km →
  recounted st (set_keys (<[kl := km']>) st).
Proof.
  intros Hkm Hv Hn. split; auto.
  - intros []. split; auto. intros kl'. cbn. rewrite lookup_insert_is_Some. intros [<-|[_ H]]; eauto.
  - intros kl'. cbn. destruct (decide (kl = kl')) as [<-|].
    + rewrite lookup_insert_eq, Hkm. by constructor.
    + rewrite lookup_insert_ne by done. destruct (m_keys st !! kl'); by constructor.
Qed.

Lemma recounted_trans st1 st2 st3 : recounted st1 st2 → recounted st2 st3 → recounted st1 st3.
Proof.
  intros [KM1 Q1 N1 X1 B1 K1] [KM2 Q2 N2 X2 B2 K2]. split; try congruence; [lia|auto|].
  intros kl. specialize (K1 kl). specialize (K2 kl).
  inversion K1 as [km1 km2 (V1 & M1) E1 E2|E1 E2]; rewrite <-E2 in K2; inversion K2 as [km km3 (V2 & M2)|]; subst.
  - constructor. split; congruence.
  - constructor.
Qed.

Lemma recounted_send st c r :
  (bounded st → ∀ d, c = Some d → (d < m_next st)%nat) → recounted st (send st c r).
Proof.
  intros Hc. assert (bounded st → bounded (send st c r)) as Hb by (intros H; apply bounded_send; auto).
  destruct c; [|apply recounted_refl]. split; auto. intros kl. cbn. destruct (m_keys st !! kl); by constructor.
Qed.

(** *** Counting filters *)

Abbreviation filters_of kl m := (filter (λ cf : loc * Filter, f_key cf.2 = kl) m).

Lemma filters_insert (m : gmap loc Filter) c f kl :
  m !! c = None →
  size (filters_of kl (<[c := f]> m)) =
  ((if decide (f_key f = kl) then 1 else 0) + size (filters_of kl m))%nat.
Proof.
  intros Hc. case_decide as Hk.
  - rewrite map_filter_insert_True by done. rewrite map_size_insert_None; [done|].
    apply map_lookup_filter_None. by left.
  - rewrite map_filter_insert_False by done. by rewrite delete_id.
Qed.

Lemma filters_delete (m : gmap loc Filter) c f kl :
  m !! c = Some f →
  size (filters_of kl m) =
  ((if decide (f_key f = kl) then 1 else 0) + size (filters_of kl (delete c m)))%nat.
Proof.
  intros Hc. rewrite <-(insert_delete_id m c f Hc) at 1. apply filters_insert, lookup_delete_eq.
Qed.

Lemma filters_none (m : gmap loc Filter) kl :
  (∀ c f, m !! c = Some f → (f_key f < kl)%nat) → size (filters_of kl m) = 0%nat.
Proof.
  intros Hm. apply map_size_empty_iff, map_empty_filter. intros c f Hf. cbn.
  apply Hm in Hf. lia.
Qed.

(** *** A turn begins *)

Lemma inv_enter s r requests nodes kl km u :
  kv_inv s → ks_pc s = Idle → ks_requests s = r :: requests →
  KeyMap (ks_meta s) !! rq_Key r = Some kl → m_keys (ks_meta s) !! kl = Some km →
  (∀ l, listed (ks_meta s) (rq_Key r) l → l ∈ nodes) →
  (∀ l, l ∈ nodes → up_to_date (ks_meta s) (writes (ks_writes s) (rq_Key r)) (rq_Key r) l 0) →
  kv_inv (mkSystem (set_keys (<[kl := with_Sending 1 km]>) (ks_meta s)) requests
            (Locked nodes kl u r) (ks_writes s) (ks_point s)).
Proof.
  intros Hs Hpc Hreq Hk Hkm Hl Hn. pose proof (inv_requests s Hs) as Hcl. rewrite Hreq in Hcl.
  apply Forall_cons in Hcl as [Hr Hcl].
  assert (recounted (ks_meta s) (set_keys (<[kl := with_Sending 1 km]>) (ks_meta s))) as Hrc
    by (by eapply recounted_upd_key).
  apply inv_recounted; [done|exact Hrc|..|done|].
  - intros k l [Hh|[[= <-] Hin]]; cbn in *; [|by apply Hn].
    apply (recounted_listed _ _ _ _ Hrc) in Hh. assert (lag (ks_pc s) k l = 0%nat) as <- by (by rewrite Hpc).
    apply (inv_holders s Hs). by left.
  - intros kl' km'. unfold live_filters. cbn. pose proof (inv_sending s Hs kl') as Hsend. rewrite Hpc in Hsend.
    cbn in Hsend. unfold live_filters in Hsend. destruct (decide (kl = kl')) as [<-|].
    + rewrite lookup_insert_eq. intros [= <-]. specialize (Hsend km Hkm). cbn. lia.
    + rewrite lookup_insert_ne by done. apply Hsend.
  - cbn. split_and!; [by eapply client_request_mono, Hr|done|]. intros l Hll. apply Hl.
    by apply (recounted_listed _ _ _ _ Hrc).
Qed.

(** A new key: at first no node has it. *)
Lemma inv_new_key s key :
  kv_inv s → KeyMap (ks_meta s) !! key = None →
  kv_inv (with_meta (set_KeyMap (<[key := m_next (ks_meta s)]>)
    (set_keys (<[m_next (ks_meta s) := mkKeyMetadata 0 false 0 ∅]>) (alloc (ks_meta s)).2)) s).
Proof.
  intros Hs Hk. pose proof (inv_bounded s Hs) as Hb.
  assert (∀ kl, KeyMap (ks_meta s) !! kl ≠ Some (m_next (ks_meta s))) as Hne.
  { intros k E. destruct (inv_registered s Hs _ _ E) as (km & Hkm & _).
    apply (Nat.lt_irrefl (m_next (ks_meta s))), (b_keys _ Hb). by eexists. }
  set (st' := set_KeyMap _ _).
  assert (∀ k l, listed st' k l → listed (ks_meta s) k l) as Hlist.
  { intros k l (kl & km & id & Hk' & Hkm & Hid). cbn in Hk', Hkm. destruct (decide (key = k)) as [<-|].
    - rewrite lookup_insert_eq in Hk'. injection Hk' as <-. rewrite lookup_insert_eq in Hkm.
      injection Hkm as <-. cbn in Hid. by rewrite lookup_empty in Hid.
    - rewrite lookup_insert_ne in Hk' by done. rewrite lookup_insert_ne in Hkm by (intros <-; by eapply Hne).
      by exists kl, km, id. }
  split; try (by apply Hs).
  - destruct Hb. split; cbn; intros; eauto using Nat.lt_lt_succ_r.
    destruct (decide (m_next (ks_meta s) = kl)) as [<-|]; [lia|]. apply Nat.lt_lt_succ_r, b_keys.
    by rewrite lookup_insert_ne in *.
  - intros k kl. cbn. destruct (decide (key = k)) as [<-|].
    + rewrite lookup_insert_eq. intros [= <-]. rewrite lookup_insert_eq. eexists. split; [done|].
      by rewrite (inv_unregistered s Hs).
    + rewrite lookup_insert_ne by done. intros E. rewrite lookup_insert_ne by (intros <-; by eapply Hne).
      by apply (inv_registered s Hs).
  - intros k. cbn. rewrite lookup_insert_None. intros [E _]. by apply (inv_unregistered s Hs).
  - intros k1 k2 kl. cbn. destruct (decide (key = k1)) as [<-|], (decide (key = k2)) as [<-|]; [done|..];
      rewrite ?lookup_insert_eq, ?lookup_insert_ne by done.
    + intros [= <-] E. by apply Hne in E.
    + intros E [= <-]. by apply Hne in E.
    + apply (inv_distinct s Hs).
  - intros k l [Hh|Hh]; cbn in *; [apply Hlist in Hh|]; apply (inv_holders s Hs); [by left|by right].
  - intros kl km. cbn. destruct (decide (m_next (ks_meta s) = kl)) as [<-|].
    + rewrite lookup_insert_eq. intros [= <-]. unfold live_filters. cbn. rewrite filters_none by apply Hb.
      replace (hold _ _) with 0; [cbn; lia|]. pose proof (inv_pc s Hs) as Hp.
      destruct (ks_pc s); cbn in *; try done. rewrite decide_False; [done|]. intros ->.
      by destruct Hp as (_ & Hk' & _); apply Hne in Hk'.
    + rewrite lookup_insert_ne by done. apply (inv_sending s Hs).
  - eapply Forall_impl; [apply (inv_requests s Hs)|]. intros r. apply client_request_mono. cbn. lia.
  - pose proof (inv_pc s Hs) as Hp.
    assert (∀ r, client_request (ks_meta s) r → client_request st' r) as Hcl.
    { intros r. apply client_request_mono. cbn. lia. }
    assert (∀ k kl, KeyMap (ks_meta s) !! k = Some kl → KeyMap st' !! k = Some kl) as HKM.
    { intros k kl E. cbn. rewrite lookup_insert_ne; [done|]. intros <-. congruence. }
    cbn. destruct (ks_pc s) as [|nodes kl u r|nodes kl r|nodes kl r]; cbn in *; [done|..].
    + destruct Hp as (? & ? & ?). split_and!; auto.
    + destruct Hp as (? & ? & ? & c & Hp). split_and!; auto. exists c. exact Hp.
    + destruct Hp as (? & ?). auto.
  - intros c k a u Hp. destruct (inv_points s Hs c k a u Hp) as (Hc & Hu & Hr). cbn. split_and!; [lia|done|done].
Qed.

Lemma place_key_relisted (A : loc → loc → Prop) key kl st l st' :
  A kl l → place_key key kl st l = Ok st' → relisted A st st' ∧ is_Some (queue_of st l).
Proof.
  intros HA. unfold place_key. intros H. apply bind_Ok_inv in H as (node & Hn%require_Ok_inv & H).
  apply bind_Ok_inv in H as (nl & _ & H). apply bind_Ok_inv in H as (st1 & H1 & H2). split.
  - trans st1; [by eapply relisted_node|]. eapply relisted_key; [exact H2|]. intros ns id l' Hl.
    destruct (decide (nm_Id node = id)) as [<-|]; [|left; by rewrite lookup_insert_ne in Hl].
    rewrite lookup_insert_eq in Hl. injection Hl as <-. by right.
  - unfold queue_of. unfold node_at in Hn. by rewrite Hn.
Qed.

Lemma place_keys_relisted (A : loc → loc → Prop) key kl nodes st st' :
  (∀ l, l ∈ nodes → A kl l) → foldM (place_key key kl) st nodes = Ok st' →
  relisted A st st' ∧ ∀ l, l ∈ nodes → is_Some (queue_of st l).
Proof.
  intros HA. revert st. induction nodes as [|l nodes IH]; intros st; cbn; intros H.
  { injection H as <-. split; [done|]. intros l Hl. by apply elem_of_nil in Hl. }
  apply bind_Ok_inv in H as (st1 & H1 & H).
  destruct (place_key_relisted A _ _ _ _ _ (HA l ltac:(set_solver)) H1) as [Hr Hq].
  destruct (IH ltac:(set_solver) st1 H) as [Hr' Hq']. split; [by trans st1|].
  intros l' [->|Hl']%elem_of_cons; [done|]. rewrite <-(rl_nodes _ _ _ Hr). auto.
Qed.

(** Nothing was written to a key that is not registered, so every node has
    all of it. *)
Lemma unwritten_up_to_date s k l :
  kv_inv s → writes (ks_writes s) k = [] → is_Some (queue_of (ks_meta s) l) →
  up_to_date (ks_meta s) (writes (ks_writes s) k) k l 0.
Proof.
  intros Hs Hw [ql Hl]. exists ql. split; [done|]. intros q Hq _. rewrite Hw. cbn.
  pose proof (inv_legit s Hs ql q (length (q_Channel q)) k Hq) as Hleg. rewrite firstn_all in Hleg.
  apply legit_version in Hleg. lia.
Qed.

(** [prepareNodesForFirstReplication]: the new key and its nodes. *)
Lemma inv_prepare s order Intn rf r st' nodes kl :
  kv_inv s → ks_pc s = Idle → KeyMap (ks_meta s) !! rq_Key r = None →
  prepareNodesForFirstReplication order Intn (ks_meta s) (rq_Key r) rf = Ok (st', nodes, kl) →
  kv_inv (with_meta st' s) ∧ KeyMap st' !! rq_Key r = Some kl ∧
  (∀ l, listed st' (rq_Key r) l → l ∈ nodes) ∧ (∀ l, l ∈ nodes → is_Some (queue_of st' l)).
Proof.
  intros Hs Hpc Hk. unfold prepareNodesForFirstReplication. intros H.
  apply bind_Ok_inv in H as (picked & _ & H). cbn in H. apply bind_Ok_inv in H as (st1 & H1 & [= <- <- <-]).
  pose proof (inv_new_key s _ Hs Hk) as Hs0. set (st0 := set_KeyMap _ _) in *.
  set (nodes := take _ picked) in *.
  pose (A := λ kl l, kl = m_next (ks_meta s) ∧ l ∈ nodes).
  destruct (place_keys_relisted A _ _ _ _ _ (λ l Hl, conj eq_refl Hl) H1) as [Hr Hq].
  assert (KeyMap st0 !! rq_Key r = Some (m_next (ks_meta s))) as Hk0 by (cbn; by rewrite lookup_insert_eq).
  split_and!.
  - apply (inv_relisted (with_meta st0 s) A); [done|exact Hr|]. intros k kl l Hkl [-> Hl]. cbn in Hkl.
    split; [|cbn; rewrite Hpc; by intros []]. assert (rq_Key r = k) as <- by (by eapply (inv_distinct _ Hs0)).
    apply (unwritten_up_to_date (with_meta st0 s)); [done|by apply (inv_unregistered s Hs)|by apply Hq].
  - by rewrite (rl_KeyMap _ _ _ Hr).
  - intros l Hl. destruct (relisted_listed _ _ _ _ _ Hr Hl) as [(kl & km & id & Hkl & Hkm & Hid)|(kl & _ & _ & Hl')]; [|done].
    rewrite Hk0 in Hkl. injection Hkl as <-. cbn in Hkm. rewrite lookup_insert_eq in Hkm. injection Hkm as <-.
    cbn in Hid. by rewrite lookup_empty in Hid.
  - intros l Hl. rewrite (rl_nodes _ _ _ Hr). by apply Hq.
Qed.

Lemma inv_lock s order Intn rf r requests st' nodes kl u :
  kv_inv s → is_map_order order → ks_pc s = Idle → ks_requests s = r :: requests →
  main_lock order Intn rf (ks_meta s) r = Ok (st', nodes, kl, u) →
  kv_inv (mkSystem st' requests (Locked nodes kl u r) (ks_writes s) (ks_point s)).
Proof.
  intros Hs Ho Hpc Hreq. unfold main_lock. intros H. apply bind_Ok_inv in H as ([[st1 nodes1] kl1] & H1 & H).
  apply bind_Ok_inv in H as (km & Hkm%require_Ok_inv & H). unfold upd_key, key_at in H. rewrite Hkm in H.
  cbn in H. injection H as <- <- <- <-.
  destruct (KeyMap (ks_meta s) !! rq_Key r) as [kl|] eqn:Hk.
  - apply bind_Ok_inv in H1 as (km' & Hkm'%require_Ok_inv & [= <- <- <-]).
    rewrite Hkm in Hkm'. injection Hkm' as <-. eapply (inv_enter s); try done.
    + intros l (kl' & km' & id & Hk' & Hkm' & Hid). rewrite Hk in Hk'. injection Hk' as <-.
      rewrite Hkm in Hkm'. injection Hkm' as <-. apply getNodesAsList_elem; [done|]. by exists id.
    + intros l [id Hid]%getNodesAsList_elem; [|done].
      assert (lag (ks_pc s) (rq_Key r) l = 0%nat) as <- by (by rewrite Hpc).
      apply (inv_holders s Hs). left. by exists kl, km, id.
  - destruct (inv_prepare s _ _ _ _ _ _ _ Hs Hpc Hk H1) as (Hs1 & Hk1 & Hl1 & Hn1).
    apply (inv_enter (with_meta st1 s)); try done. intros l Hl.
    apply unwritten_up_to_date; [done|by apply (inv_unregistered s Hs)|by apply Hn1].
Qed.

Lemma inv_refuse s nodes kl u r st' :
  kv_inv s → ks_pc s = Locked nodes kl u r → main_refuse (ks_meta s) r kl u = Ok st' →
  kv_inv (mkSystem st' (ks_requests s) Idle (ks_writes s) (ks_point s)).
Proof.
  intros Hs Hpc. unfold main_refuse. intros H. apply bind_Ok_inv in H as (st1 & H1 & [= <-]).
  pose proof (inv_pc s Hs) as Hp. rewrite Hpc in Hp. destruct Hp as ((_ & (c & Hc & Hlt) & _) & _).
  assert (recounted (ks_meta s) st1 ∧ m_filters st1 = m_filters (ks_meta s) ∧
    ∀ kl km, m_keys st1 !! kl = Some km → Z.of_nat (live_filters (ks_meta s) kl) ≤ km_Sending km) as (Hr & Hf & Hsend).
  { pose proof (inv_sending s Hs) as Hsend. rewrite Hpc in Hsend. destruct u.
    - injection H1 as <-. split; [apply recounted_refl|]. split; [done|]. intros kl' km Hkm.
      specialize (Hsend kl' km Hkm). cbn in Hsend. case_decide; lia.
    - unfold upd_key, key_at in H1. apply bind_Ok_inv in H1 as (km & Hkm%require_Ok_inv & [= <-]).
      split; [by eapply recounted_upd_key|]. split; [done|]. intros kl' km'. cbn.
      destruct (decide (kl = kl')) as [<-|Hne].
      + rewrite lookup_insert_eq. intros [= <-]. specialize (Hsend kl km Hkm). cbn in *.
        rewrite decide_True in Hsend by done. lia.
      + rewrite lookup_insert_ne by done. intros Hkm'. specialize (Hsend kl' km' Hkm'). cbn in Hsend.
        rewrite decide_False in Hsend by done. lia. }
  assert (recounted st1 (send st1 (rq_Channel r) unavailable_response)) as Hr'.
  { apply recounted_send. intros _ d. rewrite Hc. intros [= <-]. pose proof (rc_next _ _ Hr). lia. }
  apply inv_recounted; [done|by eapply recounted_trans| |..|apply (inv_requests s Hs)|done].
  - intros k l [Hl|[[=] _]]. assert (lag (ks_pc s) k l = 0%nat) as E by (by rewrite Hpc).
    cbn. rewrite <-E. apply (inv_holders s Hs). left. eapply recounted_listed; [|exact Hl].
    by eapply recounted_trans.
  - intros kl' km'. rewrite Hc. cbn. unfold live_filters. cbn. rewrite Hf. intros Hkm. specialize (Hsend _ _ Hkm).
    unfold live_filters in Hsend. lia.
Qed.

Lemma recounted_alloc_filter st f :
  (bounded st → (∀ d, f_channel f = Some d → (d < m_next st)%nat) ∧ (f_key f < m_next st)%nat) →
  recounted st (set_filters (<[m_next st := f]>) (alloc st).2).
Proof.
  intros Hf. split; [done..|cbn; lia| |intros kl; cbn; destruct (m_keys st !! kl); by constructor].
  intros Hb. destruct (Hf Hb) as [Hch Hk]. destruct Hb.
  assert (∀ c g, <[m_next st := f]> (m_filters st) !! c = Some g →
    c = m_next st ∧ g = f ∨ m_filters st !! c = Some g) as Hold.
  { intros c g. destruct (decide (m_next st = c)) as [<-|]; [rewrite lookup_insert_eq|rewrite lookup_insert_ne by done; by right].
    intros [= <-]. by left. }
  split; cbn; intros; eauto using Nat.lt_lt_succ_r.
  - destruct H as [g [[-> _]|Hg]%Hold]; [lia|]. apply Nat.lt_lt_succ_r, b_filters. by eexists.
  - destruct (Hold _ _ H) as [[_ ->]|Hg]; apply Nat.lt_lt_succ_r; eauto.
  - destruct (Hold _ _ H) as [[_ ->]|Hg]; apply Nat.lt_lt_succ_r; eauto.
Qed.

Lemma inv_filter s nodes kl u r st' c :
  kv_inv s → ks_pc s = Locked nodes kl u r →
  filterChannelUnavailable (ks_meta s) (length nodes) (rq_Channel r) kl = (st', c) →
  kv_inv (mkSystem st' (ks_requests s)
    (Filtered nodes kl (mkKvRequest (rq_Type r) (rq_Key r) (rq_Keys r) (Some c))) (ks_writes s) (ks_point s)).
Proof.
  intros Hs Hpc. cbn. intros [= <- <-]. pose proof (inv_bounded s Hs) as Hb.
  pose proof (inv_pc s Hs) as Hp. rewrite Hpc in Hp. destruct Hp as ((Ht & (c & Hc & Hlt) & a & Ha & Hty) & Hk & Hl).
  destruct (inv_registered s Hs _ _ Hk) as (km & Hkm & _).
  set (f := mkFilter _ _ _ _). set (st' := set_filters _ _).
  assert (m_filters (ks_meta s) !! m_next (ks_meta s) = None) as Hnew.
  { destruct (m_filters (ks_meta s) !! _) eqn:E; [|done]. exfalso.
    apply (Nat.lt_irrefl (m_next (ks_meta s))), (b_filters _ Hb). by eexists. }
  assert (recounted (ks_meta s) st') as Hr.
  { apply (recounted_alloc_filter (ks_meta s) f). intros _. cbn. rewrite Hc. split; [by intros d [= <-]|].
    apply (b_keys _ Hb). by eexists. }
  apply inv_recounted; [done|exact Hr|..|apply (inv_requests s Hs)|].
  - intros k l Hh. assert (lag (ks_pc s) k l = 0%nat) as E by (by rewrite Hpc). cbn. rewrite <-E.
    apply (inv_holders s Hs). destruct Hh as [Hh|Hh]; [left; by eapply recounted_listed|right; by rewrite Hpc].
  - intros kl' km' Hkm'. unfold live_filters. cbn. rewrite filters_insert by done. cbn.
    pose proof (inv_sending s Hs kl' km' Hkm') as Hsend. unfold live_filters in Hsend. rewrite Hpc in Hsend. cbn in Hsend.
    destruct (decide (kl = kl')); lia.
  - cbn. split_and!; [|done| |].
    + split; [done|]. split; [|by exists a]. exists (m_next (ks_meta s)). split; [done|cbn; lia].
    + intros l Hll. apply Hl. by eapply recounted_listed.
    + exists (m_next (ks_meta s)). split_and!; [done| |by apply point_fresh|exists f; cbn; by rewrite lookup_insert_eq].
      split_and!.
      * intros ql q rq Hq Hin Hch. apply (b_channels _ Hb _ _ _ _ Hq Hin) in Hch. lia.
      * intros x Hx. apply (b_sent _ Hb) in Hx. lia.
      * intros c' g. cbn. destruct (decide (m_next (ks_meta s) = c')) as [<-|].
        -- rewrite lookup_insert_eq. intros [= <-]. cbn. rewrite Hc. intros [= ->]. lia.
        -- rewrite lookup_insert_ne by done. intros Hg Hch. apply (b_callers _ Hb _ _ _ Hg) in Hch. lia.
Qed.

Lemma inv_sent s kl r :
  kv_inv s → ks_pc s = Sending [] kl r →
  kv_inv (mkSystem (ks_meta s) (ks_requests s) Idle (ks_writes s) (ks_point s)).
Proof.
  intros Hs Hpc. apply inv_recounted; [done|apply recounted_refl|..|apply (inv_requests s Hs)|done].
  - intros k l [Hl|[[=] _]]. cbn. assert (lag (ks_pc s) k l = 0%nat) as <-.
    { rewrite Hpc. cbn. rewrite decide_False; [done|]. intros [_ H]. by apply elem_of_nil in H. }
    apply (inv_holders s Hs). by left.
  - intros kl' km Hkm. pose proof (inv_sending s Hs _ _ Hkm) as H. rewrite Hpc in H. exact H.
Qed.

(** *** A response comes *)

Lemma comes_answered st c c0 r : comes st c r → unanswered st c0 → c ≠ c0.
Proof.
  intros Hc (H1 & H2 & _) <-. destruct Hc as [(ql & q & i & rq & Hq & Hi & Hch & _)|[_ Hin]].
  - eapply H1; [exact Hq| |exact Hch]. by eapply list_elem_of_lookup_2.
  - by eapply H2.
Qed.

(** The filter that a turn has just started stays as it is. *)
Lemma pc_ok_recounted st st' w point pc :
  pc_ok st w point pc → recounted st st' →
  (∀ c, unanswered st c → unanswered st' c ∧
     ∀ f, m_filters st !! c = Some f → ∃ f', m_filters st' !! c = Some f' ∧ f_key f' = f_key f) →
  pc_ok st' w point pc.
Proof.
  intros Hp Hr Hun. pose proof (rc_next _ _ Hr) as Hn.
  assert (∀ r, client_request st r → client_request st' r) as Hcl.
  { intros r. by apply client_request_mono. }
  assert (∀ k l, listed st' k l → listed st k l) as Hl.
  { intros k l. by apply recounted_listed. }
  destruct pc as [|nodes kl u r|nodes kl r|nodes kl r]; cbn in *; [done|..].
  - destruct Hp as (? & ? & ?). rewrite (rc_KeyMap _ _ Hr). split_and!; auto.
  - destruct Hp as (? & ? & ? & c & Hc & Hu & Hpt & f & Hf & Hk). rewrite (rc_KeyMap _ _ Hr).
    split_and!; auto. destruct (Hun c Hu) as [Hu' Hf']. destruct (Hf' f Hf) as (f' & ? & ?).
    exists c. split_and!; auto. exists f'. split; [done|congruence].
  - destruct Hp as (? & ?). auto.
Qed.

Lemma unanswered_filters st (g : gmap loc Filter → gmap loc Filter) c0 :
  (∀ c f, g (m_filters st) !! c = Some f → ∃ f', m_filters st !! c = Some f' ∧ f_channel f = f_channel f') →
  unanswered st c0 → unanswered (set_filters g st) c0.
Proof.
  intros Hg (H1 & H2 & H3). split_and!; [done..|]. intros c f Hf.
  destruct (Hg c f Hf) as (f' & Hf' & ->). by eapply H3.
Qed.

Lemma unanswered_send st c0 d r : d ≠ Some c0 → unanswered st c0 → unanswered (send st d r) c0.
Proof.
  intros Hd (H1 & H2 & H3). destruct d as [d|]; [|done]. split_and!; [done| |done].
  intros x [Hx|Hx%list_elem_of_singleton]%elem_of_app; [by eapply H2|]. congruence.
Qed.

Lemma recounted_filters st (g : gmap loc Filter → gmap loc Filter) :
  (∀ c f, g (m_filters st) !! c = Some f →
     ∃ f', m_filters st !! c = Some f' ∧ f_channel f = f_channel f' ∧ f_key f = f_key f') →
  recounted st (set_filters g st).
Proof.
  intros Hg. split; [done..| |intros kl; cbn; destruct (m_keys st !! kl); by constructor].
  intros []. split; auto; cbn.
  - intros c [f Hf]. destruct (Hg c f Hf) as (f' & Hf' & _). apply b_filters. by eexists.
  - intros c f Hf. destruct (Hg c f Hf) as (f' & Hf' & _ & ->). by eapply b_filtered.
  - intros c f d Hf. destruct (Hg c f Hf) as (f' & Hf' & -> & _). by eapply b_callers.
Qed.

(** The last step of a filter: [Sending] counts one less, the client gets its
    answer. *)
Lemma inv_filter_ends s c f km km' r0 r :
  kv_inv s → comes (ks_meta s) c r0 → m_filters (ks_meta s) !! c = Some f →
  m_keys (ks_meta s) !! f_key f = Some km →
  km_Version km' = km_Version km → km_Nodes km' = km_Nodes km → km_Sending km' = km_Sending km - 1 →
  kv_inv (with_meta (send (set_filters (delete c) (set_keys (<[f_key f := km']>) (ks_meta s))) (f_channel f) r) s).
Proof.
  intros Hs Hcomes Hf Hkm HV HN HS. pose proof (inv_bounded s Hs) as Hb.
  set (st1 := set_keys _ _). set (st2 := set_filters _ st1). set (st3 := send st2 _ _).
  assert (∀ c' g, delete c (m_filters (ks_meta s)) !! c' = Some g → m_filters (ks_meta s) !! c' = Some g ∧ c' ≠ c) as Hdel.
  { intros c' g. rewrite lookup_delete_Some. naive_solver. }
  assert (recounted (ks_meta s) st1) as R1 by (by eapply recounted_upd_key).
  assert (recounted st1 st2) as R2 by (apply recounted_filters; intros c' g [Hg _]%Hdel; by exists g).
  assert (recounted st2 st3) as R3.
  { apply recounted_send. intros _ d Hd. by apply (b_callers _ Hb c f d). }
  assert (recounted (ks_meta s) st3) as Hr by (eapply recounted_trans; [|exact R3]; by eapply recounted_trans).
  assert (m_filters st3 = delete c (m_filters (ks_meta s)) ∧ m_keys st3 = <[f_key f := km']> (m_keys (ks_meta s))) as [E1 E2]
    by (unfold st3; by destruct (f_channel f)).
  apply inv_recounted; [done|exact Hr|..|apply (inv_requests s Hs)|].
  - intros k l Hh. apply (inv_holders s Hs). destruct Hh as [Hh|Hh]; [left; by eapply recounted_listed|by right].
  - intros kl km1. unfold live_filters. rewrite E1, E2. pose proof (inv_sending s Hs kl) as Hsend.
    unfold live_filters in Hsend. rewrite (filters_delete _ c f kl Hf) in Hsend.
    destruct (decide (f_key f = kl)) as [<-|].
    + rewrite lookup_insert_eq. intros [= <-]. specialize (Hsend km Hkm). lia.
    + rewrite lookup_insert_ne by done. intros Hkm1. specialize (Hsend km1 Hkm1). lia.
  - apply (pc_ok_recounted (ks_meta s)); [apply (inv_pc s Hs)|exact Hr|]. intros c0 Hu.
    pose proof (comes_answered _ _ _ _ Hcomes Hu) as Hne. split.
    + apply unanswered_send; [by destruct Hu as (_ & _ & Hu); eapply Hu|].
      apply unanswered_filters; [|done]. intros c' g [Hg _]%Hdel. by exists g.
    + intros g Hg. exists g. rewrite E1. by rewrite lookup_delete_ne.
Qed.

Lemma inv_receive s c r st' :
  kv_inv s → comes (ks_meta s) c r → filter_receive (ks_meta s) c r = Ok st' → kv_inv (with_meta st' s).
Proof.
  intros Hs Hcomes. unfold filter_receive.
  destruct (m_filters (ks_meta s) !! c) as [f|] eqn:Hf; [|intros [= <-]; by destruct s].
  destruct (fr_Unavailable r); [case_decide|].
  - intros [= <-]. set (f' := mkFilter _ _ _ _).
    assert (∀ c' g, <[c := f']> (m_filters (ks_meta s)) !! c' = Some g →
      ∃ g', m_filters (ks_meta s) !! c' = Some g' ∧ f_channel g = f_channel g' ∧ f_key g = f_key g') as Hold.
    { intros c' g. destruct (decide (c = c')) as [<-|].
      - rewrite lookup_insert_eq. intros [= <-]. by exists f.
      - rewrite lookup_insert_ne by done. intros Hg. by exists g. }
    apply inv_recounted; [done|by apply recounted_filters|..|apply (inv_requests s Hs)|].
    + intros k l Hh. by apply (inv_holders s Hs).
    + intros kl km Hkm. pose proof (inv_sending s Hs kl km Hkm) as Hsend.
      unfold live_filters in *. cbn. rewrite <-(insert_delete_eq (m_filters (ks_meta s)) c f').
      rewrite filters_insert by apply lookup_delete_eq. rewrite (filters_delete _ c f kl Hf) in Hsend. cbn. lia.
    + apply (pc_ok_recounted (ks_meta s)); [apply (inv_pc s Hs)|by apply recounted_filters|]. intros c0 Hu.
      pose proof (comes_answered _ _ _ _ Hcomes Hu) as Hne. split.
      * apply unanswered_filters; [|done]. intros c' g Hg. destruct (Hold c' g Hg) as (g' & ? & ? & _). by exists g'.
      * intros g Hg. exists g. cbn. by rewrite lookup_insert_ne.
  - unfold upd_key, key_at. intros E. apply bind_Ok_inv in E as (st1 & E & [= <-]).
    apply bind_Ok_inv in E as (km & Hkm%require_Ok_inv & [= <-]). by eapply inv_filter_ends.
  - unfold upd_key, key_at. intros E. apply bind_Ok_inv in E as (km & Hkm%require_Ok_inv & E).
    rewrite Hkm in E. cbn in E. injection E as <-. by eapply inv_filter_ends.
Qed.

(** *** A request gets its place among the writes *)

Lemma writes_insert w k l k' : writes (<[k := l]> w) k' = if decide (k = k') then l else writes w k'.
Proof. unfold writes. rewrite lookup_insert. by destruct (decide (k = k')). Qed.

Lemma new_writes_app w a : ∃ ext, new_writes w a = w ++ ext ∧ length ext = (if decide (is_write a) then 1%nat else 0%nat).
Proof. unfold new_writes. case_decide; [by eexists|exists []]. by rewrite app_nil_r. Qed.

Lemma version_at_app w ext u : (u ≤ length w)%nat → version_at (w ++ ext) u = version_at w u.
Proof.
  intros Hu. unfold version_at, value_at. by rewrite app_comm_cons, lookup_app_l by (simpl; lia).
Qed.

(** [main_version]: a read is left as it is; a write takes the next version. *)
Lemma main_version_ok s nodes kl r st' r' :
  kv_inv s → ks_pc s = Filtered nodes kl r →
  Z.of_nat (length (writes (ks_writes s) (rq_Key r))) + 1 < 2 ^ 64 →
  main_version (ks_meta s) r kl = Ok (st', r') →
  ∃ a km km', rq_Type r' = 0 ∧ rq_Key r' = rq_Key r ∧ rq_Channel r' = rq_Channel r ∧
    rq_Keys r' = {[rq_Key r := a]} ∧
    numbered_arg (new_writes (writes (ks_writes s) (rq_Key r)) a) a ∧
    m_keys (ks_meta s) !! kl = Some km ∧
    st' = set_keys (<[kl := km']>) (ks_meta s) ∧
    km_Sending km' = km_Sending km ∧ km_Nodes km' = km_Nodes km ∧
    km_Version km' = Z.of_nat (length (new_writes (writes (ks_writes s) (rq_Key r)) a)).
Proof.
  intros Hs Hpc Hwrap. unfold main_version.
  pose proof (inv_pc s Hs) as Hp. rewrite Hpc in Hp.
  destruct Hp as ((Ht & _ & a & Ha & Hty) & Hk & _). rewrite Ha, lookup_singleton_eq. cbn.
  destruct (inv_registered s Hs _ _ Hk) as (km & Hkm & Hv). unfold upd_key, key_at. rewrite Hkm. cbn.
  case_decide as Hw.
  - rewrite lookup_insert_eq. cbn. intros [= <- <-]. rewrite Z.mod_small in * by lia.
    set (a' := mkKeyArg _ _ _ _). exists a', km, (with_Version km). 
    assert (is_write a') as Hw' by done. unfold new_writes. rewrite decide_True by done.
    assert (km_Version (with_Version km) = Z.of_nat (length (writes (ks_writes s) (rq_Key r))) + 1) as Hv'
      by (cbn; rewrite Z.mod_small; lia).
    split_and!; try done.
    + cbn. by rewrite insert_singleton_eq.
    + right. split; [done|]. rewrite length_app. cbn. split; [lia|]. by exists (writes (ks_writes s) (rq_Key r)).
    + rewrite length_app. cbn [length]. lia.
  - intros [= <- <-]. destruct Hty as [Hty|Hty]; [|done]. exists a, km, km.
    unfold new_writes. rewrite decide_False by done. split_and!; try done.
    + by left.
    + destruct (ks_meta s). cbn in *. unfold set_keys. cbn. by rewrite insert_id.
Qed.

Lemma legit_ext w ext v : legit w v → legit (w ++ ext) v.
Proof. intros (u & Hu & ->). exists u. rewrite length_app, version_at_app by done. split; [lia|done]. Qed.

Lemma writes_key_ask r k a k' : rq_Keys r = {[k := a]} → writes_key r k' ↔ k' = k ∧ is_write a.
Proof.
  intros Hr. unfold writes_key. rewrite Hr. destruct (decide (k = k')) as [<-|Hne].
  - rewrite lookup_singleton_eq. tauto.
  - rewrite lookup_singleton_ne by done. split; [done|]. by intros [-> _].
Qed.

Lemma inv_version s nodes kl r st' r' :
  kv_inv s → ks_pc s = Filtered nodes kl r →
  Z.of_nat (length (writes (ks_writes s) (rq_Key r))) + 1 < 2 ^ 64 →
  main_version (ks_meta s) r kl = Ok (st', r') → kv_inv (numbered s st' nodes kl r').
Proof.
  intros Hs Hpc Hwrap Hv. pose proof (inv_pc s Hs) as Hp. rewrite Hpc in Hp.
  destruct Hp as ((Ht & (c & Hc & Hlt) & _) & Hk & Hl & c' & Hc' & Hun & Hpt & _).
  rewrite Hc in Hc'. injection Hc' as <-.
  destruct (main_version_ok s _ _ _ _ _ Hs Hpc Hwrap Hv) as (a & km & km' & Ht' & Hkey & Hch & Hkeys & Hnum & Hkm & -> & HS & HN & HV).
  clear Hv. unfold numbered. rewrite Hkey, Hkeys, lookup_singleton_eq, Hch, Hc.
  set (k := rq_Key r) in *. set (W := new_writes _ a) in *. set (st' := set_keys _ _).
  destruct (new_writes_app (writes (ks_writes s) k) a) as (ext & HW & Hext). fold W in HW.
  assert (∀ k' l, listed st' k' l → listed (ks_meta s) k' l) as Hlist.
  { intros k' l (kl' & km1 & id & Hk' & Hkm1 & Hid). cbn in Hk', Hkm1. destruct (decide (kl = kl')) as [<-|].
    - rewrite lookup_insert_eq in Hkm1. injection Hkm1 as <-. rewrite HN in Hid. by exists kl, km, id.
    - rewrite lookup_insert_ne in Hkm1 by done. by exists kl', km1, id. }
  assert (∀ k', ∃ e, writes (<[k := W]> (ks_writes s)) k' = writes (ks_writes s) k' ++ e) as Hgrow.
  { intros k'. rewrite writes_insert. destruct (decide (k = k')) as [<-|]; [by exists ext|exists []; by rewrite app_nil_r]. }
  split; cbn; try (by apply Hs).
  - destruct (inv_bounded s Hs). split; auto. intros kl'. cbn. rewrite lookup_insert_is_Some. intros [<-|[_ H]]; eauto.
  - intros k' kl' Hk'. rewrite writes_insert. destruct (decide (kl = kl')) as [<-|Hne].
    + rewrite lookup_insert_eq. exists km'. split; [done|]. rewrite decide_True; [done|]. by eapply (inv_distinct s Hs).
    + rewrite lookup_insert_ne by done. rewrite decide_False by (intros <-; congruence). by apply (inv_registered s Hs).
  - intros k' Hk'. rewrite writes_insert, decide_False by (intros <-; congruence). by apply (inv_unregistered s Hs).
  - intros ql q n k' Hq. destruct (Hgrow k') as [e ->]. apply legit_ext. by apply (inv_legit s Hs) with ql.
  - intros k' l Hh. rewrite writes_insert. destruct (decide (k = k')) as [<-|Hne].
    + assert (l ∈ nodes) as Hin.
      { destruct Hh as [Hh|[_ Hh]]; [apply Hl; by apply Hlist|done]. }
      destruct (inv_holders s Hs k l) as (ql & Hql & Hq); [right; by rewrite Hpc|]. exists ql. split; [done|].
      intros q Hq1 Hq2. specialize (Hq q Hq1 Hq2). rewrite Hpc in Hq. cbn in Hq. rewrite HW, length_app, Hext.
      pose proof (writes_key_ask r' k a k Hkeys) as Hwk.
      assert ((if decide (is_write a) then 1 else 0)%nat = (if decide (writes_key r' k ∧ l ∈ nodes) then 1 else 0)%nat) as <-
        by (repeat case_decide; tauto). lia.
    + rewrite decide_False.
      * assert (lag (ks_pc s) k' l = 0%nat) as <- by (by rewrite Hpc). apply (inv_holders s Hs).
        destruct Hh as [Hh|[[= E] _]]; [left; by apply Hlist|]. cbn in E. congruence.
      * intros [H _]. apply (writes_key_ask r' k a k' Hkeys) in H as [-> _]. done.
  - intros kl' km1. unfold live_filters. cbn. pose proof (inv_sending s Hs kl') as Hsend. unfold live_filters in Hsend.
    rewrite Hpc in Hsend. cbn in Hsend. destruct (decide (kl = kl')) as [<-|].
    + rewrite lookup_insert_eq. intros [= <-]. rewrite HS. by apply Hsend.
    + rewrite lookup_insert_ne by done. apply Hsend.
  - rewrite Hkey. split.
    + split; [done|]. split; [exists c; by rewrite Hch|]. exists a. rewrite Hkey. split; [done|].
      destruct Hnum as [?|[? _]]; [by left|by right].
    + exists c, a. rewrite Hch. rewrite writes_insert, decide_True, lookup_insert_eq by done. done.
  - intros c1 k1 a1 u1. destruct (decide (c = c1)) as [<-|Hne].
    + rewrite lookup_insert_eq. intros [= <- <- <-]. rewrite writes_insert, decide_True by done. split_and!; [done|lia|].
      intros ql q i rq Hq Hi Hch1. exfalso. destruct Hun as (Hun & _). eapply Hun; [exact Hq| |exact Hch1].
      by eapply list_elem_of_lookup_2.
    + rewrite lookup_insert_ne by done. intros Hp1. destruct (inv_points s Hs c1 k1 a1 u1 Hp1) as (Hc1 & Hu1 & Hq1).
      destruct (Hgrow k1) as [e ->]. rewrite length_app. split_and!; [done|lia|].
      intros ql q i rq Hq Hi Hch1. rewrite version_at_app by done. eauto.
Qed.

(** *** A request is sent to a node *)

Lemma numbered_step w a v :
  numbered_arg w a → legit w v →
  Z.of_nat (length w) - Z.of_nat (if decide (is_write a) then 1 else 0) ≤ kv_Version v →
  value_step v a = version_at w (length w).
Proof.
  intros Ha Hl Hv. apply legit_version in Hl as [[_ Hle] E].
  destruct Ha as [Ha|(Ha & Hver & w0 & Hw)].
  - rewrite value_step_read by by left. rewrite decide_False in Hv by (unfold is_write; rewrite Ha; by intros []).
    rewrite E. f_equal. lia.
  - rewrite value_step_write by done. rewrite decide_True in Hv by done.
    destruct (Z.ltb_spec (kv_Version v) (ka_Version a)) as [Hlt|Hge]; [|rewrite E; f_equal; lia].
    assert (length w = S (length w0)) as Hlen by (rewrite Hw, length_app; cbn; lia).
    assert (Z.to_nat (kv_Version v) = length w0) as Hu by lia.
    rewrite Hu in E. rewrite E, Hver, Hlen. unfold version_at. f_equal. cbn [kv_Value].
    by rewrite Hw, value_at_app, value_at_last by done.
Qed.

Lemma main_send_one st r l st' :
  main_send st r [l] = Ok st' →
  ∃ ql q, queue_of st l = Some ql ∧ m_queues st !! ql = Some q ∧
    (q_Closed q = true ∧ m_queues st' = m_queues st ∨
     q_Closed q = false ∧ m_queues st' = <[ql := mkQueue (q_Channel q ++ [r]) false]> (m_queues st)) ∧
    ((∀ c, rq_Channel r = Some c → (c < m_next st)%nat) → grows (eq r) st st').
Proof.
  unfold main_send. cbn. intros H. apply bind_Ok_inv in H as (st1 & H & [= <-]).
  apply bind_Ok_inv in H as (node & Hn%require_Ok_inv & H).
  assert ((∀ c, rq_Channel r = Some c → (c < m_next st)%nat) → grows (eq r) st st1) as Hg.
  { intros Hc. eapply Request_grows; [exact H|done|]. auto. }
  unfold Request in H. apply bind_Ok_inv in H as (q & Hq%require_Ok_inv & H).
  exists (nm_RequestQueue node), q. unfold queue_of. rewrite Hn. split_and!; [done..| |done].
  destruct (q_Closed q); injection H as <-; [left|by right]. by destruct (rq_Channel r).
Qed.

Section Send.
Context (s : kv_system) (l : loc) (nodes : list loc) (kl : loc) (r : KvRequest) (st' : meta).
Context (Hs : kv_inv s) (Hpc : ks_pc s = Sending (l :: nodes) kl r).
Let st := ks_meta s.
Let w := ks_writes s.
Let k := rq_Key r.
Context (ql : loc) (q : KvRequestQueue) (Hql : queue_of st l = Some ql) (Hq : m_queues st !! ql = Some q).
Context (c : loc) (a : KeyArg) (Ht : rq_Type r = 0) (Hc : rq_Channel r = Some c) (Hkeys : rq_Keys r = {[k := a]}).
Context (Hnum : numbered_arg (writes w k) a) (Hpt : ks_point s !! c = Some (k, a, length (writes w k))).

Lemma send_ask k' : ask r k' = if decide (k = k') then Some a else None.
Proof.
  unfold ask. rewrite Ht, decide_False by done. rewrite Hkeys. case_decide as E.
  - subst k'. apply lookup_singleton_eq.
  - by apply lookup_singleton_ne.
Qed.

Lemma send_writes_key k' : writes_key r k' ↔ k' = k ∧ is_write a.
Proof. by apply writes_key_ask. Qed.

(** If the queue is open, the node is at the new place of the key. *)
Lemma send_held k' :
  q_Closed q = false →
  held (q_Channel q ++ [r]) k' =
  if decide (k = k') then version_at (writes w k) (length (writes w k)) else held (q_Channel q) k'.
Proof.
  intros Hopen. rewrite held_snoc, send_ask. case_decide as E; [subst k'|done].
  apply numbered_step; [done| |].
  - rewrite <-(firstn_all (q_Channel q)). by apply (inv_legit s Hs) with ql.
  - destruct (inv_holders s Hs k l) as (ql' & Hql' & Hv).
    { right. rewrite Hpc. split; [done|]. cbn. set_solver. }
    fold st in Hql'. rewrite Hql in Hql'. injection Hql' as <-. specialize (Hv q Hq Hopen).
    rewrite Hpc in Hv. cbn in Hv. fold w in Hv.
    assert ((if decide (writes_key r k ∧ l ∈ l :: nodes) then 1 else 0)%nat = (if decide (is_write a) then 1 else 0)%nat) as E.
    { pose proof (send_writes_key k). assert (l ∈ l :: nodes) by set_solver. repeat case_decide; tauto. }
    rewrite E in Hv. exact Hv.
Qed.

(** Every queue afterwards: an old one, or the one that got the request. *)
Context (Hqs : q_Closed q = true ∧ m_queues st' = m_queues st ∨
  q_Closed q = false ∧ m_queues st' = <[ql := mkQueue (q_Channel q ++ [r]) false]> (m_queues st)).

Lemma send_queue ql' q' :
  m_queues st' !! ql' = Some q' →
  m_queues st !! ql' = Some q' ∧ (ql' = ql → q_Closed q = true) ∨
  ql' = ql ∧ q_Closed q = false ∧ q' = mkQueue (q_Channel q ++ [r]) false.
Proof.
  destruct Hqs as [[Hcl ->]|[Hop ->]]; [by left|]. destruct (decide (ql = ql')) as [<-|].
  - rewrite lookup_insert_eq. intros [= <-]. by right.
  - rewrite lookup_insert_ne by done. intros H. left. split; [done|]. by intros ->.
Qed.

Lemma send_legit ql' q' n k' :
  m_queues st' !! ql' = Some q' → legit (writes w k') (held (take n (q_Channel q')) k').
Proof.
  intros [[Hq' _]|(-> & Hop & ->)]%send_queue; [by apply (inv_legit s Hs) with ql'|]. cbn.
  destruct (decide (n ≤ length (q_Channel q))%nat) as [Hn|Hn].
  - rewrite take_app_le by done. by apply (inv_legit s Hs) with ql.
  - rewrite take_ge by (rewrite length_app; cbn; lia). rewrite send_held by done. case_decide as E.
    + subst k'. by exists (length (writes w k)).
    + rewrite <-(firstn_all (q_Channel q)). by apply (inv_legit s Hs) with ql.
Qed.

Lemma send_up_to_date k' l' n :
  queue_of st' l' = queue_of st l' → up_to_date st (writes w k') k' l' n → up_to_date st' (writes w k') k' l' n.
Proof.
  intros Hl (ql' & Hql' & Hv). exists ql'. split; [congruence|].
  intros q' [[Hq' _]|(-> & Hop & ->)]%send_queue Hop'; [auto|]. specialize (Hv q Hq Hop). cbn [q_Channel].
  pose proof (held_mono (q_Channel q) [r] k'). lia.
Qed.

(** The node that the request went to has it now. *)
Lemma send_reaches : queue_of st' l = queue_of st l → up_to_date st' (writes w k) k l 0.
Proof.
  intros Hl. exists ql. split; [congruence|]. intros q' [[Hq' Hcl]|(_ & Hop & ->)]%send_queue Hop'.
  - specialize (Hcl eq_refl). congruence.
  - cbn [q_Channel]. rewrite send_held, decide_True by done. unfold version_at. cbn [kv_Version]. lia.
Qed.

Lemma send_points : (m_next st ≤ m_next st')%nat → points_ok st' w (ks_point s).
Proof.
  intros Hn c1 k1 a1 u1 Hp1. destruct (inv_points s Hs c1 k1 a1 u1 Hp1) as (Hc1 & Hu1 & Hq1).
  split_and!; [fold st in Hc1; lia|done|].
  intros ql' q' i rq [[Hq' _]|(-> & Hop & ->)]%send_queue Hi Hch; [by eapply Hq1|]. cbn [q_Channel] in *.
  destruct (decide (i < length (q_Channel q))%nat) as [Hlt|Hge].
  - rewrite lookup_app_l in Hi by done. rewrite take_app_le by lia. by eapply Hq1.
  - rewrite lookup_app_r in Hi by lia. apply list_lookup_singleton_Some in Hi as [Hi <-].
    rewrite Hc in Hch. injection Hch as <-. rewrite Hpt in Hp1. injection Hp1 as <- <- <-.
    rewrite send_ask, decide_True by done. split; [done|].
    split; [destruct Hnum as [?|[? _]]; [by left|by right]|].
    rewrite take_ge by (rewrite length_app; simpl; lia). by rewrite send_held, decide_True.
Qed.
End Send.

Lemma inv_send s l nodes kl r st' :
  kv_inv s → ks_pc s = Sending (l :: nodes) kl r → main_send (ks_meta s) r [l] = Ok st' →
  kv_inv (mkSystem st' (ks_requests s) (Sending nodes kl r) (ks_writes s) (ks_point s)).
Proof.
  intros Hs Hpc H. pose proof (inv_pc s Hs) as Hp. rewrite Hpc in Hp.
  destruct Hp as (Hr & c & a & Hc & Hkeys & Hnum & Hpt). pose proof Hr as (Ht & (c' & Hc' & Hlt) & _).
  rewrite Hc in Hc'. injection Hc' as <-.
  destruct (main_send_one _ _ _ _ H) as (ql & q & Hql & Hq & Hqs & Hg).
  specialize (Hg ltac:(intros d E; rewrite Hc in E; by injection E as <-)).
  pose proof (gr_next _ _ _ Hg) as Hn.
  split; cbn [ks_meta ks_requests ks_pc ks_writes ks_point].
  - apply (gr_bounded _ _ _ Hg), Hs.
  - intros k' kl'. rewrite (gr_KeyMap _ _ _ Hg), (gr_keys _ _ _ Hg). by apply Hs.
  - intros k'. rewrite (gr_KeyMap _ _ _ Hg). by apply Hs.
  - intros k1 k2 kl'. rewrite (gr_KeyMap _ _ _ Hg). by apply Hs.
  - intros l' ql'. rewrite (gr_nodes _ _ _ Hg). intros Hl'. apply (inv_connected s Hs) in Hl'.
    destruct Hqs as [[_ ->]|[_ ->]]; [done|]. rewrite lookup_insert_is_Some'. by right.
  - by apply (send_legit s l nodes kl r st' Hs Hpc ql q Hql Hq c a Ht Hc Hkeys Hnum Hpt Hqs).
  - intros k' l' Hh. destruct (decide (k' = rq_Key r ∧ l' = l)) as [[-> ->]|Hne].
    + destruct (send_reaches s l nodes kl r st' Hs Hpc ql q Hql Hq c a Ht Hc Hkeys Hnum Hpt Hqs (gr_nodes _ _ _ Hg l)) as (ql' & ? & Hv).
      exists ql'. split; [done|]. intros q' Hq' Hop. specialize (Hv q' Hq' Hop). lia.
    + assert (lag (Sending nodes kl r) k' l' = lag (ks_pc s) k' l') as ->.
      { rewrite Hpc. cbn. pose proof (send_writes_key r a Hkeys k') as Hwk.
        assert (writes_key r k' → (l' ∈ nodes ↔ l' ∈ l :: nodes)) by (intros Hw; apply Hwk in Hw; set_solver).
        repeat case_decide; tauto. }
      apply (send_up_to_date s r st' ql q Hq Hqs); [by rewrite (gr_nodes _ _ _ Hg)|]. apply (inv_holders s Hs).
      destruct Hh as [Hh|[E Hin]]; [left; by apply (listed_grows _ _ _ _ _ Hg)|right]. rewrite Hpc. split; [done|].
      cbn in *. set_solver.
  - intros kl' km. unfold live_filters. rewrite (gr_filters _ _ _ Hg), (gr_keys _ _ _ Hg). intros Hkm.
    pose proof (inv_sending s Hs kl' km Hkm) as Hsend. rewrite Hpc in Hsend. exact Hsend.
  - eapply Forall_impl; [apply (inv_requests s Hs)|]. intros r'. by apply client_request_mono.
  - split; [by eapply client_request_mono|]. by exists c, a.
  - by apply (send_points s l nodes kl r st' Hs Hpc ql q Hql Hq c a Ht Hc Hkeys Hnum Hpt Hqs).
Qed.
