(* ===== verification/KvConsistency.v ===== *)
(** The replicas of a key stay equal, and what they answer is linearised, in
    every state that the routines of the front end can reach
    (CPSC418/assignment4/kv-front-end.go and kv-node.go). *)
From S2P Require Import Prelude Utf8 GoText Framing KvNode KvMeta KvJson KvFrontEnd KvFrontProps KvSystem KvUtf8 KvInvariant KvTurns.

Open Scope Z_scope.

(** ** Every reachable state *)

Lemma kv_inv_initial : kv_inv initial.
Proof.
  split; cbn; try done.
  - split; cbn; try done; try (intros x [y Hy]; done). intros c r Hr. by apply elem_of_nil in Hr.
  - intros k l [(kl & km & id & H & _)|[[=] _]]. done.
Qed.

Lemma kv_inv_step rf s s' : kv_inv s → kv_utf8 s → kv_step utf8 rf s s' → kv_inv s'.
Proof.
  intros Hs Hu8 Hstep. destruct Hstep.
  - destruct (Get_grows _ (m_next (ks_meta s)) (ks_writes s) _ _ _ _ (Nat.le_refl _) H0) as [Hg Hf].
    by apply inv_grows.
  - destruct (new_request_ok (ks_meta s) key (mkKeyArg PUT 0 [] val) (quiet (m_next (ks_meta s)) (ks_writes s)))
      as [Hg Hr]; [by right; left|]. apply (inv_grows s _ Hs Hg). by apply Forall_cons_2.
  - destruct (new_request_ok (ks_meta s) key (mkKeyArg TEST_PUT 0 testVal newVal) (quiet (m_next (ks_meta s)) (ks_writes s)))
      as [Hg Hr]; [by right; right|]. apply (inv_grows s _ Hs Hg). by apply Forall_cons_2.
  - by eapply inv_lock.
  - by eapply inv_refuse.
  - by eapply inv_filter.
  - by eapply inv_version.
  - by eapply inv_send.
  - by eapply inv_sent.
  - by eapply inv_receive.
  - by eapply inv_queue.
  - by eapply inv_connect.
  - apply inv_quiet; [done|]. eapply RequestAndClose_grows; [eassumption|by apply quiet_no_keys|done].
  - by eapply inv_disconnect.
  - apply inv_quiet; [done|]. by eapply repl_query_quiet.
  - apply inv_quiet; [done|]. eapply repl_put_quiet; [|eassumption].
    eapply (merge_loop_copies s Hs (us_meta s Hu8) _ _ ∅); [|eassumption..]. intros k a. by rewrite lookup_empty.
  - eapply inv_finish; [eassumption..| |eassumption]. apply gives_plain; [|eassumption].
    by eapply (u_queues _ (us_meta s Hu8)).
Qed.

Lemma kv_reachable_inv rf s : reachable utf8 rf s → kv_inv s ∧ kv_utf8 s.
Proof.
  pose proof (conj kv_inv_initial kv_utf8_initial) as Hs. intros Hr. revert Hs. generalize initial Hr. clear Hr.
  induction 1 as [|s1 s2 s3 Hstep _ IH]; [done|]. intros [Hs Hu8].
  apply IH. split; [by eapply kv_inv_step|by eapply kv_utf8_step].
Qed.

(** A node whose queue is open and that the main routine has nothing left to
    send to holds the last write. *)
Lemma holder_current s k l ql q :
  kv_inv s → is_holder (ks_meta s) (ks_pc s) k l → queue_of (ks_meta s) l = Some ql →
  m_queues (ks_meta s) !! ql = Some q → q_Closed q = false → lag (ks_pc s) k l = 0%nat →
  held (q_Channel q) k = version_at (writes (ks_writes s) k) (length (writes (ks_writes s) k)).
Proof.
  intros Hs Hh Hql Hq Hop Hlag. destruct (inv_holders s Hs k l Hh) as (ql' & Hql' & Hv).
  rewrite Hql in Hql'. injection Hql' as <-. specialize (Hv q Hq Hop). rewrite Hlag in Hv.
  pose proof (inv_legit s Hs ql q (length (q_Channel q)) k Hq) as Hl. rewrite firstn_all in Hl.
  apply legit_version in Hl as [Hr ->]. f_equal. lia.
Qed.

(** ** Whole turns *)

Lemma main_version_numbered st r kl st' r' c :
  main_version st r kl = Ok (st', r') → rq_Channel r = Some c →
  rq_Key r' = rq_Key r ∧ rq_Channel r' = Some c ∧ is_Some (rq_Keys r' !! rq_Key r').
Proof.
  unfold main_version. intros H Hc. apply bind_Ok_inv in H as (a & Ha%require_Ok_inv & H). case_decide.
  - apply bind_Ok_inv in H as (st1 & _ & H). apply bind_Ok_inv in H as (km & _ & [= <- <-]). cbn.
    rewrite lookup_insert_eq. by split_and!.
  - injection H as <- <-. rewrite Ha. by split_and!.
Qed.

Lemma sends_reach rf nodes kl r st st' requests w p :
  main_send st r nodes = Ok st' →
  rtc (kv_step utf8 rf) (mkSystem st requests (Sending nodes kl r) w p) (mkSystem st' requests Idle w p).
Proof.
  revert st. induction nodes as [|l nodes IH]; intros st H.
  - injection H as <-. apply rtc_once. by apply (step_sent utf8 rf (mkSystem st requests (Sending [] kl r) w p) kl r).
  - unfold main_send in H. cbn [foldM] in H. apply bind_Ok_inv in H as (st1 & H1 & H).
    eapply rtc_l; [|by apply (IH st1)].
    apply (step_send utf8 rf (mkSystem st requests (Sending (l :: nodes) kl r) w p) l); [done|].
    unfold main_send. cbn [foldM ks_meta]. by rewrite H1.
Qed.

(** A turn of the main routine without interruption, as steps of the system. *)
Definition turn (order : map_order) (Intn : nat → nat → nat) (rf : nat) (s : kv_system)
    (r : KvRequest) (requests : list KvRequest) : res kv_system :=
  '(st, nodes, kl, unavailable) ← main_lock order Intn rf (ks_meta s) r;
  if (unavailable : bool) || bool_decide (nodes = []) then
    st ← main_refuse st r kl unavailable;
    Ok (mkSystem st requests Idle (ks_writes s) (ks_point s))
  else
    let '(st, c) := filterChannelUnavailable st (length nodes) (rq_Channel r) kl in
    '(st, r) ← main_version st (mkKvRequest (rq_Type r) (rq_Key r) (rq_Keys r) (Some c)) kl;
    let s' := numbered s st nodes kl r in
    st ← main_send st r nodes;
    Ok (mkSystem st requests Idle (ks_writes s') (ks_point s')).

Lemma turn_mainRoutine order Intn rf s r requests :
  mainRoutine order Intn rf (ks_meta s) r = (s' ← turn order Intn rf s r requests; Ok (ks_meta s')).
Proof.
  unfold mainRoutine, turn. destruct (main_lock _ _ _ _ _) as [[[[st nodes] kl] u]| |]; [|done..].
  rewrite !bind_Ok. destruct (u || _).
  - by destruct (main_refuse _ _ _ _).
  - destruct (filterChannelUnavailable _ _ _ _) as [st' c].
    destruct (main_version _ _ _) as [[st'' r']| |]; [|done..]. rewrite !bind_Ok.
    by destruct (main_send _ _ _).
Qed.

Lemma turn_reaches rf s order Intn r requests s' :
  is_map_order order → ks_pc s = Idle → ks_requests s = r :: requests →
  Z.of_nat (length (writes (ks_writes s) (rq_Key r))) + 1 < 2 ^ 64 →
  turn order Intn rf s r requests = Ok s' → rtc (kv_step utf8 rf) s s'.
Proof.
  intros Ho Hpc Hreq Hwrap H. unfold turn in H.
  apply bind_Ok_inv in H as ([[[st1 nodes] kl] u] & H1 & H).
  pose proof (step_lock utf8 rf s _ _ _ _ _ _ _ _ Ho Hpc Hreq H1) as S1. set (s1 := mkSystem st1 _ _ _ _) in S1.
  destruct (u || bool_decide (nodes = [])) eqn:Hu.
  - apply bind_Ok_inv in H as (st2 & H2 & [= <-]). eapply rtc_l; [exact S1|]. apply rtc_once.
    by apply (step_refuse utf8 rf s1 nodes kl u r).
  - destruct (filterChannelUnavailable st1 (length nodes) (rq_Channel r) kl) as [st2 c] eqn:H2.
    pose proof (step_filter utf8 rf s1 nodes kl u r st2 c eq_refl Hu H2) as S2. set (s2 := mkSystem st2 _ _ _ _) in S2.
    apply bind_Ok_inv in H as ([st3 r'] & H3 & H).
    pose proof (step_version utf8 rf s2 nodes kl _ st3 r' eq_refl Hwrap H3) as S3.
    destruct (main_version_numbered _ _ _ _ _ _ H3 eq_refl) as (_ & Hc & [a Ha]).
    unfold numbered in S3, H. rewrite Ha, Hc in S3, H. apply bind_Ok_inv in H as (st4 & H4 & [= <-]).
    eapply rtc_l; [exact S1|]. eapply rtc_l; [exact S2|]. eapply rtc_l; [exact S3|]. by apply sends_reach.
Qed.

(** What a node answers to a request is what it holds after it. *)
Lemma answer_held w u o a :
  ka_Type a = GET ∨ is_write a → value_step (default zero_value o) a = version_at w u →
  key_answer o a = Some (if decide (ka_Type a = PUT) then mkKvValue (Z.of_nat u) [] else version_at w u).
Proof.
  rewrite <-key_step_default. intros Hty H. unfold key_answer. change (mkKvValue 0 []) with zero_value.
  destruct Hty as [Hty|[Hty|Hty]]; rewrite Hty in *; simpl.
  - rewrite <-H. unfold key_step. by rewrite Hty.
  - by rewrite H.
  - by rewrite H.
Qed.

(** ** A run with two nodes and a write *)

(** A node dials in: its goroutine makes a queue, the routine of the nodes
    registers it. *)
Definition join (rf : nat) (st : meta) (id : str) : meta :=
  (or_else ((node_queue st).1, None) (nodes_connect rf (node_queue st).1 id (node_queue st).2)).1.

Lemma join_reaches rf s id :
  is_Ok (nodes_connect rf (node_queue (ks_meta s)).1 id (node_queue (ks_meta s)).2) = true →
  rtc (kv_step utf8 rf) s (with_meta (join rf (ks_meta s) id) s).
Proof.
  intros H. apply (or_else_Ok ((node_queue (ks_meta s)).1, None)) in H. revert H. unfold join.
  destruct (or_else _ _) as [st' started]. intros H.
  eapply rtc_l; [apply (step_queue utf8 rf s _ _ (surjective_pairing (node_queue (ks_meta s))))|]. apply rtc_once.
  apply (step_connect utf8 rf (with_meta (node_queue (ks_meta s)).1 s) id (node_queue (ks_meta s)).2 st' started); [|done].
  cbn. by rewrite lookup_insert_eq.
Qed.

Definition sample_draws (i n : nat) : nat := 0.
Definition sample_joined : meta := join 2 (join 2 empty_meta [x61]) [x62].
Definition sample_put : meta * outcome := Put sample_joined [x6b] [x76].
Definition sample_issued : kv_system := issue (with_meta sample_joined initial) sample_put.
Definition sample_request : KvRequest :=
  mkKvRequest 0 [x6b] {[ [x6b] := mkKeyArg PUT 0 [] [x76] ]} (Some 4%nat).
Definition sample_done : kv_system :=
  or_else initial (turn map_to_list sample_draws 2 sample_issued sample_request []).

Definition sample_key_loc : loc := default 0%nat (KeyMap (ks_meta sample_done) !! [x6b]).
Definition sample_key_metadata : KeyMetadata :=
  default (mkKeyMetadata 0 false 0 ∅) (m_keys (ks_meta sample_done) !! sample_key_loc).
Definition sample_open : KvRequestQueue := default (mkQueue [] false) (m_queues (ks_meta sample_done) !! 0%nat).

Lemma sample_issued_reachable : reachable utf8 2 sample_issued.
Proof.
  etrans; [apply (join_reaches 2 initial [x61]); by vm_compute|].
  etrans; [apply (join_reaches 2 _ [x62]); by vm_compute|]. apply rtc_once.
  by apply (step_Put utf8 2 (with_meta sample_joined initial)).
Qed.

Lemma sample_done_reachable : reachable utf8 2 sample_done.
Proof.
  etrans; [apply sample_issued_reachable|].
  apply (turn_reaches 2 sample_issued map_to_list sample_draws sample_request []); [|done..|].
  - apply map_to_list_map_order.
  - apply or_else_Ok. by vm_compute.
Qed.

(** What the first node answers. *)
Definition sample_sent : KvRequest := default sample_request (q_Channel sample_open !! 0%nat).
Definition sample_answer : FeResponse :=
  mkFeResponse 0 (json_map json_value (resp_Values (handle_args map_to_list ∅ (as_args sample_sent)).2))
    false false.

(** ** The properties *)

(** C21: In every state that the routines of the front end can reach, with
    clients, nodes that come and go, replication and the main routine
    interleaving in any way, while the keys and the values in the calls of
    clients are UTF-8 (JSON changes other strings, [Utf8.json_map]): a node
    that has a key and can still be reached ends up, after the requests in its
    queue have come over JSON (none so long that it ends the node), with the value of the last write of the key,
    unless the main routine is just about to send it that write. So all
    replicas of the key are equal, and the version in the metadata is the
    number of its writes. *)
Theorem replicas_stay_equal rf order s k kl km id l ql q :
  reachable utf8 rf s → is_order order →
  KeyMap (ks_meta s) !! k = Some kl → m_keys (ks_meta s) !! kl = Some km →
  km_Nodes km !! id = Some l → queue_of (ks_meta s) l = Some ql →
  m_queues (ks_meta s) !! ql = Some q → q_Closed q = false → lag (ks_pc s) k l = 0%nat →
  let w := writes (ks_writes s) k in
  kv_get (run order ∅ (as_args <$> q_Channel q)) k = version_at w (length w) ∧
  km_Version km = Z.of_nat (length w).
Proof.
  intros Hr Ho Hk Hkm Hid Hql Hq Hop Hlag w. destruct (kv_reachable_inv _ _ Hr) as [Hs Hu8]. split.
  - rewrite run_as_args by (by eapply (u_queues _ (us_meta s Hu8))). rewrite <-held_run by done. apply (holder_current s k l ql); try done. left. by exists kl, km, id.
  - destruct (inv_registered s Hs k kl Hk) as (km' & Hkm' & Hv).
    rewrite Hkm in Hkm'. by injection Hkm' as <-.
Qed.

Lemma replicas_stay_equal_witness :
  kv_get (run map_to_list ∅ (as_args <$> q_Channel sample_open)) [x6b] =
    version_at (writes (ks_writes sample_done) [x6b]) (length (writes (ks_writes sample_done) [x6b])) ∧
  km_Version sample_key_metadata = Z.of_nat (length (writes (ks_writes sample_done) [x6b])).
Proof.
  refine (replicas_stay_equal 2 map_to_list _ [x6b] sample_key_loc sample_key_metadata [x61] 1%nat 0%nat
    sample_open sample_done_reachable _ _ _ _ _ _ _ _).
  - intros m. reflexivity.
  - apply default_Some. by vm_compute.
  - apply default_Some. by vm_compute.
  - by vm_compute.
  - by vm_compute.
  - apply default_Some. by vm_compute.
  - by vm_compute.
  - by vm_compute.
Defined.

(** C22: While the keys and the values in the calls of clients are UTF-8, the
    answers to their requests, over JSON, are linearised. The main
    routine gives each request a place among the writes of its key; every
    node that answers it, at whatever time, answers with the value of the key
    at that place (and a [PUT] with its version alone), so that it does not
    matter which of the answers reaches the client first. *)
Theorem answers_are_current rf s c k a u ql q i rq r :
  reachable utf8 rf s → ks_point s !! c = Some (k, a, u) →
  m_queues (ks_meta s) !! ql = Some q → q_Channel q !! i = Some rq → rq_Channel rq = Some c →
  gives q i r →
  fr_Values r !! k =
    Some (if decide (ka_Type a = PUT) then mkKvValue (Z.of_nat u) []
          else version_at (writes (ks_writes s) k) u).
Proof.
  intros Hr Hp Hq Hi Hc Hg. destruct (kv_reachable_inv _ _ Hr) as [Hs Hu8].
  apply (gives_plain _ _ _ (u_queues _ (us_meta s Hu8) _ _ Hq)) in Hg.
  destruct (inv_points s Hs c k a u Hp) as (_ & _ & Hat). destruct (Hat ql q i rq Hq Hi Hc) as (Ha & Hty & Hheld).
  rewrite (gives_lookup _ _ _ _ _ Hg Hi), Ha. cbn. rewrite (take_S_r _ _ _ Hi), held_snoc, Ha in Hheld.
  by apply answer_held.
Qed.

Lemma answers_are_current_witness :
  fr_Values sample_answer !! [x6b] = Some (mkKvValue 1 []) ∧
  version_at (writes (ks_writes sample_done) [x6b]) 1 = mkKvValue 1 [x76].
Proof.
  split; [|by vm_compute].
  refine (answers_are_current 2 sample_done 6%nat [x6b] (mkKeyArg PUT 1 [] [x76]) 1 0%nat sample_open 0%nat
    sample_sent sample_answer sample_done_reachable _ _ _ _ _).
  - by vm_compute.
  - apply default_Some. by vm_compute.
  - apply default_Some. by vm_compute.
  - by vm_compute.
  - exists map_to_list, sample_sent. split_and!; [intros m; reflexivity|apply default_Some; by vm_compute|done..].
Defined.
