(* ===== verification/NetMeta.v ===== *)
(** The metadata of the editor's network: who is in it and who has left
    (CPSC418/project/network/netmeta.go). *)
From S2P Require Import Prelude.

Open Scope Z_scope.

(** Ids and addresses are strings. *)
Abbreviation str := (list byte).

Record NodeMeta : Type := mkNodeMeta {
  Addr : str;
  Left : bool
}.

#[export] Instance NodeMeta_eq_dec : EqDecision NodeMeta.
Proof. solve_decision. Defined.

Abbreviation NetMeta := (gmap str NodeMeta).

Definition newNetMeta : NetMeta := ∅.
Definition newQuitNetMeta (id addr : str) : NetMeta := <[id := mkNodeMeta addr true]> newNetMeta.
Definition newJoinNetMeta (id addr : str) : NetMeta := <[id := mkNodeMeta addr false]> newNetMeta.

(** The new map, and whether it changed. *)
Definition update (netMeta : NetMeta) (id : str) (newNodeMeta : NodeMeta) : NetMeta * bool :=
  match netMeta !! id with
  | None => (<[id := newNodeMeta]> netMeta, true)
  | Some n =>
      if negb (Left n) && Left newNodeMeta then (<[id := newNodeMeta]> netMeta, true)
      else (netMeta, false)
  end.

(** The order in which [range] visits a map: a permutation of its entries. *)
Definition range_order : Type := NetMeta → list (str * NodeMeta).
Definition is_range (order : range_order) : Prop := ∀ m, order m ≡ₚ map_to_list m.

Definition merge_step (acc : NetMeta * NetMeta) (p : str * NodeMeta) : NetMeta * NetMeta :=
  let '(netMeta, delta) := acc in
  let '(id, node) := p in
  match update netMeta id node with
  | (netMeta, true) => (netMeta, <[id := node]> delta)
  | (netMeta, false) => (netMeta, delta)
  end.

(** The new map, the changes (a nil map is an empty one) and whether there
    are any. *)
Definition merge (order : range_order) (netMeta netMeta2 : NetMeta) : NetMeta * NetMeta * bool :=
  let '(netMeta, delta) := foldl merge_step (netMeta, newNetMeta) (order netMeta2) in
  if decide (size delta = 0%nat) then (netMeta, ∅, false)
  else (netMeta, delta, true).

Definition copy (order : range_order) (netMeta : NetMeta) : NetMeta :=
  foldl (λ m '(id, node), <[id := node]> m) newNetMeta (order netMeta).

Record NodeMetaListElem : Type := mkElem {
  el_Id : str;
  el_Addr : str;
  el_Left : bool
}.

Definition ToList (order : range_order) (netMeta : NetMeta) : list NodeMetaListElem :=
  foldl (λ l '(id, node), l ++ [mkElem id (Addr node) (Left node)]) [] (order netMeta).

Definition Len (slice : list NodeMetaListElem) : Z := Z.of_nat (length slice).

(** [slice[i].Id < slice[j].Id] *)
Definition string_lt (a b : str) : bool :=
  match bytes_Compare a b with Lt => true | _ => false end.

Definition Less (slice : list NodeMetaListElem) (i j : nat) : res bool :=
  a ← require IndexOutOfRange (slice !! i);
  b ← require IndexOutOfRange (slice !! j);
  Ok (string_lt (el_Id a) (el_Id b)).

Definition Swap (slice : list NodeMetaListElem) (i j : nat) : res (list NodeMetaListElem) :=
  a ← require IndexOutOfRange (slice !! j);
  b ← require IndexOutOfRange (slice !! i);
  slice ← slice_set i a slice;
  slice_set j b slice.

(** ** Entries *)

(** What an update does to one entry: an id that has left does not come back,
    and the address of an id is the one it came with, until it leaves. *)
Definition join1 (o : option NodeMeta) (n : NodeMeta) : NodeMeta :=
  match o with
  | None => n
  | Some m => if negb (Left m) && Left n then n else m
  end.

Definition changes (o : option NodeMeta) (n : NodeMeta) : bool :=
  match o with None => true | Some m => negb (Left m) && Left n end.

Lemma update_spec netMeta id n :
  update netMeta id n = (<[id := join1 (netMeta !! id) n]> netMeta, changes (netMeta !! id) n).
Proof.
  unfold update, join1, changes. destruct (netMeta !! id) as [m|] eqn:E; [|done].
  destruct (negb (Left m) && Left n); [done|]. by rewrite insert_id.
Qed.

Lemma merge_step_spec netMeta delta id n :
  merge_step (netMeta, delta) (id, n) =
  (<[id := join1 (netMeta !! id) n]> netMeta,
   if changes (netMeta !! id) n then <[id := n]> delta else delta).
Proof. unfold merge_step. rewrite update_spec. by destruct (changes _ _). Qed.

Lemma fold_merge_spec l netMeta delta id :
  NoDup l.*1 →
  let r := foldl merge_step (netMeta, delta) l in
  let u := (list_to_map l : NetMeta) !! id in
  r.1 !! id = match u with Some n => Some (join1 (netMeta !! id) n) | None => netMeta !! id end ∧
  r.2 !! id = match u with
              | Some n => if changes (netMeta !! id) n then Some n else delta !! id
              | None => delta !! id
              end.
Proof.
  revert netMeta delta; induction l as [|[k n] l IH]; intros netMeta delta Hnd; [done|].
  apply NoDup_cons in Hnd as [Hk Hnd]. cbn [foldl]. rewrite merge_step_spec.
  destruct (IH (<[k := join1 (netMeta !! k) n]> netMeta)
    (if changes (netMeta !! k) n then <[k := n]> delta else delta) Hnd) as [H1 H2].
  cbn zeta. cbn [list_to_map foldr fst snd curry uncurry]. rewrite H1, H2.
  destruct (decide (k = id)) as [->|Hne].
  - rewrite lookup_insert_eq, not_elem_of_list_to_map_1 by done.
    rewrite lookup_insert_eq. split; [done|].
    destruct (changes _ _); [by rewrite lookup_insert_eq|done].
  - rewrite !lookup_insert_ne by done. split; [done|].
    destruct (changes (netMeta !! k) n); by rewrite ?lookup_insert_ne.
Qed.

Lemma is_range_map order m :
  is_range order → NoDup (order m).*1 ∧ list_to_map (order m) = m.
Proof.
  intros Ho. assert (NoDup (order m).*1) as Hnd.
  { rewrite (Ho m). apply NoDup_fst_map_to_list. }
  split; [done|]. rewrite <-(list_to_map_to_list m) at 2.
  by apply list_to_map_proper, Ho.
Qed.

(** The entries after a merge, and the changes, whatever the order. *)
Definition merged_meta (netMeta updates : NetMeta) : NetMeta :=
  map_imap (λ id n, Some (join1 (netMeta !! id) n)) updates ∪ netMeta.
Definition delta_meta (netMeta updates : NetMeta) : NetMeta :=
  filter (λ p, changes (netMeta !! p.1) p.2 = true) updates.

Lemma merged_meta_lookup netMeta updates id :
  merged_meta netMeta updates !! id =
  match updates !! id with
  | Some n => Some (join1 (netMeta !! id) n)
  | None => netMeta !! id
  end.
Proof.
  unfold merged_meta. rewrite lookup_union, map_lookup_imap.
  destruct (updates !! id), (netMeta !! id); done.
Qed.

Lemma delta_meta_lookup netMeta updates id :
  delta_meta netMeta updates !! id =
  match updates !! id with
  | Some n => if changes (netMeta !! id) n then Some n else None
  | None => None
  end.
Proof.
  unfold delta_meta. apply option_eq. intros n.
  rewrite map_lookup_filter_Some. destruct (updates !! id) as [m|].
  - destruct (changes (netMeta !! id) m) eqn:E; split; intros H; try naive_solver.
    destruct H as [[= ->] H]. simpl in H. congruence.
  - naive_solver.
Qed.

Lemma merge_spec order netMeta updates :
  is_range order →
  merge order netMeta updates =
  (merged_meta netMeta updates, delta_meta netMeta updates,
   negb (bool_decide (delta_meta netMeta updates = ∅))).
Proof.
  intros Ho. unfold merge. destruct (is_range_map order updates Ho) as [Hnd Hm].
  assert (foldl merge_step (netMeta, newNetMeta) (order updates) =
    (merged_meta netMeta updates, delta_meta netMeta updates)) as ->.
  { apply injective_projections; apply map_eq; intros id;
      destruct (fold_merge_spec _ netMeta newNetMeta id Hnd) as [H1 H2]; cbn [fst snd].
    - rewrite H1, Hm. by rewrite merged_meta_lookup.
    - rewrite H2, Hm, delta_meta_lookup. unfold newNetMeta. by rewrite lookup_empty. }
  destruct (decide (size (delta_meta netMeta updates) = 0%nat)) as [E|E].
  - apply map_size_empty_iff in E. by rewrite E, bool_decide_eq_true_2.
  - rewrite bool_decide_eq_false_2; [done|]. intros H. apply E. by apply map_size_empty_iff.
Qed.

(** ** Sequences of updates *)

(** The updates a site merges one after the other. *)
Definition gossip (order : range_order) (m : NetMeta) (us : list NetMeta) : NetMeta :=
  foldl (λ m u, (merge order m u).1.1) m us.

Lemma gossip_lookup order m us id :
  is_range order →
  gossip order m us !! id =
  foldl (λ o n, Some (join1 o n)) (m !! id) (omap (λ u : NetMeta, u !! id) us).
Proof.
  intros Ho. revert m; induction us as [|u us IH]; intros m; [done|].
  cbn [gossip foldl omap list_omap]. fold (gossip order (merge order m u).1.1 us).
  rewrite IH, (merge_spec _ _ _ Ho). cbn [fst]. rewrite merged_meta_lookup.
  by destruct (u !! id).
Qed.

(** The ids keep their addresses. *)
Definition addressed (addr : str → str) (u : NetMeta) : Prop :=
  ∀ id n, u !! id = Some n → Addr n = addr id.

Lemma fold_join a l m :
  Forall (λ n, Addr n = a) l → Addr m = a →
  foldl (λ o n, Some (join1 o n)) (Some m) l = Some (mkNodeMeta a (Left m || existsb Left l)).
Proof.
  revert m; induction l as [|n l IH]; intros m Hl Hm; simpl.
  - rewrite orb_false_r. destruct m. simpl in *. by subst.
  - apply Forall_cons in Hl as [Hn Hl].
    destruct (negb (Left m) && Left n) eqn:E; rewrite IH by done.
    + apply andb_true_iff in E as [E1%negb_true_iff E2]. by rewrite E1, E2.
    + destruct (Left m), (Left n); done.
Qed.

Lemma fold_join_none a l :
  Forall (λ n, Addr n = a) l →
  foldl (λ o n, Some (join1 o n)) None l =
  match l with [] => None | _ => Some (mkNodeMeta a (existsb Left l)) end.
Proof.
  destruct l as [|n l]; [done|]. intros [Hn Hl]%Forall_cons. simpl. by rewrite (fold_join a).
Qed.

Lemma elem_of_mentions (us : list NetMeta) id n :
  n ∈ omap (λ u : NetMeta, u !! id) us ↔ ∃ u, u ∈ us ∧ u !! id = Some n.
Proof. apply list_elem_of_omap. Qed.

Lemma existsb_equiv (l1 l2 : list NodeMeta) :
  (∀ n, n ∈ l1 ↔ n ∈ l2) → existsb Left l1 = existsb Left l2.
Proof.
  intros H. apply eq_true_iff_eq. rewrite !existsb_exists.
  split; intros (n & Hn%list_elem_of_In & Hl); exists n; split; try done; by apply list_elem_of_In, H.
Qed.

(** ** Weights: how much a site knows *)

Definition entry_weight (o : option NodeMeta) : Z :=
  match o with None => 0 | Some n => if Left n then 2 else 1 end.
Definition weight (ids : list str) (m : NetMeta) : Z := sumZ (λ id, entry_weight (m !! id)) ids.

Lemma entry_weight_join o n :
  entry_weight (Some (join1 o n)) =
  entry_weight o + (if changes o n then entry_weight (Some (join1 o n)) - entry_weight o else 0) ∧
  (changes o n = true → entry_weight o + 1 ≤ entry_weight (Some (join1 o n))).
Proof.
  unfold join1, changes, entry_weight. destruct o as [m|]; [destruct (Left m) eqn:Em|];
    destruct (Left n) eqn:En; simpl; rewrite ?Em, ?En; lia.
Qed.

Lemma weight_bound ids m : 0 ≤ weight ids m ≤ 2 * Z.of_nat (length ids).
Proof.
  unfold weight. induction ids as [|id ids IH]; simpl; [lia|].
  assert (0 ≤ entry_weight (m !! id) ≤ 2); [|lia].
  unfold entry_weight. destruct (m !! id) as [n|]; [destruct (Left n)|]; lia.
Qed.

Lemma sumZ_le {A} (f g : A → Z) l : (∀ x, f x ≤ g x) → sumZ f l ≤ sumZ g l.
Proof.
  intros H. induction l as [|x l IH]; simpl; [lia|]. specialize (H x). lia.
Qed.

Lemma sumZ_lt {A} (f g : A → Z) l a :
  (∀ x, f x ≤ g x) → a ∈ l → f a + 1 ≤ g a → sumZ f l + 1 ≤ sumZ g l.
Proof.
  intros H Ha Hlt. induction l as [|x l IH]; [by apply elem_of_nil in Ha|]. simpl.
  pose proof (sumZ_le f g l H). specialize (H x).
  apply elem_of_cons in Ha as [->|Ha]; [|specialize (IH Ha)]; lia.
Qed.

Lemma merge_weight order ids m u :
  is_range order → (∀ id, is_Some (u !! id) → id ∈ ids) →
  let r := merge order m u in
  weight ids m + (if r.2 then 1 else 0) ≤ weight ids r.1.1.
Proof.
  intros Ho Hids. rewrite (merge_spec _ _ _ Ho). cbn zeta. cbn [fst snd].
  assert (∀ id, entry_weight (m !! id) ≤ entry_weight (merged_meta m u !! id)) as Hle.
  { intros id. rewrite merged_meta_lookup. destruct (u !! id) as [n|]; [|lia].
    destruct (entry_weight_join (m !! id) n) as [H1 H2].
    destruct (changes (m !! id) n); [specialize (H2 eq_refl)|]; lia. }
  case_bool_decide as E; cbn [negb].
  - rewrite Z.add_0_r. by apply sumZ_le.
  - apply map_choose in E as (id & n & E). rewrite delta_meta_lookup in E.
    destruct (u !! id) as [n'|] eqn:Hu; [|done].
    destruct (changes (m !! id) n') eqn:Hc; [|done].
    apply (sumZ_lt _ _ ids id); [done|eauto|]. rewrite merged_meta_lookup, Hu.
    by apply entry_weight_join.
Qed.

(** The merges of a sequence that change something. *)
Fixpoint changed_merges (order : range_order) (m : NetMeta) (us : list NetMeta) : Z :=
  match us with
  | [] => 0
  | u :: us =>
      let r := merge order m u in
      (if r.2 then 1 else 0) + changed_merges order r.1.1 us
  end.

Lemma changed_merges_weight order ids m us :
  is_range order → (∀ u id, u ∈ us → is_Some (u !! id) → id ∈ ids) →
  weight ids m + changed_merges order m us ≤ weight ids (gossip order m us).
Proof.
  intros Ho. revert m; induction us as [|u us IH]; intros m Hids; simpl; [lia|].
  pose proof (merge_weight order ids m u Ho ltac:(intros id; apply Hids; set_solver)) as H.
  cbn zeta in H. specialize (IH (merge order m u).1.1 ltac:(intros v id Hv; apply Hids; set_solver)).
  fold (gossip order (merge order m u).1.1 us). lia.
Qed.

(** ** Properties *)

(** C30: two sites that were told the same about every id, in any order and any
    number of times, have the same metadata; an id that was reported to have
    left has left. *)
Theorem netmeta_converges order1 order2 addr us1 us2 :
  is_range order1 → is_range order2 →
  Forall (addressed addr) us1 → Forall (addressed addr) us2 →
  (∀ id n, (∃ u, u ∈ us1 ∧ u !! id = Some n) ↔ (∃ u, u ∈ us2 ∧ u !! id = Some n)) →
  gossip order1 ∅ us1 = gossip order2 ∅ us2 ∧
  ∀ id u n, u ∈ us1 → u !! id = Some n → Left n = true →
    gossip order1 ∅ us1 !! id = Some (mkNodeMeta (addr id) true).
Proof.
  intros Ho1 Ho2 Ha1 Ha2 Hsame.
  assert (∀ us id, Forall (addressed addr) us →
    Forall (λ n, Addr n = addr id) (omap (λ u : NetMeta, u !! id) us)) as Haddr.
  { intros us id H. apply Forall_forall. intros n (u & Hu & Hn)%elem_of_mentions.
    rewrite Forall_forall in H. by apply (H u). }
  split.
  - apply map_eq. intros id. rewrite !gossip_lookup, !lookup_empty by done.
    rewrite !(fold_join_none (addr id)) by by apply Haddr.
    assert (∀ n, n ∈ omap (λ u : NetMeta, u !! id) us1 ↔ n ∈ omap (λ u : NetMeta, u !! id) us2)
      as He by (intros n; rewrite !elem_of_mentions; apply Hsame).
    pose proof (existsb_equiv _ _ He) as Hx.
    destruct (omap _ us1) as [|n1 l1], (omap _ us2) as [|n2 l2]; [done| | |by rewrite Hx].
    + specialize (He n2). set_solver.
    + specialize (He n1). set_solver.
  - intros id u n Hu Hn Hl. rewrite gossip_lookup, lookup_empty by done.
    rewrite (fold_join_none (addr id)) by by apply Haddr.
    assert (n ∈ omap (λ u : NetMeta, u !! id) us1) as Hin by (apply elem_of_mentions; eauto).
    destruct (omap _ us1) as [|n1 l1] eqn:E; [by apply elem_of_nil in Hin|].
    do 2 f_equal. apply existsb_exists. exists n. by rewrite <-list_elem_of_In.
Qed.

Lemma map_to_list_range : is_range map_to_list.
Proof. by intros m. Qed.

Definition sample_join : NetMeta := newJoinNetMeta [x61] [x41].
Definition sample_quit : NetMeta := newQuitNetMeta [x61] [x41].

Lemma netmeta_converges_witness :
  gossip map_to_list ∅ [sample_join; sample_quit] =
  gossip map_to_list ∅ [sample_quit; sample_join; sample_join].
Proof.
  assert (∀ u, u ∈ [sample_join; sample_quit] → addressed (λ _, [x41]) u) as Ha.
  { intros u Hu id n H. rewrite !elem_of_cons, elem_of_nil in Hu.
    destruct_or!; subst;
      unfold sample_join, sample_quit, newJoinNetMeta, newQuitNetMeta, newNetMeta in *;
      apply lookup_insert_Some in H as [[_ <-]|[_ H]]; done. }
  apply (netmeta_converges map_to_list map_to_list (λ _, [x41])).
  - apply map_to_list_range.
  - apply map_to_list_range.
  - apply Forall_forall. exact Ha.
  - apply Forall_forall. intros u Hu. apply Ha. set_solver.
  - set_solver.
Defined.

(** Updates settle: whatever is received, at most two merges for each id
    change the metadata, and only these are passed on to other nodes. *)
Theorem gossip_settles order ids m us :
  is_range order → (∀ u id, u ∈ us → is_Some (u !! id) → id ∈ ids) →
  0 ≤ changed_merges order m us ≤ 2 * Z.of_nat (length ids).
Proof.
  intros Ho Hids. split.
  - clear Hids. revert m; induction us as [|u us IH]; intros m; simpl; [lia|].
    specialize (IH (merge order m u).1.1). destruct (merge order m u).2; lia.
  - pose proof (changed_merges_weight order ids m us Ho Hids).
    pose proof (weight_bound ids m). pose proof (weight_bound ids (gossip order m us)). lia.
Qed.

Lemma gossip_settles_witness :
  changed_merges map_to_list ∅ [sample_join; sample_quit; sample_join] = 2 ∧
  changed_merges map_to_list ∅ [sample_join; sample_quit; sample_join] ≤ 2.
Proof.
  split; [by vm_compute|].
  apply (gossip_settles map_to_list [[x61]] ∅ [sample_join; sample_quit; sample_join]).
  - apply map_to_list_range.
  - intros u id Hu [n H]. rewrite !elem_of_cons, elem_of_nil in Hu.
    destruct_or!; subst;
      unfold sample_join, sample_quit, newJoinNetMeta, newQuitNetMeta, newNetMeta in *;
      apply lookup_insert_Some in H as [[<- _]|[_ H]]; done || set_solver.
Defined.
