(* ===== verification/NodePool.v ===== *)
(** The pool of nodes an editor is connected to, its messages and broadcasts
    (CPSC418/project/network/nodepool.go and message.go). *)
From Stdlib Require Import Strings.String.
From S2P Require Import Prelude NetMeta.

Open Scope Z_scope.

(** ** Messages *)

Abbreviation loc := nat.

Definition txt (s : String.string) : str := String.list_byte_of_string s.
Arguments txt s%_string.

Definition MSG_TYPE_VERSION_CHECK : str := txt "versionCheck".
Definition MSG_TYPE_NET_META_UPDATE : str := txt "netMetaUpdate".
Definition MSG_TYPE_REMOTE_OP : str := txt "remoteOp".

(** [Visited] is a map, shared by all the copies of a message: a pointer, or
    [None] for the nil map. *)
Record Message : Type := mkMessage {
  m_Type : str;
  m_Visited : option loc;
  m_Msg : list byte
}.

(** ** Nodes *)

Inductive NodeState : Type :=
  | nodeStateDisconnected
  | nodeStateConnected
  | nodeStateLeft
  | nodeStateSessionEnded.

#[export] Instance NodeState_eq_dec : EqDecision NodeState.
Proof. solve_decision. Defined.

Definition chanBufferSize : nat := 30.

Record node : Type := mkNode {
  n_state : NodeState;
  n_id : str;
  n_addr : str;
  n_outChan : list Message;
  n_conn : option loc
}.

Definition with_state (state : NodeState) (n : node) : node :=
  mkNode state (n_id n) (n_addr n) (n_outChan n) (n_conn n).

(** [setState]: the new state and the result. *)
Definition next_state (old state : NodeState) : NodeState * bool :=
  match old with
  | nodeStateLeft => (old, bool_decide (state = nodeStateLeft))
  | nodeStateSessionEnded =>
      if decide (state = nodeStateLeft) then (nodeStateLeft, true)
      else (old, bool_decide (state = nodeStateSessionEnded))
  | _ => (state, true)
  end.

(** ** The pool *)

(** The pool, the nodes its map and the network threads point to, the maps of
    visited nodes, the connections that were closed. *)
Record nodePool : Type := mkPool {
  np_netMeta : NetMeta;
  np_pool : gmap str loc;
  np_nodes : gmap loc node;
  np_visited : gmap loc (gset str);
  np_closed : list loc;
  np_next : loc
}.

Definition newNodePool : nodePool := mkPool newNetMeta ∅ ∅ ∅ [] 0.

Definition set_netMeta m (np : nodePool) :=
  mkPool m (np_pool np) (np_nodes np) (np_visited np) (np_closed np) (np_next np).
Definition set_pool f (np : nodePool) :=
  mkPool (np_netMeta np) (f (np_pool np)) (np_nodes np) (np_visited np) (np_closed np) (np_next np).
Definition set_node l n (np : nodePool) :=
  mkPool (np_netMeta np) (np_pool np) (<[l := n]> (np_nodes np)) (np_visited np) (np_closed np)
    (np_next np).
Definition set_visited v s (np : nodePool) :=
  mkPool (np_netMeta np) (np_pool np) (np_nodes np) (<[v := s]> (np_visited np)) (np_closed np)
    (np_next np).
Definition set_closed c (np : nodePool) :=
  mkPool (np_netMeta np) (np_pool np) (np_nodes np) (np_visited np) (np_closed np ++ [c])
    (np_next np).
Definition new_loc (np : nodePool) : loc * nodePool :=
  (np_next np,
   mkPool (np_netMeta np) (np_pool np) (np_nodes np) (np_visited np) (np_closed np)
     (S (np_next np))).

Definition pool_node (np : nodePool) (l : loc) : res node :=
  require NilPointer (np_nodes np !! l).

Definition setState (np : nodePool) (l : loc) (state : NodeState) : res (nodePool * bool) :=
  n ← pool_node np l;
  let '(s, ok) := next_state (n_state n) state in
  Ok (set_node l (with_state s n) np, ok).

(** [n.close()]: a nil connection panics. *)
Definition close (np : nodePool) (n : node) : res nodePool :=
  c ← require NilPointer (n_conn n);
  Ok (set_closed c np).

(** The order in which [range] visits the pool. *)
Definition pool_order : Type := gmap str loc → list (str * loc).
Definition is_pool_order (order : pool_order) : Prop := ∀ m, order m ≡ₚ map_to_list m.

Definition getNodeListFromMap (order : pool_order) (nodeMap : gmap str loc) : list loc :=
  (order nodeMap).*2.

Definition getAllNodes (order : pool_order) (np : nodePool) : list loc :=
  getNodeListFromMap order (np_pool np).

Definition getNodeWithId (np : nodePool) (id : str) : option loc := np_pool np !! id.

Definition has (np : nodePool) (id : str) : bool := bool_decide (is_Some (np_netMeta np !! id)).

Definition getConnectedNodes (order : pool_order) (np : nodePool) : res (list loc) :=
  foldM (λ nodes '(_, l),
    n ← pool_node np l;
    if decide (n_state n = nodeStateConnected) then Ok (nodes ++ [l]) else Ok nodes)
    [] (order (np_pool np)).

(** The message is dropped when the buffer is full. *)
Definition putMsgOnSendingQueueOfNode (np : nodePool) (msg : Message) (l : loc)
    : res (nodePool * bool) :=
  n ← pool_node np l;
  if decide (length (n_outChan n) < chanBufferSize)%nat then
    Ok (set_node l (mkNode (n_state n) (n_id n) (n_addr n) (n_outChan n ++ [msg]) (n_conn n)) np,
        true)
  else Ok (np, false).

Definition sendMessageToNodeWithId (np : nodePool) (msg : Message) (id : str)
    : res (nodePool * bool) :=
  match getNodeWithId np id with
  | Some l => putMsgOnSendingQueueOfNode np msg l
  | None => Ok (np, false)
  end.

Definition broadcastOnce (order : pool_order) (np : nodePool) (msg : Message) : res nodePool :=
  connected ← getConnectedNodes order np;
  foldM (λ np l, '(np, _) ← putMsgOnSendingQueueOfNode np msg l; Ok np) np connected.

(** Add a node to the visited ones. *)
Definition visit (v : loc) (np : nodePool) (l : loc) : res nodePool :=
  n ← pool_node np l;
  visited ← require NilPointer (np_visited np !! v);
  Ok (set_visited v ({[n_id n]} ∪ visited) np).

(** Send it the message if it was not visited before. *)
Definition forward (v : loc) (original : gset str) (msg : Message) (np : nodePool) (l : loc)
    : res nodePool :=
  n ← pool_node np l;
  if decide (n_id n ∈ original) then Ok np
  else
    '(np, successful) ← putMsgOnSendingQueueOfNode np msg l;
    if (successful : bool) then Ok np
    else
      visited ← require NilPointer (np_visited np !! v);
      Ok (set_visited v (visited ∖ {[n_id n]}) np).

Definition broadcastRecursive (order : pool_order) (np : nodePool) (msg : Message) (v : loc)
    : res nodePool :=
  connected ← getConnectedNodes order np;
  original ← require NilPointer (np_visited np !! v);
  np ← foldM (visit v) np connected;
  foldM (forward v original msg) np connected.

Definition broadcast (order : pool_order) (np : nodePool) (msg : Message) : res nodePool :=
  match m_Visited msg with
  | None => broadcastOnce order np msg
  | Some v => broadcastRecursive order np msg v
  end.

Definition removeNodeFromPool (np : nodePool) (id : str) : res nodePool :=
  match np_pool np !! id with
  | Some l =>
      '(np, _) ← setState np l nodeStateLeft;
      n ← pool_node np l;
      np ← (match n_conn n with Some _ => close np n | None => Ok np end);
      Ok (set_pool (delete id) np)
  | None => Ok np
  end.

Definition addOrGetNodeFromPool (np : nodePool) (id : str) (nodeMeta : NodeMeta)
    : nodePool * loc :=
  match np_pool np !! id with
  | Some l => (np, l)
  | None =>
      let '(l, np) := new_loc np in
      let np := set_node l (mkNode nodeStateDisconnected id (Addr nodeMeta) [] None) np in
      (set_pool (<[id := l]>) np, l)
  end.

(** What is done for one id of the changes. *)
Definition apply_change (acc : nodePool * list loc) (p : str * NodeMeta)
    : res (nodePool * list loc) :=
  let '(np, nodeList) := acc in
  let '(id, n) := p in
  if Left n then np ← removeNodeFromPool np id; Ok (np, nodeList)
  else
    let '(np, l) := addOrGetNodeFromPool np id n in
    Ok (np, nodeList ++ [l]).

(** The new nodes, the changes and whether there are any. *)
Definition applyReceivedUpdates (range : range_order) (np : nodePool) (updates : NetMeta)
    : res (nodePool * list loc * NetMeta * bool) :=
  let '(netMeta, delta, changed) := merge range (np_netMeta np) updates in
  let np := set_netMeta netMeta np in
  '(np, nodeList) ← foldM apply_change (np, []) (range delta);
  Ok (np, nodeList, delta, changed).

Definition getLatestNetMeta (np : nodePool) : NetMeta := np_netMeta np.
Definition getLatestNetMetaCopy (range : range_order) (np : nodePool) : NetMeta :=
  copy range (np_netMeta np).

(** The next message of a node, as its sending thread takes it. *)
Definition take_message (np : nodePool) (l : loc) : res (option (Message * nodePool)) :=
  n ← pool_node np l;
  Ok (match n_outChan n with
      | [] => None
      | m :: ms => Some (m, set_node l (mkNode (n_state n) (n_id n) (n_addr n) ms (n_conn n)) np)
      end).

(** ** Making messages *)

Definition NewBroadcastMessage (np : nodePool) (id msgType : str) (content : list byte)
    : nodePool * Message :=
  let '(v, np) := new_loc np in
  (set_visited v {[id]} np, mkMessage msgType (Some v) content).

Definition NewReplyMessage (msgType : str) (content : list byte) : Message :=
  mkMessage msgType None content.

Definition newSyncOrCheckMessage (msgType : str) (content : list byte) : Message :=
  mkMessage msgType None content.

Record VersionCheckMsgContent : Type := mkContent {
  vc_Source : str;
  vc_NetworkMeta : NetMeta;
  vc_VersionVector : list byte
}.
