(* ===== verification/Session.v ===== *)
(** Sessions of the network manager and the handlers of incoming messages
    (CPSC418/project/network/session.go, nodethread.go, nodepool.go and
    network.go). *)
From S2P Require Import Prelude NetMeta NodePool.

Open Scope Z_scope.

(** A session; [s_done] is whether its channel [done] was closed. *)
Record session : Type := mkSession {
  s_id : str;
  s_publicAddr : str;
  s_done : bool
}.

Definition ended (s : session) : bool := s_done s.

(** What runs in a goroutine of its own. *)
Inductive thread : Type :=
  | ConnectThread (l : loc)
  | PokeThread (l : loc)
  | RemoteOpThread (content : list byte)
  | ReplyThread (msg : Message) (id : str).

(** ** Connections to make *)

Definition shouldConnect (localAddr remoteAddr : str) : bool := string_lt localAddr remoteAddr.

Definition initiateNewNode (s : session) (np : nodePool) (l : loc) : res (list thread) :=
  n ← pool_node np l;
  if decide (n_state n ≠ nodeStateDisconnected) then Ok []
  else if shouldConnect (s_publicAddr s) (n_addr n) then Ok [ConnectThread l]
  else Ok [PokeThread l].

Definition handleNewNodes (s : session) (np : nodePool) (nodes : list loc) : res (list thread) :=
  foldM (λ ts l, t ← initiateNewNode s np l; Ok (ts ++ t)) [] nodes.

(** One node of the pool when a session starts. *)
Definition revive (s : session) (acc : nodePool * list thread) (p : str * loc)
    : res (nodePool * list thread) :=
  let '(np, ts) := acc in
  let '(_, l) := p in
  n ← pool_node np l;
  let np := if decide (n_state n = nodeStateSessionEnded)
            then set_node l (with_state nodeStateDisconnected n) np else np in
  t ← initiateNewNode s np l;
  Ok (np, ts ++ t).

Definition handleNewSession (order : pool_order) (np : nodePool) (s : session)
    : res (nodePool * list thread) :=
  let np := set_netMeta (<[s_id s := mkNodeMeta (s_publicAddr s) false]> (np_netMeta np)) np in
  foldM (revive s) (np, []) (order (np_pool np)).

Definition handleEndSession (order : pool_order) (np : nodePool) (s : session) : res nodePool :=
  let np := set_netMeta (<[s_id s := mkNodeMeta (s_publicAddr s) true]> (np_netMeta np)) np in
  foldM (λ np '(_, l), '(np, _) ← setState np l nodeStateSessionEnded; Ok np) np
    (order (np_pool np)).

(** [end]: closing the channel a second time panics. *)
Definition end_ (order : pool_order) (np : nodePool) (s : session) : res (nodePool * session) :=
  if s_done s then Panic ExplicitPanic
  else
    let s := mkSession (s_id s) (s_publicAddr s) true in
    np ← handleEndSession order np s;
    Ok (np, s).

(** ** Incoming messages *)

Section Handlers.
Context (range : range_order) (order : pool_order).
(** encoding/json on the contents of messages. *)
Context (netMeta_toJson : NetMeta → list byte).
Context (newNetMetaFromJson : list byte → option NetMeta).
Context (content_toJson : VersionCheckMsgContent → list byte).
Context (newVersionCheckMsgContentFromJson : list byte → option VersionCheckMsgContent).
(** The handlers that the editor sets: whether there is one for operations;
    the operations to send to a site with that vector, [None] before it is
    set; and the vector of this site. *)
Context (RemoteOpHandler : bool) (VersionCheckHandler : option (list byte → list byte * bool)).
Context (GetOpsReceiveVersion : option (list byte)).

Definition newNetMetaUpdateMsg (np : nodePool) (id : str) (delta : NetMeta)
    : nodePool * Message :=
  NewBroadcastMessage np id MSG_TYPE_NET_META_UPDATE (netMeta_toJson delta).

Definition handleIncomingNetMeta (s : session) (np : nodePool) (msg : Message)
    : res (nodePool * list thread) :=
  match newNetMetaFromJson (m_Msg msg) with
  | None => Ok (np, [])
  | Some updates =>
      '(np, newNodes, deltaNetMeta, changed) ← applyReceivedUpdates range np updates;
      if (changed : bool) then
        ts ← handleNewNodes s np newNodes;
        let msg := mkMessage (m_Type msg) (m_Visited msg) (netMeta_toJson deltaNetMeta) in
        np ← broadcast order np msg;
        Ok (np, ts)
      else Ok (np, [])
  end.

Definition handleIncomingRemoteOp (np : nodePool) (msg : Message)
    : res (nodePool * list thread) :=
  np ← (match m_Visited msg with Some _ => broadcast order np msg | None => Ok np end);
  Ok (np, if RemoteOpHandler then [RemoteOpThread (m_Msg msg)] else []).

Definition handleIncomingVersionCheck (s : session) (np : nodePool) (msg : Message)
    : res (nodePool * list thread) :=
  match newVersionCheckMsgContentFromJson (m_Msg msg) with
  | None => Ok (np, [])
  | Some content =>
      let '(np, update) := newNetMetaUpdateMsg np (s_id s) (vc_NetworkMeta content) in
      '(np, ts) ← handleIncomingNetMeta s np update;
      handler ← require NilPointer VersionCheckHandler;
      let '(syncInfo, shouldReply) := handler (vc_VersionVector content) in
      if (shouldReply : bool) then
        Ok (np, ts ++ [ReplyThread (NewReplyMessage MSG_TYPE_REMOTE_OP syncInfo)
                         (vc_Source content)])
      else Ok (np, ts)
  end.

(** One message of the loop of [serveIncomingMessages]. *)
Definition serve_message (s : session) (np : nodePool) (msg : Message)
    : res (nodePool * list thread) :=
  if decide (m_Type msg = MSG_TYPE_NET_META_UPDATE) then handleIncomingNetMeta s np msg
  else if decide (m_Type msg = MSG_TYPE_REMOTE_OP) then handleIncomingRemoteOp np msg
  else if decide (m_Type msg = MSG_TYPE_VERSION_CHECK) then handleIncomingVersionCheck s np msg
  else Ok (np, []).

Definition getLatestVersionCheckMsg (s : session) (np : nodePool) : option Message :=
  match GetOpsReceiveVersion with
  | None => None
  | Some slice =>
      let content := mkContent (s_id s) (getLatestNetMetaCopy range np) slice in
      Some (newSyncOrCheckMessage MSG_TYPE_VERSION_CHECK (content_toJson content))
  end.

(** One turn of [periodicallyCheckVersion]; the result is whether it goes on. *)
Definition periodicallyCheckVersion (s : session) (np : nodePool) : res (nodePool * bool) :=
  let msg := getLatestVersionCheckMsg s np in
  if ended s then Ok (np, false)
  else
    match msg with
    | Some msg => np ← broadcast order np msg; Ok (np, true)
    | None => Ok (np, true)
    end.

(** One turn of [receiveThread] on what [receiveMessage] gave: [None] when
    the connection broke, which is the only case in which its error is not
    nil. The result is the message for [msgChan] and
    whether the thread goes on. *)
Definition receiveThread (s : session) (np : nodePool) (l : loc) (received : option Message)
    : res (nodePool * option Message * bool * list thread) :=
  n ← pool_node np l;
  if decide (n_state n ≠ nodeStateConnected) then
    np ← close np n; Ok (np, None, false, [])
  else
    match received with
    | None =>
        np ← close np n;
        '(np, _) ← setState np l nodeStateDisconnected;
        Ok (np, None, false,
            if shouldConnect (s_publicAddr s) (n_addr n) then [ConnectThread l] else [])
    | Some msg => if ended s then Ok (np, None, false, []) else Ok (np, Some msg, true, [])
    end.
End Handlers.

(** ** The network manager *)

Inductive net_error : Type :=
  | ErrAlreadyConnected
  | ErrAlreadyDisconnected
  | ErrListen.

Record NetworkManager : Type := mkManager {
  nm_id : str;
  nm_publicAddr : str;
  nm_pool : nodePool;
  nm_session : option session
}.

Section Manager.
Context (order : pool_order).
(** The uuid of the new session; whether the listener could be opened. *)
Context (newId : str) (listening : bool).

Definition startNewSessionOnNetworkManager (nm : NetworkManager)
    : res (NetworkManager * list thread * option net_error) :=
  if listening then
    let newSession := mkSession newId (nm_publicAddr nm) false in
    '(np, ts) ← handleNewSession order (nm_pool nm) newSession;
    Ok (mkManager newId (nm_publicAddr nm) np (Some newSession), ts, None)
  else Ok (nm, [], Some ErrListen).

Definition Disconnect (nm : NetworkManager) : res (NetworkManager * option net_error) :=
  match nm_session nm with
  | None => Ok (nm, Some ErrAlreadyDisconnected)
  | Some s =>
      '(np, _) ← end_ order (nm_pool nm) s;
      Ok (mkManager (nm_id nm) (nm_publicAddr nm) np None, None)
  end.

Definition CompleteDisconnect (nm : NetworkManager)
    : res (NetworkManager * list thread) :=
  '(nm, _) ← Disconnect nm;
  let nm := mkManager (nm_id nm) (nm_publicAddr nm) newNodePool (nm_session nm) in
  '(nm, ts, _) ← startNewSessionOnNetworkManager nm;
  Ok (nm, ts).

Definition Reconnect (nm : NetworkManager)
    : res (NetworkManager * list thread * option net_error) :=
  match nm_session nm with
  | Some _ => Ok (nm, [], Some ErrAlreadyConnected)
  | None => startNewSessionOnNetworkManager nm
  end.

Definition Broadcast (nm : NetworkManager) (msg : Message) : res NetworkManager :=
  match nm_session nm with
  | None => Ok nm
  | Some s =>
      if ended s then Ok nm
      else
        np ← broadcast order (nm_pool nm) msg;
        Ok (mkManager (nm_id nm) (nm_publicAddr nm) np (nm_session nm))
  end.

Definition SendMessageToNodeWithId (nm : NetworkManager) (msg : Message) (id : str)
    : res NetworkManager :=
  match nm_session nm with
  | None => Ok nm
  | Some s =>
      if ended s then Ok nm
      else
        '(np, _) ← sendMessageToNodeWithId (nm_pool nm) msg id;
        Ok (mkManager (nm_id nm) (nm_publicAddr nm) np (nm_session nm))
  end.

Definition GetNetworkMetadata (range : range_order) (nm : NetworkManager) : NetMeta :=
  getLatestNetMetaCopy range (nm_pool nm).
End Manager.
