(* ===== verification/NetworkProps.v ===== *)
(** The network of the editor: what broadcasts reach, which nodes are gone for
    good, what updates do to the pool. *)
From S2P Require Import Prelude NetMeta NodePool Session.

Open Scope Z_scope.

(** ** Pools *)

(** An id of the pool is the id of its node, and new places are new. *)
Record pool_wf (np : nodePool) : Prop := {
  pool_ids : ∀ id l, np_pool np !! id = Some l →
    ∃ n, np_nodes np !! l = Some n ∧ n_id n = id;
  pool_fresh : ∀ l, is_Some (np_nodes np !! l) → (l < np_next np)%nat
}.

Lemma pool_inj np id1 id2 l :
  pool_wf np → np_pool np !! id1 = Some l → np_pool np !! id2 = Some l → id1 = id2.
Proof.
  intros Hwf H1 H2. destruct (pool_ids _ Hwf _ _ H1) as (n & Hn & <-).
  destruct (pool_ids _ Hwf _ _ H2) as (n' & Hn' & <-). congruence.
Qed.

(** The nodes of the pool that are connected. *)
Definition connected_at (np : nodePool) (l : loc) : Prop :=
  ∃ id n, np_pool np !! id = Some l ∧ np_nodes np !! l = Some n ∧
    n_state n = nodeStateConnected.

Definition is_connected (np : nodePool) (l : loc) : bool :=
  match np_nodes np !! l with
  | Some n => bool_decide (n_state n = nodeStateConnected)
  | None => false
  end.

Lemma getConnectedNodes_filter order np :
  is_pool_order order → pool_wf np →
  getConnectedNodes order np =
  Ok (filter (λ l, is_connected np l = true) (order (np_pool np)).*2).
Proof.
  intros Ho Hwf. unfold getConnectedNodes.
  rewrite (foldM_append _ (λ p, if is_connected np p.2 then [p.2] else [])).
  - f_equal. cbn [app]. induction (order (np_pool np)) as [|[id l] ps IH]; [done|].
    cbn [map concat fmap list_fmap snd]. rewrite IH, filter_cons.
    destruct (is_connected np l); [by rewrite decide_True|by rewrite decide_False].
  - intros acc [id l] Hin. rewrite (Ho _) in Hin. apply elem_of_map_to_list in Hin.
    destruct (pool_ids _ Hwf _ _ Hin) as (n & Hn & _). unfold pool_node, is_connected.
    cbn [snd]. rewrite Hn, require_Some, bind_Ok. case_bool_decide.
    + by rewrite decide_True.
    + by rewrite decide_False, app_nil_r.
Qed.

Lemma getConnectedNodes_ok order np :
  is_pool_order order → pool_wf np →
  ∃ ls, getConnectedNodes order np = Ok ls ∧ NoDup ls ∧ ∀ l, l ∈ ls ↔ connected_at np l.
Proof.
  intros Ho Hwf. rewrite getConnectedNodes_filter by done. eexists. split; [done|]. split.
  - apply NoDup_filter, NoDup_fmap_2_strong; [|rewrite (Ho _); apply NoDup_map_to_list].
    intros [id1 l1] [id2 l2]. rewrite !(Ho _), !elem_of_map_to_list. simpl.
    intros H1 H2 <-. f_equal. by eapply pool_inj.
  - intros l. rewrite list_elem_of_filter, list_elem_of_fmap. unfold connected_at, is_connected.
    split.
    + intros (Hc & [id l'] & -> & Hin). rewrite (Ho _) in Hin.
      apply elem_of_map_to_list in Hin. cbn [snd] in *.
      destruct (np_nodes np !! l') as [n|] eqn:Hn; [|done].
      exists id, n. apply bool_decide_eq_true in Hc. done.
    + intros (id & n & Hid & -> & Hc). split; [by apply bool_decide_eq_true|].
      exists (id, l). split; [done|]. by rewrite (Ho _), elem_of_map_to_list.
Qed.

(** ** Recursive broadcasts *)

Definition enqueued (msg : Message) (n : node) : node :=
  mkNode (n_state n) (n_id n) (n_addr n) (n_outChan n ++ [msg]) (n_conn n).

Definition room (n : node) : bool := bool_decide (length (n_outChan n) < chanBufferSize)%nat.

(** A node that was not visited before gets the message if it has room. *)
Definition gets (original : gset str) (n : node) : bool :=
  bool_decide (n_id n ∉ original) && room n.
(** It is not counted as visited if it has not. *)
Definition fails (original : gset str) (n : node) : bool :=
  bool_decide (n_id n ∉ original) && negb (room n).

Lemma put_ok np msg l n :
  np_nodes np !! l = Some n →
  putMsgOnSendingQueueOfNode np msg l =
  Ok (if room n then set_node l (enqueued msg n) np else np, room n).
Proof.
  intros Hn. unfold putMsgOnSendingQueueOfNode, pool_node, room.
  rewrite Hn, require_Some, bind_Ok. case_bool_decide; [by rewrite decide_True|].
  by rewrite decide_False.
Qed.

(** The ids of some nodes. *)
Definition ids_of (np : nodePool) (ls : list loc) : gset str :=
  list_to_set (omap (λ l, n_id <$> np_nodes np !! l) ls).

Lemma visit_ok v np l n vis :
  np_nodes np !! l = Some n → np_visited np !! v = Some vis →
  visit v np l = Ok (set_visited v ({[n_id n]} ∪ vis) np).
Proof.
  intros Hn Hv. unfold visit, pool_node. rewrite Hn, require_Some, bind_Ok.
  by rewrite Hv, require_Some, bind_Ok.
Qed.

Lemma visit_loop v np ls vis :
  (∀ l, l ∈ ls → is_Some (np_nodes np !! l)) → np_visited np !! v = Some vis →
  ∃ np', foldM (visit v) np ls = Ok np' ∧ np_nodes np' = np_nodes np ∧
    np_pool np' = np_pool np ∧ np_next np' = np_next np ∧
    np_visited np' !! v = Some (ids_of np ls ∪ vis).
Proof.
  revert np vis; induction ls as [|l ls IH]; intros np vis Hls Hv.
  - exists np. split_and!; [done..|]. rewrite Hv. f_equal. set_solver.
  - cbn [foldM]. destruct (Hls l) as [n Hn]; [set_solver|].
    rewrite (visit_ok _ _ _ n vis), bind_Ok by done.
    destruct (IH (set_visited v ({[n_id n]} ∪ vis) np) ({[n_id n]} ∪ vis))
      as (np' & -> & E1 & E2 & E3 & E4); [|by apply lookup_insert_eq|].
    { intros l' Hl'. apply Hls. set_solver. }
    exists np'. split_and!; [done..|]. rewrite E4. f_equal. unfold ids_of.
    change (np_nodes (set_visited v ({[n_id n]} ∪ vis) np)) with (np_nodes np).
    cbn [omap list_omap]. rewrite Hn. cbn [fmap option_fmap option_map list_to_set]. set_solver.
Qed.

Lemma forward_ok v original msg np l n vis :
  np_nodes np !! l = Some n → np_visited np !! v = Some vis →
  forward v original msg np l =
  Ok (let np := if gets original n then set_node l (enqueued msg n) np else np in
      if fails original n then set_visited v (vis ∖ {[n_id n]}) np else np).
Proof.
  intros Hn Hv. unfold forward, pool_node, gets, fails. rewrite Hn, require_Some, bind_Ok.
  case_bool_decide as Hin; [rewrite decide_False by done|rewrite decide_True by set_solver; done].
  rewrite (put_ok _ _ _ n), bind_Ok by done. destruct (room n); [done|].
  by rewrite Hv, require_Some, bind_Ok.
Qed.

Lemma forward_loop v original msg np ls vis :
  NoDup ls → (∀ l, l ∈ ls → is_Some (np_nodes np !! l)) → np_visited np !! v = Some vis →
  ∃ np', foldM (forward v original msg) np ls = Ok np' ∧
    np_pool np' = np_pool np ∧ np_next np' = np_next np ∧
    (∀ l, np_nodes np' !! l =
      (λ n, if bool_decide (l ∈ ls) && gets original n then enqueued msg n else n) <$>
      np_nodes np !! l) ∧
    ∃ failed, np_visited np' !! v = Some (vis ∖ failed) ∧
      ∀ id, id ∈ failed ↔ ∃ l n, l ∈ ls ∧ np_nodes np !! l = Some n ∧ fails original n = true ∧
                            n_id n = id.
Proof.
  revert np vis; induction ls as [|l ls IH]; intros np vis Hnd Hls Hv.
  - exists np. split_and!; [done..| |].
    + intros l. by destruct (np_nodes np !! l).
    + exists ∅. rewrite Hv. split; [f_equal; set_solver|]. intros id. split; [set_solver|].
      by intros (l & n & ?%elem_of_nil & _).
  - apply NoDup_cons in Hnd as [Hl Hnd]. cbn [foldM].
    destruct (Hls l) as [n Hn]; [set_solver|].
    rewrite (forward_ok _ _ _ _ _ n vis), bind_Ok by done. cbn zeta.
    set (np1 := if gets original n then set_node l (enqueued msg n) np else np).
    set (np2 := if fails original n then set_visited v (vis ∖ {[n_id n]}) np1 else np1).
    assert (∀ l', np_nodes np2 !! l' =
      if decide (l = l') then Some (if gets original n then enqueued msg n else n)
      else np_nodes np !! l') as Hnodes.
    { intros l'. assert (np_nodes np2 = np_nodes np1) as -> by (unfold np2; by destruct (fails _ _)).
      unfold np1. destruct (gets original n); cbn [set_node np_nodes].
      - by rewrite lookup_insert.
      - destruct (decide (l = l')) as [<-|]; done. }
    assert (np_visited np2 !! v =
      Some (if fails original n then vis ∖ {[n_id n]} else vis)) as Hvis.
    { unfold np2, np1. destruct (fails original n), (gets original n); cbn;
        rewrite ?lookup_insert_eq; done. }
    assert (np_pool np2 = np_pool np ∧ np_next np2 = np_next np) as [Hp Hx]
      by (unfold np2, np1; by destruct (fails original n), (gets original n)).
    destruct (IH np2 _ Hnd ltac:(intros l' Hl'; rewrite Hnodes; destruct (decide _); [by eexists|];
      apply Hls; set_solver) Hvis) as (np' & -> & E1 & E2 & E3 & failed & E4 & E5).
    exists np'. split_and!; [done|congruence|congruence| |].
    + intros l'. rewrite E3, Hnodes. destruct (decide (l = l')) as [<-|Hne].
      * rewrite Hn. simpl. rewrite (bool_decide_eq_false_2 (l ∈ ls)) by done.
        by rewrite bool_decide_eq_true_2 by set_solver.
      * destruct (np_nodes np !! l') as [n'|]; [|done]. simpl.
        by rewrite (bool_decide_ext (l' ∈ ls) (l' ∈ l :: ls)) by set_solver.
    + exists (failed ∪ if fails original n then {[n_id n]} else ∅).
      rewrite E4. split; [f_equal; destruct (fails original n); set_solver|].
      intros id. rewrite elem_of_union, E5. split.
      * intros [(l' & n' & Hin & Hn' & Hf & Hid)|Hid].
        -- exists l', n'. rewrite Hnodes, decide_False in Hn' by (intros ->; done).
           set_solver.
        -- destruct (fails original n) eqn:Ef; [|set_solver]. exists l, n. set_solver.
      * intros (l' & n' & [->|Hin]%elem_of_cons & Hn' & Hf & Hid).
        -- right. simplify_eq. rewrite Hf. set_solver.
        -- left. exists l', n'. rewrite Hnodes, decide_False by (intros ->; done). done.
Qed.

Lemma ids_of_elem np ls id :
  id ∈ ids_of np ls ↔ ∃ l n, l ∈ ls ∧ np_nodes np !! l = Some n ∧ n_id n = id.
Proof.
  unfold ids_of. rewrite elem_of_list_to_set, list_elem_of_omap. split.
  - intros (l & Hl & H). destruct (np_nodes np !! l) as [n|] eqn:E; simplify_eq/=. eauto.
  - intros (l & n & Hl & Hn & <-). exists l. by rewrite Hn.
Qed.

Lemma connected_unique np l1 l2 n1 n2 :
  pool_wf np → connected_at np l1 → connected_at np l2 →
  np_nodes np !! l1 = Some n1 → np_nodes np !! l2 = Some n2 → n_id n1 = n_id n2 → n1 = n2.
Proof.
  intros Hwf (id1 & m1 & Hp1 & Hm1 & _) (id2 & m2 & Hp2 & Hm2 & _) H1 H2 Hid. simplify_eq.
  destruct (pool_ids _ Hwf _ _ Hp1) as (? & ? & <-).
  destruct (pool_ids _ Hwf _ _ Hp2) as (? & ? & <-). congruence.
Qed.

Lemma broadcastRecursive_ok order np msg v original :
  is_pool_order order → pool_wf np → np_visited np !! v = Some original →
  ∃ np' vis, broadcastRecursive order np msg v = Ok np' ∧
    np_pool np' = np_pool np ∧ np_next np' = np_next np ∧
    (∀ l n, np_nodes np !! l = Some n →
       (connected_at np l ∧ gets original n = true →
          np_nodes np' !! l = Some (enqueued msg n)) ∧
       (¬ (connected_at np l ∧ gets original n = true) → np_nodes np' !! l = Some n)) ∧
    np_visited np' !! v = Some vis ∧
    (∀ id, id ∈ vis ↔ id ∈ original ∨
       ∃ l n, connected_at np l ∧ np_nodes np !! l = Some n ∧ n_id n = id ∧ room n = true).
Proof.
  intros Ho Hwf Hv. unfold broadcastRecursive.
  destruct (getConnectedNodes_ok order np Ho Hwf) as (ls & -> & Hnd & Hls).
  rewrite bind_Ok, Hv, require_Some, bind_Ok.
  assert (∀ l, l ∈ ls → is_Some (np_nodes np !! l)) as Hsome.
  { intros l (id & n & _ & Hn & _)%Hls. eauto. }
  destruct (visit_loop v np ls original Hsome Hv) as (np1 & -> & E1 & E2 & E3 & E4).
  rewrite bind_Ok.
  destruct (forward_loop v original msg np1 ls _ Hnd ltac:(by rewrite E1) E4)
    as (np' & -> & F1 & F2 & F3 & failed & F4 & F5).
  exists np', ((ids_of np ls ∪ original) ∖ failed).
  split_and!; [done|congruence|congruence| |done|].
  - intros l n Hn. rewrite F3, E1, Hn. cbn [fmap option_fmap option_map]. split.
    + intros [Hc Hg]. by rewrite bool_decide_eq_true_2, Hg by (by apply Hls).
    + intros Hno. case_bool_decide as Hin; [|done]. cbn [andb].
      destruct (gets original n); [|done]. destruct Hno. split; [by apply Hls|done].
  - intros id. rewrite elem_of_difference, elem_of_union, ids_of_elem, F5, E1. split.
    + intros [[(l & n & Hl & Hn & Hid)|Hin] Hnf]; [|by left].
      destruct (decide (id ∈ original)) as [|Hno]; [by left|right].
      exists l, n. split; [by apply Hls|]. split; [done|]. split; [done|].
      destruct (room n) eqn:Hr; [done|]. destruct Hnf. exists l, n.
      split; [done|]. split; [done|]. split; [|done]. unfold fails.
      by rewrite bool_decide_eq_true_2, Hr by by rewrite Hid.
    + intros [Hin|(l & n & Hc & Hn & Hid & Hr)].
      * split; [by right|]. intros (l & n & _ & _ & Hf & Hid). unfold fails in Hf.
        by rewrite bool_decide_eq_false_2 in Hf by (rewrite Hid; set_solver).
      * split; [left; exists l, n; split; [by apply Hls|done]|].
        intros (l' & n' & Hl' & Hn' & Hf & Hid').
        assert (n' = n) as ->; [|unfold fails in Hf; rewrite Hr in Hf; by destruct (bool_decide _)].
        eapply (connected_unique np l' l); [done|by apply Hls|done..|congruence].
Qed.

(** ** What pool operations keep *)

(** Nodes stay where they are, with their ids; those that have left have left
    for good. *)
Definition evolves (np np' : nodePool) : Prop :=
  (np_next np ≤ np_next np')%nat ∧
  ((∀ l, is_Some (np_nodes np !! l) → (l < np_next np)%nat) →
   ∀ l, is_Some (np_nodes np' !! l) → (l < np_next np')%nat) ∧
  ((∀ l, is_Some (np_nodes np !! l) → (l < np_next np)%nat) →
   ∀ l n, np_nodes np !! l = Some n → ∃ n', np_nodes np' !! l = Some n' ∧
     n_id n' = n_id n ∧ (n_state n = nodeStateLeft → n_state n' = nodeStateLeft)).

#[export] Instance evolves_preorder : PreOrder evolves.
Proof.
  split.
  - intros np. split_and!; [lia|done|eauto].
  - intros np1 np2 np3 (A1 & A2 & A3) (B1 & B2 & B3). split_and!; [lia|auto|].
    intros Hf l n Hn. destruct (A3 Hf l n Hn) as (n' & Hn' & Hi & Hl).
    destruct (B3 (A2 Hf) l n' Hn') as (n'' & Hn'' & Hi' & Hl').
    exists n''. split; [done|]. split; [congruence|auto].
Qed.

(** A node changed in place. *)
Lemma evolves_set_node np l n n' :
  np_nodes np !! l = Some n → n_id n' = n_id n →
  (n_state n = nodeStateLeft → n_state n' = nodeStateLeft) → evolves np (set_node l n' np).
Proof.
  intros Hn Hi Hs. split_and!; [done| |]; cbn [set_node np_nodes np_next].
  - intros Hf l' Hl'. apply Hf. destruct (decide (l = l')) as [<-|]; [by eexists|].
    by rewrite lookup_insert_ne in Hl'.
  - intros _ l' m Hm. destruct (decide (l = l')) as [<-|].
    + rewrite lookup_insert_eq. simplify_eq. eauto.
    + rewrite lookup_insert_ne by done. eauto.
Qed.

(** What leaves the nodes alone. *)
Lemma evolves_same np np' :
  np_nodes np' = np_nodes np → (np_next np ≤ np_next np')%nat → evolves np np'.
Proof.
  intros E Hle. split_and!; [done| |]; rewrite E; [|eauto].
  intros Hf l Hl. specialize (Hf l Hl). lia.
Qed.

Lemma next_state_left s : (next_state nodeStateLeft s).1 = nodeStateLeft.
Proof. done. Qed.

Lemma evolves_setState np l s np' ok : setState np l s = Ok (np', ok) → evolves np np'.
Proof.
  unfold setState, pool_node. intros H. res_inv. destruct (next_state _ _) as [s' b] eqn:E.
  simplify_eq. eapply evolves_set_node; [done|done|]. intros Hl. simpl.
  rewrite Hl in E. by simplify_eq/=.
Qed.

Lemma evolves_foldM {A S} (proj : S → nodePool) (f : S → A → res S) l s s' :
  (∀ s a s', f s a = Ok s' → evolves (proj s) (proj s')) →
  foldM f s l = Ok s' → evolves (proj s) (proj s').
Proof.
  intros Hf. revert s; induction l as [|a l IH]; intros s H; cbn [foldM] in H.
  - by simplify_eq.
  - apply bind_Ok_inv in H as (s1 & H1 & H). etrans; [by eapply Hf|by apply IH].
Qed.

Lemma evolves_put np msg l np' ok :
  putMsgOnSendingQueueOfNode np msg l = Ok (np', ok) → evolves np np'.
Proof.
  unfold putMsgOnSendingQueueOfNode, pool_node. intros H. res_inv.
  destruct (decide _); simplify_eq; [|done]. by eapply evolves_set_node.
Qed.

Lemma evolves_visit v np l np' : visit v np l = Ok np' → evolves np np'.
Proof. unfold visit. intros H. res_inv. by apply evolves_same. Qed.

Lemma evolves_forward v o msg np l np' : forward v o msg np l = Ok np' → evolves np np'.
Proof.
  unfold forward. intros H. apply bind_Ok_inv in H as (n & _ & H).
  destruct (decide _); [by simplify_eq|].
  apply bind_Ok_inv in H as ([np1 ok] & H1 & H). apply evolves_put in H1. etrans; [done|].
  destruct ok; [by simplify_eq|]. res_inv. by apply evolves_same.
Qed.

Lemma evolves_broadcast order np msg np' : broadcast order np msg = Ok np' → evolves np np'.
Proof.
  unfold broadcast. destruct (m_Visited msg) as [v|]; intros H.
  - unfold broadcastRecursive in H. apply bind_Ok_inv in H as (ls & _ & H).
    apply bind_Ok_inv in H as (o & _ & H). apply bind_Ok_inv in H as (np1 & H1 & H). etrans.
    + eapply (evolves_foldM id); [|done]. intros ???. apply evolves_visit.
    + eapply (evolves_foldM id); [|done]. intros ???. apply evolves_forward.
  - unfold broadcastOnce in H. apply bind_Ok_inv in H as (ls & _ & H).
    eapply (evolves_foldM id); [|done]. intros np1 l np2 H1.
    apply bind_Ok_inv in H1 as ([np3 ok] & H1 & H2). simplify_eq. by eapply evolves_put.
Qed.

Lemma evolves_remove np id np' : removeNodeFromPool np id = Ok np' → evolves np np'.
Proof.
  unfold removeNodeFromPool. destruct (np_pool np !! id) as [l|]; intros H; [|by simplify_eq].
  apply bind_Ok_inv in H as ([np1 ok] & H1 & H). apply evolves_setState in H1. etrans; [done|].
  apply bind_Ok_inv in H as (n & _ & H). apply bind_Ok_inv in H as (np2 & H2 & H). simplify_eq.
  destruct (n_conn n); [|by simplify_eq; apply evolves_same].
  unfold close in H2. res_inv. by apply evolves_same.
Qed.

Lemma evolves_add np id m : evolves np (addOrGetNodeFromPool np id m).1.
Proof.
  unfold addOrGetNodeFromPool. destruct (np_pool np !! id); [done|]. cbn.
  split_and!; cbn; [lia| |].
  - intros Hf l. destruct (decide (np_next np = l)) as [<-|]; [lia|].
    rewrite lookup_insert_ne by done. intros Hl. specialize (Hf l Hl). lia.
  - intros Hf l n Hn. assert (l < np_next np)%nat by (apply Hf; eauto).
    rewrite lookup_insert_ne by lia. eauto.
Qed.

Lemma evolves_apply range np u np' nl d c :
  applyReceivedUpdates range np u = Ok (np', nl, d, c) → evolves np np'.
Proof.
  unfold applyReceivedUpdates. destruct (merge range (np_netMeta np) u) as [[m delta] ch].
  intros H. apply bind_Ok_inv in H as ([np1 nl1] & H1 & H). simplify_eq.
  transitivity (set_netMeta m np); [by apply evolves_same|].
  apply (evolves_foldM fst) in H1; [done|].
  intros [np2 nl2] [id n] [np3 nl3] H2. unfold apply_change in H2.
  destruct (Left n).
  - apply bind_Ok_inv in H2 as (np4 & H2 & H3). simplify_eq. by eapply evolves_remove.
  - pose proof (evolves_add np2 id n) as Ha. destruct (addOrGetNodeFromPool np2 id n).
    by simplify_eq.
Qed.

Lemma evolves_new_session order np s np' ts :
  handleNewSession order np s = Ok (np', ts) → evolves np np'.
Proof.
  unfold handleNewSession. intros H.
  transitivity (set_netMeta (<[s_id s := mkNodeMeta (s_publicAddr s) false]> (np_netMeta np)) np);
    [by apply evolves_same|].
  apply (evolves_foldM fst) in H; [done|].
  intros [np1 ts1] [id l] [np2 ts2] H1. unfold revive, pool_node in H1.
  apply bind_Ok_inv in H1 as (n & Hn & H1). apply require_Ok_inv in Hn.
  apply bind_Ok_inv in H1 as (t & _ & H1). simplify_eq. simpl.
  destruct (decide _) as [Hs|]; [|done]. eapply evolves_set_node; [done|done|]. by rewrite Hs.
Qed.

Lemma evolves_end_session order np s np' : handleEndSession order np s = Ok np' → evolves np np'.
Proof.
  unfold handleEndSession. intros H.
  transitivity (set_netMeta (<[s_id s := mkNodeMeta (s_publicAddr s) true]> (np_netMeta np)) np);
    [by apply evolves_same|].
  apply (evolves_foldM id) in H; [done|].
  intros np1 [id l] np2 H1. apply bind_Ok_inv in H1 as ([np3 ok] & H1 & H2). simplify_eq.
  by eapply evolves_setState.
Qed.

Lemma evolves_receive s np l received np' m go ts :
  receiveThread s np l received = Ok (np', m, go, ts) → evolves np np'.
Proof.
  unfold receiveThread. intros H. apply bind_Ok_inv in H as (n & _ & H).
  destruct (decide _).
  - apply bind_Ok_inv in H as (np1 & H1 & H). unfold close in H1. res_inv.
    by apply evolves_same.
  - destruct received as [msg|].
    + destruct (ended s); by simplify_eq.
    + apply bind_Ok_inv in H as (np1 & H1 & H). unfold close in H1.
      apply bind_Ok_inv in H1 as (c & _ & H1). injection H1 as <-.
      apply bind_Ok_inv in H as ([np2 ok] & H2 & H). simplify_eq.
      apply evolves_setState in H2. etrans; [|done]. by apply evolves_same.
Qed.

Section Steps.
Context (range : range_order) (order : pool_order).
Context (netMeta_toJson : NetMeta → list byte).
Context (newNetMetaFromJson : list byte → option NetMeta).
Context (fromJson : list byte → option VersionCheckMsgContent).
Context (RemoteOpHandler : bool) (VersionCheckHandler : option (list byte → list byte * bool)).

Abbreviation serve := (serve_message range order netMeta_toJson newNetMetaFromJson
  fromJson RemoteOpHandler VersionCheckHandler).

Lemma evolves_netmeta s np msg np' ts :
  handleIncomingNetMeta range order netMeta_toJson newNetMetaFromJson s np msg = Ok (np', ts) →
  evolves np np'.
Proof using.
  unfold handleIncomingNetMeta. destruct (newNetMetaFromJson _) as [u|]; intros H;
    [|by simplify_eq].
  apply bind_Ok_inv in H as ([[[np1 nl] d] c] & H1 & H). apply evolves_apply in H1.
  etrans; [done|]. destruct c; [|by simplify_eq].
  apply bind_Ok_inv in H as (t & _ & H). apply bind_Ok_inv in H as (np2 & H2 & H).
  simplify_eq. by eapply evolves_broadcast.
Qed.

Lemma evolves_serve s np msg np' ts : serve s np msg = Ok (np', ts) → evolves np np'.
Proof using.
  unfold serve_message. destruct (decide _); [apply evolves_netmeta|].
  destruct (decide _).
  { unfold handleIncomingRemoteOp. intros H. apply bind_Ok_inv in H as (np1 & H1 & H).
    simplify_eq. destruct (m_Visited msg); [by eapply evolves_broadcast|by simplify_eq]. }
  destruct (decide _); [|by intros; simplify_eq].
  unfold handleIncomingVersionCheck. destruct (fromJson _) as [content|]; intros H;
    [|by simplify_eq].
  apply bind_Ok_inv in H as ([np1 t1] & H1 & H). apply evolves_netmeta in H1.
  apply bind_Ok_inv in H as (handler & _ & H).
  assert (np1 = np') as -> by (destruct (handler _) as [? []]; by simplify_eq).
  etrans; [|done]. apply evolves_same; cbn; [done|lia].
Qed.

(** What the goroutines of the network manager do to the pool. *)
Inductive pool_step : nodePool → nodePool → Prop :=
  | step_serve s np msg np' ts : serve s np msg = Ok (np', ts) → pool_step np np'
  | step_new_session np s np' ts : handleNewSession order np s = Ok (np', ts) → pool_step np np'
  | step_end_session np s np' : handleEndSession order np s = Ok np' → pool_step np np'
  | step_broadcast np msg np' : broadcast order np msg = Ok np' → pool_step np np'
  | step_set_state np l s np' ok : setState np l s = Ok (np', ok) → pool_step np np'
  | step_send np msg l np' ok :
      putMsgOnSendingQueueOfNode np msg l = Ok (np', ok) → pool_step np np'
  | step_receive s np l received np' m go ts :
      receiveThread s np l received = Ok (np', m, go, ts) → pool_step np np'
  | step_add np id m : pool_step np (addOrGetNodeFromPool np id m).1
  | step_take np l m np' : take_message np l = Ok (Some (m, np')) → pool_step np np'.

Lemma pool_step_evolves np np' : pool_step np np' → evolves np np'.
Proof using.
  intros H. inversion H; subst; eauto using evolves_serve, evolves_new_session,
    evolves_end_session, evolves_broadcast, evolves_setState, evolves_put, evolves_receive,
    evolves_add.
  unfold take_message, pool_node in H0. res_inv. destruct (n_outChan _); simplify_eq.
  by eapply evolves_set_node.
Qed.

Lemma pool_steps_evolve np np' : rtc pool_step np np' → evolves np np'.
Proof using. induction 1; [done|]. etrans; [by apply pool_step_evolves|done]. Qed.
End Steps.

(** ** Properties *)

(** C33: a recursive broadcast reaches exactly the connected nodes that the
    message has not visited and whose queue has room, and leaves the other
    nodes alone; the message then says that it visited all the connected
    nodes with room. *)
Theorem broadcastRecursive_reaches order np msg v original :
  is_pool_order order → pool_wf np → np_visited np !! v = Some original →
  m_Visited msg = Some v →
  ∃ np' vis, broadcast order np msg = Ok np' ∧
    (∀ l n, np_nodes np !! l = Some n →
       (connected_at np l ∧ (n_id n ∉ original) ∧ room n = true →
          np_nodes np' !! l = Some (enqueued msg n)) ∧
       (¬ (connected_at np l ∧ (n_id n ∉ original) ∧ room n = true) →
          np_nodes np' !! l = Some n)) ∧
    np_visited np' !! v = Some vis ∧
    (∀ id, id ∈ vis ↔ id ∈ original ∨
       ∃ l n, connected_at np l ∧ np_nodes np !! l = Some n ∧ n_id n = id ∧ room n = true).
Proof.
  intros Ho Hwf Hv Hm. unfold broadcast. rewrite Hm.
  destruct (broadcastRecursive_ok order np msg v original Ho Hwf Hv)
    as (np' & vis & -> & _ & _ & H1 & H2 & H3).
  exists np', vis. split; [done|].
  assert (∀ n, gets original n = true ↔ (n_id n ∉ original) ∧ room n = true) as Hg.
  { intros n. unfold gets. by rewrite andb_true_iff, bool_decide_eq_true. }
  split; [|done]. intros l n Hn. destruct (H1 l n Hn) as [A B]. by rewrite Hg in A, B.
Qed.

Definition sample_pool_node : node := mkNode nodeStateConnected [x62] [x42] [] (Some 9%nat).
Definition sample_pool : nodePool :=
  mkPool ∅ {[[x62] := 0%nat]} {[0%nat := sample_pool_node]} {[5%nat := {[[x61]]}]} [] 10.
Definition sample_msg : Message := mkMessage MSG_TYPE_REMOTE_OP (Some 5%nat) [x78].

Lemma sample_pool_wf : pool_wf sample_pool.
Proof.
  split.
  - intros id l. cbn [sample_pool np_pool np_nodes]. intros [<- <-]%lookup_singleton_Some. by eexists.
  - intros l [n H]. cbn [sample_pool np_nodes] in H. apply lookup_singleton_Some in H as [<- _].
    simpl. lia.
Qed.

Lemma map_to_list_pool_order : is_pool_order map_to_list.
Proof. by intros m. Qed.

Lemma broadcastRecursive_reaches_witness :
  ∃ np', broadcast map_to_list sample_pool sample_msg = Ok np' ∧
    np_nodes np' !! 0%nat = Some (enqueued sample_msg sample_pool_node).
Proof.
  destruct (broadcastRecursive_reaches map_to_list sample_pool sample_msg 5%nat {[[x61]]}
    map_to_list_pool_order sample_pool_wf eq_refl eq_refl) as (np' & vis & E & H & _).
  exists np'. split; [exact E|]. apply (H 0%nat sample_pool_node eq_refl).
  split; [|split].
  - exists [x62], sample_pool_node. done.
  - simpl. set_solver.
  - done.
Defined.

(** Every hop of a recursive broadcast shrinks the set of nodes that are
    left to visit: if any node is sent the message, fewer of the ids [U] are
    unvisited afterwards, so a message is passed on a bounded number of
    times. *)
Theorem broadcastRecursive_shrinks (order : pool_order) (np : nodePool) (msg : Message) (v : loc)
    (original U : gset str) :
  is_pool_order order → pool_wf np → np_visited np !! v = Some original →
  m_Visited msg = Some v →
  (∀ id l, np_pool np !! id = Some l → id ∈ U) →
  ∃ np' vis, broadcast order np msg = Ok np' ∧ np_visited np' !! v = Some vis ∧
    (size (U ∖ vis) ≤ size (U ∖ original))%nat ∧
    ((∃ l n n', np_nodes np !! l = Some n ∧ np_nodes np' !! l = Some n' ∧
                n_outChan n' ≠ n_outChan n) →
     (size (U ∖ vis) < size (U ∖ original))%nat).
Proof.
  intros Ho Hwf Hv Hm HU. unfold broadcast. rewrite Hm.
  destruct (broadcastRecursive_ok order np msg v original Ho Hwf Hv)
    as (np' & vis & -> & _ & _ & H1 & H2 & H3).
  exists np', vis. split; [done|]. split; [done|].
  assert (original ⊆ vis) as Hsub by (intros id Hid; apply H3; by left).
  split; [apply subseteq_size; set_solver|].
  intros (l & n & n' & Hn & Hn' & Hne). apply subset_size. split; [set_solver|].
  intros Hback. destruct (H1 l n Hn) as [A B].
  assert (connected_at np l ∧ gets original n = true) as [Hc Hg].
  { destruct (decide (gets original n = true)) as [Hg|Hg].
    - split; [|done]. destruct (decide (is_connected np l = true ∧
        np_pool np !! n_id n = Some l)) as [[Hc Hp]|Hno].
      + exists (n_id n), n. split; [done|]. split; [done|]. unfold is_connected in Hc.
        rewrite Hn in Hc. by apply bool_decide_eq_true in Hc.
      + destruct Hne. rewrite B in Hn'; [by simplify_eq|].
        intros [(id & m & Hid & Hm' & Hc) _]. apply Hno. simplify_eq.
        destruct (pool_ids _ Hwf _ _ Hid) as (m' & Hm' & Hid'). simplify_eq.
        split; [|done]. unfold is_connected. rewrite Hn. by apply bool_decide_eq_true.
    - destruct Hne. rewrite B in Hn'; [by simplify_eq|]. by intros [_ ?]. }
  unfold gets in Hg. apply andb_true_iff in Hg as [Hg1 Hg2]. apply bool_decide_eq_true in Hg1.
  assert (n_id n ∈ U).
  { destruct Hc as (id & m & Hid & Hm' & _). simplify_eq.
    destruct (pool_ids _ Hwf _ _ Hid) as (m' & Hm' & <-). simplify_eq. eauto. }
  assert (n_id n ∈ vis) by (apply H3; right; by exists l, n). set_solver.
Qed.

Lemma broadcastRecursive_shrinks_witness :
  ∃ np' vis, broadcast map_to_list sample_pool sample_msg = Ok np' ∧
    np_visited np' !! 5%nat = Some vis ∧
    (size (({[[x61]; [x62]]} : gset str) ∖ vis) ≤
     size (({[[x61]; [x62]]} : gset str) ∖ {[[x61]]}))%nat.
Proof.
  destruct (broadcastRecursive_shrinks map_to_list sample_pool sample_msg 5%nat {[[x61]]}
    {[[x61]; [x62]]} map_to_list_pool_order sample_pool_wf eq_refl eq_refl)
    as (np' & vis & E & Hv & Hle & _).
  - intros id l. cbn [sample_pool np_pool]. intros [<- <-]%lookup_singleton_Some. set_solver.
  - exists np', vis. split; [exact E|]. split; [exact Hv|exact Hle].
Defined.

(** A node that has left the network has left for good: whatever the
    network threads do to the pool afterwards, its state stays, no thread
    connects or pokes it again, and it cannot become connected. *)
Theorem left_is_final range order netMeta_toJson newNetMetaFromJson fromJson set handler np np' l n s :
  pool_wf np →
  rtc (pool_step range order netMeta_toJson newNetMetaFromJson fromJson set handler) np np' →
  np_nodes np !! l = Some n → n_state n = nodeStateLeft →
  (∃ n', np_nodes np' !! l = Some n' ∧ n_state n' = nodeStateLeft) ∧
  initiateNewNode s np' l = Ok [] ∧
  ∃ np'', setState np' l nodeStateConnected = Ok (np'', false).
Proof.
  intros Hwf Hsteps Hn Hl.
  destruct (pool_steps_evolve _ _ _ _ _ _ _ _ _ Hsteps) as (_ & _ & H).
  destruct (H (pool_fresh _ Hwf) l n Hn) as (n' & Hn' & _ & Hl'). specialize (Hl' Hl).
  split; [eauto|]. unfold initiateNewNode, setState, pool_node. rewrite Hn', require_Some, !bind_Ok.
  rewrite decide_True by (by rewrite Hl'). split; [done|]. rewrite Hl'. by eexists.
Qed.

Lemma left_is_final_witness :
  let np := mkPool ∅ ∅ {[0%nat := with_state nodeStateLeft sample_pool_node]} ∅ [] 10 in
  initiateNewNode (mkSession [x61] [x41] false)
    (addOrGetNodeFromPool np [x62] (mkNodeMeta [x42] false)).1 0 = Ok [].
Proof.
  set (np := mkPool ∅ ∅ {[0%nat := with_state nodeStateLeft sample_pool_node]} ∅ [] 10).
  assert (pool_wf np) as Hwf.
  { split.
    - intros id l H. unfold np in H. cbn [np_pool] in H. by rewrite lookup_empty in H.
    - intros l [n H]. unfold np in *. cbn [np_nodes np_next] in *.
      apply lookup_singleton_Some in H as [<- _]. lia. }
  eapply (left_is_final map_to_list map_to_list (λ _, []) (λ _, None) (λ _, None) true (Some (λ _, ([], false)))
    np _ 0%nat (with_state nodeStateLeft sample_pool_node) (mkSession [x61] [x41] false) Hwf).
  - apply rtc_once. apply step_add.
  - done.
  - done.
Defined.

(** A session serves messages from its start, and a new manager sets its
    handlers only afterwards: a version check that comes before is a call of a
    nil function. *)
Lemma serve_without_handler_panics range order netMeta_toJson newNetMetaFromJson fromJson set s np msg
    content np1 update r :
  m_Type msg = MSG_TYPE_VERSION_CHECK → fromJson (m_Msg msg) = Some content →
  newNetMetaUpdateMsg netMeta_toJson np (s_id s) (vc_NetworkMeta content) = (np1, update) →
  handleIncomingNetMeta range order netMeta_toJson newNetMetaFromJson s np1 update = Ok r →
  serve_message range order netMeta_toJson newNetMetaFromJson fromJson set None s np msg = Panic NilPointer.
Proof.
  intros Ht Hc Hu Hok. unfold serve_message. rewrite Ht, !decide_False, decide_True by done.
  unfold handleIncomingVersionCheck. by rewrite Hc, Hu, Hok, bind_Ok; destruct r.
Qed.
