(* ===== verification/Handshake.v ===== *)
(** How two editors connect: the dialogues of the dialing and the listening
    side (CPSC418/project/network/nodethread.go, handleconn.go and
    network.go), and both of them over a connection that may break. *)
From Stdlib Require Import Strings.String.
From S2P Require Import Prelude NetMeta NodePool Session.

Open Scope Z_scope.

(** ** Dialogues *)

(** What is sent: a string, the metadata, or an encoded [Message]. *)
Inductive wire : Type :=
  | Text (s : str)
  | Meta (m : NetMeta)
  | Encoded (s : list byte).

(** A side of a dialogue: it writes and learns whether that worked, reads and
    may get an error, and ends with a result. *)
Inductive proc (A : Type) : Type :=
  | Ret (a : A)
  | WriteMsg (m : wire) (k : bool → proc A)
  | ReadMsg (k : option wire → proc A).
Arguments Ret {A} a.
Arguments WriteMsg {A} m k.
Arguments ReadMsg {A} k.

(** [err = n.writeMessage(m); if err != nil { return e }] *)
Definition try_write {A} (m : wire) (e : A) (k : proc A) : proc A :=
  WriteMsg m (λ ok, if (ok : bool) then k else Ret e).

(** [s, err := n.readMessage(); if err != nil { return e }]; what is not a
    string leaves the string empty. *)
Definition text_of (m : wire) : str := match m with Text s => s | _ => [] end.
Definition try_read {A} (e : A) (k : str → proc A) : proc A :=
  ReadMsg (λ r, match r with Some m => k (text_of m) | None => Ret e end).

Definition meta_of (m : wire) : NetMeta := match m with Meta m => m | _ => ∅ end.
Definition try_readLog {A} (e : A) (k : NetMeta → proc A) : proc A :=
  ReadMsg (λ r, match r with Some m => k (meta_of m) | None => Ret e end).

Definition dialingTypeRegister : str := txt "register".
Definition dialingTypePoke : str := txt "poke".
Definition dialingTypeConnect : str := txt "connect".

(** ** The dialing side *)

(** Whether the poke succeeded, and the updates put on [msgChan]. *)
Definition poke (s : session) (id addr : str) : proc (bool * list NetMeta) :=
  try_write (Text dialingTypePoke) (false, []) (
  try_write (Text id) (false, []) (
  try_read (false, []) (λ match_,
  if decide (match_ = txt "true") then
    try_write (Text (s_id s)) (false, []) (
    try_write (Text (s_publicAddr s)) (false, []) (
    try_read (false, []) (λ reply,
    Ret (bool_decide (reply = txt "done"), []))))
  else Ret (true, [newQuitNetMeta id addr])))).

(** Whether connect succeeded, whether the connection is established, and the
    updates put on [msgChan]. [vc] is the encoded version check, if any. *)
Definition connect (s : session) (vc : option (list byte)) (id addr : str)
    : proc (bool * bool * list NetMeta) :=
  try_write (Text dialingTypeConnect) (false, false, []) (
  try_write (Text id) (false, false, []) (
  try_read (false, false, []) (λ match_,
  if decide (match_ = txt "true") then
    try_write (Text (s_id s)) (false, false, []) (
    try_write (Text (s_publicAddr s)) (false, false, []) (
    match vc with
    | Some msg => try_write (Encoded msg) (false, false, []) (Ret (true, true, []))
    | None => Ret (true, true, [])
    end))
  else Ret (true, false, [newQuitNetMeta id addr])))).

Inductive connect_error : Type := NoError | ConnError | PartiallyConnected.

(** [ConnectTo]: the error and the updates put on [msgChan]. *)
Definition ConnectTo (latestNetMeta : NetMeta) : proc (connect_error * list NetMeta) :=
  try_write (Text dialingTypeRegister) (ConnError, []) (
  try_readLog (ConnError, []) (λ incoming,
  try_write (Meta latestNetMeta) (PartiallyConnected, [incoming]) (
  Ret (NoError, [incoming])))).

(** ** The listening side *)

(** What a new connection leads to: the updates put on [msgChan], and the id
    and address of the node to which it is established. *)
Definition served : Type := list NetMeta * option (str * str).

Definition handleRegister (latestNetMeta : NetMeta) : proc served :=
  try_write (Meta latestNetMeta) ([], None) (
  try_readLog ([], None) (λ incoming,
  Ret ([incoming], None))).

(** [s.id == expectedId] *)
Definition expects (s : session) (expectedId : str) : bool := bool_decide (s_id s = expectedId).

Definition handlePoke (s : session) : proc served :=
  try_read ([], None) (λ expectedId,
  if negb (expects s expectedId) then
    WriteMsg (Text (txt "false")) (λ _, Ret ([], None))
  else
    try_write (Text (txt "true")) ([], None) (
    try_read ([], None) (λ id,
    try_read ([], None) (λ addr,
    WriteMsg (Text (txt "done")) (λ _, Ret ([newJoinNetMeta id addr], None)))))).

Definition handleConnect (s : session) (vc : option (list byte)) : proc served :=
  try_read ([], None) (λ expectedId,
  if negb (expects s expectedId) then
    WriteMsg (Text (txt "false")) (λ _, Ret ([], None))
  else
    try_write (Text (txt "true")) ([], None) (
    try_read ([], None) (λ id,
    try_read ([], None) (λ addr,
    match vc with
    | Some msg => try_write (Encoded msg) ([], None) (Ret ([], Some (id, addr)))
    | None => Ret ([], Some (id, addr))
    end)))).

Definition handleNewConn (s : session) (vc : option (list byte)) (latestNetMeta : NetMeta)
    : proc served :=
  try_read ([], None) (λ purpose,
  if decide (purpose = dialingTypeRegister) then handleRegister latestNetMeta
  else if decide (purpose = dialingTypePoke) then handlePoke s
  else if decide (purpose = dialingTypeConnect) then handleConnect s vc
  else Ret ([], None)).

(** The end of [handleConnect]: the node of the pool takes the connection. *)
Definition establish (np : nodePool) (id addr : str) (conn : loc) : res (nodePool * bool) :=
  let '(np, l) := addOrGetNodeFromPool np id (mkNodeMeta addr false) in
  n ← pool_node np l;
  let np := set_node l (mkNode (n_state n) (n_id n) (n_addr n) (n_outChan n) (Some conn)) np in
  setState np l nodeStateConnected.

(** ** Both sides *)

(** The two sides over a connection: the dialing side runs until it has to
    wait. [bc] and [bs] are the operations of each side that still work. A
    read fails when the other side has ended and nothing is left to read; two
    sides that wait for each other give [None]. *)
Fixpoint converse {A B} (fuel : nat) (bc bs : nat) (c : proc A) (s : proc B)
    (to_s to_c : list wire) : option (A * B) :=
  match fuel with
  | O => None
  | S fuel =>
      match c with
      | WriteMsg m k =>
          match bc with
          | O => converse fuel 0 bs (k false) s to_s to_c
          | S bc => converse fuel bc bs (k true) s (to_s ++ [m]) to_c
          end
      | ReadMsg k =>
          match bc, to_c with
          | O, _ => converse fuel 0 bs (k None) s to_s to_c
          | S bc, m :: to_c => converse fuel bc bs (k (Some m)) s to_s to_c
          | S bc', [] => listen fuel bc bs c s to_s
          end
      | Ret a => listen fuel bc bs c s to_s
      end
  end
with listen {A B} (fuel : nat) (bc bs : nat) (c : proc A) (s : proc B) (to_s : list wire)
    : option (A * B) :=
  match fuel with
  | O => None
  | S fuel =>
      match s with
      | WriteMsg m k =>
          match bs with
          | O => converse fuel bc 0 c (k false) to_s []
          | S bs => converse fuel bc bs c (k true) to_s [m]
          end
      | ReadMsg k =>
          match bs, to_s with
          | O, _ => converse fuel bc 0 c (k None) to_s []
          | S bs, m :: to_s => converse fuel bc bs c (k (Some m)) to_s []
          | S _, [] =>
              match c with
              | Ret _ => converse fuel bc bs c (k None) [] []
              | _ => None
              end
          end
      | Ret b =>
          match c with
          | Ret a => Some (a, b)
          | ReadMsg k => converse fuel bc bs (k None) s to_s []
          | WriteMsg _ _ => None
          end
      end
  end.

(** ** Properties *)

Definition fuel : nat := 40.

(** Steps of a conversation. *)
Section Converse.
Context {A B : Type} (f bc bs : nat) (c : proc A) (s : proc B) (ts tc : list wire).

Lemma conv_write m e (k : proc A) :
  converse (S f) (S bc) bs (try_write m e k) s ts tc = converse f bc bs k s (ts ++ [m]) tc.
Proof using. done. Qed.
Lemma conv_write_0 m e (k : proc A) :
  converse (S f) 0 bs (try_write m e k) s ts tc = converse f 0 bs (Ret e) s ts tc.
Proof using. done. Qed.
Lemma conv_read e k m :
  converse (S f) (S bc) bs (try_read e k) s ts (m :: tc) =
  converse f bc bs (k (text_of m) : proc A) s ts tc.
Proof using. done. Qed.
Lemma conv_read_0 (e : A) k :
  converse (S f) 0 bs (try_read e k) s ts tc = converse f 0 bs (Ret e) s ts tc.
Proof using. done. Qed.
Lemma conv_read_nil (e : A) k :
  converse (S f) (S bc) bs (try_read e k) s ts [] = listen f (S bc) bs (try_read e k) s ts.
Proof using. done. Qed.
Lemma conv_ret (a : A) : converse (S f) bc bs (Ret a) s ts tc = listen f bc bs (Ret a) s ts.
Proof using. done. Qed.
Lemma conv_readLog e k m :
  converse (S f) (S bc) bs (try_readLog e k) s ts (m :: tc) =
  converse f bc bs (k (meta_of m) : proc A) s ts tc.
Proof using. done. Qed.
Lemma conv_readLog_0 (e : A) k :
  converse (S f) 0 bs (try_readLog e k) s ts tc = converse f 0 bs (Ret e) s ts tc.
Proof using. done. Qed.
Lemma conv_readLog_nil (e : A) k :
  converse (S f) (S bc) bs (try_readLog e k) s ts [] = listen f (S bc) bs (try_readLog e k) s ts.
Proof using. done. Qed.

Lemma listen_write m e (k : proc B) :
  listen (S f) bc (S bs) c (try_write m e k) ts = converse f bc bs c k ts [m].
Proof using. done. Qed.
Lemma listen_write_0 m e (k : proc B) :
  listen (S f) bc 0 c (try_write m e k) ts = converse f bc 0 c (Ret e) ts [].
Proof using. done. Qed.
(** A last write, whether it works or not. *)
Lemma listen_last m (b : B) :
  listen (S f) bc (S bs) c (WriteMsg m (λ _, Ret b)) ts = converse f bc bs c (Ret b) ts [m].
Proof using. done. Qed.
Lemma listen_last_0 m (b : B) :
  listen (S f) bc 0 c (WriteMsg m (λ _, Ret b)) ts = converse f bc 0 c (Ret b) ts [].
Proof using. done. Qed.
Lemma listen_read e k m :
  listen (S f) bc (S bs) c (try_read e k) (m :: ts) =
  converse f bc bs c (k (text_of m) : proc B) ts [].
Proof using. done. Qed.
Lemma listen_read_0 (e : B) k :
  listen (S f) bc 0 c (try_read e k) ts = converse f bc 0 c (Ret e) ts [].
Proof using. done. Qed.
Lemma listen_read_nil a (e : B) k :
  listen (S f) bc (S bs) (Ret a : proc A) (try_read e k) [] =
  converse f bc (S bs) (Ret a) (Ret e) [] [].
Proof using. done. Qed.
Lemma listen_readLog e k m :
  listen (S f) bc (S bs) c (try_readLog e k) (m :: ts) =
  converse f bc bs c (k (meta_of m) : proc B) ts [].
Proof using. done. Qed.
Lemma listen_readLog_0 (e : B) k :
  listen (S f) bc 0 c (try_readLog e k) ts = converse f bc 0 c (Ret e) ts [].
Proof using. done. Qed.
Lemma listen_readLog_nil a (e : B) k :
  listen (S f) bc (S bs) (Ret a : proc A) (try_readLog e k) [] =
  converse f bc (S bs) (Ret a) (Ret e) [] [].
Proof using. done. Qed.
Lemma listen_ret_read (e : A) k (b : B) :
  listen (S f) bc bs (try_read e k) (Ret b) ts = converse f bc bs (Ret e) (Ret b) ts [].
Proof using. done. Qed.
Lemma listen_ret_readLog (e : A) k (b : B) :
  listen (S f) bc bs (try_readLog e k) (Ret b) ts = converse f bc bs (Ret e) (Ret b) ts [].
Proof using. done. Qed.
Lemma listen_ret (a : A) (b : B) :
  listen (S f) bc bs (Ret a) (Ret b) ts = Some (a, b).
Proof using. done. Qed.
End Converse.

Create Rewrite HintDb conv.
#[export] Hint Rewrite @conv_write @conv_write_0 @conv_read @conv_read_0 @conv_read_nil @conv_ret
  @conv_readLog @conv_readLog_0 @conv_readLog_nil @listen_write @listen_write_0 @listen_last
  @listen_last_0 @listen_read @listen_read_0 @listen_read_nil @listen_readLog @listen_readLog_0
  @listen_readLog_nil @listen_ret_read @listen_ret_readLog @listen_ret : conv.

(** Run a conversation, given [H], whether the ids are the same. *)
Ltac converse_by H :=
  repeat (autorewrite with conv; cbn [app text_of meta_of]; rewrite ?H; cbn [negb];
    repeat match goal with
    | |- context [decide (?x = ?y)] =>
        first [ rewrite (decide_True (P := x = y)) by reflexivity
              | rewrite (decide_False (P := x = y)) by (intros E; vm_compute in E; discriminate E) ]
    end);
  reflexivity.

Ltac operations n := destruct n as [|[|[|[|[|[|n]]]]]].

(** A poke over a connection that may break anywhere: when it succeeds,
    the other side has been told of this one, if the id is the one that was
    meant, and otherwise the id that was meant is recorded as left; nothing
    else is recorded, and without a break the poke succeeds. *)
Theorem poke_tells s r vc meta id addr bc bs :
  ∃ ok mine theirs,
    converse fuel bc bs (poke s id addr) (handleNewConn r vc meta) [] [] =
      Some ((ok, mine), (theirs, None)) ∧
    (s_id r = id → mine = [] ∧ (theirs = [] ∨ theirs = [newJoinNetMeta (s_id s) (s_publicAddr s)]) ∧
       (ok = true → theirs = [newJoinNetMeta (s_id s) (s_publicAddr s)])) ∧
    (s_id r ≠ id → theirs = [] ∧ (mine = [] ∨ mine = [newQuitNetMeta id addr]) ∧
       (ok = true → mine = [newQuitNetMeta id addr])) ∧
    ((6 ≤ bc)%nat → (6 ≤ bs)%nat → ok = true).
Proof.
  destruct (decide (s_id r = id)) as [Hid|Hid].
  - subst id. pose proof (bool_decide_eq_true_2 _ eq_refl : expects r (s_id r) = true) as H.
    operations bc; operations bs; do 3 eexists; (split; [unfold fuel, poke, handleNewConn, handlePoke; converse_by H|]);
      split_and!; intros; split_and?; intros; simplify_eq; auto; lia.
  - pose proof (bool_decide_eq_false_2 _ Hid : expects r id = false) as H.
    operations bc; operations bs; do 3 eexists; (split; [unfold fuel, poke, handleNewConn, handlePoke; converse_by H|]);
      split_and!; intros; split_and?; intros; simplify_eq; auto; lia.
Qed.

Lemma poke_tells_witness :
  ∃ mine theirs,
    converse fuel 6 6 (poke (mkSession [x61] [x41] false) [x62] [x42])
      (handleNewConn (mkSession [x62] [x42] false) None ∅) [] [] = Some ((true, mine), (theirs, None)) ∧
    theirs = [newJoinNetMeta [x61] [x41]].
Proof.
  destruct (poke_tells (mkSession [x61] [x41] false) (mkSession [x62] [x42] false) None ∅
    [x62] [x42] 6 6) as (ok & mine & theirs & E & H & _ & Hok).
  specialize (Hok ltac:(lia) ltac:(lia)). destruct (H eq_refl) as (_ & _ & Ht). subst ok.
  exists mine, theirs. split; [exact E|by apply Ht].
Defined.

(** Over a connection that holds, a connect to the session that was meant
    is established on both sides, the listening side learning the id and the
    address of the other; a connect to another session leaves no connection
    and records that the one that was meant has left. *)
Theorem connect_establishes s r vcs vcr meta id addr bc bs :
  (6 ≤ bc)%nat → (6 ≤ bs)%nat →
  converse fuel bc bs (connect s vcs id addr) (handleNewConn r vcr meta) [] [] =
  if expects r id then Some ((true, true, []), ([], Some (s_id s, s_publicAddr s)))
  else Some ((true, false, [newQuitNetMeta id addr]), ([], None)).
Proof.
  intros Hc Hs.
  destruct bc as [|[|[|[|[|[|bc]]]]]]; [lia..|]. destruct bs as [|[|[|[|[|[|bs]]]]]]; [lia..|].
  destruct (expects r id) eqn:H; destruct vcs, vcr;
    unfold fuel, connect, handleNewConn, handleConnect; converse_by H.
Qed.

Lemma connect_establishes_witness :
  converse fuel 6 6 (connect (mkSession [x61] [x41] false) None [x62] [x42])
    (handleNewConn (mkSession [x62] [x42] false) (Some [x30]) ∅) [] [] =
  Some ((true, true, []), ([], Some ([x61], [x41]))).
Proof.
  apply (connect_establishes (mkSession [x61] [x41] false) (mkSession [x62] [x42] false)
    None (Some [x30]) ∅ [x62] [x42] 6 6); lia.
Defined.

(** [ConnectTo] against the listening side, over a connection that may
    break anywhere: each side records what the other has sent and nothing
    else; no error means that the metadata of the other side has arrived, and
    a partial connection that it has, though this side's may not. *)
Theorem ConnectTo_exchanges r vc mine theirs bc bs :
  ∃ err got given,
    converse fuel bc bs (ConnectTo mine) (handleNewConn r vc theirs) [] [] =
      Some ((err, got), (given, None)) ∧
    (got = [] ∨ got = [theirs]) ∧ (given = [] ∨ given = [mine]) ∧
    (err ≠ ConnError → got = [theirs]) ∧ (err = PartiallyConnected → given = []) ∧
    ((3 ≤ bc)%nat → (3 ≤ bs)%nat → err = NoError ∧ given = [mine]).
Proof.
  destruct bc as [|[|[|bc]]]; destruct bs as [|[|[|bs]]]; do 3 eexists;
    (split; [unfold fuel, ConnectTo, handleNewConn, handleRegister; converse_by I|]);
    split_and!; intros; split_and?; intros; simplify_eq; auto; try lia; try done.
Qed.

(** Of two editors with different addresses exactly one connects and the
    other pokes; it is the one with the smaller address. With equal addresses
    neither connects. *)
Theorem one_side_connects a b :
  (a ≠ b → shouldConnect a b = negb (shouldConnect b a)) ∧
  (shouldConnect a b = true ↔ bytes_Compare a b = Lt) ∧
  shouldConnect a a = false.
Proof.
  unfold shouldConnect, string_lt. rewrite bytes_Compare_refl.
  rewrite (bytes_Compare_antisym a b). split; [|split; [|done]].
  - intros Hne. destruct (bytes_Compare a b) eqn:E; simpl; [|done..].
    by apply bytes_Compare_eq in E.
  - by destruct (bytes_Compare a b).
Qed.
