(* ===== verification/Conn.v ===== *)
(** Messages on a connection: the wrapper of a connection that sends and
    receives what GoVector encodes (CPSC418/project/network/conn.go). *)
From Stdlib Require Import Strings.String.
From S2P Require Import Prelude GoText Json Framing Common Version Treedoc OperationLog DocumentWire NetMeta NodePool.

Open Scope Z_scope.

(** ** GoVector *)

(** The logger [L] has a clock of its own. [PrepareSend] gives the bytes to
    send for a value; [UnpackReceive] gives the value, or nothing when it
    leaves its argument alone. Both write a note to the log. *)
Class GoLog (L A : Type) : Type := {
  PrepareSend : L → str → A → L * list byte;
  UnpackReceive : L → str → list byte → L * option A
}.

(** Values that survive. Nothing is said of the bytes themselves: whether
    [MessageReader] gives them back unchanged depends on them. *)
Class GoLogLaws (L A : Type) `{GoLog L A} (valid : A → Prop) : Prop := {
  UnpackReceive_PrepareSend l1 n1 l2 n2 a :
    valid a → (UnpackReceive l2 n2 (PrepareSend l1 n1 a).2).2 = Some a
}.

(** A [Message] as it is on the wire: with the visited nodes themselves. *)
Record wire_message : Type := mkWire {
  wm_Type : str;
  wm_Visited : option (gset str);
  wm_Msg : list byte
}.

#[export] Instance wire_message_eq_dec : EqDecision wire_message.
Proof. solve_decision. Defined.
#[export] Instance wire_message_countable : Countable wire_message.
Proof.
  refine (inj_countable' (λ m, (wm_Type m, wm_Visited m, wm_Msg m)) (λ '(t, v, m), mkWire t v m) _).
  by intros [].
Defined.

(** The zero value of [Message]. *)
Definition zero_message : wire_message := mkWire [] None [].

(** Encoding a message reads its map; decoding one makes a new map. *)
Definition pack (np : nodePool) (msg : Message) : res wire_message :=
  match m_Visited msg with
  | None => Ok (mkWire (m_Type msg) None (m_Msg msg))
  | Some v =>
      visited ← require NilPointer (np_visited np !! v);
      Ok (mkWire (m_Type msg) (Some visited) (m_Msg msg))
  end.

Definition unpack (np : nodePool) (wm : wire_message) : nodePool * Message :=
  match wm_Visited wm with
  | None => (np, mkMessage (wm_Type wm) None (wm_Msg wm))
  | Some visited =>
      let '(v, np) := new_loc np in
      (set_visited v visited np, mkMessage (wm_Type wm) (Some v) (wm_Msg wm))
  end.

Section Conn.
Context {L : Type} `{GoLog L str, GoLog L NetMeta, GoLog L wire_message}.
(** What [parseMessageHelper] decodes, and the text of what it prints. *)
Context `{Json (list RemoteOperationJson)} (zero_op : RemoteOperation).
Context (newNetMetaFromJson : list byte → option NetMeta).
Context (newVersionCheckMsgContentFromJson : list byte → option VersionCheckMsgContent).
Context (print_meta : NetMeta → str) (print_content : option VersionCheckMsgContent → str).
Context (print_ops : list RemoteOperation → str) (print_visited : option (gset str) → str).

(** The fields of a [node] that make it a wrapper. *)
Record conn : Type := mkConn {
  cn_logger : L;
  cn_reader : list byte;
  cn_writer : writer
}.

(** One end of a connection: the bytes that arrive on it, and how many
    operations of its writer work. *)
Definition newConnWrapper (logger : L) (incoming : list byte) (budget : option nat) : conn :=
  mkConn logger incoming (mkWriter [] budget).

(** [PrepareSend] and [WriteMessageSlice]; whether it returned nil. *)
Definition send_value {A} `{GoLog L A} (c : conn) (note : str) (a : A) : conn * bool :=
  let '(logger, bytes) := PrepareSend (cn_logger c) note a in
  let '(ok, w) := WriteMessageSlice (cn_writer c) bytes in
  (mkConn logger (cn_reader c) w, ok).

Definition writeLog (c : conn) (buf : NetMeta) (msgNote : str) : conn * bool :=
  let d := print_meta buf in
  send_value c (txt "send byte " ++ msgNote ++ txt " " ++ d) buf.

Definition writeMessage (c : conn) (msg : str) (msgNote : str) : conn * bool :=
  send_value c (txt "send string " ++ msgNote ++ txt " " ++ msg) msg.

(** [ReadMessageSlice] and then [UnpackReceive], which also runs, on no bytes,
    when the read failed. The result is the value, or what it was before. *)
Definition receive_value {A} `{GoLog L A} (c : conn) (note : str) (before : A)
    : res (conn * A * bool) :=
  r ← ReadMessageSlice (cn_reader c);
  let '(bytes, rest, ok) :=
    match r with
    | inl _ => ([], [], false)
    | inr (bytes, rest) => (bytes, rest, true)
    end in
  let '(logger, value) := UnpackReceive (cn_logger c) note bytes in
  Ok (mkConn logger rest (cn_writer c), default before value, ok).

Definition readLog (c : conn) (unpack : NetMeta) (msgNote : str) : res (conn * NetMeta * bool) :=
  receive_value c (txt "receive byte " ++ msgNote) unpack.

Definition readMessage (c : conn) (msgNote : str) : res (conn * str * bool) :=
  receive_value c (txt "receive string " ++ msgNote) [].

(** What is printed of a message. *)
Definition parseMessageHelper (msg : wire_message) : res str :=
  let msgPrint := wm_Type msg ++ print_visited (wm_Visited msg) in
  if decide (wm_Type msg = MSG_TYPE_NET_META_UPDATE) then
    Ok (msgPrint ++ txt "Content: " ++ print_meta (default ∅ (newNetMetaFromJson (wm_Msg msg))))
  else if decide (wm_Type msg = MSG_TYPE_VERSION_CHECK) then
    Ok (msgPrint ++ txt "Content: " ++ print_content (newVersionCheckMsgContentFromJson (wm_Msg msg)))
  else
    ops ← RemoteOperationsFromSlice zero_op (wm_Msg msg);
    Ok (msgPrint ++ txt "Content: " ++ print_ops ops).

Definition sendMessage (c : conn) (msg : wire_message) (msgNote : str) : res (conn * bool) :=
  msgPrint ← parseMessageHelper msg;
  Ok (send_value c (txt "send byte " ++ msgNote ++ txt " " ++ msgPrint) msg).

(** The bytes that it writes, in a frame. *)
Definition message_bytes (c : conn) (msg : wire_message) (msgNote : str) : res (list byte) :=
  msgPrint ← parseMessageHelper msg;
  Ok (PrepareSend (cn_logger c) (txt "send byte " ++ msgNote ++ txt " " ++ msgPrint) msg).2.

(** [None] when the connection broke. *)
Definition receiveMessage (c : conn) (msgNote : str) : res (conn * option wire_message) :=
  r ← ReadMessageSlice (cn_reader c);
  match r with
  | inl _ => Ok (mkConn (cn_logger c) [] (cn_writer c), None)
  | inr (bytes, rest) =>
      let '(logger, value) := UnpackReceive (cn_logger c) (txt "receive byte " ++ msgNote) bytes in
      Ok (mkConn logger rest (cn_writer c), Some (default zero_message value))
  end.

(** ** Sending *)

Lemma parseMessageHelper_ok msg : ∃ s, parseMessageHelper msg = Ok s.
Proof using.
  unfold parseMessageHelper. repeat case_decide; [by eexists..|].
  unfold RemoteOperationsFromSlice. rewrite fill_ops_ok, bind_Ok. by eexists.
Qed.

(** Printing a message never fails, so its bytes are made. *)
Lemma message_bytes_ok c msg note : ∃ bytes, message_bytes c msg note = Ok bytes.
Proof using. unfold message_bytes. destruct (parseMessageHelper_ok msg) as [s ->]. rewrite bind_Ok. by eexists. Qed.

(** ** Receiving *)

(** What was read does not depend on what arrives later. *)
Lemma split_after_more delim s line rest t :
  split_after delim s = Some (line, rest) → split_after delim (s ++ t) = Some (line, rest ++ t).
Proof using.
  intros (-> & l & -> & Hl)%split_after_inv. rewrite <-!app_assoc. cbn [app]. by apply split_after_app.
Qed.

Lemma read_loop_more fuel fuel' n i buf s t b rest :
  (fuel ≤ fuel')%nat → read_loop (ReadBytes newline) fuel n i buf s = Ok (inr (b, rest)) →
  read_loop (ReadBytes newline) fuel' n i buf (s ++ t) = Ok (inr (b, rest ++ t)).
Proof using.
  revert fuel' i buf s. induction fuel as [|fuel IH]; intros [|fuel'] i buf s Hf; cbn [read_loop]; try done; [lia|].
  destruct (i <? n); [|by intros [= <- <-]]. unfold ReadBytes.
  destruct (split_after newline s) as [[k s']|] eqn:E; [|done].
  rewrite (split_after_more _ _ _ _ t E). apply IH. lia.
Qed.

Lemma ReadMessageSlice_more s m rest t :
  ReadMessageSlice s = Ok (inr (m, rest)) → ReadMessageSlice (s ++ t) = Ok (inr (m, rest ++ t)).
Proof using.
  unfold ReadMessageSlice, read_message, read_buffer, ReadBytes.
  destruct (split_after space s) as [[h s']|] eqn:E; [|done]. rewrite (split_after_more _ _ _ _ t E).
  intros ([err|[b r]] & Hl & Hr)%bind_Ok_inv; [done|].
  assert (rest = r) as -> by (case_decide; congruence).
  rewrite (read_loop_more (S (length s')) (S (length (s' ++ t))) _ _ _ _ t b r) by (try done; rewrite length_app; lia).
  rewrite bind_Ok.
  case_decide; congruence.
Qed.

(** What is read of a frame. *)
Lemma read_frame bytes rest :
  framable bytes → in_memory bytes → ReadMessageSlice (frame bytes ++ rest) = Ok (inr (bytes, rest)).
Proof using.
  intros Hf Hm. destruct (read_message_framable (ReadBytes newline) (λ _, True) bytes rest Hf Hm) as [Hg _].
  apply Hg. by apply Forall_true.
Qed.

Lemma receiveMessage_frame `{!GoLogLaws L wire_message valid} c l n msg note rest :
  valid msg → framable (PrepareSend l n msg).2 → in_memory (PrepareSend l n msg).2 →
  cn_reader c = frame (PrepareSend l n msg).2 ++ rest →
  ∃ logger, receiveMessage c note = Ok (mkConn logger rest (cn_writer c), Some msg).
Proof using.
  intros Hv Hf Hm Hc. unfold receiveMessage. rewrite Hc, read_frame, bind_Ok by done.
  pose proof (UnpackReceive_PrepareSend l n (cn_logger c) (txt "receive byte " ++ note) msg Hv) as Hu.
  destruct (UnpackReceive _ _ _) as [logger value]. cbn [snd] in Hu. subst value. by eexists.
Qed.
End Conn.

(** ** A concrete logger *)

(** A text for every value of a countable type, in binary. *)
Fixpoint bits (p : positive) : list byte :=
  match p with
  | xH => [x31]
  | xO p => x30 :: bits p
  | xI p => x31 :: bits p
  end.

Fixpoint unbits (s : list byte) : positive :=
  match s with
  | [] | [_] => xH
  | b :: s => if decide (b = x31) then xI (unbits s) else xO (unbits s)
  end.

Lemma unbits_bits p : unbits (bits p) = p.
Proof.
  assert (∀ b p, unbits (b :: bits p) = if decide (b = x31) then xI (unbits (bits p)) else xO (unbits (bits p))) as H.
  { intros b q. by destruct q. }
  induction p as [p IH|p IH|]; [..|done]; cbn [bits]; by rewrite H, IH.
Qed.

Lemma bits_framable p : framable (bits p).
Proof.
  split; [by destruct p|]. induction p as [p IH|p IH|]; [..|done]; cbn [bits]; rewrite last_cons;
    by destruct (last (bits p)).
Qed.

Section BinaryLog.
Context `{Countable A}.

(** The logger counts its events. *)
Definition binary_log : GoLog nat A := {|
  PrepareSend l _ a := (S l, bits (encode a));
  UnpackReceive l _ s := (S l, match s with [] => None | _ => decode (unbits s) end)
|}.

Lemma binary_log_laws : @GoLogLaws nat A binary_log (λ _, True).
Proof.
  split. intros l1 n1 l2 n2 a _. cbn. destruct (bits (encode a)) eqn:E.
  - by destruct (encode a).
  - by rewrite <-E, unbits_bits, decode_encode.
Qed.
End BinaryLog.
