(* ===== verification/Link.v ===== *)
(** One direction of a connection between two editors: the queue of the node,
    the thread that sends from it and the thread that receives on the other
    side (CPSC418/project/network/nodethread.go, with nodepool.go and conn.go). *)
From Stdlib Require Import Strings.String.
From S2P Require Import Prelude GoText Json Framing Common Version Treedoc OperationLog DocumentWire NetMeta NodePool Session Conn.

Open Scope Z_scope.

Section Link.
Context {L : Type} `{GoLog L wire_message, Json (list RemoteOperationJson)} (zero_op : RemoteOperation).
Context (newNetMetaFromJson : list byte → option NetMeta) (netMeta_toJson : NetMeta → list byte).
Context (newVersionCheckMsgContentFromJson : list byte → option VersionCheckMsgContent).
Context (print_meta : NetMeta → str) (print_content : option VersionCheckMsgContent → str).
Context (print_ops : list RemoteOperation → str) (print_visited : option (gset str) → str).

Abbreviation sendMessage := (sendMessage (L := L) zero_op newNetMetaFromJson newVersionCheckMsgContentFromJson
  print_meta print_content print_ops print_visited).
Abbreviation message_bytes := (message_bytes (L := L) zero_op newNetMetaFromJson newVersionCheckMsgContentFromJson
  print_meta print_content print_ops print_visited).

(** Where the [sendThread] is: in its loop with its variable [done], about to
    put back the message whose send failed, or gone. *)
Inductive sender_at : Type :=
  | Sending (done : bool)
  | PuttingBack (msg : Message)
  | SenderGone.

(** A send: the message of the queue, or [None] for the last one of a session,
    what it was on the wire, and the bytes that GoVector made of that. *)
Record attempt : Type := mkAttempt {
  at_msg : option Message;
  at_wire : wire_message;
  at_bytes : list byte
}.

(** The reader of [lk_to] holds what has arrived and was not read. The fields
    from [lk_entered] on are the history: the messages that entered the queue,
    the sends that this thread tried, and what other threads of the node took. *)
Record link : Type := mkLink {
  lk_outChan : list Message;
  lk_done : bool;
  lk_sender : sender_at;
  lk_from : conn (L := L);
  lk_broken : bool;
  lk_to : conn (L := L);
  lk_receiving : bool;
  lk_inbox : list wire_message;
  lk_entered : list Message;
  lk_tried : list attempt;
  lk_others : list Message
}.

(** The connection was just made; the queue may hold messages. *)
Definition new_link (out : list Message) (from to : conn (L := L)) : link :=
  mkLink out false (Sending false) from false to true [] out [] [].

(** [!done || len(outChan) > 0] *)
Definition sender_goes_on (done : bool) (out : list Message) : bool := negb done || (0 <? zlen out).

(** What a send put on the connection, of which [k] bytes arrive. *)
Definition new_bytes (c c' : conn (L := L)) : list byte :=
  drop (length (w_data (cn_writer c))) (w_data (cn_writer c')).

Definition arrive (bytes : list byte) (c : conn (L := L)) : conn :=
  mkConn (cn_logger c) (cn_reader c ++ bytes) (cn_writer c).
Definition cut_to (k : nat) (c : conn (L := L)) : conn :=
  mkConn (cn_logger c) (take k (cn_reader c)) (cn_writer c).

(** What [newNetMetaUpdateMsg(s.id, newQuitNetMeta(s.id, publicAddr))] is on
    the wire. *)
Definition quit_message (s : session) : wire_message :=
  mkWire MSG_TYPE_NET_META_UPDATE (Some {[s_id s]}) (netMeta_toJson (newQuitNetMeta (s_id s) (s_publicAddr s))).

(** The state after a send by this thread with the connection [c]; [sent] is
    whether it worked. *)
Definition after_send (l : link) (a : attempt) (out : list Message) (at_ : sender_at) (c : conn) (sent : bool)
    (arrived : list byte) : link :=
  mkLink out (lk_done l) at_ c (lk_broken l || negb sent)
    (if lk_broken l then lk_to l else arrive arrived (lk_to l))
    (lk_receiving l) (lk_inbox l) (lk_entered l) (lk_tried l ++ [a]) (lk_others l).

Definition with_out out entered others (l : link) : link :=
  mkLink out (lk_done l) (lk_sender l) (lk_from l) (lk_broken l) (lk_to l) (lk_receiving l) (lk_inbox l)
    entered (lk_tried l) others.
Definition with_sender at_ (l : link) : link :=
  mkLink (lk_outChan l) (lk_done l) at_ (lk_from l) (lk_broken l) (lk_to l) (lk_receiving l) (lk_inbox l)
    (lk_entered l) (lk_tried l) (lk_others l).
Definition with_to to receiving inbox (l : link) : link :=
  mkLink (lk_outChan l) (lk_done l) (lk_sender l) (lk_from l) (lk_broken l) to receiving inbox
    (lk_entered l) (lk_tried l) (lk_others l).

Inductive link_step (s : session) : link → link → Prop :=
  (** The message is put on the queue, or dropped when it is full. *)
  | link_put l msg :
      link_step s l
        (if decide (length (lk_outChan l) < chanBufferSize)%nat
         then with_out (lk_outChan l ++ [msg]) (lk_entered l ++ [msg]) (lk_others l) l else l)
  (** A thread of an older connection of the node takes a message. *)
  | link_other l msg out :
      lk_outChan l = msg :: out → link_step s l (with_out out (lk_entered l) (lk_others l ++ [msg]) l)
  (** The session ends. *)
  | link_end l :
      link_step s l (mkLink (lk_outChan l) true (lk_sender l) (lk_from l) (lk_broken l) (lk_to l)
        (lk_receiving l) (lk_inbox l) (lk_entered l) (lk_tried l) (lk_others l))
  (** The loop of [sendThread]: a message is taken and sent; *)
  | link_send l done np msg out wm bytes c :
      lk_sender l = Sending done → sender_goes_on done (lk_outChan l) = true → lk_outChan l = msg :: out →
      pack np msg = Ok wm → message_bytes (lk_from l) wm (txt "sendThread outChan msg") = Ok bytes →
      sendMessage (lk_from l) wm (txt "sendThread outChan msg") = Ok (c, true) →
      link_step s l (after_send l (mkAttempt (Some msg) wm bytes) out (Sending done) c true (new_bytes (lk_from l) c))
  (** when that fails, some of it may arrive, and the connection is closed; *)
  | link_send_fails l done np msg out wm bytes c k :
      lk_sender l = Sending done → sender_goes_on done (lk_outChan l) = true → lk_outChan l = msg :: out →
      pack np msg = Ok wm → message_bytes (lk_from l) wm (txt "sendThread outChan msg") = Ok bytes →
      sendMessage (lk_from l) wm (txt "sendThread outChan msg") = Ok (c, false) →
      link_step s l (after_send l (mkAttempt (Some msg) wm bytes) out (PuttingBack msg) c false (take k (new_bytes (lk_from l) c)))
  (** the message goes to the end of the queue once there is room; *)
  | link_put_back l msg :
      lk_sender l = PuttingBack msg → (length (lk_outChan l) < chanBufferSize)%nat →
      link_step s l (with_sender SenderGone
        (with_out (lk_outChan l ++ [msg]) (lk_entered l ++ [msg]) (lk_others l) l))
  (** the end of the session is seen; *)
  | link_done l done :
      lk_sender l = Sending done → sender_goes_on done (lk_outChan l) = true → lk_done l = true →
      link_step s l (with_sender (Sending true) l)
  (** after the loop, this session is said to have left. *)
  | link_quit l done bytes c sent k :
      lk_sender l = Sending done → sender_goes_on done (lk_outChan l) = false →
      message_bytes (lk_from l) (quit_message s) (txt "sendThread newNetMetaUpdateMsg") = Ok bytes →
      sendMessage (lk_from l) (quit_message s) (txt "sendThread newNetMetaUpdateMsg") = Ok (c, sent) →
      link_step s l (after_send l (mkAttempt None (quit_message s) bytes) (lk_outChan l) SenderGone c sent
        (if (sent : bool) then new_bytes (lk_from l) c else take k (new_bytes (lk_from l) c)))
  (** The connection breaks: some of what is on its way is lost, and what is
      written from then on. *)
  | link_break l k :
      link_step s l (mkLink (lk_outChan l) (lk_done l) (lk_sender l) (lk_from l) true (cut_to k (lk_to l))
        (lk_receiving l) (lk_inbox l) (lk_entered l) (lk_tried l) (lk_others l))
  (** The [receiveThread] of this side closes it, when the node is not connected
      any more (it has left, or the session has ended) or its read failed; the
      [sendThread] may still have messages to send. *)
  | link_closed l k :
      link_step s l (mkLink (lk_outChan l) (lk_done l) (lk_sender l) (lk_from l) true (cut_to k (lk_to l))
        (lk_receiving l) (lk_inbox l) (lk_entered l) (lk_tried l) (lk_others l))
  (** The loop of [receiveThread] on the other side: a message arrived and is
      put on its [msgChan], or dropped when that session has ended; *)
  | link_receive l to wm :
      lk_receiving l = true → receiveMessage (lk_to l) (txt "receiveThread msg") = Ok (to, Some wm) →
      link_step s l (with_to to true (lk_inbox l ++ [wm]) l)
  | link_receive_ended l to wm :
      lk_receiving l = true → receiveMessage (lk_to l) (txt "receiveThread msg") = Ok (to, Some wm) →
      link_step s l (with_to to false (lk_inbox l) l)
  (** or nothing more will come. *)
  | link_receive_fails l to :
      lk_receiving l = true → receiveMessage (lk_to l) (txt "receiveThread msg") = Ok (to, None) →
      lk_broken l = true ∨ lk_sender l = SenderGone →
      link_step s l (with_to to false (lk_inbox l) l).

(** ** What is on the connection *)

Lemma write_all_prefix w ss ok w' :
  write_all w ss = (ok, w') → ∃ p, w_data w' = w_data w ++ p ∧ p `prefix_of` concat ss.
Proof using.
  revert w. induction ss as [|x ss IH]; intros w; cbn [write_all].
  { intros [= <- <-]. exists []. by rewrite app_nil_r. }
  unfold write. destruct (w_budget w) as [[|n]|] eqn:E.
  - intros [= <- <-]. exists []. split; [by rewrite app_nil_r|apply prefix_nil].
  - intros (p & Hp & Hpre)%IH. cbn [w_data] in Hp. exists (x ++ p). rewrite Hp, <-app_assoc. split; [done|].
    cbn. by apply prefix_app.
  - intros (p & Hp & Hpre)%IH. cbn [w_data] in Hp. exists (x ++ p). rewrite Hp, <-app_assoc. split; [done|].
    cbn. by apply prefix_app.
Qed.

Definition encodes (wm : wire_message) (bytes : list byte) : Prop :=
  ∃ (l : L) n, bytes = (PrepareSend l n wm).2.

(** A send puts a frame on the connection, or a part of it. *)
Lemma sendMessage_new c wm note bytes c' ok :
  message_bytes c wm note = Ok bytes → sendMessage c wm note = Ok (c', ok) → encodes wm bytes ∧
    new_bytes c c' `prefix_of` frame bytes ∧ (ok = true → new_bytes c c' = frame bytes).
Proof using.
  unfold Conn.sendMessage, Conn.message_bytes. intros (p & -> & [= Hb])%bind_Ok_inv. rewrite bind_Ok. intros [= Hs].
  unfold send_value in Hs. destruct (PrepareSend _ _ _) as [logger bytes'] eqn:E. cbn [snd] in Hb. subst bytes'.
  destruct (WriteMessageSlice _ _) as [ok' w] eqn:Ew. injection Hs as <- <-.
  split; [eexists _, _; by rewrite E|]. unfold new_bytes. cbn [cn_writer]. split.
  - apply write_all_prefix in Ew as (q & Hq & Hpre). rewrite Hq, drop_app_length.
    exact Hpre.
  - intros ->. apply WriteMessage_nil in Ew. by rewrite Ew, drop_app_length.
Qed.

Definition frames (pending : list (wire_message * list byte)) : list byte := concat (frame <$> pending.*2).

Lemma frames_snoc pending wm bytes : frames (pending ++ [(wm, bytes)]) = frames pending ++ frame bytes.
Proof using. unfold frames. by rewrite !fmap_app, concat_app; cbn; rewrite app_nil_r. Qed.

Lemma frame_nonempty bytes : frame bytes ≠ [].
Proof using. unfold frame. intros E. apply (f_equal length) in E. rewrite !length_app in E. simpl in E. lia. Qed.

Context `{!GoLogLaws L wire_message valid}.

(** A message that can come back out of its bytes, if [MessageReader] gives
    these back: they are not empty, and do not end with a newline. *)
Definition intact (wm : wire_message) (bytes : list byte) : Prop :=
  valid wm ∧ framable bytes ∧ in_memory bytes.

(** What is received of frames, or of a part of them, is the first one. *)
Lemma receive_first c note c' wm pending :
  Forall (λ p, encodes p.1 p.2 ∧ intact p.1 p.2) pending → cn_reader c `prefix_of` frames pending →
  receiveMessage c note = Ok (c', Some wm) →
  ∃ bytes rest, pending = (wm, bytes) :: rest ∧ cn_reader c' `prefix_of` frames rest ∧
    (cn_reader c = frames pending → cn_reader c' = frames rest).
Proof using GoLogLaws0.
  intros HF [t Ht] Hr. unfold receiveMessage in Hr. apply bind_Ok_inv in Hr as ([err|[bytes rest]] & Hb & Hr); [done|].
  destruct (UnpackReceive _ _ _) as [logger value] eqn:EU. injection Hr as <- <-. cbn [cn_reader].
  pose proof (ReadMessageSlice_more _ _ _ t Hb) as Hm. rewrite <-Ht in Hm.
  destruct pending as [|[wm bytes'] pending]; [by cbn in Hm|].
  apply Forall_cons in HF as [[(l & n & E) (Hv & Hf & Hmem)] HF]. cbn [fst snd] in *. subst bytes'.
  unfold frames in Hm. cbn [fmap list_fmap concat snd] in Hm.
  rewrite read_frame in Hm by done. injection Hm as <- Hrest.
  exists (PrepareSend l n wm).2, pending. split; [|split].
  - pose proof (UnpackReceive_PrepareSend l n (cn_logger c) (txt "receive byte " ++ note) wm Hv) as Hu.
    rewrite EU in Hu. cbn [snd] in Hu. by subst value.
  - exists t. exact Hrest.
  - intros Heq. rewrite Heq in Ht. apply (f_equal length) in Ht. rewrite length_app in Ht.
    assert (t = []) as -> by (destruct t; simpl in Ht; [done|lia]). by rewrite app_nil_r in Hrest.
Qed.
End Link.
