(* ===== verification/LinkProps.v ===== *)
(** A connection delivers in order, and a session that ends delivers all that
    is queued (CPSC418/project/network/nodethread.go). *)
From Stdlib Require Import Strings.String.
From S2P Require Import Prelude GoText Json Framing Common Version Treedoc OperationLog DocumentWire NetMeta NodePool Session Conn Link.

Open Scope Z_scope.

Section Props.
Context {L : Type} `{GoLog L wire_message, Json (list RemoteOperationJson)} (zero_op : RemoteOperation).
Context (newNetMetaFromJson : list byte → option NetMeta) (netMeta_toJson : NetMeta → list byte).
Context (newVersionCheckMsgContentFromJson : list byte → option VersionCheckMsgContent).
Context (print_meta : NetMeta → str) (print_content : option VersionCheckMsgContent → str).
Context (print_ops : list RemoteOperation → str) (print_visited : option (gset str) → str).
Context `{!GoLogLaws L wire_message valid} (s : session).

Abbreviation link_step := (link_step (L := L) zero_op newNetMetaFromJson netMeta_toJson
  newVersionCheckMsgContentFromJson print_meta print_content print_ops print_visited s).
Abbreviation quit := (quit_message netMeta_toJson s).
Abbreviation link := (link (L := L)).

(** A message is on the wire with its type and its content, and with the
    nodes that its map held when it was sent. *)
Definition carries (a : attempt) : Prop :=
  match at_msg a with
  | Some msg => wm_Type (at_wire a) = m_Type msg ∧ wm_Msg (at_wire a) = m_Msg msg ∧
      (is_Some (wm_Visited (at_wire a)) ↔ is_Some (m_Visited msg))
  | None => at_wire a = quit
  end.

(** The messages that were sent can come out of their bytes, and
    [MessageReader] gives these back. *)
Abbreviation sound := (λ a : attempt, intact (valid := valid) (at_wire a) (at_bytes a)).

Lemma pack_carries np msg wm bytes : pack np msg = Ok wm → carries (mkAttempt (Some msg) wm bytes).
Proof using.
  unfold pack, carries. destruct (m_Visited msg) as [v|] eqn:E; cbn [at_msg at_wire].
  - intros (visited & _ & [= <-])%bind_Ok_inv. rewrite E. cbn. split; [done|]. split; [done|]. by split.
  - intros [= <-]. rewrite E. cbn. split; [done|]. split; [done|]. by split.
Qed.

(** The messages of the queue among the sends. *)
Definition sources (tried : list attempt) : list Message := omap at_msg tried.

(** The sends are those of the messages that left the queue, and at last the
    one that ends the session. *)
Record sender_ok (l : link) : Prop := {
  so_carries : Forall carries (lk_tried l);
  so_order : ∃ taken, lk_entered l = taken ++ lk_outChan l ∧ sources (lk_tried l) `sublist_of` taken ∧
    (lk_others l = [] → taken = sources (lk_tried l));
  so_last : ∃ pre, Forall (λ a : attempt, is_Some (at_msg a)) pre ∧
    (lk_tried l = pre ∨ (∃ bytes, lk_tried l = pre ++ [mkAttempt None quit bytes]) ∧ lk_sender l = SenderGone);
  so_quit : lk_broken l = false → lk_sender l = SenderGone →
    ∃ bytes, last (lk_tried l) = Some (mkAttempt None quit bytes);
  so_holds : lk_broken l = false → ∀ msg, lk_sender l ≠ PuttingBack msg
}.

Lemma sources_snoc tried a : sources (tried ++ [a]) = sources tried ++ option_list (at_msg a).
Proof using. unfold sources. by rewrite omap_app. Qed.

Lemma sender_ok_taken l msg out wm bytes at_ c sent arrived :
  sender_ok l → lk_outChan l = msg :: out → carries (mkAttempt (Some msg) wm bytes) →
  lk_sender l ≠ SenderGone → (sent = true → ∃ done, at_ = Sending done) → at_ ≠ SenderGone →
  sender_ok (after_send l (mkAttempt (Some msg) wm bytes) out at_ c sent arrived).
Proof using.
  intros [Q1 (taken & Q2 & Q3 & Q4) (pre & Hpre & Q5) Q6 Q7] Hout Hc Hs Hat Hg.
  assert (lk_tried l = pre) as Ht by (destruct Q5 as [?|[_ ?]]; done).
  split; cbn [after_send lk_tried lk_entered lk_outChan lk_others lk_sender lk_broken]; try done.
  - apply Forall_app. split; [done|]. by constructor.
  - exists (taken ++ [msg]). rewrite sources_snoc, Q2, Hout, <-app_assoc. cbn [at_msg option_list app].
    split; [done|]. split; [by apply sublist_app|]. intros Ho. by rewrite Q4.
  - exists (pre ++ [mkAttempt (Some msg) wm bytes]). rewrite Ht. split; [|by left]. apply Forall_app. split; [done|].
    constructor; [by eexists|done].
  - intros [_ Hsent%negb_false_iff]%orb_false_iff. destruct (Hat Hsent) as [d ->]. done.
Qed.

(** What does not touch the sender keeps this. *)
Lemma sender_ok_same l l' :
  sender_ok l → lk_tried l' = lk_tried l → lk_entered l' = lk_entered l → lk_outChan l' = lk_outChan l →
  lk_others l' = lk_others l → lk_sender l' = lk_sender l → (lk_broken l' = false → lk_broken l = false) →
  sender_ok l'.
Proof using.
  intros [Q1 Q2 Q3 Q4 Q5] Et Ee Eo Ers Es Eb. split; rewrite ?Et, ?Ee, ?Eo, ?Ers, ?Es; try done; auto.
Qed.

Lemma sender_ok_step l l' : sender_ok l → link_step l l' → sender_ok l'.
Proof using.
  intros Hok Hs. destruct Hs as [l msg|l msg out Hout|l|l d np msg out wm bytes c Hsnd _ Hout Hp _ _
    |l d np msg out wm bytes c k Hsnd _ Hout Hp _ _|l msg Hsnd _|l d Hsnd _ _|l d bytes c sent k Hsnd _ _ _|l k|l k
    |l to wm|l to wm|l to];
    try (by apply (sender_ok_same l)).
  - case_decide; [|done]. destruct Hok as [Q1 (taken & Q2 & Q3 & Q4) Q5 Q6 Q7]. split; try done.
    exists taken. cbn [with_out lk_entered lk_outChan lk_others lk_tried]. by rewrite Q2, app_assoc.
  - destruct Hok as [Q1 (taken & Q2 & Q3 & Q4) Q5 Q6 Q7]. split; try done.
    exists (taken ++ [msg]). cbn [with_out lk_entered lk_outChan lk_others lk_tried].
    rewrite Q2, Hout, <-app_assoc. split; [done|]. split; [by apply sublist_inserts_r|].
    intros Ho. by destruct (lk_others l).
  - apply sender_ok_taken; [done..| | | |done]; [by eapply pack_carries|by rewrite Hsnd|by eexists].
  - apply sender_ok_taken; [done..| | | |done]; [by eapply pack_carries|by rewrite Hsnd|done].
  - destruct Hok as [Q1 (taken & Q2 & Q3 & Q4) (pre & Hpre & Q5) Q6 Q7].
    assert (lk_broken l = true) as Hb.
    { destruct (lk_broken l) eqn:E; [done|]. by destruct (Q7 eq_refl msg). }
    split; cbn [with_sender with_out lk_entered lk_outChan lk_others lk_tried lk_broken lk_sender]; rewrite ?Hb; try done.
    + exists taken. by rewrite Q2, app_assoc.
    + exists pre. split; [done|]. left. destruct Q5 as [?|[_ ?]]; [done|congruence].
  - destruct Hok as [Q1 Q2 (pre & Hpre & Q5) Q6 Q7].
    split; cbn [with_sender lk_entered lk_outChan lk_others lk_tried lk_broken lk_sender]; try done.
    exists pre. split; [done|]. left. destruct Q5 as [?|[_ ?]]; [done|congruence].
  - destruct Hok as [Q1 (taken & Q2 & Q3 & Q4) (pre & Hpre & Q5) Q6 Q7].
    assert (lk_tried l = pre) as Ht by (destruct Q5 as [?|[_ ?]]; congruence).
    split; cbn [after_send lk_entered lk_outChan lk_others lk_tried lk_broken lk_sender]; try done.
    + apply Forall_app. split; [done|]. by constructor.
    + exists taken. rewrite sources_snoc. cbn [at_msg option_list]. by rewrite app_nil_r.
    + exists pre. rewrite Ht. split; [done|]. right. split; [by eexists|done].
    + intros _ _. exists bytes. apply last_snoc.
Qed.

(** What was received are the first of the sends; what has arrived is made of
    the frames of the next ones, all of them while the connection holds. *)
Definition wire_ok (l : link) : Prop :=
  Forall sound (lk_tried l) →
  if lk_receiving l then
    ∃ pending, Forall (λ p, encodes (L := L) p.1 p.2 ∧ intact (valid := valid) p.1 p.2) pending ∧
      (at_wire <$> lk_tried l) = lk_inbox l ++ pending.*1 ∧ cn_reader (lk_to l) `prefix_of` frames pending ∧
      (lk_broken l = false → cn_reader (lk_to l) = frames pending)
  else lk_inbox l `prefix_of` (at_wire <$> lk_tried l).

Lemma wire_ok_send l a out at_ c sent arrived note :
  wire_ok l →
  Conn.message_bytes zero_op newNetMetaFromJson newVersionCheckMsgContentFromJson print_meta print_content print_ops
    print_visited (lk_from l) (at_wire a) note = Ok (at_bytes a) →
  Conn.sendMessage zero_op newNetMetaFromJson newVersionCheckMsgContentFromJson print_meta print_content print_ops
    print_visited (lk_from l) (at_wire a) note = Ok (c, sent) →
  arrived `prefix_of` new_bytes (lk_from l) c → (sent = true → arrived = new_bytes (lk_from l) c) →
  wire_ok (after_send l a out at_ c sent arrived).
Proof using.
  intros Hok Hbytes Hsend Harr Hsent Hv.
  destruct (sendMessage_new _ _ _ _ _ _ _ _ _ _ _ _ _ Hbytes Hsend) as (Henc & Hpre & Hall).
  cbn [after_send lk_tried] in Hv. apply Forall_app in Hv as [Hv [Ha _]%Forall_cons].
  specialize (Hok Hv). unfold wire_ok. cbn [after_send lk_receiving lk_tried lk_inbox lk_to lk_broken].
  destruct (lk_receiving l).
  2:{ rewrite fmap_app. by apply prefix_app_r. }
  destruct Hok as (pending & HF & Ht & Hp & Hb). exists (pending ++ [(at_wire a, at_bytes a)]).
  split; [apply Forall_app; split; [done|by apply Forall_singleton]|]. split; [by rewrite !fmap_app, Ht, <-app_assoc|].
  rewrite frames_snoc. destruct (lk_broken l); cbn [orb].
  - split; [by apply prefix_app_r|done].
  - cbn [arrive cn_reader]. rewrite (Hb eq_refl). split.
    + apply prefix_app. by trans (new_bytes (lk_from l) c).
    + intros Hs%negb_false_iff. by rewrite Hsent, Hall.
Qed.

Lemma wire_ok_same l l' :
  wire_ok l → lk_tried l' = lk_tried l → lk_inbox l' = lk_inbox l → lk_to l' = lk_to l →
  lk_receiving l' = lk_receiving l → lk_broken l' = lk_broken l → wire_ok l'.
Proof using. intros Hok Et Ei Eto Er Eb. unfold wire_ok. by rewrite Et, Ei, Eto, Er, Eb. Qed.

(** What the receiver takes is the first of what is pending. *)
Lemma wire_ok_receive l to wm note :
  wire_ok l → lk_receiving l = true → receiveMessage (lk_to l) note = Ok (to, Some wm) →
  wire_ok (with_to to true (lk_inbox l ++ [wm]) l).
Proof using All.
  intros Hok Hr Hm Hv. specialize (Hok Hv). rewrite Hr in Hok. destruct Hok as (pending & HF & Ht & Hp & Hb).
  destruct (receive_first _ _ _ _ _ HF Hp Hm) as (bytes & rest & -> & Hp' & Heq).
  apply Forall_cons in HF as [_ HF]. cbn [with_to lk_receiving]. exists rest.
  cbn [with_to lk_tried lk_inbox lk_to lk_broken]. rewrite <-app_assoc. split_and!; [done|exact Ht|done|auto].
Qed.

Lemma wire_ok_stop l to : wire_ok l → lk_receiving l = true → wire_ok (with_to to false (lk_inbox l) l).
Proof using.
  intros Hok Hr Hv. specialize (Hok Hv). rewrite Hr in Hok. destruct Hok as (pending & _ & Ht & _).
  cbn [with_to lk_receiving lk_inbox lk_tried]. rewrite Ht. by apply prefix_app_r.
Qed.

Lemma tried_grows l l' : link_step l l' → lk_tried l `prefix_of` lk_tried l'.
Proof using.
  intros Hs. destruct Hs; try done; try (cbn [after_send lk_tried]; by apply prefix_app_r). by case_decide.
Qed.

Lemma wire_ok_cut l k :
  wire_ok l → wire_ok (mkLink (lk_outChan l) (lk_done l) (lk_sender l) (lk_from l) true (cut_to k (lk_to l))
    (lk_receiving l) (lk_inbox l) (lk_entered l) (lk_tried l) (lk_others l)).
Proof using.
  intros Hok Hv. specialize (Hok Hv). cbn [lk_receiving lk_tried lk_inbox lk_to lk_broken] in *.
  destruct (lk_receiving l); [|done]. destruct Hok as (pending & HF & Ht & Hp & _). exists pending.
  split_and!; [done..| |done]. cbn [cut_to cn_reader]. trans (cn_reader (lk_to l)); [apply prefix_take|done].
Qed.

Lemma wire_ok_step l l' : wire_ok l → link_step l l' → wire_ok l'.
Proof using All.
  intros Hok Hs. destruct Hs as [l msg|l msg out Hout|l|l d np msg out wm bytes c Hsnd _ Hout Hp Hbt Hm
    |l d np msg out wm bytes c k Hsnd _ Hout Hp Hbt Hm|l msg Hsnd _|l d Hsnd _ _|l d bytes c sent k Hsnd _ Hbt Hm|l k|l k
    |l to wm Hr Hm|l to wm Hr _|l to Hr _ _];
    try (by apply (wire_ok_same l)).
  - case_decide; [|done]. by apply (wire_ok_same l).
  - by eapply wire_ok_send.
  - eapply wire_ok_send; [done..| |done]. apply prefix_take.
  - eapply wire_ok_send; [done..| |]; destruct sent; try done. apply prefix_take.
  - by apply wire_ok_cut.
  - by apply wire_ok_cut.
  - by eapply wire_ok_receive.
  - by apply wire_ok_stop.
  - by apply wire_ok_stop.
Qed.

Lemma link_ok out from to l :
  cn_reader to = [] → rtc link_step (new_link out from to) l → sender_ok l ∧ wire_ok l.
Proof using All.
  intros Hto Hr. assert (sender_ok (new_link out from to) ∧ wire_ok (new_link out from to)) as H0'.
  { split.
    - split; cbn; try done.
      + by exists [].
      + exists []. split; [done|by left].
    - intros _. cbn. exists []. rewrite Hto. split_and!; [done..|apply prefix_nil|done]. }
  induction Hr as [|l1 l2 l3 Hstep _ IH]; [done|]. destruct H0' as [H1' H2']. apply IH.
  split; [by eapply sender_ok_step|by eapply wire_ok_step].
Qed.

Lemma frames_nil pending : frames pending = [] → pending = [].
Proof using.
  destruct pending as [|[wm bytes] pending]; [done|]. unfold frames. cbn [fmap list_fmap concat snd].
  intros [E _]%app_nil. by destruct (frame_nonempty bytes).
Qed.

(** C31: A connection delivers in order, as long as the bytes that GoVector
    makes of the messages are neither empty nor end with a newline (the reader
    does not give such bytes back). What the other side received are the
    first of the messages that the thread sent, unchanged and each once; those
    are the messages of the queue, in the order in which they entered it, and
    all of them up to those still queued when no older thread of the node took
    some. When the session has ended, nothing broke and everything that arrived
    was read, the other side has all of them and at last the message that this
    session has left. *)
Theorem link_is_fifo out from to l :
  cn_reader to = [] → rtc link_step (new_link out from to) l →
  Forall (λ a : attempt, intact (valid := valid) (at_wire a) (at_bytes a)) (lk_tried l) →
  lk_inbox l `prefix_of` (at_wire <$> lk_tried l) ∧ Forall carries (lk_tried l) ∧
  sources (lk_tried l) `sublist_of` lk_entered l ∧
  (lk_others l = [] → lk_entered l = sources (lk_tried l) ++ lk_outChan l) ∧
  (lk_broken l = false → lk_sender l = SenderGone → lk_receiving l = true → cn_reader (lk_to l) = [] →
     lk_inbox l = (at_wire <$> lk_tried l) ∧ ∃ bytes, last (lk_tried l) = Some (mkAttempt None quit bytes)).
Proof using All.
  intros Hto Hr Hv. destruct (link_ok out from to l Hto Hr) as [[Q1 (taken & Q2 & Q3 & Q4) _ Q5 _] Hw].
  specialize (Hw Hv). split_and!; [|done|..].
  - destruct (lk_receiving l); [|done]. destruct Hw as (pending & _ & -> & _). by apply prefix_app_r.
  - rewrite Q2. by apply sublist_inserts_r.
  - intros Ho. by rewrite Q2, (Q4 Ho).
  - intros Hb Hg Hrec Hread. split; [|by apply Q5]. rewrite Hrec in Hw.
    destruct Hw as (pending & _ & -> & _ & Heq). rewrite (Heq Hb) in Hread. apply frames_nil in Hread as ->.
    by rewrite app_nil_r.
Qed.

(** ** The end of a session *)

Abbreviation sendMessage := (Conn.sendMessage (L := L) zero_op newNetMetaFromJson newVersionCheckMsgContentFromJson
  print_meta print_content print_ops print_visited).

Definition unlimited (c : conn (L := L)) : Prop := w_budget (cn_writer c) = None.

(** A send works while the connection does. *)
Lemma sendMessage_works c wm note : unlimited c → ∃ c', sendMessage c wm note = Ok (c', true) ∧ unlimited c'.
Proof using.
  unfold unlimited. intros Hc. unfold Conn.sendMessage.
  destruct (parseMessageHelper_ok zero_op newNetMetaFromJson newVersionCheckMsgContentFromJson print_meta
    print_content print_ops print_visited wm) as [p Hp]. rewrite Hp, bind_Ok.
  unfold send_value. destruct (PrepareSend _ _ _) as [logger bytes].
  destruct (cn_writer c) as [data budget]. cbn in Hc. subst budget. by eexists.
Qed.

Lemma sendMessage_unlimited c wm note c' ok :
  unlimited c → sendMessage c wm note = Ok (c', ok) → ok = true ∧ unlimited c'.
Proof using.
  intros Hc Hs. destruct (sendMessage_works c wm note Hc) as (c1 & Hs1 & Hc1).
  rewrite Hs1 in Hs. by injection Hs as <- <-.
Qed.

(** The two threads go on: nothing new is put on the queue, no other thread
    takes from it, and nothing breaks. *)
Inductive drain_step (l l' : link) : Prop :=
  | drains :
      link_step l l' → l' ≠ l → lk_entered l' = lk_entered l → lk_others l' = lk_others l →
      lk_broken l' = false → lk_receiving l' = true → drain_step l l'.

(** A bound on the steps that are left. *)
Definition todo (l : link) : nat :=
  2 * length (lk_outChan l) + match lk_sender l with Sending false => 3 | Sending true => 2 | _ => 0 end +
  (length (lk_tried l) - length (lk_inbox l)).

(** What the sender has done since [l0], when the session had ended. *)
Definition has_sent (l0 l : link) : Prop :=
  ∃ taken sent, lk_outChan l0 = taken ++ lk_outChan l ∧ at_msg <$> sent = Some <$> taken ∧
    ((∃ d, lk_sender l = Sending d) ∧ lk_tried l = lk_tried l0 ++ sent ∨
     lk_sender l = SenderGone ∧ lk_outChan l = [] ∧
       ∃ bytes, lk_tried l = lk_tried l0 ++ sent ++ [mkAttempt None quit bytes]).

Record draining (l0 l : link) : Prop := {
  dr_done : lk_done l = true;
  dr_broken : lk_broken l = false;
  dr_receiving : lk_receiving l = true;
  dr_works : unlimited (lk_from l);
  dr_sent : has_sent l0 l
}.

Lemma has_sent_same l0 l l' :
  has_sent l0 l → lk_outChan l' = lk_outChan l → lk_tried l' = lk_tried l →
  (lk_sender l' = lk_sender l ∨ (∃ d, lk_sender l = Sending d) ∧ ∃ d, lk_sender l' = Sending d) → has_sent l0 l'.
Proof using.
  intros (taken & sent & Hout & Hs & Hat) Eo Et Es. exists taken, sent. rewrite Eo, Et. split; [done|]. split; [done|].
  destruct Es as [Es|[[d Ed] Es]]; [by rewrite Es|]. left. split; [done|]. destruct Hat as [[_ Hat]|[Hat _]]; [done|congruence].
Qed.

(** What this thread sends is the head of the queue. *)
Lemma has_sent_send l0 l d msg out wm bytes c arrived :
  has_sent l0 l → lk_sender l = Sending d → lk_outChan l = msg :: out →
  has_sent l0 (after_send l (mkAttempt (Some msg) wm bytes) out (Sending d) c true arrived).
Proof using.
  intros (taken & sent & Hout & Hs & Hat) Hd Eo. destruct Hat as [[_ Ht]|[Hat _]]; [|congruence].
  exists (taken ++ [msg]), (sent ++ [mkAttempt (Some msg) wm bytes]). cbn [after_send lk_outChan lk_sender lk_tried].
  split; [by rewrite Hout, Eo, <-app_assoc|]. split; [by rewrite !fmap_app, Hs|]. left. split; [by eexists|].
  by rewrite Ht, app_assoc.
Qed.

Lemma has_sent_quit l0 l d bytes c arrived :
  has_sent l0 l → lk_sender l = Sending d → lk_outChan l = [] →
  has_sent l0 (after_send l (mkAttempt None quit bytes) (lk_outChan l) SenderGone c true arrived).
Proof using.
  intros (taken & sent & Hout & Hs & Hat) Hd Eo. destruct Hat as [[_ Ht]|[Hat _]]; [|congruence].
  exists taken, sent. cbn [after_send lk_outChan lk_sender lk_tried]. split; [done|]. split; [done|]. right.
  split_and!; [done..|]. exists bytes. by rewrite Ht, app_assoc.
Qed.

Lemma goes_on_false d out : sender_goes_on d out = false → d = true ∧ out = [].
Proof using.
  unfold sender_goes_on. intros [Hd%negb_false_iff Ho%Z.ltb_ge]%orb_false_iff. split; [done|].
  destruct out; [done|]. unfold zlen in Ho. cbn in Ho. lia.
Qed.

(** Each step of the threads keeps this, sends or receives, and leaves less to
    do, as what was sent can be received. *)
Lemma drain_keeps l0 l l' :
  draining l0 l → wire_ok l' → Forall sound (lk_tried l') → drain_step l l' →
  draining l0 l' ∧ (todo l' < todo l)%nat.
Proof using.
  intros [D1 D2 D3 D4 D5] Hw Hv [Hs Hne He Ho Hb Hr].
  assert (length (lk_inbox l') ≤ length (lk_tried l'))%nat as Hin.
  { specialize (Hw Hv). rewrite Hr in Hw. destruct Hw as (pending & _ & Et & _).
    apply (f_equal length) in Et. rewrite length_fmap, length_app in Et. lia. }
  clear Hw Hv. unfold todo. destruct Hs as [l msg|l msg out Hout|l|l d np msg out wm bytes c Hsnd _ Hout Hp _ Hm
    |l d np msg out wm bytes c k Hsnd _ Hout Hp _ Hm|l msg Hsnd _|l d Hsnd _ _|l d bytes c sent k Hsnd Hg _ Hm|l k|l k
    |l to wm _ _|l to wm _ _|l to _ _ _]; try done.
  - case_decide; [|done]. cbn [with_out lk_entered] in He. apply (f_equal length) in He.
    rewrite length_app in He. cbn in He. lia.
  - cbn [with_out lk_others] in Ho. apply (f_equal length) in Ho. rewrite length_app in Ho. cbn in Ho. lia.
  - destruct Hne. destruct l. cbn in *. by subst.
  - destruct (sendMessage_unlimited _ _ _ _ _ D4 Hm) as [_ D4']. split.
    + split; try done. by apply has_sent_send.
    + cbn [after_send lk_outChan lk_sender lk_tried lk_inbox] in *. rewrite Hsnd, Hout, length_app in *. cbn [length] in *.
      destruct d; lia.
  - cbn [after_send lk_broken] in Hb. by rewrite D2 in Hb.
  - cbn [with_sender with_out lk_entered] in He. apply (f_equal length) in He. rewrite length_app in He. cbn in He. lia.
  - destruct d; [destruct Hne; destruct l; cbn in *; by subst|]. split.
    + split; try done. apply (has_sent_same l0 l); try done. right. by split; eexists.
    + cbn [with_sender lk_outChan lk_sender lk_tried lk_inbox]. rewrite Hsnd. lia.
  - destruct (sendMessage_unlimited _ _ _ _ _ D4 Hm) as [-> D4']. destruct (goes_on_false _ _ Hg) as [-> Hout].
    split.
    + split; try done. by apply (has_sent_quit l0 l true).
    + cbn [after_send lk_outChan lk_sender lk_tried lk_inbox] in *. rewrite Hsnd, Hout, length_app in *. cbn [length] in *.
      lia.
  - split.
    + split; try done.
    + cbn [with_to lk_outChan lk_sender lk_tried lk_inbox] in *. rewrite length_app in *. cbn [length] in *. lia.
Qed.

(** Every message can be packed: with the set of visited nodes it points to. *)
Lemma pack_works (msg : Message) : ∃ np wm, pack np msg = Ok wm.
Proof using.
  unfold pack. destruct (m_Visited msg) as [v|] eqn:E.
  - exists (mkPool ∅ ∅ ∅ {[v := ∅]} [] 0). cbn [np_visited]. rewrite lookup_singleton_eq. by eexists.
  - exists newNodePool. by eexists.
Qed.

(** The threads are done, or there is a step left. *)
Lemma drain_progress l0 l :
  draining l0 l → wire_ok l → Forall sound (lk_tried l) →
  (∃ l', drain_step l l') ∨
  lk_sender l = SenderGone ∧ lk_outChan l = [] ∧ lk_inbox l = (at_wire <$> lk_tried l).
Proof using GoLogLaws0.
  intros [D1 D2 D3 D4 (taken & sent & _ & _ & D5)] Hw Hv.
  assert (∀ d, lk_sender l = Sending d → ∃ l', drain_step l l') as Hsending.
  { intros d Hd. destruct d.
    - destruct (lk_outChan l) as [|msg out] eqn:Ho.
      + destruct (sendMessage_works (lk_from l) quit (txt "sendThread newNetMetaUpdateMsg") D4) as (c & Hc & _).
        destruct (message_bytes_ok zero_op newNetMetaFromJson newVersionCheckMsgContentFromJson print_meta print_content
          print_ops print_visited (lk_from l) quit (txt "sendThread newNetMetaUpdateMsg")) as [bytes Hbytes].
        eexists. apply drains; [eapply (link_quit _ _ _ _ _ _ _ _ s l true bytes c true 0); try done; by rewrite Ho|..];
          try done; [|cbn; by rewrite D2].
        intros E. apply (f_equal lk_sender) in E. cbn in E. congruence.
      + destruct (pack_works msg) as (np & wm & Hp).
        destruct (sendMessage_works (lk_from l) wm (txt "sendThread outChan msg") D4) as (c & Hc & _).
        destruct (message_bytes_ok zero_op newNetMetaFromJson newVersionCheckMsgContentFromJson print_meta print_content
          print_ops print_visited (lk_from l) wm (txt "sendThread outChan msg")) as [bytes Hbytes].
        eexists. apply drains; [eapply (link_send _ _ _ _ _ _ _ _ s l true np msg out wm bytes c); try done; by rewrite Ho|..];
          try done; [|cbn; by rewrite D2].
        intros E. apply (f_equal lk_outChan) in E. cbn [after_send lk_outChan] in E. rewrite Ho in E.
        apply (f_equal length) in E. cbn in E. lia.
    - exists (with_sender (Sending true) l). apply drains; try done; [by eapply link_done|].
      intros E. apply (f_equal lk_sender) in E. cbn in E. congruence. }
  destruct D5 as [[[d Hd] _]|(Hg & Ho & _)]; [left; by eapply Hsending|].
  specialize (Hw Hv). rewrite D3 in Hw. destruct Hw as (pending & HF & Ht & _ & Hread). specialize (Hread D2).
  destruct pending as [|[wm bytes] pending]; [right; split_and!; try done; by rewrite Ht, app_nil_r|left].
  apply Forall_cons in HF as [[(lg & n & Hb) (Hvm & Hf & Hmem)] _]. cbn [fst snd] in *. subst bytes.
  destruct (receiveMessage_frame (lk_to l) lg n wm (txt "receiveThread msg") (frames pending) Hvm Hf Hmem) as [logger Hm];
    [by rewrite Hread|].
  eexists. apply drains; [by eapply link_receive|..]; try done.
  intros E. apply (f_equal lk_inbox) in E. cbn [with_to lk_inbox] in E. apply (f_equal length) in E.
  rewrite length_app in E. cbn in E. lia.
Qed.

End Props.

(** ** The theorems at a concrete connection *)

Definition sample_session : session := mkSession (txt "a") (txt "h:1") false.
Definition sample_note : Message := mkMessage MSG_TYPE_NET_META_UPDATE None (txt "{}").
Definition sample_end : conn (L := nat) := newConnWrapper 0%nat [] None.
Definition sample_wire : wire_message := mkWire MSG_TYPE_NET_META_UPDATE None (txt "{}").
Definition sample_zero_op : RemoteOperation := mkRemoteOperation ∅ [] 0 (mkOperation NO_OPERATION [] 0 [] 0 x00).

(** Whether the bytes of a message fit in memory, by computation. *)
Lemma in_memory_check (s : list byte) : (zlen s <? 2 ^ 63) = true → in_memory s.
Proof. apply Z.ltb_lt. Qed.

Section Witness.
#[local] Existing Instance binary_log.
#[local] Existing Instance binary_log_laws.
#[local] Instance sample_json : Json (list RemoteOperationJson) := {|
  Marshal _ := []; Unmarshal _ := ([], true)
|}.

Abbreviation sample_step := (link_step (L := nat) sample_zero_op (λ _, None) (λ _, txt "{}") (λ _, None)
  (λ _, []) (λ _, []) (λ _, []) (λ _, []) sample_session).

Lemma sample_wire_intact : intact (valid := λ _, True) sample_wire (bits (encode sample_wire)).
Proof. split; [done|]. split; [apply bits_framable|]. apply in_memory_check. vm_compute. reflexivity. Qed.

(** The state after the first message is sent. *)
Lemma sample_sends :
  ∃ l, sample_step (new_link [sample_note; sample_note] sample_end sample_end) l ∧
    lk_tried l = [mkAttempt (Some sample_note) sample_wire (bits (encode sample_wire))] ∧
    lk_sender l = Sending false ∧ lk_broken l = false ∧ lk_receiving l = true ∧ unlimited (lk_from l) ∧
    lk_outChan l = [sample_note] ∧ lk_done l = false ∧ lk_inbox l = [] ∧ lk_others l = [] ∧
    lk_entered l = [sample_note; sample_note].
Proof.
  destruct (sendMessage_works (L := nat) sample_zero_op (λ _, None) (λ _, None) (λ _, []) (λ _, []) (λ _, []) (λ _, [])
    sample_end sample_wire (txt "sendThread outChan msg") eq_refl) as (c & Hc & Hu).
  eexists. split.
  - exact (link_send sample_zero_op (λ _, None) (λ _, txt "{}") (λ _, None) (λ _, []) (λ _, []) (λ _, []) (λ _, [])
      sample_session (new_link [sample_note; sample_note] sample_end sample_end) false newNodePool sample_note [sample_note]
      sample_wire (bits (encode sample_wire)) c eq_refl eq_refl eq_refl eq_refl eq_refl Hc).
  - split_and!; try reflexivity. exact Hu.
Qed.

Lemma link_is_fifo_witness :
  ∃ l, rtc sample_step (new_link [sample_note; sample_note] sample_end sample_end) l ∧
    sources (lk_tried l) = [sample_note] ∧ lk_inbox l `prefix_of` (at_wire <$> lk_tried l).
Proof.
  destruct sample_sends as (l & Hstep & Ht & _).
  exists l. split; [exact (rtc_once _ _ Hstep)|]. split; [rewrite Ht; reflexivity|].
  apply (link_is_fifo (valid := λ _, True) sample_zero_op (λ _, None) (λ _, txt "{}") (λ _, None) (λ _, []) (λ _, [])
    (λ _, []) (λ _, []) sample_session [sample_note; sample_note] sample_end sample_end l eq_refl (rtc_once _ _ Hstep)).
  rewrite Ht. apply Forall_singleton. exact sample_wire_intact.
Defined.

Abbreviation sample_drain := (drain_step (L := nat) sample_zero_op (λ _, None) (λ _, txt "{}") (λ _, None)
  (λ _, []) (λ _, []) (λ _, []) (λ _, []) sample_session).

End Witness.
