(* ===== verification/Manager.v ===== *)
(** Connecting to an address and starting up: the operations of the network
    manager that talk to the network
    (CPSC418/project/network/network.go). *)
From Stdlib Require Import Strings.String.
From S2P Require Import Prelude NetMeta NodePool Session Handshake.

Open Scope Z_scope.

(** One side of a dialogue: [works] of its operations succeed, and
    [incoming] is what arrives before the connection ends. *)
Fixpoint perform {A} (p : proc A) (works : nat) (incoming : list wire) : A :=
  match p with
  | Ret a => a
  | WriteMsg m k =>
      match works with
      | O => perform (k false) 0 incoming
      | S works => perform (k true) works incoming
      end
  | ReadMsg k =>
      match works, incoming with
      | S works, m :: incoming => perform (k (Some m)) works incoming
      | _, _ => perform (k None) 0 incoming
      end
  end.

(** What the network does in one call: the uuid of a new session; whether
    listening and dialing succeed; the operations of the connection; the text
    of an error. *)
Record outside : Type := mkOutside {
  out_id : str;
  out_listens : bool;
  out_dials : bool;
  out_works : nat;
  out_incoming : list wire;
  out_error : str
}.

(** Errors are texts. *)
Definition error_text (o : outside) (e : net_error) : str :=
  match e with
  | ErrAlreadyConnected => txt "network: already connected"
  | ErrAlreadyDisconnected => txt "network: already disconnected"
  | ErrListen => out_error o
  end.

Definition partially_connected : str :=
  txt "Partially connected: unable to send message to requested node, but was able to receive information.".

Section Manager.
Context (order : pool_order) (netMeta_toJson : NetMeta → list byte).

(** The manager, the threads that were started, the messages put on
    [msgChan], and the error. *)
Definition NetworkManager_ConnectTo (o : outside) (nm : NetworkManager)
    : res (NetworkManager * list thread * list Message * option str) :=
  '(nm, ts, err) ←
    match nm_session nm with
    | None => startNewSessionOnNetworkManager order (out_id o) (out_listens o) nm
    | Some _ => Ok (nm, [], None)
    end;
  match err with
  | Some err => Ok (nm, ts, [], Some (error_text o err))
  | None =>
      if negb (out_dials o) then Ok (nm, ts, [], Some (out_error o))
      else
        let latestNetMeta := getLatestNetMeta (nm_pool nm) in
        let '(err, incoming) := perform (Handshake.ConnectTo latestNetMeta) (out_works o) (out_incoming o) in
        let '(np, msgs) :=
          match incoming with
          | delta :: _ =>
              let '(np, msg) := newNetMetaUpdateMsg netMeta_toJson (nm_pool nm) (nm_id nm) delta in (np, [msg])
          | [] => (nm_pool nm, [])
          end in
        Ok (mkManager (nm_id nm) (nm_publicAddr nm) np (nm_session nm), ts, msgs,
            match err with
            | NoError => None
            | ConnError => Some (out_error o)
            | PartiallyConnected => Some partially_connected
            end)
  end.

(** [None] is an error, with no manager. *)
Definition NewNetworkManager (o : outside) (publicAddr : str) : res (option (NetworkManager * list thread)) :=
  let manager := mkManager [] publicAddr newNodePool None in
  '(manager, ts, err) ← startNewSessionOnNetworkManager order (out_id o) (out_listens o) manager;
  Ok (match err with Some _ => None | None => Some (manager, ts) end).

Definition GetCurrentId (nm : NetworkManager) : str := nm_id nm.
End Manager.
