(* ===== verification/Threads.v ===== *)
(** The loops of the network threads: those that poke and connect, and the one
    that serves the incoming messages
    (CPSC418/project/network/nodethread.go and session.go). *)
From Stdlib Require Import Strings.String.
From S2P Require Import Prelude NetMeta NodePool Session Handshake Manager.

Open Scope Z_scope.

(** ** Trying again *)

(** [time.Duration] is an [int64] of nanoseconds. *)
Definition Second : Z := 1000000000.
Definition wrap_int64 (z : Z) : Z := (z + 2 ^ 63) `mod` 2 ^ 64 - 2 ^ 63.

Section Attempts.
(** The encoded version check, if there is one. *)
Context (vc : option (list byte)).

(** [poke]: whether it succeeded, and the updates put on [msgChan]. *)
Definition session_poke (o : outside) (s : session) (id addr : str) : bool * list NetMeta :=
  if negb (out_dials o) then (false, [])
  else perform (Handshake.poke s id addr) (out_works o) (out_incoming o).

(** [connect]: the node takes the connection [c] before the dialogue. The
    deferred [close] saw the [err] of before the dialogue, which is nil: it
    never runs. The result is whether connect succeeded, whether the threads
    of the connection were started, and the updates put on [msgChan]. *)
Definition session_connect (o : outside) (s : session) (np : nodePool) (l c : loc)
    : res (nodePool * bool * bool * list NetMeta) :=
  n ← pool_node np l;
  if negb (out_dials o) then Ok (np, false, false, [])
  else
    let n := mkNode (n_state n) (n_id n) (n_addr n) (n_outChan n) (Some c) in
    let np := set_node l n np in
    let '(ok, established, updates) :=
      perform (Handshake.connect s vc (n_id n) (n_addr n)) (out_works o) (out_incoming o) in
    if (established : bool) then
      '(np, started) ← setState np l nodeStateConnected;
      Ok (np, ok, started, updates)
    else if (ok : bool) then np ← close np n; Ok (np, ok, false, updates)
    else Ok (np, ok, false, updates).

(** A turn of the loop of [pokeThread]: the updates, and how long it sleeps
    before the next one, or [None] when it returns. *)
Definition pokeThread_turn (o : outside) (s : session) (np : nodePool) (l : loc) (interval : Z)
    : res (list NetMeta * option Z) :=
  n ← pool_node np l;
  if ended s || bool_decide (n_state n ≠ nodeStateDisconnected) then Ok ([], None)
  else
    let '(ok, updates) := session_poke o s (n_id n) (n_addr n) in
    if (ok : bool) then Ok (updates, None) else Ok (updates, Some (wrap_int64 (interval + Second))).

Definition connectThread_turn (o : outside) (s : session) (np : nodePool) (l c : loc) (interval : Z)
    : res (nodePool * bool * list NetMeta * option Z) :=
  n ← pool_node np l;
  if ended s || bool_decide (n_state n ≠ nodeStateDisconnected) then Ok (np, false, [], None)
  else
    '(np, ok, started, updates) ← session_connect o s np l c;
    if (ok : bool) then Ok (np, started, updates, None)
    else Ok (np, started, updates, Some (wrap_int64 (interval + Second))).
End Attempts.

(** The thread over what it finds at each turn: the network, the session and
    the pool. The result is the updates, how long it slept each time, and
    whether it has returned. *)
Fixpoint pokeThread (l : loc) (interval : Z) (turns : list (outside * session * nodePool))
    : res (list NetMeta * list Z * bool) :=
  match turns with
  | [] => Ok ([], [], false)
  | (o, s, np) :: turns =>
      '(updates, next) ← pokeThread_turn o s np l interval;
      match next with
      | None => Ok (updates, [], true)
      | Some interval =>
          '(more, sleeps, returned) ← pokeThread l interval turns;
          Ok (updates ++ more, interval :: sleeps, returned)
      end
  end.

(** A turn that fails: the node is still wanted, and not reached. *)
Definition poke_fails (l : loc) (turn : outside * session * nodePool) : Prop :=
  let '(o, s, np) := turn in
  ∃ n, np_nodes np !! l = Some n ∧ ended s = false ∧ n_state n = nodeStateDisconnected ∧
    session_poke o s (n_id n) (n_addr n) = (false, []).

(** A turn that is the last: there is nothing more to do, or the poke works. *)
Definition poke_ends (l : loc) (turn : outside * session * nodePool) (updates : list NetMeta) : Prop :=
  let '(o, s, np) := turn in
  ∃ n, np_nodes np !! l = Some n ∧
    ((ended s = true ∨ n_state n ≠ nodeStateDisconnected) ∧ updates = [] ∨
     ended s = false ∧ n_state n = nodeStateDisconnected ∧
       session_poke o s (n_id n) (n_addr n) = (true, updates)).

Lemma poke_fails_turn l interval o s np :
  poke_fails l (o, s, np) → pokeThread_turn o s np l interval = Ok ([], Some (wrap_int64 (interval + Second))).
Proof.
  intros (n & Hn & He & Hd & Hp). unfold pokeThread_turn, pool_node. rewrite Hn, require_Some, bind_Ok, He.
  rewrite bool_decide_eq_false_2 by (intros Hne; by apply Hne). cbn [orb]. by rewrite Hp.
Qed.

Lemma poke_ends_turn l interval o s np updates :
  poke_ends l (o, s, np) updates → pokeThread_turn o s np l interval = Ok (updates, None).
Proof.
  intros (n & Hn & H). unfold pokeThread_turn, pool_node. rewrite Hn, require_Some, bind_Ok.
  destruct H as [[H ->]|(He & Hd & Hp)].
  - replace (ended s || _) with true; [done|]. destruct H as [->|H]; [done|].
    by rewrite bool_decide_eq_true_2, orb_true_r.
  - rewrite He, bool_decide_eq_false_2 by (intros Hne; by apply Hne). cbn [orb]. by rewrite Hp.
Qed.

(** The pauses of [n] turns that fail, after [k] of them. *)
Definition pauses (k n : nat) : list Z := (λ i, Z.of_nat (S i) * Second) <$> seq k n.

(** A thread that pokes backs off. While the node is wanted and not
    reached it tries again, after one second, then two, and so on; the pauses
    do not overflow in nine billion turns. It returns at the
    first turn at which the session has ended, the node is not disconnected,
    or the poke succeeds, with the updates of that turn. *)
Theorem pokeThread_backs_off l fails turn rest updates :
  Forall (poke_fails l) fails → poke_ends l turn updates → Z.of_nat (length fails) < 9223372036 →
  pokeThread l 0 (fails ++ turn :: rest) = Ok (updates, pauses 0 (length fails), true) ∧
  pokeThread l 0 fails = Ok ([], pauses 0 (length fails), false).
Proof.
  intros HF HE Hlen.
  assert (∀ k, Z.of_nat k + Z.of_nat (length fails) < 9223372036 →
    pokeThread l (Z.of_nat k * Second) (fails ++ turn :: rest) = Ok (updates, pauses k (length fails), true) ∧
    pokeThread l (Z.of_nat k * Second) fails = Ok ([], pauses k (length fails), false)) as H.
  { clear Hlen. induction HF as [|[[o s] np] fails Hf _ IH]; intros k Hk.
    - split; [|done]. destruct turn as [[o s] np]. cbn [app pokeThread].
      by rewrite (poke_ends_turn _ _ _ _ _ _ HE).
    - cbn [app pokeThread length] in *. rewrite (poke_fails_turn _ _ _ _ _ Hf), !bind_Ok.
      assert (wrap_int64 (Z.of_nat k * Second + Second) = Z.of_nat (S k) * Second) as ->.
      { unfold wrap_int64, Second in *. rewrite Z.mod_small; lia. }
      destruct (IH (S k)) as [E1 E2]; [lia|]. by rewrite E1, E2. }
  apply (H 0%nat). lia.
Qed.

Definition sample_pool : nodePool :=
  mkPool ∅ ∅ {[0%nat := mkNode nodeStateDisconnected (txt "b") (txt "h:2") [] None]} ∅ [] 1.
Definition unreachable : outside := mkOutside [] true false 0 [] (txt "connection refused").
Definition other_id : outside := mkOutside [] true true 6 [Text (txt "false")] [].
Definition poking : session := mkSession (txt "a") (txt "h:1") false.

Lemma pokeThread_backs_off_witness :
  pokeThread 0 0 ([(unreachable, poking, sample_pool); (unreachable, poking, sample_pool)] ++
    (other_id, poking, sample_pool) :: []) = Ok ([newQuitNetMeta (txt "b") (txt "h:2")], [Second; 2 * Second], true).
Proof.
  apply (pokeThread_backs_off 0%nat [(unreachable, poking, sample_pool); (unreachable, poking, sample_pool)]
    (other_id, poking, sample_pool) []).
  - repeat constructor; exists (mkNode nodeStateDisconnected (txt "b") (txt "h:2") [] None); split_and!; reflexivity.
  - exists (mkNode nodeStateDisconnected (txt "b") (txt "h:2") [] None). split; [reflexivity|]. right.
    split_and!; reflexivity.
  - reflexivity.
Defined.

(** ** Connecting *)

(** An attempt to connect changes nothing but the connection of the node and
    its state; when it succeeds either the threads of the connection run and
    the node is connected, or the node has left or the session has ended, or
    the site at that address has another id and this one is recorded as left. *)
Lemma session_connect_effect vc o s np l c n :
  np_nodes np !! l = Some n → ∃ np' ok started updates n',
    session_connect vc o s np l c = Ok (np', ok, started, updates) ∧
    np_nodes np' = <[l := n']> (np_nodes np) ∧ n_id n' = n_id n ∧ n_addr n' = n_addr n ∧ n_outChan n' = n_outChan n ∧
    (ok = false → n_state n' = n_state n ∧ started = false ∧ updates = []) ∧
    (ok = true → n_conn n' = Some c ∧
       (updates = [] ∧ (n_state n', started) = next_state (n_state n) nodeStateConnected ∨
        updates = [newQuitNetMeta (n_id n) (n_addr n)] ∧ n_state n' = n_state n ∧ started = false ∧
          np_closed np' = np_closed np ++ [c])).
Proof.
  intros Hn. unfold session_connect, pool_node. rewrite Hn, require_Some, bind_Ok.
  destruct (out_dials o); cbn [negb].
  2:{ exists np, false, false, [], n. rewrite insert_id by done. by split_and!. }
  cbn [n_id n_addr]. set (n1 := mkNode _ _ _ _ (Some c)).
  assert (∃ ok established updates,
    perform (Handshake.connect s vc (n_id n) (n_addr n)) (out_works o) (out_incoming o) = (ok, established, updates) ∧
    (established = true → ok = true ∧ updates = []) ∧
    (ok = false → updates = []) ∧
    (ok = true → established = false → updates = [newQuitNetMeta (n_id n) (n_addr n)])) as
    (ok & established & updates & -> & H1 & H2 & H3).
  { unfold Handshake.connect, try_write, try_read.
    destruct (out_works o) as [|[|[|[|[|[|w]]]]]]; destruct (out_incoming o) as [|m ms]; cbn [perform];
      repeat case_decide; try destruct vc; cbn [perform]; do 3 eexists; split_and!; try done. }
  destruct established.
  - destruct (H1 eq_refl) as [-> ->]. unfold setState, pool_node. cbn [set_node np_nodes].
    rewrite lookup_insert_eq, require_Some, bind_Ok. cbn [n_state n1].
    destruct (next_state (n_state n) nodeStateConnected) as [st started] eqn:E. rewrite bind_Ok.
    exists (set_node l (with_state st n1) (set_node l n1 np)), true, started, [], (with_state st n1).
    split_and!; try done; cbn [set_node np_nodes]; [by rewrite insert_insert_eq|].
    intros _. split; [done|]. by left.
  - destruct ok.
    + rewrite (H3 eq_refl eq_refl). unfold close. cbn [n1 n_conn]. rewrite require_Some, !bind_Ok.
      do 5 eexists. split_and!; [reflexivity|reflexivity|..]; try done. intros _. split; [done|]. by right.
    + rewrite (H2 eq_refl). do 5 eexists. split_and!; [reflexivity|reflexivity|..]; done.
Qed.

(** ** Serving the incoming messages *)

Section Serve.
Context (range : range_order) (order : pool_order) (netMeta_toJson : NetMeta → list byte).
Context (newNetMetaFromJson : list byte → option NetMeta).
Context (newVersionCheckMsgContentFromJson : list byte → option VersionCheckMsgContent).

(** The size of [msgChan]. *)
Definition msgChanSize : nat := 30.

(** The thread of [serveIncomingMessages] with its variable [done]; [sv_ended]
    is whether [s.done] was closed. The last two fields are the history: what
    was put on [msgChan], and what was handled. *)
Record server : Type := mkServer {
  sv_done : bool;
  sv_ended : bool;
  sv_msgChan : list Message;
  sv_pool : nodePool;
  sv_threads : list thread;
  sv_arrived : list Message;
  sv_handled : list Message
}.

(** [!done || len(s.manager.msgChan) > 0] *)
Definition server_goes_on (sv : server) : bool := negb (sv_done sv) || (0 <? zlen (sv_msgChan sv)).

Definition new_server (np : nodePool) (chan : list Message) : server := mkServer false false chan np [] chan [].

Inductive serve_step (s : session) : server → server → Prop :=
  | serve_takes sv set handler msg rest np ts :
      server_goes_on sv = true → sv_msgChan sv = msg :: rest →
      serve_message range order netMeta_toJson newNetMetaFromJson newVersionCheckMsgContentFromJson set handler
        s (sv_pool sv) msg = Ok (np, ts) →
      serve_step s sv (mkServer (sv_done sv) (sv_ended sv) rest np (sv_threads sv ++ ts) (sv_arrived sv)
        (sv_handled sv ++ [msg]))
  | serve_sees_done sv :
      server_goes_on sv = true → sv_ended sv = true →
      serve_step s sv (mkServer true (sv_ended sv) (sv_msgChan sv) (sv_pool sv) (sv_threads sv) (sv_arrived sv)
        (sv_handled sv))
  (** Other threads put a message on the channel, end the session, or change
      the pool. *)
  | serve_arrives sv msg :
      (length (sv_msgChan sv) < msgChanSize)%nat →
      serve_step s sv (mkServer (sv_done sv) (sv_ended sv) (sv_msgChan sv ++ [msg]) (sv_pool sv) (sv_threads sv)
        (sv_arrived sv ++ [msg]) (sv_handled sv))
  | serve_ends sv np :
      serve_step s sv (mkServer (sv_done sv) true (sv_msgChan sv) np (sv_threads sv) (sv_arrived sv) (sv_handled sv))
  | serve_pool sv np :
      serve_step s sv (mkServer (sv_done sv) (sv_ended sv) (sv_msgChan sv) np (sv_threads sv) (sv_arrived sv)
        (sv_handled sv)).

(** Every message is handled once, in the order of arrival, and the thread
    leaves its loop only when the session has ended and none is left. *)
Lemma serve_handles_all s np chan sv :
  rtc (serve_step s) (new_server np chan) sv →
  sv_arrived sv = sv_handled sv ++ sv_msgChan sv ∧
  (server_goes_on sv = false → sv_ended sv = true ∧ sv_handled sv = sv_arrived sv).
Proof.
  intros Hr.
  assert (sv_arrived sv = sv_handled sv ++ sv_msgChan sv ∧ (sv_done sv = true → sv_ended sv = true)) as [H1 H2].
  { assert (sv_arrived (new_server np chan) = sv_handled (new_server np chan) ++ sv_msgChan (new_server np chan) ∧
      (sv_done (new_server np chan) = true → sv_ended (new_server np chan) = true)) as H0 by done.
    induction Hr as [|a b c Hs _ IH]; [done|]. apply IH. destruct H0 as [H1 H2]. clear IH.
    destruct Hs as [sv b h msg rest np' ts _ E _|sv _ He|sv msg _|sv np'|sv np']; cbn in *; try done; rewrite H1.
    - by rewrite E, <-app_assoc.
    - by rewrite app_assoc. }
  split; [done|]. unfold server_goes_on. intros [Hd%negb_false_iff Hc]%orb_false_iff. split; [auto|].
  destruct (sv_msgChan sv); [by rewrite H1, app_nil_r|]. by apply Z.ltb_ge in Hc.
Qed.
End Serve.
