(* ===== verification/Gui.v ===== *)
(** The terminal interface: the menu, the prompts, the editor and the
    handlers it gives to the network
    (CPSC418/project/gui/gui.go, editor.go, prompt.go and helpers.go).

    One thread runs the interface, and it alone sets [DocModel]: the local
    [docModel] of [DrawEditor] is the document of the state while the editor is
    on the screen. *)
From Stdlib Require Import Strings.String.
From S2P Require Import Prelude Json GoText Common Version BufferOp Buffer Prompt Treedoc OperationLog OperationQueue DocumentModel DocumentWire NetMeta NodePool Session Handshake Manager.

Open Scope Z_scope.

(** ** The state *)

Definition STATE_MENU : Z := 0.
Definition STATE_MENU_RETRY : Z := 1.
Definition STATE_EXIT : Z := 10.
Definition STATE_DOCUMENT : Z := 20.
Definition STATE_CONNECT : Z := 30.
Definition STATE_ERROR : Z := 40.

Definition OPTION_EXIT : str := txt "Exit".
Definition OPTION_CONNECT : str := txt "Connect".
Definition OPTION_DISCONNECT : str := txt "Disconnect".
Definition OPTION_NEW_DOCUMENT : str := txt "New Document".
Definition OPTION_CLOSE_DOCUMENT : str := txt "Close Document".

(** [TempData] holds an error, here its text, or nothing. *)
Record appState : Type := mkApp {
  as_State : Z;
  as_DocModel : option DocumentModel;
  as_ScreenY : Z;
  as_MenuOptions : list str;
  as_Manager : NetworkManager;
  as_TempData : option str
}.

Definition set_State s (app : appState) : appState :=
  mkApp s (as_DocModel app) (as_ScreenY app) (as_MenuOptions app) (as_Manager app) (as_TempData app).
Definition set_DocModel m (app : appState) : appState :=
  mkApp (as_State app) m (as_ScreenY app) (as_MenuOptions app) (as_Manager app) (as_TempData app).
Definition set_ScreenY y (app : appState) : appState :=
  mkApp (as_State app) (as_DocModel app) y (as_MenuOptions app) (as_Manager app) (as_TempData app).
Definition set_MenuOptions o (app : appState) : appState :=
  mkApp (as_State app) (as_DocModel app) (as_ScreenY app) o (as_Manager app) (as_TempData app).
Definition set_Manager nm (app : appState) : appState :=
  mkApp (as_State app) (as_DocModel app) (as_ScreenY app) (as_MenuOptions app) nm (as_TempData app).
Definition set_TempData t (app : appState) : appState :=
  mkApp (as_State app) (as_DocModel app) (as_ScreenY app) (as_MenuOptions app) (as_Manager app) t.

Definition in_menu (app : appState) : bool :=
  (as_State app =? STATE_MENU) || (as_State app =? STATE_MENU_RETRY).

(** ** Drawing *)

(** A call of [termbox.SetCell], and what one redraw shows; the cursor stays
    where it was when it is [None]. *)
Record cell : Type := mkCell { cl_x : Z; cl_y : Z; cl_ch : byte }.
Record frame_shown : Type := mkFrame { fr_cells : list cell; fr_cursor : option (Z * Z) }.

Fixpoint draw_bytes (y x : Z) (bytes : list byte) : list cell :=
  match bytes with
  | [] => []
  | ch :: bytes =>
      if decide (ch = char_tab) then
        map (λ i, mkCell (x + i) y char_space) [0; 1; 2; 3] ++ draw_bytes y (x + 4) bytes
      else if decide (ch ≠ char_newline) then mkCell x y ch :: draw_bytes y (x + 1) bytes
      else draw_bytes y x bytes
  end.

Fixpoint draw_from (height y : Z) (lines : list Line) : list cell :=
  match lines with
  | [] => []
  | line :: lines =>
      if y <? height then draw_bytes y 0 line ++ draw_from height (y + 1) lines else []
  end.

Definition drawLines (lines : list Line) (height : Z) : list cell := draw_from height 0 lines.

(** The new [screenY] and what is shown. *)
Definition redrawEditor (app : appState) (screenY height : Z) : res (Z * frame_shown) :=
  docModel ← require NilPointer (as_DocModel app);
  '(screenY, cursorX, cursorY, first) ← GetDisplayInformation (dm_Buffer docModel) screenY height;
  let lines := match first with Some i => drop i (bf_lines (dm_Buffer docModel)) | None => [] end in
  Ok (screenY, mkFrame (drawLines lines height) (Some (cursorX, cursorY))).

Definition redrawPrompt (prompt : Prompt) (width height : Z) : res frame_shown :=
  '(cursorX, cursorY, lines) ← Prompt_GetDisplayInformation prompt (width - 1) height;
  Ok (mkFrame (drawLines lines height) (if cursorY <? height then Some (cursorX, cursorY) else None)).

(** ** The menu *)

Definition newline_text : str := [x0a].

Definition menu_options (app : appState) : list str :=
  match as_DocModel app with
  | None => [OPTION_NEW_DOCUMENT]
  | Some _ => [OPTION_CONNECT; OPTION_DISCONNECT; OPTION_CLOSE_DOCUMENT]
  end ++ [OPTION_EXIT].

(** The line of option [i]. *)
Definition option_line (i : nat) (option : str) : str :=
  Itoa (Z.of_nat i + 1) ++ txt ". " ++ option ++ newline_text.

Fixpoint option_lines (i : nat) (options : list str) : str :=
  match options with
  | [] => []
  | option :: options => option_line i option ++ option_lines (S i) options
  end.

(** [sort.Sort]: by id, which are different. *)
Definition elem_le (a b : NodeMetaListElem) : Prop := bytes_le (el_Id a) (el_Id b).
#[export] Instance elem_le_dec a b : Decision (elem_le a b).
Proof. unfold elem_le, bytes_le. apply _. Defined.
Definition sort_peers (l : list NodeMetaListElem) : list NodeMetaListElem := merge_sort elem_le l.

Definition FormatBool (b : bool) : str := if b then txt "true" else txt "false".

Definition peer_line (node : NodeMetaListElem) : str :=
  el_Id node ++ txt ": Addr = " ++ el_Addr node ++ txt ", Left = " ++ FormatBool (el_Left node) ++ newline_text.

Section Gui.
Context (order : pool_order) (range : range_order) (netMeta_toJson : NetMeta → list byte).
Context `{Json VersionVectorJson, Json RemoteOperationJson, Json (list RemoteOperationJson)}.
(** The text of an error of [Atoi], and the zero values of the elements of a
    new slice. *)
Context (atoi_error : str → str).
Context (zero_json : RemoteOperationJson) (zero_op : RemoteOperation).

Definition getPrompt (app : appState) : res (appState * Prompt) :=
  if in_menu app then
    let options := menu_options app in
    let app := set_MenuOptions options app in
    let netMeta := sort_peers (ToList range (GetNetworkMetadata range (as_Manager app))) in
    let str :=
      option_lines 0 options ++ newline_text ++
      txt "Esc to switch between menu and editing the document" ++ newline_text ++
      newline_text ++ txt "Peers In Network:" ++ newline_text ++
      concat (map peer_line netMeta) ++ newline_text ++
      (if as_State app =? STATE_MENU_RETRY
       then txt "Input is not a valid input, please try again: "
       else txt "Enter number to exectute option: ") in
    Ok (app, NewPrompt str)
  else if as_State app =? STATE_CONNECT then Ok (app, NewPrompt (txt "Enter ip to connect to: "))
  else if as_State app =? STATE_ERROR then
    err ← require NilPointer (as_TempData app);
    Ok (app, NewPrompt (err ++ newline_text ++ newline_text ++ txt "Press Enter to continue"))
  else Panic ExplicitPanic.

(** What one step of the interface leads to besides its new state. *)
Record effects : Type := mkEffects {
  ef_threads : list thread;
  ef_messages : list Message;
  ef_operation : option RemoteOperation;
  ef_frame : option frame_shown
}.
Definition nothing : effects := mkEffects [] [] None None.

(** [newDocument]: the document broadcasts. *)
Definition newDocument (width : Z) (siteId : SiteId) : res DocumentModel :=
  NewDocumentModel siteId (width - 1) true.

(** [uuid] is the text of a new uuid and [width] the width of the terminal. *)
Definition doAction (o : outside) (uuid : str) (width : Z) (app : appState) (input : str)
    : res (appState * effects) :=
  if in_menu app then
    let '(n, err) := Atoi input in
    if err || (n <? 1) || (n >? zlen (as_MenuOptions app)) then Ok (set_State STATE_MENU_RETRY app, nothing)
    else
      option ← require IndexOutOfRange (as_MenuOptions app !! Z.to_nat (n - 1));
      if decide (option = OPTION_EXIT) then Ok (set_State STATE_EXIT app, nothing)
      else if decide (option = OPTION_CONNECT) then Ok (set_State STATE_CONNECT app, nothing)
      else if decide (option = OPTION_DISCONNECT) then
        '(nm, _) ← Disconnect order (as_Manager app);
        let app := set_Manager nm app in
        (* the error of [Atoi], which is nil here *)
        if (err : bool) then Ok (set_TempData (Some (atoi_error input)) (set_State STATE_ERROR app), nothing)
        else Ok (app, nothing)
      else if decide (option = OPTION_NEW_DOCUMENT) then
        docModel ← newDocument width (StringToSiteId uuid);
        Ok (set_State STATE_DOCUMENT (set_ScreenY 0 (set_DocModel (Some docModel) app)), nothing)
      else if decide (option = OPTION_CLOSE_DOCUMENT) then
        '(nm, ts) ← CompleteDisconnect order (out_id o) (out_listens o) (as_Manager app);
        Ok (set_DocModel None (set_Manager nm app), mkEffects ts [] None None)
      else Ok (set_State STATE_MENU_RETRY app, nothing)
  else if as_State app =? STATE_CONNECT then
    '(nm, ts, msgs, err) ← NetworkManager_ConnectTo order netMeta_toJson o (as_Manager app);
    let app := set_Manager nm app in
    let app :=
      match err with
      | Some err => set_TempData (Some err) (set_State STATE_ERROR app)
      | None => set_State STATE_MENU app
      end in
    Ok (app, mkEffects ts msgs None None)
  else if as_State app =? STATE_ERROR then Ok (set_State STATE_MENU app, nothing)
  else Ok (app, nothing).

(** ** Events *)

(** The keys that the code names, and [NoKey] for the key 0. *)
Inductive Key : Type :=
  | NoKey
  | KeyCtrlC | KeyCtrlK | KeyEsc
  | KeyArrowLeft | KeyArrowRight | KeyArrowUp | KeyArrowDown
  | KeyBackspace | KeyBackspace2 | KeyDelete
  | KeySpace | KeyTab | KeyEnter
  | OtherKey.

Inductive Event : Type :=
  | EventKey (key : Key) (ch : Z)
  | EventResize (width height : Z)
  | EventInterrupt
  | EventError
  | OtherEvent.

(** Where the main thread is: at the top of its loop, in [DrawEditor] or in
    [DrawPrompt] with their variables, or out of the loop. *)
Inductive screen : Type :=
  | MainLoop
  | Editing (width height : Z)
  | Prompting (prompt : Prompt) (width height : Z)
  | Finished.

(** The program: the state and where it is. *)
Record program : Type := mkProgram { pr_app : appState; pr_screen : screen }.

(** [appState.ScreenY = redrawEditor(appState.ScreenY, height)] *)
Definition redraw (op : option RemoteOperation) (width height : Z) (app : appState)
    : res (program * effects) :=
  '(screenY, frame) ← redrawEditor app (as_ScreenY app) height;
  Ok (mkProgram (set_ScreenY screenY app) (Editing width height), mkEffects [] [] op (Some frame)).

(** The buffer or the document changes in place. *)
Definition on_buffer (f : Buffer.Buffer → res Buffer.Buffer) (app : appState) : res appState :=
  docModel ← require NilPointer (as_DocModel app);
  buf ← f (dm_Buffer docModel);
  Ok (set_DocModel (Some (set_text (dm_Treedoc docModel) buf docModel)) app).

Definition on_document (f : DocumentModel → res (DocumentModel * option RemoteOperation)) (app : appState)
    : res (appState * option RemoteOperation) :=
  docModel ← require NilPointer (as_DocModel app);
  '(docModel, op) ← f docModel;
  Ok (set_DocModel (Some docModel) app, op).

(** [DrawEditor] up to its loop. *)
Definition DrawEditor_start (app : appState) (width height : Z) : res (program * effects) :=
  app ← on_buffer (λ buf, Resize buf (width - 1)) app;
  redraw None width height app.

(** One event of the loop of [DrawEditor]. *)
Definition DrawEditor_event (app : appState) (width height : Z) (ev : Event) : res (program * effects) :=
  let moves f := app ← on_buffer f app; redraw None width height app in
  let edits f := '(app, op) ← on_document f app; redraw op width height app in
  match ev with
  | EventKey key ch =>
      match key with
      | KeyCtrlC => Ok (mkProgram (set_State STATE_EXIT app) MainLoop, nothing)
      | KeyCtrlK => Panic ExplicitPanic
      | KeyEsc => Ok (mkProgram (set_State STATE_MENU app) MainLoop, nothing)
      | KeyArrowLeft => moves MoveLeft
      | KeyArrowRight => moves MoveRight
      | KeyArrowUp => moves MoveUp
      | KeyArrowDown => moves MoveDown
      | KeyBackspace | KeyBackspace2 => edits LocalBackspace
      | KeyDelete => edits LocalDelete
      | KeySpace => edits (λ m, LocalInsert m char_space)
      | KeyTab => edits (λ m, LocalInsert m char_tab)
      | KeyEnter => edits (λ m, LocalInsert m char_newline)
      | NoKey =>
          if ch <=? 256 then edits (λ m, LocalInsert m (byte_of ch))
          else Ok (mkProgram app (Editing width height), nothing)
      | OtherKey => Ok (mkProgram app (Editing width height), nothing)
      end
  | EventResize width height =>
      app ← on_buffer (λ buf, Resize buf (width - 1)) app;
      redraw None width height app
  | EventInterrupt => redraw None width height app
  | EventError => Panic ExplicitPanic
  | OtherEvent => Ok (mkProgram app (Editing width height), nothing)
  end.

(** [redrawPrompt(prompt, width, height)] in the loop. *)
Definition reprompt (app : appState) (prompt : Prompt) (width height : Z) : res (program * effects) :=
  frame ← redrawPrompt prompt width height;
  Ok (mkProgram app (Prompting prompt width height), mkEffects [] [] None (Some frame)).

(** One event of the loop of [DrawPrompt]; [now] is the width of the terminal,
    which may differ from that of the last event. *)
Definition DrawPrompt_event (o : outside) (uuid : str) (now : Z) (app : appState) (prompt : Prompt) (width height : Z)
    (ev : Event) : res (program * effects) :=
  let stays := Ok (mkProgram app (Prompting prompt width height), nothing) in
  match ev with
  | EventKey key ch =>
      match key with
      | KeyCtrlC => Ok (mkProgram (set_State STATE_EXIT app) MainLoop, nothing)
      | KeyCtrlK => Panic ExplicitPanic
      | KeyEsc =>
          match as_DocModel app with
          | Some _ => Ok (mkProgram (set_State STATE_DOCUMENT app) MainLoop, nothing)
          | None => stays
          end
      | KeyBackspace | KeyBackspace2 => reprompt app (Prompt_Delete prompt) width height
      | KeySpace => reprompt app (Prompt_Insert prompt char_space) width height
      | KeyTab => reprompt app (Prompt_Insert prompt char_tab) width height
      | KeyEnter =>
          '(app, ef) ← doAction o uuid now app (Prompt_ToString prompt);
          Ok (mkProgram app MainLoop, ef)
      | NoKey => if ch <=? 256 then reprompt app (Prompt_Insert prompt (byte_of ch)) width height else stays
      | _ => stays
      end
  | EventResize width height => reprompt app prompt width height
  | EventInterrupt => reprompt app prompt width height
  | EventError => Panic ExplicitPanic
  | OtherEvent => stays
  end.

(** One turn of the loop of [StartMainLoop], up to the first event. *)
Definition main_turn (app : appState) (width height : Z) : res (program * effects) :=
  if as_State app =? STATE_EXIT then
    '(nm, _) ← Disconnect order (as_Manager app);
    Ok (mkProgram (set_Manager nm app) Finished, nothing)
  else if as_State app =? STATE_DOCUMENT then DrawEditor_start app width height
  else
    '(app, prompt) ← getPrompt app;
    reprompt app prompt width height.

(** [StartMainLoop] up to its loop. *)
Definition StartMainLoop (manager : NetworkManager) : program :=
  mkProgram (mkApp STATE_MENU None 0 [] manager None) MainLoop.

(** [main] of editor.go: [args] is [os.Args]. [None] is an exit with a message;
    the address to listen on only goes to the listener. *)
Definition editor_main (o : outside) (args : list str) : res (option (program * list thread)) :=
  if (zlen args <? 2) || (zlen args >? 3) then Ok None
  else
    localAddr ← require IndexOutOfRange (args !! 1%nat);
    publicAddr ← (if zlen args =? 3 then require IndexOutOfRange (args !! 2%nat) else Ok localAddr);
    networkManager ← NewNetworkManager order o publicAddr;
    match networkManager with
    | None => Ok None
    | Some (networkManager, ts) => Ok (Some (StartMainLoop networkManager, ts))
    end.

(** ** The handlers that the network calls *)

(** [RemoteOpHandler] before its loop: the operations to apply. *)
Definition RemoteOpHandler_start (app : appState) (msg : list byte) : res (list RemoteOperation) :=
  match as_DocModel app with
  | Some _ => RemoteOperationsFromSlice zero_op msg
  | None => Ok []
  end.

(** One turn of its loop, which reads [DocModel] again. *)
Definition RemoteOpHandler_next (app : appState) (op : RemoteOperation) : res appState :=
  docModel ← require NilPointer (as_DocModel app);
  docModel ← ApplyRemoteOperation docModel op;
  Ok (set_DocModel (Some docModel) app).

Definition GetOpsReceiveVersion (app : appState) : option (list byte) :=
  match as_DocModel app with
  | Some docModel => Some (MarshalJSON (GetVersionVectorReceived docModel))
  | None => None
  end.

Definition VersionCheckHandler (app : appState) (data : list byte) : res (list byte * bool) :=
  let '(err, vector) := UnmarshalJSON data in
  match as_DocModel app, vector with
  | Some docModel, Some vector =>
      if (err : bool) then Ok ([], false)
      else
        '(ops, queueOps) ← GetMissingOperations docModel vector;
        let ops := ops ++ queueOps in
        if zlen ops >? 0 then slice ← RemoteOperationsToSlice zero_json ops; Ok (slice, true)
        else Ok ([], false)
  | _, _ => Ok ([], false)
  end.

(** [BroadcastRemote], which [newDocument] gives to the document and which
    runs in a goroutine. *)
Definition BroadcastRemote (app : appState) (op : RemoteOperation) : res appState :=
  content ← RemoteOperationsToSlice zero_json [op];
  let nm := as_Manager app in
  let '(np, msg) := NewBroadcastMessage (nm_pool nm) (GetCurrentId nm) MSG_TYPE_REMOTE_OP content in
  nm ← Broadcast order (mkManager (nm_id nm) (nm_publicAddr nm) np (nm_session nm)) msg;
  Ok (set_Manager nm app).
End Gui.
