(* ===== verification/GuiProps.v ===== *)
(** The terminal interface: what the menu shows and does, the invariant of its
    states, and what is drawn
    (CPSC418/project/gui). *)
From Stdlib Require Import Strings.String.
From S2P Require Import Prelude Json GoText Common Version BufferOp Buffer BufferWords BufferLayout BufferSpec BufferProps Prompt Treedoc OperationLog OperationQueue DocumentModel DocumentWire NetMeta NodePool Session Handshake Manager Gui.

Open Scope Z_scope.

(** ** The peers *)

Definition peers (m : NetMeta) : list NodeMetaListElem :=
  (λ '(id, n), mkElem id (Addr n) (Left n)) <$> map_to_list m.

Lemma copy_range range m : is_range range → copy range m = m.
Proof.
  intros Hr. destruct (is_range_map range m Hr) as [Hnd Hm]. unfold copy, newNetMeta. rewrite <-Hm at 2.
  clear Hm. revert Hnd. generalize (range m) as l.
  assert (∀ (l : list (str * NodeMeta)) (acc : NetMeta), NoDup l.*1 → (∀ id, id ∈ l.*1 → acc !! id = None) →
    foldl (λ m '(id, node), <[id := node]> m) acc l = list_to_map l ∪ acc) as H.
  { induction l as [|[id n] l IH]; intros acc Hnd Ha; cbn [foldl list_to_map foldr].
    { by rewrite (left_id_L ∅ (∪)). }
    apply NoDup_cons in Hnd as [Hid Hnd]. rewrite IH; [|done|].
    - cbn. rewrite <-insert_union_l, insert_union_r; [done|]. by apply not_elem_of_list_to_map_1.
    - intros id' Hin. rewrite lookup_insert_ne by (intros ->; done). apply Ha. by right. }
  intros l Hnd. rewrite H; [by rewrite (right_id_L ∅ (∪))|done|]. intros. apply lookup_empty.
Qed.

Lemma ToList_range range m : is_range range → ToList range m ≡ₚ peers m.
Proof.
  intros Hr. unfold ToList, peers. rewrite <-(Hr m).
  assert (∀ (l : list (str * NodeMeta)) acc, foldl (λ l '(id, node), l ++ [mkElem id (Addr node) (Left node)]) acc l =
    acc ++ ((λ '(id, n), mkElem id (Addr n) (Left n)) <$> l)) as H.
  { induction l as [|[id n] l IH]; intros acc; cbn [foldl fmap list_fmap]; [by rewrite app_nil_r|].
    by rewrite IH, <-app_assoc. }
  by rewrite H.
Qed.

#[local] Instance elem_le_trans : Transitive elem_le.
Proof. intros a b c. apply bytes_le_trans. Qed.
#[local] Instance elem_le_total : Total elem_le.
Proof. intros a b. apply bytes_le_total. Qed.

Lemma peers_id m a b : a ∈ peers m → b ∈ peers m → el_Id a = el_Id b → a = b.
Proof.
  unfold peers. intros ([id1 n1] & -> & H1)%list_elem_of_fmap ([id2 n2] & -> & H2)%list_elem_of_fmap.
  cbn [el_Id]. intros ->. apply elem_of_map_to_list in H1, H2. congruence.
Qed.

(** A list is sorted in one way. *)
Lemma sort_peers_unique m l : l ≡ₚ peers m → sort_peers l = sort_peers (peers m).
Proof.
  intros Hl. apply (StronglySorted_unique_strong elem_le).
  - intros a b Ha Hb H1 H2. unfold sort_peers in Ha, Hb.
    rewrite merge_sort_Permutation in Ha, Hb. rewrite Hl in Ha. eapply peers_id; [done..|].
    by apply bytes_le_antisym.
  - apply StronglySorted_merge_sort; apply _.
  - apply StronglySorted_merge_sort; apply _.
  - unfold sort_peers. by rewrite !merge_sort_Permutation.
Qed.

Lemma shown_peers range nm :
  is_range range →
  sort_peers (ToList range (GetNetworkMetadata range nm)) = sort_peers (peers (np_netMeta (nm_pool nm))).
Proof.
  intros Hr. apply sort_peers_unique. unfold GetNetworkMetadata, getLatestNetMetaCopy.
  by rewrite copy_range, ToList_range.
Qed.

Section Props.
Context (order : pool_order) (range : range_order) (netMeta_toJson : NetMeta → list byte).
Context (atoi_error : str → str).

Abbreviation doAction := (doAction order netMeta_toJson atoi_error).
Abbreviation getPrompt := (getPrompt range).

(** The prompt of the menu. *)
Lemma getPrompt_menu app :
  in_menu app = true → ∃ rest, getPrompt app =
    Ok (set_MenuOptions (menu_options app) app, NewPrompt (option_lines 0 (menu_options app) ++ rest)).
Proof. intros Hm. unfold Gui.getPrompt. rewrite Hm. by eexists. Qed.

(** The menu does what it shows. The prompt starts with the numbered
    options, which are those that make sense: a document can be opened when
    none is open, and else the network can be joined and left and the document
    closed. The number of an option does that, and any other input asks again
    and does nothing. *)
Theorem menu_does_what_it_shows app o uuid width :
  in_menu app = true →
  ∃ app' rest, getPrompt app = Ok (app', NewPrompt (option_lines 0 (menu_options app) ++ rest)) ∧
    app' = set_MenuOptions (menu_options app) app ∧
    (as_DocModel app = None →
       doAction o uuid width app' (txt "1") =
         (m ← newDocument width (StringToSiteId uuid);
          Ok (set_State STATE_DOCUMENT (set_ScreenY 0 (set_DocModel (Some m) app')), nothing)) ∧
       doAction o uuid width app' (txt "2") = Ok (set_State STATE_EXIT app', nothing)) ∧
    (is_Some (as_DocModel app) →
       doAction o uuid width app' (txt "1") = Ok (set_State STATE_CONNECT app', nothing) ∧
       doAction o uuid width app' (txt "2") =
         ('(nm, _) ← Disconnect order (as_Manager app); Ok (set_Manager nm app', nothing)) ∧
       doAction o uuid width app' (txt "3") =
         ('(nm, ts) ← CompleteDisconnect order (out_id o) (out_listens o) (as_Manager app);
          Ok (set_DocModel None (set_Manager nm app'), mkEffects ts [] None None)) ∧
       doAction o uuid width app' (txt "4") = Ok (set_State STATE_EXIT app', nothing)) ∧
    ∀ input, (Atoi input).2 = true ∨ (Atoi input).1 < 1 ∨ zlen (menu_options app) < (Atoi input).1 →
      doAction o uuid width app' input = Ok (set_State STATE_MENU_RETRY app', nothing).
Proof.
  intros Hm. destruct (getPrompt_menu app Hm) as [rest Hp].
  exists (set_MenuOptions (menu_options app) app), rest. split_and!; [done|done| | |].
  - intros Hd. unfold Gui.doAction. change (in_menu (set_MenuOptions _ app)) with (in_menu app). rewrite Hm.
    cbn [as_MenuOptions set_MenuOptions]. unfold menu_options. rewrite Hd. split; reflexivity.
  - intros [m Hd]. unfold Gui.doAction. change (in_menu (set_MenuOptions _ app)) with (in_menu app). rewrite Hm.
    cbn [as_MenuOptions set_MenuOptions]. unfold menu_options. rewrite Hd. split_and!; reflexivity.
  - intros input Hi. unfold Gui.doAction. change (in_menu (set_MenuOptions _ app)) with (in_menu app). rewrite Hm.
    cbn [as_MenuOptions set_MenuOptions]. destruct (Atoi input) as [n err]. cbn [fst snd] in Hi.
    destruct err; [done|]. replace ((n <? 1) || _) with true; [done|].
    destruct (Z.ltb_spec n 1); [done|]. destruct (n >? zlen (menu_options app)) eqn:E; [done|]. lia.
Qed.

(** What the menu shows does not depend on the order in which Go visits
    the maps of the network: the peers are those of the metadata, each once,
    in the order of their ids. *)
Theorem prompt_ignores_range app range' :
  is_range range → is_range range' →
  getPrompt app = Gui.getPrompt range' app ∧
  let l := sort_peers (ToList range (GetNetworkMetadata range (as_Manager app))) in
  l ≡ₚ peers (np_netMeta (nm_pool (as_Manager app))) ∧ StronglySorted elem_le l.
Proof.
  intros Hr Hr'. split; [|split].
  - unfold Gui.getPrompt. rewrite !shown_peers by done. done.
  - rewrite shown_peers by done. unfold sort_peers. by rewrite merge_sort_Permutation.
  - apply StronglySorted_merge_sort; apply _.
Qed.

(** ** The states of the interface *)

(** The main thread takes a step, or another thread applies an operation of
    another site or changes the manager. *)
Inductive program_step (p : program) : program → Prop :=
  | step_turn width height p' ef :
      pr_screen p = MainLoop → main_turn order range (pr_app p) width height = Ok (p', ef) →
      program_step p p'
  | step_editor width height ev p' ef :
      pr_screen p = Editing width height → DrawEditor_event (pr_app p) width height ev = Ok (p', ef) →
      program_step p p'
  | step_prompt prompt width height o uuid now ev p' ef :
      pr_screen p = Prompting prompt width height →
      DrawPrompt_event order netMeta_toJson atoi_error o uuid now (pr_app p) prompt width height ev = Ok (p', ef) →
      program_step p p'
  | step_handler op app' :
      RemoteOpHandler_next (pr_app p) op = Ok app' → program_step p (mkProgram app' (pr_screen p))
  | step_network nm : program_step p (mkProgram (set_Manager nm (pr_app p)) (pr_screen p)).

Definition asking (app : appState) : Prop :=
  as_State app ∈ [STATE_MENU; STATE_MENU_RETRY; STATE_CONNECT; STATE_ERROR].

Record state_ok (app : appState) : Prop := {
  so_known : asking app ∨ as_State app = STATE_EXIT ∨ as_State app = STATE_DOCUMENT;
  so_document : as_State app = STATE_DOCUMENT → is_Some (as_DocModel app);
  so_error : as_State app = STATE_ERROR → is_Some (as_TempData app)
}.

(** What holds while a screen is shown. *)
Definition screen_ok (p : program) : Prop :=
  let app := pr_app p in
  match pr_screen p with
  | MainLoop => True
  | Editing _ _ => as_State app = STATE_DOCUMENT
  | Prompting _ _ _ => asking app ∧ (in_menu app = true → as_MenuOptions app = menu_options app)
  | Finished => as_State app = STATE_EXIT
  end.

Lemma asking_cases app :
  asking app ↔ in_menu app = true ∨ as_State app = STATE_CONNECT ∨ as_State app = STATE_ERROR.
Proof.
  unfold asking, in_menu. rewrite !elem_of_cons, elem_of_nil, orb_true_iff, !Z.eqb_eq. tauto.
Qed.

(** A change that keeps the state and whether a document is open. *)
Lemma ok_same app app' screen :
  as_State app' = as_State app → as_TempData app' = as_TempData app →
  as_MenuOptions app' = as_MenuOptions app → (is_Some (as_DocModel app) ↔ is_Some (as_DocModel app')) →
  state_ok app ∧ screen_ok (mkProgram app screen) →
  state_ok app' ∧ screen_ok (mkProgram app' screen).
Proof.
  intros Es Et Eo Ed [[H1 H2 H3] Hs]. split.
  - split; unfold asking in *; rewrite ?Es, ?Et; try done. intros H. by apply Ed, H2.
  - unfold screen_ok in *. cbn [pr_app pr_screen] in *. destruct screen; rewrite ?Es; try done.
    unfold asking, in_menu, menu_options in *. rewrite Es, Eo. destruct Hs as [Ha Ho]. split; [done|].
    intros Hm. rewrite (Ho Hm). f_equal. destruct (as_DocModel app), (as_DocModel app'); try done.
    + by destruct (proj1 Ed (mk_is_Some _ _ eq_refl)).
    + by destruct (proj2 Ed (mk_is_Some _ _ eq_refl)).
Qed.

Lemma main_state_ok app s :
  state_ok app → s = STATE_EXIT ∨ s = STATE_MENU ∨ s = STATE_MENU_RETRY ∨ s = STATE_CONNECT ∨
    (s = STATE_DOCUMENT ∧ is_Some (as_DocModel app)) →
  state_ok (set_State s app) ∧ screen_ok (mkProgram (set_State s app) MainLoop).
Proof.
  intros _ Hs. split; [|done]. split; unfold asking; cbn [set_State as_State as_DocModel as_TempData];
    rewrite ?elem_of_cons; destruct Hs as [->|[->|[->|[->|[-> ?]]]]]; try done; tauto.
Qed.

Definition program_ok (p : program) : Prop := state_ok (pr_app p) ∧ screen_ok p.

Lemma on_buffer_inv f app app' :
  on_buffer f app = Ok app' → ∃ m buf, as_DocModel app = Some m ∧ f (dm_Buffer m) = Ok buf ∧
    app' = set_DocModel (Some (set_text (dm_Treedoc m) buf m)) app.
Proof.
  unfold on_buffer. intros (m & Hm%require_Ok_inv & H)%bind_Ok_inv.
  apply bind_Ok_inv in H as (buf & Hf & [= <-]). by exists m, buf.
Qed.

Lemma on_document_inv f app app' op :
  on_document f app = Ok (app', op) → ∃ m m', as_DocModel app = Some m ∧ f m = Ok (m', op) ∧
    app' = set_DocModel (Some m') app.
Proof.
  unfold on_document. intros (m & Hm%require_Ok_inv & H)%bind_Ok_inv.
  apply bind_Ok_inv in H as ([m' op'] & Hf & [= <- <-]). by exists m, m'.
Qed.

Lemma redraw_inv op width height app p' ef :
  redraw op width height app = Ok (p', ef) → ∃ y, p' = mkProgram (set_ScreenY y app) (Editing width height) ∧
    ef_operation ef = op.
Proof. unfold redraw. intros ([y frame] & _ & [= <- <-])%bind_Ok_inv. by exists y. Qed.

Lemma reprompt_inv app prompt width height p' ef :
  reprompt app prompt width height = Ok (p', ef) → p' = mkProgram app (Prompting prompt width height).
Proof. unfold reprompt. by intros (frame & _ & [= <- <-])%bind_Ok_inv. Qed.

(** The editor stays on the screen with its document. *)
Lemma edited_ok app m m' y width height width' height' :
  program_ok (mkProgram app (Editing width height)) → as_DocModel app = Some m →
  program_ok (mkProgram (set_ScreenY y (set_DocModel (Some m') app)) (Editing width' height')).
Proof.
  intros [Ha Hs] Hm. apply (ok_same app); [done..| |by split].
  cbn [set_ScreenY set_DocModel as_DocModel]. rewrite Hm. by split.
Qed.

Lemma DrawEditor_ok app width height ev p' ef :
  program_ok (mkProgram app (Editing width height)) → DrawEditor_event app width height ev = Ok (p', ef) → program_ok p'.
Proof.
  intros Hp H. assert (as_State app = STATE_DOCUMENT) as Hst by apply Hp.
  assert (∀ f width' height', (app ← on_buffer f app; redraw None width' height' app) = Ok (p', ef) → program_ok p') as Hbuf.
  { intros f w' h' (app1 & (m & buf & Hm & _ & ->)%on_buffer_inv & (y & -> & _)%redraw_inv)%bind_Ok_inv.
    by eapply edited_ok. }
  assert (∀ f, ('(app, op) ← on_document f app; redraw op width height app) = Ok (p', ef) → program_ok p') as Hdoc.
  { intros f ([app1 op] & (m & m' & Hm & _ & ->)%on_document_inv & (y & -> & _)%redraw_inv)%bind_Ok_inv.
    by eapply edited_ok. }
  assert (∀ op, redraw op width height app = Ok (p', ef) → program_ok p') as Hre.
  { intros op (y & -> & _)%redraw_inv. by apply (ok_same app). }
  destruct ev as [key ch|w' h'| | |]; cbn [DrawEditor_event] in H; [|exact (Hbuf _ _ _ H)|exact (Hre _ H)|done|by injection H as <- <-].
  destruct key; try exact (Hbuf _ _ _ H); try exact (Hdoc _ H); try done;
    try (injection H as <- <-; first [done|apply main_state_ok; [apply Hp|tauto]]).
  destruct (ch <=? 256); [exact (Hdoc _ H)|by injection H as <- <-].
Qed.

Lemma doAction_ok app o uuid width input app' ef :
  state_ok app → doAction o uuid width app input = Ok (app', ef) → state_ok app'.
Proof.
  intros Ha H. pose proof (λ s, main_state_ok app s Ha) as Hset. unfold Gui.doAction in H.
  destruct (in_menu app) eqn:Hm.
  - destruct (Atoi input) as [n err]. destruct (err || _ || _); [injection H as <- <-; apply Hset; tauto|].
    apply bind_Ok_inv in H as (option & _ & H).
    case_decide; [injection H as <- <-; apply Hset; tauto|].
    case_decide; [injection H as <- <-; apply Hset; tauto|].
    case_decide.
    { apply bind_Ok_inv in H as ([nm e] & _ & H). destruct err; injection H as <- <-.
      - split; [left; unfold asking; cbn [as_State set_TempData set_State]; set_solver|done|by eexists].
      - destruct Ha. by split. }
    case_decide.
    { apply bind_Ok_inv in H as (m & _ & [= <- <-]). split; [|by eexists|done].
      by right; right. }
    case_decide; [|injection H as <- <-; apply Hset; tauto].
    apply bind_Ok_inv in H as ([nm ts] & _ & [= <- <-]). destruct Ha as [Ha1 Ha2 Ha3]. split; [done| |done].
    intros Hd. unfold in_menu in Hm. cbn [as_State set_DocModel set_Manager] in Hd. by rewrite Hd in Hm.
  - destruct (as_State app =? STATE_CONNECT).
    + apply bind_Ok_inv in H as ([[[nm ts] msgs] [err|]] & _ & [= <- <-]);
        (split; [left; unfold asking; cbn [as_State set_TempData set_State]; set_solver|done|first [done|by eexists]]).
    + destruct (as_State app =? STATE_ERROR); injection H as <- <-; [apply Hset; tauto|done].
Qed.

Lemma DrawPrompt_ok app prompt width height o uuid now ev p' ef :
  program_ok (mkProgram app (Prompting prompt width height)) →
  DrawPrompt_event order netMeta_toJson atoi_error o uuid now app prompt width height ev = Ok (p', ef) →
  program_ok p'.
Proof.
  intros [Ha Hs] H. cbn [pr_app] in Ha.
  assert (∀ prompt width' height', reprompt app prompt width' height' = Ok (p', ef) → program_ok p') as Hre.
  { intros * ->%reprompt_inv. by split. }
  assert (program_ok (mkProgram app (Prompting prompt width height))) as Hstay by by split.
  destruct ev as [key ch|w' h'| | |]; cbn [DrawPrompt_event] in H;
    [|exact (Hre _ _ _ H)|exact (Hre _ _ _ H)|done|by injection H as <- <-].
  destruct key; try exact (Hre _ _ _ H); try done; try (by injection H as <- <-).
  - destruct (ch <=? 256); [exact (Hre _ _ _ H)|by injection H as <- <-].
  - injection H as <- <-. apply main_state_ok; [done|tauto].
  - destruct (as_DocModel app) eqn:Hd; [|by injection H as <- <-].
    injection H as <- <-. apply main_state_ok; [done|]. right; right; right; right. by rewrite Hd.
  - apply bind_Ok_inv in H as ([app1 ef1] & H & [= <- <-]). split; [|done]. by eapply doAction_ok.
Qed.

Lemma main_turn_ok app width height p' ef :
  program_ok (mkProgram app MainLoop) → main_turn order range app width height = Ok (p', ef) → program_ok p'.
Proof.
  intros [Ha _] H. cbn [pr_app] in Ha. unfold main_turn in H.
  destruct (Z.eqb_spec (as_State app) STATE_EXIT) as [Hx|Hx].
  { apply bind_Ok_inv in H as ([nm e] & _ & [= <- <-]). split; [|done]. by apply (ok_same app _ MainLoop). }
  destruct (Z.eqb_spec (as_State app) STATE_DOCUMENT) as [Hd|Hd].
  - unfold DrawEditor_start in H.
    apply bind_Ok_inv in H as (app1 & (m & buf & Hm & _ & ->)%on_buffer_inv & (y & -> & _)%redraw_inv).
    by apply (edited_ok app m _ y width height).
  - apply bind_Ok_inv in H as ([app1 prompt] & Hp & ->%reprompt_inv). unfold Gui.getPrompt in Hp.
    assert (asking app) as Hask by (destruct (so_known _ Ha) as [?|[?|?]]; done).
    destruct (in_menu app) eqn:Hm.
    { injection Hp as <- <-. destruct Ha. by split. }
    assert (app1 = app) as ->.
    { destruct (as_State app =? STATE_CONNECT); [congruence|]. destruct (as_State app =? STATE_ERROR); [|done].
      apply bind_Ok_inv in Hp as (err & _ & Hp). congruence. }
    split; [done|]. split; [done|]. cbn [pr_app]. congruence.
Qed.

Lemma program_step_ok p p' : program_ok p → program_step p p' → program_ok p'.
Proof.
  destruct p as [app screen]. intros Hp Hs.
  destruct Hs as [w h p' ef Hc H|w h ev p' ef Hc H|prompt w h o uuid now ev p' ef Hc H|op app' H|nm];
    cbn [pr_app pr_screen] in *; subst.
  - by eapply main_turn_ok.
  - by eapply DrawEditor_ok.
  - by eapply DrawPrompt_ok.
  - unfold RemoteOpHandler_next in H. apply bind_Ok_inv in H as (m & Hm%require_Ok_inv & H).
    apply bind_Ok_inv in H as (m' & _ & [= <-]). apply (ok_same app); [done..| |done].
    cbn [set_DocModel as_DocModel]. rewrite Hm. by split.
  - by apply (ok_same app).
Qed.

(** The program starts with its menu when it has its arguments and can listen,
    under the last argument as its address; else it exits. It never panics. *)
Lemma editor_main_starts o args :
  is_pool_order order →
  if out_listens o && ((zlen args =? 2) || (zlen args =? 3)) then
    ∃ nm ts, editor_main order o args = Ok (Some (StartMainLoop nm, ts)) ∧ last args = Some (nm_publicAddr nm)
  else editor_main order o args = Ok None.
Proof.
  intros Ho.
  assert (∀ addr, ∃ nm ts, NewNetworkManager order o addr =
    Ok (if out_listens o then Some (nm, ts) else None) ∧ nm_publicAddr nm = addr) as Hnew.
  { intros addr. unfold NewNetworkManager, startNewSessionOnNetworkManager. destruct (out_listens o).
    - unfold handleNewSession. cbn [nm_pool np_pool set_netMeta newNodePool].
      assert (order ∅ = []) as -> by (apply Permutation_nil_r; rewrite (Ho ∅), map_to_list_empty; done).
      cbn [foldM]. rewrite !bind_Ok. by eexists _, _.
    - rewrite bind_Ok. by exists (mkManager [] addr newNodePool None), []. }
  assert (∀ x0 args addr, editor_main order o (x0 :: args) =
      (nm ← NewNetworkManager order o addr;
       match nm with None => Ok None | Some (nm, ts) => Ok (Some (StartMainLoop nm, ts)) end) →
    if out_listens o then
      ∃ nm ts, editor_main order o (x0 :: args) = Ok (Some (StartMainLoop nm, ts)) ∧ Some addr = Some (nm_publicAddr nm)
    else editor_main order o (x0 :: args) = Ok None) as Hmain.
  { intros x0 args' addr ->. destruct (Hnew addr) as (nm & ts & -> & E). rewrite bind_Ok.
    destruct (out_listens o); [|done]. exists nm, ts. by rewrite E. }
  destruct args as [|x0 [|x1 [|x2 [|x3 args]]]]; try (by rewrite andb_false_r).
  - rewrite andb_true_r. by apply (Hmain x0 [x1] x1).
  - rewrite andb_true_r. by apply (Hmain x0 [x1; x2] x2).
  - unfold editor_main. set (n := zlen _). assert (4 ≤ n) by (unfold n, zlen; cbn [length]; lia).
    replace (n =? 2) with false by lia. replace (n =? 3) with false by lia. rewrite andb_false_r.
    replace (n >? 3) with true by lia. by rewrite orb_true_r.
Qed.

(** C19: The states of the interface are well formed. Whatever keys are typed,
    however the terminal is resized and whatever other threads do in between:
    the state is one of the six that are declared; the editor is only on the
    screen with an open document, so that it never dereferences a nil one; the
    options of the menu are those the user sees, so that no number is out of
    range; and the prompt of every state that needs one can be made, so the
    panic for an unknown state and the assertion that there is an error are
    never reached. *)
Theorem interface_invariant manager p :
  rtc program_step (StartMainLoop manager) p →
  let app := pr_app p in
  (asking app ∨ as_State app = STATE_EXIT ∨ as_State app = STATE_DOCUMENT) ∧
  match pr_screen p with
  | MainLoop => as_State app ≠ STATE_EXIT →
      if decide (as_State app = STATE_DOCUMENT) then is_Some (as_DocModel app)
      else ∃ r, getPrompt app = Ok r
  | Editing _ _ => as_State app = STATE_DOCUMENT ∧ is_Some (as_DocModel app)
  | Prompting _ _ _ => asking app ∧ (in_menu app = true → as_MenuOptions app = menu_options app)
  | Finished => as_State app = STATE_EXIT
  end.
Proof.
  intros Hr. assert (program_ok p) as [Ha Hs].
  { assert (program_ok (StartMainLoop manager)) as H0.
    { split; [|done]. split; [|done..]. left. unfold asking. set_solver. }
    induction Hr as [|p1 p2 p3 Hstep _ IH]; [done|]. apply IH. by eapply program_step_ok. }
  destruct p as [app screen]. cbn [pr_app pr_screen] in *. split; [apply Ha|].
  destruct screen; [|by split; [|apply Ha]|done|done]. intros Hx.
  case_decide as Hd; [by apply Ha|]. destruct (so_known _ Ha) as [Hask|[?|?]]; [|done..].
  unfold Gui.getPrompt. destruct (in_menu app) eqn:Hm; [by eexists|].
  apply asking_cases in Hask as [?|[->|He]]; [congruence|by eexists|].
  destruct (so_error _ Ha He) as [err ->]. rewrite He. by eexists.
Qed.
End Props.

(** ** The screen *)

(** What a line looks like, character by character. *)
Definition expand (bytes : list byte) : list byte :=
  concat (map (λ ch, if decide (ch = char_tab) then replicate 4 char_space
                     else if decide (ch = char_newline) then [] else [ch]) bytes).

(** Characters next to each other from column [x] of row [y]. *)
Fixpoint cells_at (y x : Z) (chs : list byte) : list cell :=
  match chs with
  | [] => []
  | ch :: chs => mkCell x y ch :: cells_at y (x + 1) chs
  end.

(** What is drawn in a row, from left to right. *)
Definition row (y : Z) (cells : list cell) : list byte := cl_ch <$> filter (λ c, cl_y c = y) cells.

Lemma cells_at_app y x l1 l2 : cells_at y x (l1 ++ l2) = cells_at y x l1 ++ cells_at y (x + zlen l1) l2.
Proof.
  revert x. induction l1 as [|ch l1 IH]; intros x; cbn [cells_at app].
  - f_equal. unfold zlen. simpl. lia.
  - rewrite IH. do 3 f_equal. unfold zlen. cbn [length]. lia.
Qed.

Lemma draw_bytes_cells y x bytes : draw_bytes y x bytes = cells_at y x (expand bytes).
Proof.
  revert x. induction bytes as [|ch bytes IH]; intros x; [done|].
  cbn [draw_bytes]. unfold expand. cbn [map concat]. fold (expand bytes). rewrite cells_at_app.
  repeat case_decide; subst; try done; rewrite IH.
  - cbn [map replicate cells_at app]. rewrite Z.add_0_r.
    replace (x + 1 + 1) with (x + 2) by lia. by replace (x + 2 + 1) with (x + 3) by lia.
  - done.
  - cbn [cells_at app]. unfold zlen. simpl. by rewrite Z.add_0_r.
Qed.

Lemma expand_length bytes : zlen (expand bytes) = sliceLength bytes.
Proof.
  induction bytes as [|ch bytes IH]; [done|].
  change (ch :: bytes) with ([ch] ++ bytes). rewrite sliceLength_app. unfold expand. cbn [app map concat].
  fold (expand bytes). rewrite zlen_app, IH. f_equal. unfold sliceLength, charLength. simpl.
  repeat case_decide; subst; try done; lia.
Qed.

Lemma cells_at_inside y x chs c : c ∈ cells_at y x chs → x ≤ cl_x c < x + zlen chs ∧ cl_y c = y.
Proof.
  revert x. induction chs as [|ch chs IH]; intros x; [by intros ?%elem_of_nil|].
  unfold zlen in *. cbn [cells_at length]. intros [->|H]%elem_of_cons; [cbn [cl_x cl_y]; lia|].
  apply IH in H. lia.
Qed.

Lemma row_cells_at y y' x chs : row y (cells_at y' x chs) = if decide (y' = y) then chs else [].
Proof.
  unfold row. revert x. induction chs as [|ch chs IH]; intros x; cbn [cells_at]; [by case_decide|].
  rewrite filter_cons. cbn [cl_y]. specialize (IH (x + 1)). case_decide; [|done]. cbn [fmap list_fmap cl_ch]. by rewrite IH.
Qed.

Lemma draw_from_spec width height y lines :
  Forall (λ line, sliceLength line ≤ width) lines →
  Forall (λ c, 0 ≤ cl_x c < width ∧ y ≤ cl_y c < height) (draw_from height y lines) ∧
  ∀ i, row i (draw_from height y lines) =
    if decide (y ≤ i < height) then expand (default [] (lines !! Z.to_nat (i - y))) else [].
Proof.
  revert y. induction lines as [|line lines IH]; intros y HF; cbn [draw_from].
  { split; [constructor|]. intros i. case_decide; done. }
  apply Forall_cons in HF as [Hl HF]. destruct (Z.ltb_spec y height) as [Hlt|Hge].
  2:{ split; [constructor|]. intros i. rewrite decide_False by lia. done. }
  destruct (IH (y + 1) HF) as [H1 H2]. rewrite draw_bytes_cells. split.
  - apply Forall_app. split.
    + apply Forall_forall. intros c Hc%cells_at_inside. rewrite expand_length in Hc. lia.
    + eapply Forall_impl; [exact H1|]. intros c. simpl. lia.
  - intros i. unfold row. rewrite filter_app, fmap_app. change (row i (cells_at y 0 (expand line)) ++
      row i (draw_from height (y + 1) lines) = if decide (y ≤ i < height)
        then expand (default [] ((line :: lines) !! Z.to_nat (i - y))) else []).
    rewrite row_cells_at, H2. destruct (decide (y = i)) as [->|Hne].
    + rewrite decide_False, decide_True, Z.sub_diag by lia. by rewrite app_nil_r.
    + case_decide as Hd; [rewrite decide_True by lia|rewrite decide_False by lia; done].
      replace (Z.to_nat (i - y)) with (S (Z.to_nat (i - (y + 1)))) by lia. done.
Qed.

(** C20: The editor draws its lines and nothing outside the window. For a well
    formed buffer of a window one column wider, as [DrawEditor] makes it, each
    row of the screen shows the line at that place, with its tabs as four
    blanks, from column 0; every cell is inside the window, and so is the
    cursor, which is on its line. *)
Theorem editor_draws_lines app m text screenY height :
  as_DocModel app = Some m → buf_ok text (dm_Buffer m) → 0 ≤ screenY → 1 ≤ height →
  let buf := dm_Buffer m in
  ∃ top frame x y, redrawEditor app screenY height = Ok (top, frame) ∧
    fr_cursor frame = Some (x, y) ∧ 0 ≤ x < bf_width buf + 1 ∧ 0 ≤ y < height ∧ top + y = bf_currentY buf ∧
    Forall (λ c, 0 ≤ cl_x c < bf_width buf ∧ 0 ≤ cl_y c < height) (fr_cells frame) ∧
    ∀ i, 0 ≤ i < height →
      row i (fr_cells frame) = expand (default [] (bf_lines buf !! Z.to_nat (top + i))).
Proof.
  intros Hm Hok Hs Hh buf. destruct (GetDisplayInformation_visible text buf screenY height Hok Hs Hh)
    as (top & x & y & first & HG & -> & Hy & Htop & Hx).
  assert (Forall (λ line, sliceLength line ≤ bf_width buf) (drop first (bf_lines buf))) as HF.
  { apply Forall_drop. destruct Hok as [[_ [_ HF _] _ _] _]. eapply Forall_impl; [exact HF|]. by intros line [_ ?]. }
  destruct (draw_from_spec _ height 0 _ HF) as [H1 H2].
  exists (Z.of_nat first), (mkFrame (drawLines (drop first (bf_lines buf)) height) (Some (x, y))), x, y.
  unfold redrawEditor. rewrite Hm, require_Some, bind_Ok. fold buf. rewrite HG, bind_Ok.
  split_and!; try done; try lia. intros i Hi. cbn [fr_cells]. unfold drawLines. rewrite H2, decide_True by lia.
  rewrite lookup_drop. do 3 f_equal. lia.
Qed.

(** The prompt is drawn within the window: its text and the input fit, on
    lines of the width, and the cursor is set only when its row is visible. *)
Theorem prompt_draws_within prompt width height :
  5 ≤ width → ∃ frame lines, redrawPrompt prompt width height = Ok frame ∧
    concat lines = pr_text prompt ++ Prompt_ToString prompt ∧
    Forall (λ c, 0 ≤ cl_x c < width - 1 ∧ 0 ≤ cl_y c < height) (fr_cells frame) ∧
    (∀ i, 0 ≤ i < height → row i (fr_cells frame) = expand (default [] (lines !! Z.to_nat i))) ∧
    (∀ x y, fr_cursor frame = Some (x, y) → 0 ≤ x < width ∧ 0 ≤ y < height).
Proof.
  intros Hw. destruct (Prompt_display prompt (width - 1) height) as (x & y & lines & line & HG & Hc & HF & Hl & Hy & Hx); [lia|].
  destruct (draw_from_spec _ height 0 _ HF) as [H1 H2].
  exists (mkFrame (drawLines lines height) (if y <? height then Some (x, y) else None)), lines.
  unfold redrawPrompt. rewrite HG, bind_Ok. split_and!; try done.
  - intros i Hi. cbn [fr_cells]. unfold drawLines. rewrite H2, decide_True by lia. by rewrite Z.sub_0_r.
  - cbn [fr_cursor]. intros x' y'. destruct (Z.ltb_spec y height); [|done]. intros [= <- <-].
    apply Forall_lookup_1 with (i := Z.to_nat y) (x := line) in HF; [|done].
    pose proof (sliceLength_nonneg line). apply lookup_lt_Some in Hl. unfold zlen in Hy. lia.
Qed.

(** ** The theorems at a concrete program *)

Definition sample_manager : NetworkManager := mkManager (txt "id") (txt "127.0.0.1:2020") newNodePool None.
Definition sample_app : appState := pr_app (StartMainLoop sample_manager).
Definition no_outside : outside := mkOutside (txt "session") true true 0 [] (txt "error").
Definition sample_uuid : str := txt "6ba7b810-9dad-11d1-80b4-00c04fd430c8".
Definition no_json : NetMeta → list byte := λ _, [].
Definition no_number : str → str := λ _, txt "invalid syntax".

Lemma menu_does_what_it_shows_witness :
  ∃ app', doAction map_to_list no_json no_number no_outside sample_uuid 80 app' (txt "2") =
      Ok (set_State STATE_EXIT app', nothing) ∧
    doAction map_to_list no_json no_number no_outside sample_uuid 80 app' (txt "x") =
      Ok (set_State STATE_MENU_RETRY app', nothing).
Proof.
  destruct (menu_does_what_it_shows map_to_list map_to_list no_json no_number sample_app no_outside sample_uuid 80 eq_refl)
    as (app' & rest & _ & _ & Hno & _ & Hbad).
  exists app'. split; [exact (proj2 (Hno eq_refl))|]. apply Hbad. left. reflexivity.
Defined.

Definition reversed_range : range_order := λ m, reverse (map_to_list m).

Lemma prompt_ignores_range_witness : Gui.getPrompt map_to_list sample_app = Gui.getPrompt reversed_range sample_app.
Proof.
  apply (prompt_ignores_range map_to_list sample_app reversed_range).
  - intros m. reflexivity.
  - intros m. apply reverse_Permutation.
Defined.

(** One command of a run: a turn of the main loop, or an event. *)
Definition gui_exec (p : program) (ev : option Event) : res program :=
  match pr_screen p, ev with
  | MainLoop, None => '(p, _) ← main_turn map_to_list map_to_list (pr_app p) 40 10; Ok p
  | Editing width height, Some ev => '(p, _) ← DrawEditor_event (pr_app p) width height ev; Ok p
  | Prompting prompt width height, Some ev =>
      '(p, _) ← DrawPrompt_event map_to_list no_json no_number no_outside sample_uuid 40 (pr_app p) prompt width height ev;
      Ok p
  | _, _ => Panic ExplicitPanic
  end.

Lemma gui_exec_step p ev p' : gui_exec p ev = Ok p' → program_step map_to_list map_to_list no_json no_number p p'.
Proof.
  unfold gui_exec. destruct (pr_screen p) eqn:Hp, ev as [ev|]; try done;
    intros ([p1 ef] & H & [= <-])%bind_Ok_inv.
  - by eapply step_turn.
  - by eapply step_editor.
  - by eapply step_prompt.
Qed.

(** Opening a document and typing a letter. *)
Definition sample_events : list (option Event) :=
  [None; Some (EventKey NoKey 49); Some (EventKey KeyEnter 0); None; Some (EventKey NoKey 97)].

Definition sample_program : program :=
  or_else (StartMainLoop sample_manager) (foldM gui_exec (StartMainLoop sample_manager) sample_events).

Lemma gui_exec_all p evs p' :
  foldM gui_exec p evs = Ok p' → rtc (program_step map_to_list map_to_list no_json no_number) p p'.
Proof.
  revert p. induction evs as [|ev evs IH]; intros p; [intros [= ->]; apply rtc_refl|].
  cbn [foldM]. intros (p1 & H1%gui_exec_step & H)%bind_Ok_inv. by eapply rtc_l; [|apply IH].
Qed.

Lemma sample_program_run :
  rtc (program_step map_to_list map_to_list no_json no_number) (StartMainLoop sample_manager) sample_program.
Proof. eapply gui_exec_all. apply or_else_Ok. vm_compute. reflexivity. Qed.

Lemma interface_invariant_witness :
  pr_screen sample_program = Editing 40 10 ∧ is_Some (as_DocModel (pr_app sample_program)).
Proof.
  assert (pr_screen sample_program = Editing 40 10) as E by (vm_compute; reflexivity).
  pose proof (interface_invariant map_to_list map_to_list no_json no_number sample_manager sample_program
    sample_program_run) as [_ H].
  rewrite E in H. split; [exact E|exact (proj2 H)].
Defined.

Definition sample_document : DocumentModel :=
  mkDocumentModel [] 0 0 NewDocument sample_buffer NewLog NewQueue true.

Lemma editor_draws_lines_witness :
  ∃ top frame, redrawEditor (set_DocModel (Some sample_document) sample_app) 0 3 = Ok (top, frame) ∧
    row 0 (fr_cells frame) = expand (default [] (bf_lines sample_buffer !! Z.to_nat (top + 0))).
Proof.
  destruct (editor_draws_lines (set_DocModel (Some sample_document) sample_app) sample_document hello_world 0 3
    eq_refl sample_buffer_ok ltac:(lia) ltac:(lia)) as (top & frame & x & y & H & _ & _ & _ & _ & _ & Hrow).
  exists top, frame. split; [exact H|]. apply Hrow. lia.
Defined.

Lemma prompt_draws_within_witness :
  ∃ frame, redrawPrompt (NewPrompt (txt "Enter ip to connect to: ")) 10 2 = Ok frame ∧
    Forall (λ c, 0 ≤ cl_x c < 10 - 1 ∧ 0 ≤ cl_y c < 2) (fr_cells frame).
Proof.
  destruct (prompt_draws_within (NewPrompt (txt "Enter ip to connect to: ")) 10 2 ltac:(lia))
    as (frame & lines & H & _ & Hin & _).
  by exists frame.
Defined.
