(* ===== verification/GuiSync.v ===== *)
(** The terminal interface on top of the sites that catch up: what the user
    does and what the handlers do are steps of that system, over the wire
    format (CPSC418/project/gui, with documentmanager/remoteop.go). *)
From Stdlib Require Import Strings.String.
From S2P Require Import Prelude Json GoText Common Version BufferOp Buffer Prompt Treedoc OperationLog OperationQueue DocumentModel DocumentWire DocumentSync NetMeta NodePool Session Handshake Manager Gui GuiProps EditorSystem EditorConverges OperationCopies EditorSync EditorCatchUp.

Open Scope Z_scope.

(** The network after a site's document changed and broadcast. *)
Definition moved (net : network) (s : SiteId) (m : DocumentModel) (op : option RemoteOperation) : network :=
  mkNetwork (<[s := m]> (nw_models net)) (nw_sent net ++ option_list op) (nw_asked net) (nw_replies net).

Lemma moved_same net s m : nw_models net !! s = Some m → moved net s m None = net.
Proof. intros Hs. unfold moved. rewrite insert_id, app_nil_r by done. by destruct net. Qed.

Lemma moved_set net s m : moved net s m None = set_model s m net.
Proof. unfold moved, set_model. by rewrite app_nil_r. Qed.

(** ** Events of the editor *)

Section Editor.
Context (net : network) (s : SiteId) (app : appState) (m : DocumentModel).
Hypothesis Happ : as_DocModel app = Some m.
Hypothesis Hs : nw_models net !! s = Some m.

(** The screen still shows the document of the site, which took a step. *)
Definition site_moved (p' : program) (ef : effects) : Prop :=
  ∃ m', as_DocModel (pr_app p') = Some m' ∧ rtc sync_step net (moved net s m' (ef_operation ef)).

Lemma stays_moved p' ef : as_DocModel (pr_app p') = Some m → ef_operation ef = None → site_moved p' ef.
Proof using Hs. intros Hd He. exists m. rewrite He, moved_same by done. by split; [|apply rtc_refl]. Qed.

Lemma cursor_moved ev width height p' ef :
  (app ← on_buffer (run_cursor ev) app; redraw None width height app) = Ok (p', ef) → site_moved p' ef.
Proof using Happ Hs.
  intros (app1 & (m0 & buf & Hm & Hb & ->)%on_buffer_inv & (y & -> & He)%redraw_inv)%bind_Ok_inv.
  rewrite Happ in Hm. injection Hm as <-. eexists. split; [reflexivity|].
  rewrite He, moved_set. apply rtc_once. by eapply sync_cursor.
Qed.

Lemma resize_moved width height p' ef :
  5 ≤ width → (app ← on_buffer (λ buf, Resize buf (width - 1)) app; redraw None width height app) = Ok (p', ef) →
  site_moved p' ef.
Proof using Happ Hs.
  intros Hw (app1 & (m0 & buf & Hm & Hb & ->)%on_buffer_inv & (y & -> & He)%redraw_inv)%bind_Ok_inv.
  rewrite Happ in Hm. injection Hm as <-. eexists. split; [reflexivity|].
  rewrite He, moved_set. apply rtc_once. eapply sync_resize; [done| |done]. lia.
Qed.

Lemma edit_moved ev width height p' ef :
  dm_OpVersion m + 1 < w32 → dm_NodeIdClock m + 1 < w32 →
  ('(app, op) ← on_document (run_local ev) app; redraw op width height app) = Ok (p', ef) → site_moved p' ef.
Proof using Happ Hs.
  intros Hv Hc ([app1 op] & (m0 & m1 & Hm & Hb & ->)%on_document_inv & (y & -> & He)%redraw_inv)%bind_Ok_inv.
  rewrite Happ in Hm. injection Hm as <-. eexists. split; [reflexivity|].
  rewrite He. apply rtc_once. by eapply sync_local.
Qed.

Lemma editor_event_moved width height ev p' ef :
  dm_OpVersion m + 1 < w32 → dm_NodeIdClock m + 1 < w32 →
  (∀ w h, ev = EventResize w h → 5 ≤ w) →
  DrawEditor_event app width height ev = Ok (p', ef) → site_moved p' ef.
Proof using Happ Hs.
  intros Hv Hc Hw H. destruct ev as [key ch|w h| | |]; cbn [DrawEditor_event] in H.
  - assert (∀ e, ('(app, op) ← on_document (run_local e) app; redraw op width height app) = Ok (p', ef) →
      site_moved p' ef) as Hedit by (intros e; by apply edit_moved).
    destruct key; try done.
    + destruct (ch <=? 256); [exact (Hedit (TypeChar (byte_of ch)) H)|injection H as <- <-; by apply stays_moved].
    + injection H as <- <-. by apply stays_moved.
    + injection H as <- <-. by apply stays_moved.
    + exact (cursor_moved KeyLeft _ _ _ _ H).
    + exact (cursor_moved KeyRight _ _ _ _ H).
    + exact (cursor_moved KeyUp _ _ _ _ H).
    + exact (cursor_moved KeyDown _ _ _ _ H).
    + exact (Hedit Backspace H).
    + exact (Hedit Backspace H).
    + exact (Hedit DeleteKey H).
    + exact (Hedit (TypeChar char_space) H).
    + exact (Hedit (TypeChar char_tab) H).
    + exact (Hedit (TypeChar char_newline) H).
    + injection H as <- <-. by apply stays_moved.
  - apply (resize_moved w h); [by eapply Hw|done].
  - apply redraw_inv in H as (y & -> & He). by apply stays_moved.
  - done.
  - injection H as <- <-. by apply stays_moved.
Qed.

Lemma editor_opens_moved order range width height p' ef :
  as_State app = STATE_DOCUMENT → 5 ≤ width → main_turn order range app width height = Ok (p', ef) → site_moved p' ef.
Proof using Happ Hs. intros Hst H5 H. unfold main_turn in H. rewrite Hst in H. exact (resize_moved _ _ _ _ H5 H). Qed.

(** C12: What the user does in the editor is a step of the site: every key and
    every resize to at least five columns leaves the document on the screen as
    one step of the site makes it, or as it was, and hands the operation of
    that step, if any, to the broadcaster. Opening the editor likewise. *)
Theorem editor_events_are_steps order range width height ev p' ef :
  dm_OpVersion m + 1 < w32 → dm_NodeIdClock m + 1 < w32 →
  (∀ w h, ev = EventResize w h → 5 ≤ w) →
  (DrawEditor_event app width height ev = Ok (p', ef) → site_moved p' ef) ∧
  (as_State app = STATE_DOCUMENT → 5 ≤ width → main_turn order range app width height = Ok (p', ef) → site_moved p' ef).
Proof using Happ Hs.
  intros Hv Hc Hw. split; [by apply editor_event_moved|apply editor_opens_moved].
Qed.
End Editor.

(** ** The handlers *)

Lemma handler_next_inv app op app' m :
  as_DocModel app = Some m → RemoteOpHandler_next app op = Ok app' →
  ∃ m', ApplyRemoteOperation m op = Ok m' ∧ app' = set_DocModel (Some m') app.
Proof.
  unfold RemoteOpHandler_next. intros Hm (m0 & Hm0%require_Ok_inv & H)%bind_Ok_inv.
  rewrite Hm in Hm0. injection Hm0 as <-. apply bind_Ok_inv in H as (m' & ? & [= <-]). by exists m'.
Qed.

(** C13: The handlers that the network calls are the steps of catching up. A
    site's question is its vector as text; the other site's handler for it
    answers with the operations it misses, or with nothing when there are
    none; the handler of the first decodes exactly those operations. Applying
    one of them, or a broadcast operation, is a step as well. *)
Theorem handlers_are_steps `{JsonLaws VersionVectorJson validv, JsonLaws (list RemoteOperationJson) valid}
    zero_json zero_op net a b appa appb ma mb :
  nw_models net !! a = Some ma → nw_models net !! b = Some mb →
  as_DocModel appa = Some ma → as_DocModel appb = Some mb →
  vector_sites (GetVersionVectorReceived ma) → validv (ToJsonable (GetVersionVectorReceived ma)) →
  (∀ ops queueOps, GetMissingOperations mb (GetVersionVectorReceived ma) = Ok (ops, queueOps) →
     Forall (λ op, vector_sites (ro_Vector op)) (ops ++ queueOps) ∧ valid (operation_json <$> (ops ++ queueOps))) →
  ∃ data reply sent ops,
    GetOpsReceiveVersion appa = Some data ∧
    VersionCheckHandler zero_json appb data = Ok (reply, sent) ∧
    (if (sent : bool) then RemoteOpHandler_start zero_op appa reply = Ok ops else ops = []) ∧
    (let asked := mkNetwork (nw_models net) (nw_sent net)
       ((a, GetVersionVectorReceived ma) :: nw_asked net) (nw_replies net) in
     let answered := mkNetwork (nw_models net) (nw_sent net) (nw_asked asked)
       (mkReply a ops (lg_Vector (dm_Log mb)) :: nw_replies net) in
     sync_step net asked ∧ sync_step asked answered ∧
     ∀ op rest app', ops = op :: rest → RemoteOpHandler_next appa op = Ok app' →
       ∃ m', as_DocModel app' = Some m' ∧ sync_step answered
         (mkNetwork (<[a := m']> (nw_models net)) (nw_sent net) (nw_asked asked)
            (mkReply a rest (lg_Vector (dm_Log mb)) :: nw_replies net))) ∧
    (∀ op app', op ∈ nw_sent net → RemoteOpHandler_next appa op = Ok app' →
       ∃ m', as_DocModel app' = Some m' ∧ sync_step net (set_model a m' net)).
Proof.
  intros Ha Hb Hda Hdb Hsites Hv Hops.
  assert (∃ ops queueOps, GetMissingOperations mb (GetVersionVectorReceived ma) = Ok (ops, queueOps)) as (ops & queueOps & HG).
  { unfold GetMissingOperations. destruct (Compare _ _); rewrite ?log_GetMissingOperations_ok, ?bind_Ok; by eexists _, _. }
  destruct (Hops _ _ HG) as [Hs2 Hv2].
  assert (UnmarshalJSON (MarshalJSON (GetVersionVectorReceived ma)) = (false, Some (GetVersionVectorReceived ma))) as HU.
  { unfold UnmarshalJSON, MarshalJSON. rewrite Unmarshal_Marshal by done. by rewrite FromVersionVectorJson_ToJsonable. }
  assert (∃ slice, RemoteOperationsToSlice zero_json (ops ++ queueOps) = Ok slice ∧
    RemoteOperationsFromSlice zero_op slice = Ok (ops ++ queueOps)) as (slice & HT & HF).
  { by apply slices_roundtrip. }
  exists (MarshalJSON (GetVersionVectorReceived ma)), (if zlen (ops ++ queueOps) >? 0 then slice else []),
    (zlen (ops ++ queueOps) >? 0), (ops ++ queueOps).
  split_and!.
  - unfold GetOpsReceiveVersion. by rewrite Hda.
  - unfold VersionCheckHandler. rewrite HU, Hdb, HG, bind_Ok. destruct (_ >? 0); [by rewrite HT|done].
  - destruct (zlen (ops ++ queueOps) >? 0) eqn:E; [unfold RemoteOpHandler_start; by rewrite Hda|].
    destruct (ops ++ queueOps) as [|op l]; [done|]. rewrite Z.gtb_ltb, Z.ltb_ge in E. unfold zlen in E. simpl in E. lia.
  - intros asked answered. split; [|split].
    + by apply sync_ask.
    + eapply (sync_answer asked b mb a); [done|by left|done].
    + intros op rest app' Hor Hn. destruct (handler_next_inv _ _ _ _ Hda Hn) as (m' & HA & ->).
      exists m'. split; [done|]. eapply (sync_apply answered a ma op rest); [done| |done].
      unfold answered. by rewrite Hor.
  - intros op app' Hin Hn. destruct (handler_next_inv _ _ _ _ Hda Hn) as (m' & HA & ->).
    exists m'. split; [done|]. by eapply sync_receive.
Qed.

(** ** The theorems at two sites *)

Definition first_model : DocumentModel := st_model (fresh_site site1 8).
Definition first_app : appState := set_State STATE_DOCUMENT (set_DocModel (Some first_model) sample_app).

(** Typing a letter into the empty document. *)
Definition typed : program * effects :=
  or_else (StartMainLoop sample_manager, nothing) (DrawEditor_event first_app 9 5 (EventKey NoKey 97)).

Lemma editor_events_are_steps_witness :
  ∃ m', as_DocModel (pr_app typed.1) = Some m' ∧
    rtc sync_step two_models (moved two_models site1 m' (ef_operation typed.2)).
Proof.
  assert (DrawEditor_event first_app 9 5 (EventKey NoKey 97) = Ok typed) as E.
  { apply or_else_Ok. vm_compute. reflexivity. }
  destruct (editor_events_are_steps two_models site1 first_app first_model eq_refl eq_refl map_to_list map_to_list
    9 5 (EventKey NoKey 97) typed.1 typed.2 eq_refl eq_refl ltac:(discriminate)) as [H _].
  apply H. rewrite E. by destruct typed.
Defined.

(** The second site has typed a letter that the first has not seen. *)
Definition second_model : DocumentModel :=
  (or_else (st_model (fresh_site site2 12), None) (run_local (TypeChar x61) (st_model (fresh_site site2 12)))).1.
Definition second_app : appState := set_State STATE_DOCUMENT (set_DocModel (Some second_model) sample_app).
Definition second_typed : network := set_model site2 second_model two_models.

Definition missed : list RemoteOperation :=
  let '(ops, queueOps) := or_else ([], []) (GetMissingOperations second_model (GetVersionVectorReceived first_model)) in ops ++ queueOps.

Lemma vector_sites_check v :
  forallb (λ p : SiteId * Z, (length p.1 =? 16)%nat) (map_to_list v) = true → vector_sites v.
Proof.
  rewrite forallb_forall. intros H id [n Hn]. unfold site_id_wf. apply Nat.eqb_eq, (H (id, n)).
  by apply list_elem_of_In, elem_of_map_to_list.
Qed.

Lemma missed_some : length missed = 1%nat.
Proof. vm_compute. reflexivity. Qed.

Lemma missed_sites : Forall (λ op, vector_sites (ro_Vector op)) missed.
Proof.
  assert (forallb (λ op, forallb (λ p : SiteId * Z, (length p.1 =? 16)%nat) (map_to_list (ro_Vector op))) missed = true) as H
    by (vm_compute; reflexivity).
  rewrite forallb_forall in H. apply Forall_forall. intros op Hop. apply vector_sites_check, H.
  by apply list_elem_of_In.
Qed.

Lemma handlers_are_steps_witness :
  let _ := counted_json (A := VersionVectorJson) ∅ in
  let _ := counted_json (A := list RemoteOperationJson) [] in
  ∃ data reply sent ops, GetOpsReceiveVersion first_app = Some data ∧
    VersionCheckHandler zero_operation_json second_app data = Ok (reply, sent) ∧
    (if (sent : bool) then RemoteOpHandler_start wire_op first_app reply = Ok ops else ops = []).
Proof.
  intros jv jl.
  destruct (@handlers_are_steps jv _ (counted_json_laws _) jl _ (counted_json_laws _) zero_operation_json wire_op
    second_typed site1 site2 first_app second_app first_model second_model) as (data & reply & sent & ops & H1 & H2 & H3 & _).
  - reflexivity.
  - reflexivity.
  - reflexivity.
  - reflexivity.
  - apply vector_sites_check. vm_compute. reflexivity.
  - done.
  - intros ops queueOps HG. split; [|done].
    replace (ops ++ queueOps) with missed; [exact missed_sites|]. unfold missed. rewrite HG. reflexivity.
  - by exists data, reply, sent, ops.
Defined.
