(* ===== verification/NetworkUpdates.v ===== *)
(** What updates of the metadata do to the pool of nodes. *)
From S2P Require Import Prelude NetMeta NodePool Session NetworkProps Handshake.

Open Scope Z_scope.

(** ** One change *)

Lemma remove_ok np id :
  pool_wf np →
  ∃ np', removeNodeFromPool np id = Ok np' ∧ pool_wf np' ∧ np_netMeta np' = np_netMeta np ∧
    np_pool np' = delete id (np_pool np).
Proof.
  intros Hwf. unfold removeNodeFromPool.
  destruct (np_pool np !! id) as [l|] eqn:Hl.
  2:{ exists np. split_and!; try done. by rewrite delete_id. }
  destruct (pool_ids _ Hwf _ _ Hl) as (n & Hn & Hid).
  unfold setState, pool_node. rewrite Hn, require_Some, bind_Ok.
  destruct (next_state (n_state n) nodeStateLeft) as [s ok]. rewrite bind_Ok.
  cbn [set_node np_nodes]. rewrite lookup_insert_eq, require_Some, bind_Ok. cbn [with_state n_conn].
  assert (∀ np1, np_nodes np1 = <[l := with_state s n]> (np_nodes np) → np_next np1 = np_next np →
    np_pool np1 = np_pool np → pool_wf (set_pool (delete id) np1)) as Hk.
  { intros np1 E1 E2 E3. split; cbn [set_pool np_pool np_nodes np_next]; rewrite ?E1, ?E2, ?E3.
    - intros id' l' [Hne Hl']%lookup_delete_Some.
      destruct (pool_ids _ Hwf _ _ Hl') as (n' & Hn' & Hid').
      destruct (decide (l = l')) as [<-|]; [|rewrite lookup_insert_ne by done; eauto].
      rewrite lookup_insert_eq. by simplify_eq.
    - intros l' Hl'. destruct (decide (l = l')) as [<-|].
      + apply (pool_fresh _ Hwf). eauto.
      + rewrite lookup_insert_ne in Hl' by done. by apply (pool_fresh _ Hwf). }
  destruct (n_conn n) as [c|] eqn:Hc.
  - unfold close. cbn [with_state n_conn]. rewrite Hc, require_Some, !bind_Ok.
    eexists. split; [done|]. split; [by apply Hk|done].
  - rewrite bind_Ok. eexists. split; [done|]. split; [by apply Hk|done].
Qed.

Lemma add_ok np id m :
  pool_wf np →
  let '(np', l) := addOrGetNodeFromPool np id m in
  pool_wf np' ∧ np_netMeta np' = np_netMeta np ∧ np_pool np' !! id = Some l ∧
  ∀ id', id' ≠ id → np_pool np' !! id' = np_pool np !! id'.
Proof.
  intros Hwf. unfold addOrGetNodeFromPool.
  destruct (np_pool np !! id) as [l|] eqn:Hl; [done|]. cbn. split_and!.
  - split; cbn.
    + intros id' l' [[<- <-]|[Hne Hl']]%lookup_insert_Some.
      * rewrite lookup_insert_eq. by eexists.
      * destruct (pool_ids _ Hwf _ _ Hl') as (n' & Hn' & Hid').
        assert (l' < np_next np)%nat by (apply (pool_fresh _ Hwf); eauto).
        rewrite lookup_insert_ne by lia. eauto.
    + intros l' Hl'. destruct (decide (np_next np = l')) as [<-|]; [lia|].
      rewrite lookup_insert_ne in Hl' by done. apply (pool_fresh _ Hwf) in Hl'. lia.
  - done.
  - apply lookup_insert_eq.
  - intros id' Hne. by apply lookup_insert_ne.
Qed.

Lemma apply_loop ps np nl :
  pool_wf np → NoDup ps.*1 →
  ∃ np' nl', foldM apply_change (np, nl) ps = Ok (np', nl') ∧ pool_wf np' ∧
    np_netMeta np' = np_netMeta np ∧ nl ⊆ nl' ∧
    ∀ id, match (list_to_map ps : NetMeta) !! id with
          | Some n => if Left n then np_pool np' !! id = None
                      else ∃ l, np_pool np' !! id = Some l ∧ l ∈ nl'
          | None => np_pool np' !! id = np_pool np !! id
          end.
Proof.
  revert np nl; induction ps as [|[id n] ps IH]; intros np nl Hwf Hnd; cbn [foldM].
  { exists np, nl. done. }
  apply NoDup_cons in Hnd as [Hid Hnd]. cbn [fmap list_fmap fst] in Hid.
  assert (∃ np1 nl1, apply_change (np, nl) (id, n) = Ok (np1, nl1) ∧ pool_wf np1 ∧
    np_netMeta np1 = np_netMeta np ∧ nl ⊆ nl1 ∧
    (if Left n then np_pool np1 !! id = None else ∃ l, np_pool np1 !! id = Some l ∧ l ∈ nl1) ∧
    ∀ id', id' ≠ id → np_pool np1 !! id' = np_pool np !! id')
    as (np1 & nl1 & -> & Hwf1 & Hm1 & Hnl1 & Hid1 & Hne1).
  { unfold apply_change. destruct (Left n).
    - destruct (remove_ok np id Hwf) as (np1 & -> & ? & ? & Hp). rewrite bind_Ok.
      exists np1, nl. rewrite Hp. split_and!; [done..| |].
      + apply lookup_delete_eq.
      + intros id' Hne. by apply lookup_delete_ne.
    - pose proof (add_ok np id n Hwf) as Ha. destruct (addOrGetNodeFromPool np id n) as [np1 l].
      destruct Ha as (? & ? & ? & ?). exists np1, (nl ++ [l]). split_and!; try done; [set_solver|].
      exists l. set_solver. }
  rewrite bind_Ok. destruct (IH np1 nl1 Hwf1 Hnd) as (np' & nl' & -> & Hwf' & Hm' & Hnl' & H).
  exists np', nl'. split_and!; [done|done|congruence|set_solver|].
  intros id'. cbn [list_to_map foldr fst snd]. specialize (H id').
  destruct (decide (id = id')) as [<-|Hne].
  - rewrite lookup_insert_eq. rewrite not_elem_of_list_to_map_1 in H by done. rewrite H.
    destruct (Left n); [done|]. destruct Hid1 as (l & ? & ?). exists l. set_solver.
  - rewrite lookup_insert_ne by done.
    destruct (list_to_map ps !! id') as [m|]; [done|]. by rewrite H, Hne1.
Qed.

(** ** Properties *)

(** The pool holds no node that is known to have left. *)
Definition pool_current (np : nodePool) : Prop :=
  ∀ id n, np_netMeta np !! id = Some n → Left n = true → np_pool np !! id = None.

(** C34: updates never fail: the metadata becomes the merge, the nodes reported
    to have left are out of the pool, the new ones are in it and returned, the
    others stay; so the pool never holds a node that is known to have left. *)
Theorem applyReceivedUpdates_applies range np updates :
  is_range range → pool_wf np → pool_current np →
  ∃ np' nl, applyReceivedUpdates range np updates =
      Ok (np', nl, delta_meta (np_netMeta np) updates,
          negb (bool_decide (delta_meta (np_netMeta np) updates = ∅))) ∧
    pool_wf np' ∧ pool_current np' ∧
    np_netMeta np' = merged_meta (np_netMeta np) updates ∧
    ∀ id, match delta_meta (np_netMeta np) updates !! id with
          | Some n => if Left n then np_pool np' !! id = None
                      else ∃ l, np_pool np' !! id = Some l ∧ l ∈ nl
          | None => np_pool np' !! id = np_pool np !! id
          end.
Proof.
  intros Hr Hwf Hcur. unfold applyReceivedUpdates. rewrite (merge_spec _ _ _ Hr).
  destruct (is_range_map range (delta_meta (np_netMeta np) updates) Hr) as [Hnd Hm].
  destruct (apply_loop (range (delta_meta (np_netMeta np) updates))
    (set_netMeta (merged_meta (np_netMeta np) updates) np) []) as (np' & nl & -> & Hwf' & Hm' & _ & H).
  - split; [exact (pool_ids _ Hwf)|exact (pool_fresh _ Hwf)].
  - done.
  - rewrite Hm in H. rewrite bind_Ok. exists np', nl. split_and!; try done.
    intros id n. rewrite Hm'. cbn [set_netMeta np_netMeta]. rewrite merged_meta_lookup.
    specialize (H id). rewrite delta_meta_lookup in H. cbn [set_netMeta np_pool] in H.
    intros Hid Hl. destruct (updates !! id) as [u|].
    + unfold join1, changes in *. destruct (np_netMeta np !! id) as [m|] eqn:Hmid; simplify_eq.
      * destruct (negb (Left m) && Left u) eqn:E.
        -- apply andb_true_iff in E as [_ E]. by rewrite E in H.
        -- rewrite H. by apply (Hcur id m).
      * by rewrite Hl in H.
    + rewrite H. by apply (Hcur id n).
Qed.

Lemma applyReceivedUpdates_applies_witness :
  ∃ np' nl, applyReceivedUpdates map_to_list sample_pool (newQuitNetMeta [x62] [x42]) =
    Ok (np', nl, delta_meta ∅ (newQuitNetMeta [x62] [x42]), true) ∧ np_pool np' !! [x62] = None.
Proof.
  assert (pool_current sample_pool) as Hc.
  { intros id n H. cbn [sample_pool np_netMeta] in H. by rewrite lookup_empty in H. }
  destruct (applyReceivedUpdates_applies map_to_list sample_pool (newQuitNetMeta [x62] [x42])
    map_to_list_range sample_pool_wf Hc) as (np' & nl & E & _ & _ & _ & H).
  exists np', nl. split; [exact E|]. exact (H [x62]).
Defined.

(** A connection brings back what updates took out: a node that is
    recorded as left can connect, is in the pool again, and no later update
    about it changes anything. *)
Theorem left_node_comes_back range np id addr conn m updates :
  is_range range → pool_wf np → pool_current np →
  np_netMeta np !! id = Some m → Left m = true →
  (∀ id' n, updates !! id' = Some n → id' = id) →
  ∃ np1, establish np id addr conn = Ok (np1, true) ∧ ¬ pool_current np1 ∧
    merge range (np_netMeta np1) updates = (np_netMeta np1, ∅, false).
Proof.
  intros Hr Hwf Hcur Hid Hl Hu. specialize (Hcur id m Hid Hl).
  unfold establish, addOrGetNodeFromPool. rewrite Hcur. cbn [new_loc].
  unfold setState, pool_node. cbn [set_pool set_node np_nodes Addr n_state].
  rewrite lookup_insert_eq, require_Some, bind_Ok. cbn [n_state n_id n_addr n_outChan].
  cbn [set_node np_nodes]. rewrite lookup_insert_eq, require_Some, bind_Ok.
  eexists. split; [done|]. split.
  - intros H. specialize (H id m Hid Hl). cbn in H. by rewrite lookup_insert_eq in H.
  - cbn [np_netMeta set_node set_pool]. rewrite (merge_spec _ _ _ Hr).
    assert (delta_meta (np_netMeta np) updates = ∅) as Hd.
    { apply map_empty. intros id'. rewrite delta_meta_lookup.
      destruct (updates !! id') as [n|] eqn:Hn; [|done]. apply Hu in Hn as ->.
      rewrite Hid. unfold changes. by rewrite Hl. }
    rewrite Hd. rewrite bool_decide_eq_true_2 by done. f_equal. f_equal.
    apply map_eq. intros id'. rewrite merged_meta_lookup.
    destruct (updates !! id') as [n|] eqn:Hn; [|done]. apply Hu in Hn as ->.
    rewrite Hid. unfold join1. by rewrite Hl.
Qed.

Lemma left_node_comes_back_witness :
  ∃ np1, establish (set_netMeta (newQuitNetMeta [x61] [x41]) newNodePool) [x61] [x41] 3 =
    Ok (np1, true) ∧ ¬ pool_current np1.
Proof.
  destruct (left_node_comes_back map_to_list (set_netMeta (newQuitNetMeta [x61] [x41]) newNodePool)
    [x61] [x41] 3%nat (mkNodeMeta [x41] true) ∅) as (np1 & E & H & _).
  - apply map_to_list_range.
  - split; cbn; [intros id l H|intros l [n H]]; by rewrite lookup_empty in H.
  - intros id n _ _. apply lookup_empty.
  - done.
  - done.
  - intros id' n H. by rewrite lookup_empty in H.
  - exists np1. split; [exact E|exact H].
Defined.
