(* ===== verification/NetworkQueues.v ===== *)
(** What is in the queues of the nodes: every message that the operations of
    the network put there was allowed to go to that node
    (CPSC418/project/network/nodepool.go, session.go and nodethread.go). *)
From S2P Require Import Prelude NetMeta NodePool Session NetworkProps NetworkUpdates Handshake Manager Threads.

Open Scope Z_scope.

Section Queues.
(** The messages that may go to the node with an id. *)
Context (P : str → Message → Prop).

Definition queues_ok (np : nodePool) : Prop :=
  pool_wf np ∧ ∀ l n msg, np_nodes np !! l = Some n → msg ∈ n_outChan n → P (n_id n) msg.

(** The pool that an operation leaves. *)
Definition keeps (np np' : nodePool) : Prop := queues_ok np → queues_ok np'.

#[export] Instance keeps_preorder : PreOrder keeps.
Proof using. split; [intros np H; exact H|]. intros np1 np2 np3 H1 H2 H. by apply H2, H1. Qed.

Lemma keeps_set_node np l n n' :
  np_nodes np !! l = Some n → n_id n' = n_id n →
  (∀ msg, msg ∈ n_outChan n' → msg ∈ n_outChan n ∨ P (n_id n) msg) → keeps np (set_node l n' np).
Proof using.
  intros Hn Hid Hq [[Hids Hfresh] Hout]. split; [split|]; cbn [set_node np_nodes np_pool np_next].
  - intros id l' Hl'. destruct (Hids id l' Hl') as (m & Hm & Hmid). destruct (decide (l = l')) as [<-|].
    + exists n'. rewrite lookup_insert_eq. split; [done|]. congruence.
    + exists m. by rewrite lookup_insert_ne.
  - intros l' Hl'. apply Hfresh. destruct (decide (l = l')) as [<-|]; [by eexists|].
    by rewrite lookup_insert_ne in Hl'.
  - intros l' m msg. destruct (decide (l = l')) as [<-|].
    + rewrite lookup_insert_eq. intros [= <-] Hmsg. rewrite Hid.
      destruct (Hq msg Hmsg) as [?|?]; [by eapply Hout|done].
    + rewrite lookup_insert_ne by done. apply Hout.
Qed.

Lemma keeps_same np np' :
  np_nodes np' = np_nodes np → np_pool np' ⊆ np_pool np → (np_next np ≤ np_next np')%nat → keeps np np'.
Proof using.
  intros En Hp Hle [[Hids Hfresh] Hout]. split; [split|]; rewrite ?En.
  - intros id l Hl. eapply Hids, lookup_weaken; done.
  - intros l Hl. specialize (Hfresh l Hl). lia.
  - exact Hout.
Qed.

Lemma keeps_foldM {A S} (proj : S → nodePool) (f : S → A → res S) l s s' :
  (∀ s a s', a ∈ l → f s a = Ok s' → keeps (proj s) (proj s')) → foldM f s l = Ok s' → keeps (proj s) (proj s').
Proof using.
  revert s; induction l as [|a l IH]; intros s Hf H; cbn [foldM] in H.
  - by simplify_eq.
  - apply bind_Ok_inv in H as (s1 & H1 & H). etrans; [eapply Hf; [by left|done]|apply IH; [|done]].
    intros s2 a2 s3 Ha. apply Hf. by right.
Qed.

Lemma keeps_setState np l s np' ok : setState np l s = Ok (np', ok) → keeps np np'.
Proof using.
  unfold setState, pool_node. intros H. res_inv. destruct (next_state _ _) as [s' b].
  simplify_eq. eapply keeps_set_node; [done|done|]. by left.
Qed.

Lemma keeps_close np n np' : close np n = Ok np' → keeps np np'.
Proof using. unfold close. intros H. res_inv. by apply keeps_same. Qed.

(** A message is put on the queue of a node. *)
Lemma keeps_put np msg l np' ok :
  (∀ n, np_nodes np !! l = Some n → P (n_id n) msg) →
  putMsgOnSendingQueueOfNode np msg l = Ok (np', ok) → keeps np np'.
Proof using.
  unfold putMsgOnSendingQueueOfNode, pool_node. intros HP H. res_inv.
  destruct (decide _); simplify_eq; [|done]. eapply keeps_set_node; [done|done|]. cbn.
  intros m [?| ->%list_elem_of_singleton]%elem_of_app; [by left|right; by apply HP].
Qed.

Lemma keeps_visited v s np : keeps np (set_visited v s np).
Proof using. by apply keeps_same. Qed.

Lemma keeps_broadcast order np msg np' :
  (∀ id, P id msg) → broadcast order np msg = Ok np' → keeps np np'.
Proof using.
  intros HP. unfold broadcast. destruct (m_Visited msg) as [v|]; intros H.
  - unfold broadcastRecursive in H. apply bind_Ok_inv in H as (ls & _ & H).
    apply bind_Ok_inv in H as (o & _ & H). apply bind_Ok_inv in H as (np1 & H1 & H). etrans.
    + eapply (keeps_foldM id); [|done]. intros np2 l np3 _ H2. unfold visit in H2. res_inv. apply keeps_visited.
    + eapply (keeps_foldM id); [|done]. intros np2 l np3 _ H2. unfold forward in H2.
      apply bind_Ok_inv in H2 as (n & _ & H2). destruct (decide _); [by simplify_eq|].
      apply bind_Ok_inv in H2 as ([np4 ok] & H3 & H2). apply keeps_put in H3; [|done]. etrans; [done|].
      destruct ok; [by simplify_eq|]. res_inv. apply keeps_visited.
  - unfold broadcastOnce in H. apply bind_Ok_inv in H as (ls & _ & H).
    eapply (keeps_foldM id); [|done]. intros np1 l np2 _ H1.
    apply bind_Ok_inv in H1 as ([np3 ok] & H1 & H2). simplify_eq. by eapply keeps_put.
Qed.

Lemma keeps_send np msg id np' ok :
  queues_ok np → P id msg → sendMessageToNodeWithId np msg id = Ok (np', ok) → queues_ok np'.
Proof using.
  intros Hok HP. unfold sendMessageToNodeWithId, getNodeWithId.
  destruct (np_pool np !! id) as [l|] eqn:Hl; intros H; [|by simplify_eq].
  eapply keeps_put; [|done|done]. intros n Hn. destruct Hok as [[Hids _] _].
  destruct (Hids _ _ Hl) as (n' & Hn' & <-). by simplify_eq.
Qed.

Lemma keeps_remove np id np' : removeNodeFromPool np id = Ok np' → keeps np np'.
Proof using.
  unfold removeNodeFromPool. destruct (np_pool np !! id) as [l|]; intros H; [|by simplify_eq].
  apply bind_Ok_inv in H as ([np1 ok] & H1 & H). apply keeps_setState in H1. etrans; [done|].
  apply bind_Ok_inv in H as (n & _ & H). apply bind_Ok_inv in H as (np2 & H2 & H). injection H as <-.
  transitivity np2; [destruct (n_conn n); [by eapply keeps_close|by simplify_eq]|].
  apply keeps_same; [done| |done]. apply delete_subseteq.
Qed.

Lemma keeps_add np id m : keeps np (addOrGetNodeFromPool np id m).1.
Proof using.
  intros [Hwf Hout]. split.
  - pose proof (add_ok np id m Hwf) as Ha. by destruct (addOrGetNodeFromPool np id m), Ha.
  - unfold addOrGetNodeFromPool. destruct (np_pool np !! id); [done|]. cbn.
    intros l n msg. destruct (decide (np_next np = l)) as [<-|].
    + rewrite lookup_insert_eq. intros [= <-] Hmsg. by apply elem_of_nil in Hmsg.
    + rewrite lookup_insert_ne by done. apply Hout.
Qed.

Lemma keeps_updates range np u np' nl d c :
  applyReceivedUpdates range np u = Ok (np', nl, d, c) → keeps np np'.
Proof using.
  unfold applyReceivedUpdates. destruct (merge range (np_netMeta np) u) as [[m delta] ch].
  intros H. apply bind_Ok_inv in H as ([np1 nl1] & H1 & H). simplify_eq.
  transitivity (set_netMeta m np); [by apply keeps_same|].
  eapply (keeps_foldM fst) in H1; [done|].
  intros [np2 nl2] [id n] [np3 nl3] _ H2. unfold apply_change in H2.
  destruct (Left n).
  - apply bind_Ok_inv in H2 as (np4 & H2 & H3). simplify_eq. by eapply keeps_remove.
  - pose proof (keeps_add np2 id n) as Ha. destruct (addOrGetNodeFromPool np2 id n). by simplify_eq.
Qed.

(** A new place for a map of visited nodes. *)
Lemma keeps_new_visited np s : let '(v, np') := new_loc np in keeps np (set_visited v s np').
Proof using. cbn. apply keeps_same; cbn; [done..|lia]. Qed.

(** ** Sessions *)

Lemma keeps_new_session order np s np' ts : handleNewSession order np s = Ok (np', ts) → keeps np np'.
Proof using.
  unfold handleNewSession. intros H.
  transitivity (set_netMeta (<[s_id s := mkNodeMeta (s_publicAddr s) false]> (np_netMeta np)) np);
    [by apply keeps_same|].
  eapply (keeps_foldM fst) in H; [done|].
  intros [np1 ts1] [id l] [np2 ts2] _ H1. unfold revive, pool_node in H1.
  apply bind_Ok_inv in H1 as (n & Hn & H1). apply require_Ok_inv in Hn.
  apply bind_Ok_inv in H1 as (t & _ & H1). simplify_eq. simpl.
  destruct (decide _); [|done]. eapply keeps_set_node; [done|done|]. by left.
Qed.

Lemma keeps_end order np s np' s' : end_ order np s = Ok (np', s') → keeps np np'.
Proof using.
  unfold end_. destruct (s_done s); [done|]. intros H. apply bind_Ok_inv in H as (np1 & H & [= <- <-]).
  unfold handleEndSession in H.
  match type of H with foldM _ ?np0 _ = _ => transitivity np0; [by apply keeps_same|] end.
  eapply (keeps_foldM id) in H; [done|].
  intros np2 [id l] np3 _ H1. apply bind_Ok_inv in H1 as ([np4 ok] & H1 & H2). simplify_eq.
  by eapply keeps_setState.
Qed.

Lemma keeps_receive s np l received np' m go ts :
  receiveThread s np l received = Ok (np', m, go, ts) → keeps np np'.
Proof using.
  unfold receiveThread. intros H. apply bind_Ok_inv in H as (n & _ & H).
  destruct (decide _).
  - apply bind_Ok_inv in H as (np1 & H1 & H). simplify_eq. by eapply keeps_close.
  - destruct received as [msg|]; [destruct (ended s); by simplify_eq|].
    apply bind_Ok_inv in H as (np1 & H1 & H). apply bind_Ok_inv in H as ([np2 ok] & H2 & H). simplify_eq.
    etrans; [by eapply keeps_close|by eapply keeps_setState].
Qed.

Lemma keeps_establish np id addr c np' ok : establish np id addr c = Ok (np', ok) → keeps np np'.
Proof using.
  unfold establish. intros H. pose proof (keeps_add np id (mkNodeMeta addr false)) as Ha.
  destruct (addOrGetNodeFromPool np id _) as [np1 l]. cbn [fst] in Ha. etrans; [exact Ha|].
  unfold pool_node in H. apply bind_Ok_inv in H as (n & Hn%require_Ok_inv & H).
  apply keeps_setState in H. etrans; [|exact H]. eapply keeps_set_node; [done|done|]. by left.
Qed.

Lemma keeps_connect vc o s np l c np' ok started updates :
  session_connect vc o s np l c = Ok (np', ok, started, updates) → keeps np np'.
Proof using.
  unfold session_connect, pool_node. intros H. apply bind_Ok_inv in H as (n & Hn%require_Ok_inv & H).
  destruct (negb _); [by simplify_eq|].
  match type of H with context [set_node l ?n' np] => assert (keeps np (set_node l n' np)) as Hk end.
  { eapply keeps_set_node; [done|done|]. by left. }
  destruct (perform _ _ _) as [[ok1 established] updates1]. destruct established.
  - apply bind_Ok_inv in H as ([np1 started1] & H1 & H). simplify_eq. etrans; [exact Hk|by eapply keeps_setState].
  - destruct ok1; [|by simplify_eq]. apply bind_Ok_inv in H as (np1 & H1 & H). simplify_eq.
    etrans; [exact Hk|by eapply keeps_close].
Qed.

Lemma keeps_turn vc o s np l c interval np' started updates next :
  connectThread_turn vc o s np l c interval = Ok (np', started, updates, next) → keeps np np'.
Proof using.
  unfold connectThread_turn. intros H. apply bind_Ok_inv in H as (n & _ & H).
  destruct (_ || _); [by simplify_eq|].
  apply bind_Ok_inv in H as ([[[np1 ok] started1] updates1] & H1 & H). apply keeps_connect in H1.
  destruct ok; by simplify_eq.
Qed.

(** A message that is taken from a queue was allowed there; it may go back. *)
Lemma keeps_take np l msg np' :
  take_message np l = Ok (Some (msg, np')) →
  keeps np np' ∧ ∃ n, np_nodes np !! l = Some n ∧ msg ∈ n_outChan n ∧
    ∃ n', np_nodes np' !! l = Some n' ∧ n_id n' = n_id n.
Proof using.
  unfold take_message, pool_node. intros H. apply bind_Ok_inv in H as (n & Hn%require_Ok_inv & H).
  destruct (n_outChan n) as [|m ms] eqn:Ho; simplify_eq. split.
  - eapply keeps_set_node; [done|done|]. cbn. intros m Hm. left. rewrite Ho. by right.
  - exists n. rewrite Ho. split_and!; [done|by left|]. eexists. cbn. by rewrite lookup_insert_eq.
Qed.

(** ** Messages about nodes *)

Section Manager.
Context (order : pool_order) (netMeta_toJson : NetMeta → list byte).

Lemma keeps_start id listens nm nm' ts err :
  startNewSessionOnNetworkManager order id listens nm = Ok (nm', ts, err) → keeps (nm_pool nm) (nm_pool nm').
Proof using.
  unfold startNewSessionOnNetworkManager. destruct listens; intros H; [|by simplify_eq].
  apply bind_Ok_inv in H as ([np ts1] & H1 & H). simplify_eq. by eapply keeps_new_session.
Qed.

Lemma keeps_Disconnect nm nm' err : Disconnect order nm = Ok (nm', err) → keeps (nm_pool nm) (nm_pool nm').
Proof using.
  unfold Disconnect. destruct (nm_session nm); intros H; [|by simplify_eq].
  apply bind_Ok_inv in H as ([np s'] & H1 & H). simplify_eq. by eapply keeps_end.
Qed.

Lemma queues_ok_new : queues_ok newNodePool.
Proof using.
  split; [split|]; cbn.
  - intros id l Hl. by rewrite lookup_empty in Hl.
  - intros l [n Hl]. by rewrite lookup_empty in Hl.
  - intros l n msg Hl. by rewrite lookup_empty in Hl.
Qed.

Lemma keeps_CompleteDisconnect id listens nm nm' ts :
  CompleteDisconnect order id listens nm = Ok (nm', ts) → keeps (nm_pool nm) (nm_pool nm').
Proof using.
  unfold CompleteDisconnect. intros H _. apply bind_Ok_inv in H as ([nm1 err] & _ & H).
  apply bind_Ok_inv in H as ([[nm2 ts1] err1] & H1 & H). simplify_eq. eapply keeps_start; [exact H1|]. apply queues_ok_new.
Qed.

Lemma keeps_ConnectTo o nm nm' ts msgs err :
  NetworkManager_ConnectTo order netMeta_toJson o nm = Ok (nm', ts, msgs, err) →
  keeps (nm_pool nm) (nm_pool nm') ∧ ∀ msg, msg ∈ msgs → m_Type msg = MSG_TYPE_NET_META_UPDATE.
Proof using.
  unfold NetworkManager_ConnectTo. intros H. apply bind_Ok_inv in H as ([[nm1 ts1] err1] & H1 & H).
  assert (keeps (nm_pool nm) (nm_pool nm1)) as Hk.
  { destruct (nm_session nm); [by simplify_eq|by eapply keeps_start]. }
  assert (keeps (nm_pool nm) (nm_pool nm1) ∧ ∀ msg, msg ∈ [] → m_Type msg = MSG_TYPE_NET_META_UPDATE) as Hnone.
  { split; [done|]. by intros msg ?%elem_of_nil. }
  destruct err1; [by simplify_eq|]. destruct (negb _); [by simplify_eq|].
  destruct (perform _ _ _) as [err2 incoming]. destruct incoming as [|delta incoming].
  - by simplify_eq.
  - unfold newNetMetaUpdateMsg, NewBroadcastMessage in H. cbn in H. simplify_eq. cbn. split.
    + etrans; [exact Hk|]. apply (keeps_new_visited (nm_pool nm1) {[nm_id nm1]}).
    + by intros msg ->%list_elem_of_singleton.
Qed.
End Manager.
End Queues.

Lemma queues_ok_mono (P Q : str → Message → Prop) np :
  (∀ id msg, P id msg → Q id msg) → queues_ok P np → queues_ok Q np.
Proof. intros HPQ [Hwf Hout]. split; [done|]. intros l n msg Hn Hmsg. by eapply HPQ, Hout. Qed.
