(* ===== verification/GuiQueues.v ===== *)
(** What the interface does to the queues of the network and to the messages
    that wait: the editor nothing, the menu and the prompts nothing but what
    the network manager does for them (CPSC418/project/gui). *)
From S2P Require Import Prelude Json GoText Common Version BufferOp Buffer Prompt Treedoc OperationLog DocumentModel NetMeta NodePool Session Handshake Manager NetworkQueues Gui GuiProps.

Open Scope Z_scope.

Lemma editor_event_manager app width height ev p' ef :
  DrawEditor_event app width height ev = Ok (p', ef) → as_Manager (pr_app p') = as_Manager app.
Proof.
  intros H.
  assert (∀ f w h, (app ← on_buffer f app; redraw None w h app) = Ok (p', ef) → as_Manager (pr_app p') = as_Manager app) as Hbuf.
  { intros f w h (app1 & (m & buf & _ & _ & ->)%on_buffer_inv & (y & -> & _)%redraw_inv)%bind_Ok_inv. done. }
  assert (∀ f, ('(app, op) ← on_document f app; redraw op width height app) = Ok (p', ef) →
    as_Manager (pr_app p') = as_Manager app) as Hdoc.
  { intros f ([app1 op] & (m & m' & _ & _ & ->)%on_document_inv & (y & -> & _)%redraw_inv)%bind_Ok_inv. done. }
  destruct ev as [key ch|w h| | |]; cbn [DrawEditor_event] in H.
  - destruct key; try exact (Hbuf _ _ _ H); try exact (Hdoc _ H); try done; try (injection H as <- <-; done).
    destruct (ch <=? 256); [exact (Hdoc _ H)|by injection H as <- <-].
  - exact (Hbuf _ _ _ H).
  - by apply redraw_inv in H as (y & -> & _).
  - done.
  - by injection H as <- <-.
Qed.

Section Prompts.
Context (order : pool_order) (range : range_order) (netMeta_toJson : NetMeta → list byte) (atoi_error : str → str).
Context (Q : str → Message → Prop).

(** What a step of the main thread does to the pool, and its messages. *)
Definition calm (app app' : appState) (ef : effects) : Prop :=
  keeps Q (nm_pool (as_Manager app)) (nm_pool (as_Manager app')) ∧
  ∀ msg, msg ∈ ef_messages ef → m_Type msg = MSG_TYPE_NET_META_UPDATE.

Lemma calm_nothing app app' ef :
  as_Manager app' = as_Manager app → ef_messages ef = [] → calm app app' ef.
Proof using. intros E He. split; [by rewrite E|]. rewrite He. by intros msg ?%elem_of_nil. Qed.

Lemma calm_manager nm app ef :
  keeps Q (nm_pool (as_Manager app)) (nm_pool nm) → ef_messages ef = [] → ∀ app', as_Manager app' = nm → calm app app' ef.
Proof using. intros Hk He app' E. split; [by rewrite E|]. rewrite He. by intros msg ?%elem_of_nil. Qed.

Lemma doAction_calm o uuid width app input app' ef :
  doAction order netMeta_toJson atoi_error o uuid width app input = Ok (app', ef) → calm app app' ef.
Proof using.
  intros H. unfold doAction in H. destruct (in_menu app).
  - destruct (Atoi input) as [n err]. destruct (_ || _); [injection H as <- <-; by apply calm_nothing|].
    apply bind_Ok_inv in H as (option & _ & H).
    destruct (decide _); [injection H as <- <-; by apply calm_nothing|].
    destruct (decide _); [injection H as <- <-; by apply calm_nothing|].
    destruct (decide _).
    { apply bind_Ok_inv in H as ([nm e1] & H1 & H). apply (keeps_Disconnect Q) in H1.
      destruct err; injection H as <- <-; by eapply calm_manager. }
    destruct (decide _).
    { apply bind_Ok_inv in H as (m & _ & H). injection H as <- <-. by apply calm_nothing. }
    destruct (decide _); [|injection H as <- <-; by apply calm_nothing].
    apply bind_Ok_inv in H as ([nm ts] & H1 & H). apply (keeps_CompleteDisconnect Q) in H1.
    injection H as <- <-. by eapply calm_manager.
  - destruct (as_State app =? STATE_CONNECT).
    + apply bind_Ok_inv in H as ([[[nm ts] msgs] err] & H1 & H). apply (keeps_ConnectTo Q) in H1 as [Hk Hm].
      destruct err; injection H as <- <-; by split.
    + destruct (_ =? _); injection H as <- <-; by apply calm_nothing.
Qed.

Lemma prompt_calm o uuid now app prompt width height ev p' ef :
  DrawPrompt_event order netMeta_toJson atoi_error o uuid now app prompt width height ev = Ok (p', ef) →
  calm app (pr_app p') ef.
Proof using.
  intros H.
  assert (∀ pr w h, reprompt app pr w h = Ok (p', ef) → calm app (pr_app p') ef) as Hre.
  { unfold reprompt. intros pr w h (frame & _ & [= <- <-])%bind_Ok_inv. by apply calm_nothing. }
  assert (Ok (mkProgram app (Prompting prompt width height), nothing) = Ok (p', ef) → calm app (pr_app p') ef) as Hstay.
  { intros [= <- <-]. by apply calm_nothing. }
  destruct ev as [key ch|w h| | |]; cbn [DrawPrompt_event] in H; try exact (Hre _ _ _ H); try exact (Hstay H); [|done].
  destruct key; try exact (Hre _ _ _ H); try exact (Hstay H); try done.
  - destruct (ch <=? 256); [exact (Hre _ _ _ H)|exact (Hstay H)].
  - injection H as <- <-. by apply calm_nothing.
  - destruct (as_DocModel app); [injection H as <- <-; by apply calm_nothing|exact (Hstay H)].
  - apply bind_Ok_inv in H as ([app1 ef1] & H1 & H). injection H as <- <-. by eapply doAction_calm.
Qed.

(** A turn of the main loop that does not open the editor. *)
Lemma turn_calm app width height p' ef :
  as_State app ≠ STATE_DOCUMENT → main_turn order range app width height = Ok (p', ef) →
  calm app (pr_app p') ef ∧ as_DocModel (pr_app p') = as_DocModel app.
Proof using.
  intros Hst H. unfold main_turn in H. destruct (_ =? STATE_EXIT).
  - apply bind_Ok_inv in H as ([nm e] & H1 & H). apply (keeps_Disconnect Q) in H1. injection H as <- <-.
    split; [by eapply calm_manager|done].
  - rewrite (proj2 (Z.eqb_neq _ _) Hst) in H. apply bind_Ok_inv in H as ([app1 prompt] & H1 & H).
    assert (as_Manager app1 = as_Manager app ∧ as_DocModel app1 = as_DocModel app) as [E1 E2].
    { unfold getPrompt in H1. destruct (in_menu app); [by injection H1 as <- <-|].
      destruct (_ =? _); [by injection H1 as <- <-|]. destruct (_ =? _); [|done].
      apply bind_Ok_inv in H1 as (e & _ & H1). by injection H1 as <- <-. }
    unfold reprompt in H. apply bind_Ok_inv in H as (frame & _ & H). injection H as <- <-.
    split; [by apply calm_nothing|done].
Qed.

Lemma opens_manager app width height p' ef :
  as_State app = STATE_DOCUMENT → main_turn order range app width height = Ok (p', ef) →
  as_Manager (pr_app p') = as_Manager app.
Proof using.
  intros Hst H. unfold main_turn in H. rewrite Hst in H. cbn in H. unfold DrawEditor_start in H.
  apply bind_Ok_inv in H as (app1 & (m & buf & _ & _ & ->)%on_buffer_inv & (y & -> & _)%redraw_inv). done.
Qed.
End Prompts.
