(* ===== verification/EditorNetwork.v ===== *)
(** The network of editors: every editor with its interface, its network
    manager, the messages that wait for it and its goroutines, and the messages
    on their way (CPSC418/project: gui, network and documentmanager together).

    An editor takes part from the opening of its document until it closes it,
    exits or panics; what its process does after that (it may still pass on
    messages, or open another document, with the same id) is not followed. A
    connection is what it promises at least: what arrives at a session was sent
    to the node with the id of that session; it may be lost, or arrive late or
    more than once. *)
From S2P Require Import Prelude Json Common Version BufferOp Buffer Prompt Treedoc OperationLog OperationQueue DocumentModel DocumentWire EditorSystem NetMeta NodePool Session Handshake Conn Manager Threads Gui.

Open Scope Z_scope.

(** A goroutine of an editor that is not done: it broadcasts an operation, it
    was given a message with operations, it applies operations, or it answers
    a version check. *)
Inductive task : Type :=
  | Broadcasting (op : RemoteOperation)
  | Handling (content : list byte)
  | Applying (ops : list RemoteOperation)
  | Replying (msg : Message) (id : str).

Definition task_of (t : thread) : list task :=
  match t with
  | RemoteOpThread content => [Handling content]
  | ReplyThread msg id => [Replying msg id]
  | ConnectThread _ | PokeThread _ => []
  end.

(** An editor: its state, where its main thread is, its [msgChan]. *)
Record peer : Type := mkPeer {
  pe_app : appState;
  pe_screen : screen;
  pe_chan : list Message;
  pe_tasks : list task
}.

Definition pool_of (pe : peer) : nodePool := nm_pool (as_Manager (pe_app pe)).
Definition with_pool (np : nodePool) (app : appState) : appState :=
  let nm := as_Manager app in
  set_Manager (mkManager (nm_id nm) (nm_publicAddr nm) np (nm_session nm)) app.

Definition at_app (app : appState) (pe : peer) : peer := mkPeer app (pe_screen pe) (pe_chan pe) (pe_tasks pe).
Definition at_pool (np : nodePool) (pe : peer) : peer := at_app (with_pool np (pe_app pe)) pe.
Definition at_chan (chan : list Message) (pe : peer) : peer := mkPeer (pe_app pe) (pe_screen pe) chan (pe_tasks pe).
Definition at_tasks (tasks : list task) (pe : peer) : peer := mkPeer (pe_app pe) (pe_screen pe) (pe_chan pe) tasks.

(** The editors by the sites of their documents, the editor that every session
    belongs to or belonged to, and the messages that were sent, each with the
    id of the session for which it is. *)
Record world : Type := mkWorld {
  wd_peers : gmap SiteId peer;
  wd_owner : gmap str SiteId;
  wd_wire : list (str * wire_message)
}.

Definition set_peer (s : SiteId) (pe : peer) (w : world) : world :=
  mkWorld (<[s := pe]> (wd_peers w)) (wd_owner w) (wd_wire w).
Definition post (id : str) (wm : wire_message) (w : world) : world :=
  mkWorld (wd_peers w) (wd_owner w) (wd_wire w ++ [(id, wm)]).

(** The counters of the document have not run out. *)
Definition counters_left (app : appState) : Prop :=
  ∀ m, as_DocModel app = Some m → dm_OpVersion m + 1 < w32 ∧ dm_NodeIdClock m + 1 < w32.

Section World.
Context (order : pool_order) (range : range_order).
Context (netMeta_toJson : NetMeta → list byte) (newNetMetaFromJson : list byte → option NetMeta).
Context (content_toJson : VersionCheckMsgContent → list byte).
Context (newVersionCheckMsgContentFromJson : list byte → option VersionCheckMsgContent).
Context `{Json VersionVectorJson, Json (list RemoteOperationJson)}.
Context (atoi_error : str → str) (zero_json : RemoteOperationJson) (zero_op : RemoteOperation).

(** The handler of version checks never panics ([check_handler_Ok] in
    [EditorNetworkProps]). *)
Definition check_handler (app : appState) (data : list byte) : list byte * bool :=
  or_else ([], false) (VersionCheckHandler zero_json app data).

Abbreviation check_message app := (getLatestVersionCheckMsg range content_toJson (GetOpsReceiveVersion app)).

(** What the threads of connections do to the pool. A message that could not
    be sent goes back to the queue. *)
Inductive conn_step (s : session) (np : nodePool) : nodePool → Prop :=
  | conn_connects vc o l c interval np' started updates next :
      connectThread_turn vc o s np l c interval = Ok (np', started, updates, next) → conn_step s np np'
  | conn_established id addr c np' started :
      establish np id addr c = Ok (np', started) → conn_step s np np'
  | conn_receive_ends l np' msg goes_on ts :
      receiveThread s np l None = Ok (np', msg, goes_on, ts) → conn_step s np np'
  | conn_put_back l msg np1 np' ok :
      take_message np l = Ok (Some (msg, np1)) → putMsgOnSendingQueueOfNode np1 msg l = Ok (np', ok) →
      conn_step s np np'.

Inductive world_step (w : world) : world → Prop :=
  (** The editor closes its document, exits or panics. *)
  | world_leaves s :
      world_step w (mkWorld (delete s (wd_peers w)) (wd_owner w) (wd_wire w))
  (** The main thread: an event of the editor, an event of a prompt that leaves
      the document open, or a turn of the main loop. A new session has an id
      that no other editor has. *)
  | world_edits s pe width height ev p' ef :
      wd_peers w !! s = Some pe → pe_screen pe = Editing width height → counters_left (pe_app pe) →
      (∀ w' h', ev = EventResize w' h' → 5 ≤ w') →
      DrawEditor_event (pe_app pe) width height ev = Ok (p', ef) →
      world_step w (set_peer s (mkPeer (pr_app p') (pr_screen p') (pe_chan pe)
        (pe_tasks pe ++ (Broadcasting <$> option_list (ef_operation ef)))) w)
  | world_prompts s pe prompt width height o uuid now ev p' ef :
      wd_peers w !! s = Some pe → pe_screen pe = Prompting prompt width height →
      DrawPrompt_event order netMeta_toJson atoi_error o uuid now (pe_app pe) prompt width height ev = Ok (p', ef) →
      as_DocModel (pr_app p') = as_DocModel (pe_app pe) →
      (∀ t, wd_owner w !! nm_id (as_Manager (pr_app p')) = Some t → t = s) →
      world_step w (mkWorld
        (<[s := mkPeer (pr_app p') (pr_screen p') (pe_chan pe ++ ef_messages ef) (pe_tasks pe)]> (wd_peers w))
        (<[nm_id (as_Manager (pr_app p')) := s]> (wd_owner w)) (wd_wire w))
  | world_turns s pe width height p' ef :
      wd_peers w !! s = Some pe → pe_screen pe = MainLoop → 5 ≤ width →
      main_turn order range (pe_app pe) width height = Ok (p', ef) →
      world_step w (set_peer s (mkPeer (pr_app p') (pr_screen p') (pe_chan pe) (pe_tasks pe)) w)
  (** An operation is broadcast. *)
  | world_broadcasts s pe op before after app' :
      wd_peers w !! s = Some pe → pe_tasks pe = before ++ Broadcasting op :: after →
      BroadcastRemote order zero_json (pe_app pe) op = Ok app' →
      world_step w (set_peer s (at_tasks (before ++ after) (at_app app' pe)) w)
  (** A session checks the versions, or starts a connection with a check. *)
  | world_checks s pe ses np' goes_on :
      wd_peers w !! s = Some pe → wd_owner w !! s_id ses = Some s →
      periodicallyCheckVersion range order content_toJson (GetOpsReceiveVersion (pe_app pe)) ses (pool_of pe) =
        Ok (np', goes_on) →
      world_step w (set_peer s (at_pool np' pe) w)
  | world_greets s pe ses id msg wm :
      wd_peers w !! s = Some pe → wd_owner w !! s_id ses = Some s →
      check_message (pe_app pe) ses (pool_of pe) = Some msg → pack (pool_of pe) msg = Ok wm →
      world_step w (post id wm w)
  (** The threads of a connection. *)
  | world_sends s pe l n msg np' wm :
      wd_peers w !! s = Some pe → np_nodes (pool_of pe) !! l = Some n →
      take_message (pool_of pe) l = Ok (Some (msg, np')) → pack (pool_of pe) msg = Ok wm →
      world_step w (post (n_id n) wm (set_peer s (at_pool np' pe) w))
  | world_receives s pe id wm np' msg :
      wd_peers w !! s = Some pe → (id, wm) ∈ wd_wire w → wd_owner w !! id = Some s →
      unpack (pool_of pe) wm = (np', msg) →
      world_step w (set_peer s (at_chan (pe_chan pe ++ [msg]) (at_pool np' pe)) w)
  | world_told s pe id delta np' msg :
      wd_peers w !! s = Some pe → newNetMetaUpdateMsg netMeta_toJson (pool_of pe) id delta = (np', msg) →
      world_step w (set_peer s (at_chan (pe_chan pe ++ [msg]) (at_pool np' pe)) w)
  | world_connects s pe ses np' :
      wd_peers w !! s = Some pe → conn_step ses (pool_of pe) np' →
      world_step w (set_peer s (at_pool np' pe) w)
  (** The next message is served. *)
  | world_serves s pe ses msg rest np' ts :
      wd_peers w !! s = Some pe → pe_chan pe = msg :: rest →
      serve_message range order netMeta_toJson newNetMetaFromJson newVersionCheckMsgContentFromJson
        true (Some (check_handler (pe_app pe))) ses (pool_of pe) msg = Ok (np', ts) →
      world_step w (set_peer s (at_tasks (pe_tasks pe ++ concat (task_of <$> ts)) (at_chan rest (at_pool np' pe))) w)
  (** The handler of operations starts, or applies one. *)
  | world_handles s pe content before after ops :
      wd_peers w !! s = Some pe → pe_tasks pe = before ++ Handling content :: after →
      RemoteOpHandler_start zero_op (pe_app pe) content = Ok ops →
      world_step w (set_peer s (at_tasks (before ++ Applying ops :: after) pe) w)
  | world_applies s pe op ops before after app' :
      wd_peers w !! s = Some pe → pe_tasks pe = before ++ Applying (op :: ops) :: after →
      RemoteOpHandler_next (pe_app pe) op = Ok app' →
      world_step w (set_peer s (at_tasks (before ++ Applying ops :: after) (at_app app' pe)) w)
  (** An answer to a version check is put on the queue. *)
  | world_replies s pe msg id before after np' ok :
      wd_peers w !! s = Some pe → pe_tasks pe = before ++ Replying msg id :: after →
      sendMessageToNodeWithId (pool_of pe) msg id = Ok (np', ok) →
      world_step w (set_peer s (at_tasks (before ++ after) (at_pool np' pe)) w).

(** Every editor has just opened a new document; nothing was sent. *)
Record world_initial (w : world) : Prop := {
  wi_wire : wd_wire w = [];
  wi_peers s pe : wd_peers w !! s = Some pe →
    site_id_wf s ∧ pe_chan pe = [] ∧ pe_tasks pe = [] ∧
    (∃ m width, as_DocModel (pe_app pe) = Some m ∧ 4 ≤ width ∧ NewDocumentModel s width true = Ok m) ∧
    (∀ id l, np_pool (pool_of pe) !! id = Some l → ∃ n, np_nodes (pool_of pe) !! l = Some n ∧ n_id n = id) ∧
    (∀ l n, np_nodes (pool_of pe) !! l = Some n → (l < np_next (pool_of pe))%nat ∧ n_outChan n = [])
}.

(** What the editors whose sites satisfy [P] can reach. *)
Definition world_reachable (P : SiteId → Prop) (w : world) : Prop :=
  ∃ w0, world_initial w0 ∧ (∀ s, is_Some (wd_peers w0 !! s) → P s) ∧ rtc world_step w0 w.
End World.
