(* ===== verification/EditorNetworkProps.v ===== *)
(** What holds in the network of editors, while their documents are open: the
    documents are those of sites that catch up, and those that count the same
    show the same text. *)
From S2P Require Import Prelude Json Common Version BufferOp Buffer Prompt Treedoc TreedocInv TreedocSpec OperationLog OperationQueue DocumentModel DocumentWire EditorSystem EditorConverges EditorSync EditorCatchUp EditorIds NetMeta NodePool Session NetworkProps Handshake Conn Manager Threads NetworkQueues Gui GuiProps GuiQueues GuiSync EditorNetwork.

Open Scope Z_scope.

(** ** What the documents may be handed *)

(** The second network knows what the first did. *)
Record grows (net net' : network) : Prop := {
  gr_sent op : op ∈ nw_sent net → op ∈ nw_sent net';
  gr_asked p : p ∈ nw_asked net → p ∈ nw_asked net';
  gr_replies r : r ∈ nw_replies net → r ∈ nw_replies net'
}.

#[export] Instance grows_preorder : PreOrder grows.
Proof. split; [by split|]. intros n1 n2 n3 [A1 A2 A3] [B1 B2 B3]. split; auto. Qed.

(** The operations of a broadcast, or of an answer to a question of the
    site. *)
Definition handed (net : network) (s : SiteId) (ops : list RemoteOperation) : Prop :=
  (∀ op, op ∈ ops → op ∈ nw_sent net) ∨ ∃ goal, mkReply s ops goal ∈ nw_replies net.

Lemma handed_grows net net' s ops : grows net net' → handed net s ops → handed net' s ops.
Proof. intros [Hs _ Hr] [?|[goal ?]]; [left; auto|right; eauto]. Qed.

(** Applying the first one is a step of the site, after which the others may be
    applied; an answer may be used again. *)
Lemma handed_applies net s m op ops m' :
  handed net s (op :: ops) → nw_models net !! s = Some m → ApplyRemoteOperation m op = Ok m' →
  ∃ net', rtc sync_step net net' ∧ grows net net' ∧ nw_models net' = <[s := m']> (nw_models net) ∧ handed net' s ops.
Proof.
  intros [Hsent|[goal Hr]] Hm HA.
  - exists (set_model s m' net). split_and!; [|by split|done|left; intros q Hq; apply Hsent; by right].
    apply rtc_once. eapply sync_receive; [done| |done]. apply Hsent. by left.
  - exists (mkNetwork (<[s := m']> (nw_models net)) (nw_sent net) (nw_asked net) (mkReply s ops goal :: nw_replies net)).
    split_and!; [|by split; [..|intros r ?; right]|done|right; exists goal; by left].
    eapply rtc_l; [by eapply sync_again|]. apply rtc_once.
    by apply (sync_apply (mkNetwork (nw_models net) (nw_sent net) (nw_asked net) (mkReply s (op :: ops) goal :: nw_replies net))
      s m op ops goal (nw_replies net) m').
Qed.

Lemma sync_steps_reachable net net' : rtc sync_step net net' → sync_reachable net → sync_reachable net'.
Proof. induction 1; [done|]. intros. apply IHrtc. by eapply sync_reachable_step. Qed.

Lemma sync_steps_ids P net net' : rtc sync_step net net' → network_ids P net → network_ids P net'.
Proof. induction 1; [done|]. intros. apply IHrtc. by eapply sync_step_ids. Qed.

(** Sites that count the same show the same text. *)
Lemma same_counts_same_text net a b ma mb :
  sync_reachable net → nw_models net !! a = Some ma → nw_models net !! b = Some mb →
  veq (lg_Vector (dm_Log ma)) (lg_Vector (dm_Log mb)) → ∃ text, model_shows ma text ∧ model_shows mb text.
Proof.
  intros Hr Ha Hb Hv. destruct (sync_reachable_refines _ Hr) as [sys HR].
  destruct (refines_shows _ _ _ _ HR Ha) as (sta & Hsta & Va & Sa).
  destruct (refines_shows _ _ _ _ HR Hb) as (stb & Hstb & Vb & Sb).
  eexists. split; [exact Sa|]. rewrite (same_covered_text sys a b sta stb); [done|apply reachable_inv, HR|done..|].
  rewrite Va, Vb in Hv. intros q _. unfold OperationQueue.stale. by rewrite (Hv (ro_Id q)).
Qed.

Section Network.
Context (order : pool_order) (range : range_order).
Context (netMeta_toJson : NetMeta → list byte) (newNetMetaFromJson : list byte → option NetMeta).
Context (content_toJson : VersionCheckMsgContent → list byte).
Context (newVersionCheckMsgContentFromJson : list byte → option VersionCheckMsgContent).
Context `{Jv : Json VersionVectorJson, Jo : Json (list RemoteOperationJson)}.
Context (validv : VersionVectorJson → Prop) (valid : list RemoteOperationJson → Prop).
Context `{Lv : !JsonLaws VersionVectorJson validv, Lo : !JsonLaws (list RemoteOperationJson) valid}.
Context (atoi_error : str → str) (zero_json : RemoteOperationJson) (zero_op : RemoteOperation).
(** The ids of sites are texts that encoding/json keeps, and so is what the
    content of a version check holds. *)
Context (P : SiteId → Prop) (P_wf : ∀ id, P id → site_id_wf id).
Context (P_vector : ∀ v, vector_ids P v → validv (ToJsonable v)).
Context (P_operations : ∀ ops, Forall (operation_ids P) ops → valid (operation_json <$> ops)).
Context (content_kept : ∀ c c', newVersionCheckMsgContentFromJson (content_toJson c) = Some c' →
  vc_Source c' = vc_Source c ∧ vc_VersionVector c' = vc_VersionVector c).

Abbreviation world_step := (world_step order range netMeta_toJson newNetMetaFromJson content_toJson
  newVersionCheckMsgContentFromJson atoi_error zero_json zero_op).
Abbreviation decode := (RemoteOperationsFromSlice zero_op).

(** ** The wire format *)

Lemma encode_decode ops slice :
  Forall (operation_ids P) ops → RemoteOperationsToSlice zero_json ops = Ok slice → decode slice = Ok ops.
Proof using Lo P_wf P_operations.
  intros Hops E. destruct (slices_roundtrip zero_json zero_op ops) as (slice' & E' & D).
  - eapply Forall_impl; [exact Hops|]. intros op [_ Hv] id Hid. by apply P_wf, Hv.
  - by apply P_operations.
  - rewrite E in E'. by injection E' as <-.
Qed.

Lemma vector_kept v : vector_ids P v → UnmarshalJSON (MarshalJSON v) = (false, Some v).
Proof using Lv P_wf P_vector.
  intros Hv. unfold UnmarshalJSON, MarshalJSON. rewrite Unmarshal_Marshal by (by apply P_vector).
  rewrite FromVersionVectorJson_ToJsonable; [done|]. intros id Hid. by apply P_wf, Hv.
Qed.

Lemma encode_Ok ops : ∃ slice, RemoteOperationsToSlice zero_json ops = Ok slice.
Proof using. unfold RemoteOperationsToSlice. rewrite fill_ops_ok, bind_Ok. by eexists. Qed.

Lemma GetMissingOperations_Ok m v : ∃ r, GetMissingOperations m v = Ok r.
Proof using.
  unfold GetMissingOperations. destruct (Compare _ _); rewrite ?log_GetMissingOperations_ok, ?bind_Ok; by eexists.
Qed.

Lemma check_handler_Ok app data : VersionCheckHandler zero_json app data = Ok (check_handler zero_json app data).
Proof using.
  apply or_else_Ok. unfold VersionCheckHandler. destruct (UnmarshalJSON data) as [err vector].
  destruct (as_DocModel app) as [m|]; [|done]. destruct vector as [v|]; [|done]. destruct err; [done|].
  destruct (GetMissingOperations_Ok m v) as [[ops queueOps] ->]. rewrite bind_Ok.
  destruct (_ >? 0); [|done]. by destruct (encode_Ok (ops ++ queueOps)) as [slice ->].
Qed.

(** The handler of version checks gives an answer to the question, or none. *)
Lemma check_handler_spec app m data reply :
  as_DocModel app = Some m → check_handler zero_json app data = (reply, true) →
  ∃ v ops queueOps, UnmarshalJSON data = (false, Some v) ∧ GetMissingOperations m v = Ok (ops, queueOps) ∧
    RemoteOperationsToSlice zero_json (ops ++ queueOps) = Ok reply.
Proof using.
  intros Hm. unfold check_handler, VersionCheckHandler. rewrite Hm.
  destruct (UnmarshalJSON data) as [err [v|]]; [|done]. destruct err; [done|].
  destruct (GetMissingOperations m v) as [[ops queueOps]| |] eqn:E; [|done..].
  rewrite bind_Ok. destruct (_ >? 0); [|done].
  destruct (encode_Ok (ops ++ queueOps)) as [slice Es]. rewrite Es, bind_Ok. cbn. intros [= <-].
  by exists v, ops, queueOps.
Qed.

(** ** Messages *)

(** What a message may be that is for a session of the site [to]; [again] is
    whether it is passed on. *)
Definition good (net : network) (owner : gmap str SiteId) (to : option SiteId) (type : str) (again : bool)
    (content : list byte) : Prop :=
  (type = MSG_TYPE_REMOTE_OP → ∀ ops, decode content = Ok ops →
     (∀ op, op ∈ ops → op ∈ nw_sent net) ∨
     (again = false ∧ ∃ s goal, to = Some s ∧ mkReply s ops goal ∈ nw_replies net)) ∧
  (type = MSG_TYPE_VERSION_CHECK → ∀ c v, newVersionCheckMsgContentFromJson content = Some c →
     UnmarshalJSON (vc_VersionVector c) = (false, Some v) →
     ∃ s, owner !! vc_Source c = Some s ∧ (s, v) ∈ nw_asked net).

Definition msg_good net owner to (msg : Message) : Prop :=
  good net owner to (m_Type msg) (bool_decide (is_Some (m_Visited msg))) (m_Msg msg).
Definition wire_good net owner to (wm : wire_message) : Prop :=
  good net owner to (wm_Type wm) (bool_decide (is_Some (wm_Visited wm))) (wm_Msg wm).
Definition allowed net owner (id : str) (msg : Message) : Prop := msg_good net owner (owner !! id) msg.

Definition task_ok net owner (s : SiteId) (t : task) : Prop :=
  match t with
  | Broadcasting op => op ∈ nw_sent net
  | Handling content => ∀ ops, decode content = Ok ops → handed net s ops
  | Applying ops => handed net s ops
  | Replying msg id => allowed net owner id msg
  end.

Lemma good_meta net owner to type again content :
  type = MSG_TYPE_NET_META_UPDATE → good net owner to type again content.
Proof using. intros ->. by split. Qed.

Lemma good_mono net net' owner owner' to to' type again content :
  grows net net' → owner ⊆ owner' → (∀ s, to = Some s → to' = Some s) →
  good net owner to type again content → good net' owner' to' type again content.
Proof using.
  intros [Gs Ga Gr] Ho Ht [H1 H2]. split.
  - intros Hty ops E. destruct (H1 Hty ops E) as [?|(? & s & goal & ? & ?)]; [left; auto|right].
    split; [done|]. exists s, goal. auto.
  - intros Hty c v Ec Ev. destruct (H2 Hty c v Ec Ev) as (s & Hs & Hin). exists s. split; [|auto].
    by eapply lookup_weaken.
Qed.

Lemma allowed_mono net net' owner owner' id msg :
  grows net net' → owner ⊆ owner' → allowed net owner id msg → allowed net' owner' id msg.
Proof using. intros Hg Ho. apply good_mono; [done..|]. intros s Hs. by eapply lookup_weaken. Qed.

Lemma task_ok_mono net net' owner owner' s t :
  grows net net' → owner ⊆ owner' → task_ok net owner s t → task_ok net' owner' s t.
Proof using.
  intros Hg Ho. destruct t; cbn.
  - apply Hg.
  - intros Hh ops E. eapply handed_grows; [done|auto].
  - by apply handed_grows.
  - by apply allowed_mono.
Qed.

(** A broadcast is for every session. *)
Lemma broadcast_good net owner to to' msg :
  is_Some (m_Visited msg) → msg_good net owner to msg → msg_good net owner to' msg.
Proof using.
  intros Hv [H1 H2]. split; [|done]. intros Hty ops E. destruct (H1 Hty ops E) as [?|[Hf _]]; [by left|].
  by rewrite bool_decide_eq_true_2 in Hf.
Qed.

(** ** The documents of the editors are sites that catch up *)

Record linked (w : world) (net : network) : Prop := {
  lk_reach : sync_reachable net;
  lk_ids : network_ids P net;
  lk_model s pe : wd_peers w !! s = Some pe →
    ∃ m, as_DocModel (pe_app pe) = Some m ∧ nw_models net !! s = Some m;
  lk_queues s pe : wd_peers w !! s = Some pe → queues_ok (allowed net (wd_owner w)) (pool_of pe);
  lk_chan s pe msg : wd_peers w !! s = Some pe → msg ∈ pe_chan pe → msg_good net (wd_owner w) (Some s) msg;
  lk_tasks s pe t : wd_peers w !! s = Some pe → t ∈ pe_tasks pe → task_ok net (wd_owner w) s t;
  lk_wire id wm : (id, wm) ∈ wd_wire w → wire_good net (wd_owner w) (wd_owner w !! id) wm
}.

(** One editor takes a step, its site some steps. *)
Lemma linked_update w net s pe net' m' owner' wire' :
  linked w net → rtc sync_step net net' → grows net net' → nw_models net' = <[s := m']> (nw_models net) →
  wd_owner w ⊆ owner' → as_DocModel (pe_app pe) = Some m' →
  queues_ok (allowed net' owner') (pool_of pe) →
  (∀ msg, msg ∈ pe_chan pe → msg_good net' owner' (Some s) msg) →
  (∀ t, t ∈ pe_tasks pe → task_ok net' owner' s t) →
  (∀ id wm, (id, wm) ∈ wire' → (id, wm) ∈ wd_wire w ∨ wire_good net' owner' (owner' !! id) wm) →
  linked (mkWorld (<[s := pe]> (wd_peers w)) owner' wire') net'.
Proof using.
  intros HL Hsteps Hg Hmodels Ho Hdoc Hqueues Hchan Htasks Hwire.
  split; cbn [wd_peers wd_owner wd_wire].
  - eapply sync_steps_reachable, HL. exact Hsteps.
  - eapply sync_steps_ids, HL. exact Hsteps.
  - intros t pe' [[<- <-]|[Hne Hpe]]%lookup_insert_Some.
    + exists m'. by rewrite Hmodels, lookup_insert_eq.
    + destruct (lk_model _ _ HL _ _ Hpe) as (m & ? & ?). exists m. by rewrite Hmodels, lookup_insert_ne.
  - intros t pe' [[<- <-]|[Hne Hpe]]%lookup_insert_Some; [done|].
    eapply queues_ok_mono, (lk_queues _ _ HL); [|exact Hpe]. intros id msg. by apply allowed_mono.
  - intros t pe' msg [[<- <-]|[Hne Hpe]]%lookup_insert_Some; [apply Hchan|].
    intros Hmsg. eapply good_mono, (lk_chan _ _ HL); [done..|exact Hpe|exact Hmsg].
  - intros t pe' x [[<- <-]|[Hne Hpe]]%lookup_insert_Some; [apply Htasks|].
    intros Hx. eapply task_ok_mono, (lk_tasks _ _ HL); [done..|exact Hpe|exact Hx].
  - intros id wm Hin. destruct (Hwire id wm Hin) as [Hold|?]; [|done].
    eapply good_mono, (lk_wire _ _ HL); [done..| |exact Hold]. intros t Ht. by eapply lookup_weaken.
Qed.

(** An editor takes a step that leaves its document alone. *)
Lemma linked_same w net s pe pe' owner' wire' :
  linked w net → wd_peers w !! s = Some pe → wd_owner w ⊆ owner' →
  as_DocModel (pe_app pe') = as_DocModel (pe_app pe) →
  (queues_ok (allowed net owner') (pool_of pe) → queues_ok (allowed net owner') (pool_of pe')) →
  (∀ msg, msg ∈ pe_chan pe' → msg ∈ pe_chan pe ∨ msg_good net owner' (Some s) msg) →
  (∀ t, t ∈ pe_tasks pe' → t ∈ pe_tasks pe ∨ task_ok net owner' s t) →
  (∀ id wm, (id, wm) ∈ wire' → (id, wm) ∈ wd_wire w ∨ wire_good net owner' (owner' !! id) wm) →
  linked (mkWorld (<[s := pe']> (wd_peers w)) owner' wire') net.
Proof using.
  intros HL Hpe Ho Hdoc Hqueues Hchan Htasks Hwire. destruct (lk_model _ _ HL _ _ Hpe) as (m & Hm & Hs).
  eapply (linked_update w net s pe' net m owner' wire'); [done|apply rtc_refl|done|by rewrite insert_id|done|congruence| | | |done].
  - apply Hqueues. eapply queues_ok_mono, (lk_queues _ _ HL); [|exact Hpe]. intros id msg. by apply allowed_mono.
  - intros msg Hin. destruct (Hchan msg Hin) as [Hold|?]; [|done].
    eapply good_mono, (lk_chan _ _ HL); [done..|exact Hpe|exact Hold].
  - intros t Hin. destruct (Htasks t Hin) as [Hold|?]; [|done].
    eapply task_ok_mono, (lk_tasks _ _ HL); [done..|exact Hpe|exact Hold].
Qed.

Lemma linked_set_same w net s pe pe' :
  linked w net → wd_peers w !! s = Some pe →
  as_DocModel (pe_app pe') = as_DocModel (pe_app pe) →
  (queues_ok (allowed net (wd_owner w)) (pool_of pe) → queues_ok (allowed net (wd_owner w)) (pool_of pe')) →
  (∀ msg, msg ∈ pe_chan pe' → msg ∈ pe_chan pe ∨ msg_good net (wd_owner w) (Some s) msg) →
  (∀ t, t ∈ pe_tasks pe' → t ∈ pe_tasks pe ∨ task_ok net (wd_owner w) s t) →
  linked (set_peer s pe' w) net.
Proof using. intros HL Hpe Hdoc Hq Hc Ht. eapply linked_same; try done. by left. Qed.

(** ** The steps *)

Lemma edits_linked w net s pe width height ev p' ef :
  linked w net → wd_peers w !! s = Some pe → counters_left (pe_app pe) →
  (∀ w' h', ev = EventResize w' h' → 5 ≤ w') →
  DrawEditor_event (pe_app pe) width height ev = Ok (p', ef) →
  ∃ net', linked (set_peer s (mkPeer (pr_app p') (pr_screen p') (pe_chan pe)
    (pe_tasks pe ++ (Broadcasting <$> option_list (ef_operation ef)))) w) net'.
Proof using.
  intros HL Hpe Hc Hw H. destruct (lk_model _ _ HL _ _ Hpe) as (m & Hm & Hs). destruct (Hc m Hm) as [Hv Hn].
  destruct (editor_event_moved net s (pe_app pe) m Hm Hs width height ev p' ef Hv Hn Hw H) as (m' & Hm' & Hsteps).
  apply editor_event_manager in H.
  assert (grows net (moved net s m' (ef_operation ef))) as Hg by (split; [|done..]; intros op Hop; cbn; apply elem_of_app; by left).
  exists (moved net s m' (ef_operation ef)).
  eapply (linked_update w net s _ _ m'); [exact HL|exact Hsteps|exact Hg|done|done|done| | | |by left].
  - unfold pool_of. cbn [pe_app]. rewrite H. eapply queues_ok_mono, (lk_queues _ _ HL); [|exact Hpe].
    intros id msg. by apply allowed_mono.
  - intros msg Hin. eapply good_mono, (lk_chan _ _ HL); [done..|exact Hpe|exact Hin].
  - cbn [pe_tasks]. intros t [Hin|Hin]%elem_of_app.
    + eapply task_ok_mono, (lk_tasks _ _ HL); [done..|exact Hpe|exact Hin].
    + apply list_elem_of_fmap in Hin as (op & -> & Hop). cbn. apply elem_of_app. by right.
Qed.

Lemma turns_linked w net s pe width height p' ef :
  linked w net → wd_peers w !! s = Some pe → 5 ≤ width →
  main_turn order range (pe_app pe) width height = Ok (p', ef) →
  ∃ net', linked (set_peer s (mkPeer (pr_app p') (pr_screen p') (pe_chan pe) (pe_tasks pe)) w) net'.
Proof using.
  intros HL Hpe Hw H. destruct (lk_model _ _ HL _ _ Hpe) as (m & Hm & Hs).
  destruct (decide (as_State (pe_app pe) = STATE_DOCUMENT)) as [Hst|Hst].
  - destruct (editor_opens_moved net s (pe_app pe) m Hm Hs order range width height p' ef Hst Hw H) as (m' & Hm' & Hsteps).
    assert (ef_operation ef = None) as He.
    { unfold main_turn in H. rewrite Hst in H. cbn in H. unfold DrawEditor_start in H.
      by apply bind_Ok_inv in H as (app1 & _ & (y & _ & ?)%redraw_inv). }
    apply opens_manager in H as Hman; [|done]. rewrite He in Hsteps. rewrite moved_set in Hsteps.
    exists (set_model s m' net).
    eapply (linked_update w net s _ _ m'); [exact HL|exact Hsteps|by split|done|done|done| | | |by left].
    + unfold pool_of. cbn [pe_app]. rewrite Hman. apply (lk_queues _ _ HL _ _ Hpe).
    + intros msg. apply (lk_chan _ _ HL _ _ _ Hpe).
    + intros t. apply (lk_tasks _ _ HL _ _ _ Hpe).
  - apply (turn_calm order range (allowed net (wd_owner w))) in H as [[Hk _] Hd]; [|done].
    exists net. eapply linked_set_same; [done|done|exact Hd|exact Hk|by left|by left].
Qed.

Lemma prompts_linked w net s pe prompt width height o uuid now ev p' ef :
  linked w net → wd_peers w !! s = Some pe →
  DrawPrompt_event order netMeta_toJson atoi_error o uuid now (pe_app pe) prompt width height ev = Ok (p', ef) →
  as_DocModel (pr_app p') = as_DocModel (pe_app pe) →
  (∀ t, wd_owner w !! nm_id (as_Manager (pr_app p')) = Some t → t = s) →
  linked (mkWorld
    (<[s := mkPeer (pr_app p') (pr_screen p') (pe_chan pe ++ ef_messages ef) (pe_tasks pe)]> (wd_peers w))
    (<[nm_id (as_Manager (pr_app p')) := s]> (wd_owner w)) (wd_wire w)) net.
Proof using.
  intros HL Hpe H Hd Ho. set (owner' := <[_ := s]> (wd_owner w)).
  apply (prompt_calm order netMeta_toJson atoi_error (allowed net owner')) in H as [Hk Hm].
  eapply linked_same; [done|done| |exact Hd|exact Hk| |by left|by left].
  - apply map_subseteq_spec. intros id t Ht. destruct (decide (nm_id (as_Manager (pr_app p')) = id)) as [E|Hne].
    + unfold owner'. rewrite E, lookup_insert_eq. f_equal. symmetry. apply Ho. by rewrite E.
    + unfold owner'. by rewrite lookup_insert_ne.
  - cbn [pe_chan]. intros msg [?|Hin]%elem_of_app; [by left|right]. by apply good_meta, Hm.
Qed.

(** The other tasks of an editor. *)
Lemma tasks_left pe before t0 after :
  pe_tasks pe = before ++ t0 :: after → ∀ t, t ∈ before ++ after → t ∈ pe_tasks pe.
Proof using.
  intros -> t [Hin|Hin]%elem_of_app; apply elem_of_app; [by left|]. right. by right.
Qed.

Lemma broadcasts_linked w net s pe op before after app' :
  linked w net → wd_peers w !! s = Some pe → pe_tasks pe = before ++ Broadcasting op :: after →
  BroadcastRemote order zero_json (pe_app pe) op = Ok app' →
  linked (set_peer s (at_tasks (before ++ after) (at_app app' pe)) w) net.
Proof using Lo P_wf P_operations.
  intros HL Hpe Ht H.
  assert (op ∈ nw_sent net) as Hop.
  { apply (lk_tasks _ _ HL s pe (Broadcasting op) Hpe). rewrite Ht. apply elem_of_app. right. by left. }
  unfold BroadcastRemote in H. apply bind_Ok_inv in H as (content & Hcontent & H).
  unfold NewBroadcastMessage in H. cbn [new_loc] in H. apply bind_Ok_inv in H as (nm & Hb & [= <-]).
  apply encode_decode in Hcontent.
  2:{ constructor; [|constructor]. pose proof (ni_sent _ _ (lk_ids _ _ HL)) as Hs. rewrite Forall_forall in Hs. by apply Hs. }
  eapply linked_set_same; [done|done|done| |by left| ].
  - unfold pool_of. cbn [at_tasks at_app pe_app set_Manager as_Manager].
    intros Hq. unfold pool_of in Hq. set (np := nm_pool (as_Manager (pe_app pe))) in Hq, Hb.
    assert (queues_ok (allowed net (wd_owner w)) (set_visited (np_next np) {[nm_id (as_Manager (pe_app pe))]}
      (mkPool (np_netMeta np) (np_pool np) (np_nodes np) (np_visited np) (np_closed np) (S (np_next np))))) as Hq'.
    { by apply (keeps_new_visited _ np). }
    unfold Broadcast in Hb. cbn [nm_session nm_pool] in Hb.
    destruct (nm_session _) as [ses|]; [|injection Hb as <-; exact Hq'].
    destruct (ended ses); [injection Hb as <-; exact Hq'|].
    apply bind_Ok_inv in Hb as (np' & Hb & [= <-]). cbn [nm_pool].
    eapply keeps_broadcast; [|exact Hb|exact Hq'].
    intros id. split; [|done]. cbn. intros _ ops E. rewrite Hcontent in E. injection E as <-. left.
    by intros q ->%list_elem_of_singleton.
  - cbn. intros t Hin. left. by apply (tasks_left _ _ _ _ Ht).
Qed.

(** A version check asks for the site: it is a question of the site. *)
Lemma check_asks w net s pe m ses msg :
  linked w net → wd_peers w !! s = Some pe → as_DocModel (pe_app pe) = Some m → nw_models net !! s = Some m →
  wd_owner w !! s_id ses = Some s →
  getLatestVersionCheckMsg range content_toJson (GetOpsReceiveVersion (pe_app pe)) ses (pool_of pe) = Some msg →
  let net' := mkNetwork (nw_models net) (nw_sent net) ((s, GetVersionVectorReceived m) :: nw_asked net) (nw_replies net) in
  sync_step net net' ∧ grows net net' ∧ ∀ to, msg_good net' (wd_owner w) to msg.
Proof using Lv P_wf P_vector content_kept.
  intros HL Hpe Hm Hs Ho Hmsg net'. split_and!.
  - by apply sync_ask.
  - split; [done|by intros p ?; right|done].
  - intros to. unfold getLatestVersionCheckMsg, GetOpsReceiveVersion in Hmsg. rewrite Hm in Hmsg. injection Hmsg as <-.
    split; [done|]. cbn. intros _ c v Hc Hv. apply content_kept in Hc as [Hsrc Hvec]. cbn in Hsrc, Hvec.
    rewrite Hvec in Hv. rewrite vector_kept in Hv by (by apply received_ids, (ni_models _ _ (lk_ids _ _ HL) s m)).
    injection Hv as <-. exists s. split; [by rewrite Hsrc|by left].
Qed.

Lemma checks_linked w net s pe ses np' goes_on :
  linked w net → wd_peers w !! s = Some pe → wd_owner w !! s_id ses = Some s →
  periodicallyCheckVersion range order content_toJson (GetOpsReceiveVersion (pe_app pe)) ses (pool_of pe) =
    Ok (np', goes_on) →
  ∃ net', linked (set_peer s (at_pool np' pe) w) net'.
Proof using Lv P_wf P_vector content_kept.
  intros HL Hpe Ho H. destruct (lk_model _ _ HL _ _ Hpe) as (m & Hm & Hs). unfold periodicallyCheckVersion in H.
  assert (np' = pool_of pe → ∃ net', linked (set_peer s (at_pool np' pe) w) net') as Hsame.
  { intros ->. exists net. eapply linked_set_same; [done|done|done|done|by left|by left]. }
  destruct (ended ses); [by apply Hsame; injection H as <- <-|].
  destruct (getLatestVersionCheckMsg _ _ _ _ _) as [msg|] eqn:E; [|by apply Hsame; injection H as <- <-].
  apply bind_Ok_inv in H as (np1 & Hb & [= -> <-]).
  destruct (check_asks w net s pe m ses msg HL Hpe Hm Hs Ho E) as (Hstep & Hg & Hgood).
  eexists. eapply (linked_update w net s _ _ m); [done|by apply rtc_once|exact Hg|by rewrite insert_id|done|done| | | |by left].
  - eapply keeps_broadcast; [|exact Hb|].
    + intros id. apply Hgood.
    + eapply queues_ok_mono, (lk_queues _ _ HL); [|exact Hpe]. intros id x. by apply allowed_mono.
  - intros x Hx. eapply good_mono, (lk_chan _ _ HL); [exact Hg|done|done|exact Hpe|exact Hx].
  - intros t Ht. eapply task_ok_mono, (lk_tasks _ _ HL); [exact Hg|done|exact Hpe|exact Ht].
Qed.

Lemma pack_good net owner to np msg wm :
  msg_good net owner to msg → pack np msg = Ok wm → wire_good net owner to wm.
Proof using.
  unfold msg_good, wire_good, pack. destruct msg as [ty [v|] content]; cbn; intros Hg H.
  - apply bind_Ok_inv in H as (vs & _ & [= <-]). exact Hg.
  - by injection H as <-.
Qed.

Lemma unpack_good net owner to np wm np' msg Q :
  wire_good net owner to wm → unpack np wm = (np', msg) → msg_good net owner to msg ∧ keeps Q np np'.
Proof using.
  unfold msg_good, wire_good, unpack. destruct wm as [ty [v|] content]; cbn; intros Hg H; injection H as <- <-.
  - split; [exact Hg|]. apply (keeps_new_visited Q np v).
  - by split.
Qed.

Lemma greets_linked w net s pe ses id msg wm :
  linked w net → wd_peers w !! s = Some pe → wd_owner w !! s_id ses = Some s →
  getLatestVersionCheckMsg range content_toJson (GetOpsReceiveVersion (pe_app pe)) ses (pool_of pe) = Some msg →
  pack (pool_of pe) msg = Ok wm → ∃ net', linked (post id wm w) net'.
Proof using Lv P_wf P_vector content_kept.
  intros HL Hpe Ho E Hp. destruct (lk_model _ _ HL _ _ Hpe) as (m & Hm & Hs).
  destruct (check_asks w net s pe m ses msg HL Hpe Hm Hs Ho E) as (Hstep & Hg & Hgood).
  eexists. assert (post id wm w = mkWorld (<[s := pe]> (wd_peers w)) (wd_owner w) (wd_wire w ++ [(id, wm)])) as ->.
  { unfold post. by rewrite insert_id. }
  eapply (linked_update w net s _ _ m); [done|by apply rtc_once|exact Hg|by rewrite insert_id|done|done| | | |].
  - eapply queues_ok_mono, (lk_queues _ _ HL); [|exact Hpe]. intros i x. by apply allowed_mono.
  - intros x Hx. eapply good_mono, (lk_chan _ _ HL); [exact Hg|done|done|exact Hpe|exact Hx].
  - intros t Ht. eapply task_ok_mono, (lk_tasks _ _ HL); [exact Hg|done|exact Hpe|exact Ht].
  - intros i x [?|[= -> ->]%list_elem_of_singleton]%elem_of_app; [by left|right]. by eapply pack_good.
Qed.

Lemma sends_linked w net s pe l n msg np' wm :
  linked w net → wd_peers w !! s = Some pe → np_nodes (pool_of pe) !! l = Some n →
  take_message (pool_of pe) l = Ok (Some (msg, np')) → pack (pool_of pe) msg = Ok wm →
  linked (post (n_id n) wm (set_peer s (at_pool np' pe) w)) net.
Proof using.
  intros HL Hpe Hn Ht Hp. apply (keeps_take (allowed net (wd_owner w))) in Ht as (Hk & n' & Hn' & Hin & _).
  rewrite Hn in Hn'. injection Hn' as <-. unfold post, set_peer. cbn [wd_peers wd_owner wd_wire].
  eapply linked_same; [done|done|done|done|exact Hk|by left|by left|].
  intros i x [?|[= -> ->]%list_elem_of_singleton]%elem_of_app; [by left|right].
  eapply pack_good; [|exact Hp]. by apply (lk_queues _ _ HL _ _ Hpe) with l.
Qed.

Lemma receives_linked w net s pe id wm np' msg :
  linked w net → wd_peers w !! s = Some pe → (id, wm) ∈ wd_wire w → wd_owner w !! id = Some s →
  unpack (pool_of pe) wm = (np', msg) →
  linked (set_peer s (at_chan (pe_chan pe ++ [msg]) (at_pool np' pe)) w) net.
Proof using.
  intros HL Hpe Hin Ho Hu. pose proof (lk_wire _ _ HL id wm Hin) as Hw. rewrite Ho in Hw.
  apply (unpack_good _ _ _ _ _ _ _ (allowed net (wd_owner w)) Hw) in Hu as [Hg Hk].
  eapply linked_set_same; [done|done|done|exact Hk| |by left].
  intros x [?| ->%list_elem_of_singleton]%elem_of_app; [by left|by right].
Qed.

Lemma told_linked w net s pe id delta np' msg :
  linked w net → wd_peers w !! s = Some pe → newNetMetaUpdateMsg netMeta_toJson (pool_of pe) id delta = (np', msg) →
  linked (set_peer s (at_chan (pe_chan pe ++ [msg]) (at_pool np' pe)) w) net.
Proof using.
  intros HL Hpe H. unfold newNetMetaUpdateMsg, NewBroadcastMessage in H. cbn [new_loc] in H. injection H as <- <-.
  eapply linked_set_same; [done|done|done| | |by left].
  - apply (keeps_new_visited _ (pool_of pe) {[id]}).
  - intros x [?| ->%list_elem_of_singleton]%elem_of_app; [by left|right]. by apply good_meta.
Qed.

Lemma connects_linked w net s pe ses np' :
  linked w net → wd_peers w !! s = Some pe → conn_step ses (pool_of pe) np' → linked (set_peer s (at_pool np' pe) w) net.
Proof using.
  intros HL Hpe H. eapply linked_set_same; [done|done|done| |by left|by left]. intros Hq.
  change (queues_ok (allowed net (wd_owner w)) np'). revert Hq. destruct H as
    [vc o l c interval np' started updates next H|id addr c np' started H|l np' msg goes_on ts H
    |l msg np1 np' ok H1 H2].
  - by eapply keeps_turn.
  - by eapply keeps_establish.
  - by eapply keeps_receive.
  - apply (keeps_take (allowed net (wd_owner w))) in H1 as (Hk & n & Hn & Hin & n' & Hn' & Hid).
    intros Hq. eapply keeps_put; [|exact H2|by apply Hk]. intros n2 Hn2. rewrite Hn' in Hn2. injection Hn2 as <-.
    rewrite Hid. by apply Hq with l.
Qed.

(** New nodes lead to no goroutine of the handlers. *)
Lemma new_nodes_tasks ses np nodes ts : handleNewNodes ses np nodes = Ok ts → concat (task_of <$> ts) = [].
Proof using.
  unfold handleNewNodes.
  assert (∀ l acc, concat (task_of <$> acc) = [] →
    foldM (λ ts l, t ← initiateNewNode ses np l; Ok (ts ++ t)) acc l = Ok ts → concat (task_of <$> ts) = []) as Hl.
  { induction l as [|l nodes' IH]; intros acc Hacc E; cbn [foldM] in E; [by simplify_eq|].
    apply bind_Ok_inv in E as (acc' & E1 & E). apply bind_Ok_inv in E1 as (t & Et & [= <-]).
    apply (IH (acc ++ t)); [|exact E]. rewrite fmap_app, concat_app, Hacc.
    unfold initiateNewNode in Et. apply bind_Ok_inv in Et as (n & _ & Et).
    destruct (decide _); [by injection Et as <-|]. destruct (shouldConnect _ _); by injection Et as <-. }
  by apply Hl.
Qed.

Lemma netmeta_keeps Q ses np msg np' ts :
  (∀ id m, m_Type m = m_Type msg → Q id m) →
  handleIncomingNetMeta range order netMeta_toJson newNetMetaFromJson ses np msg = Ok (np', ts) →
  keeps Q np np' ∧ concat (task_of <$> ts) = [].
Proof using.
  intros HQ. unfold handleIncomingNetMeta. destruct (newNetMetaFromJson _) as [u|]; intros H; [|by simplify_eq].
  apply bind_Ok_inv in H as ([[[np1 nl] d] c] & H1 & H). apply (keeps_updates Q) in H1.
  destruct c; [|by simplify_eq]. apply bind_Ok_inv in H as (t & Ht & H).
  apply bind_Ok_inv in H as (np2 & H2 & H). simplify_eq. split; [|by eapply new_nodes_tasks].
  etrans; [exact H1|]. eapply keeps_broadcast; [|exact H2]. intros id. by apply HQ.
Qed.

(** Serving a message: the questions it holds may be answered. *)
Lemma serve_good net owner s m app ses np msg np' ts :
  network_ids P net → nw_models net !! s = Some m → as_DocModel app = Some m →
  msg_good net owner (Some s) msg → queues_ok (allowed net owner) np →
  serve_message range order netMeta_toJson newNetMetaFromJson newVersionCheckMsgContentFromJson
    true (Some (check_handler zero_json app)) ses np msg = Ok (np', ts) →
  ∃ net', rtc sync_step net net' ∧ grows net net' ∧ nw_models net' = nw_models net ∧
    queues_ok (allowed net' owner) np' ∧ ∀ t, t ∈ concat (task_of <$> ts) → task_ok net' owner s t.
Proof using Lo P_wf P_operations.
  intros Hids Hs Hm Hgood Hq H. pose proof Hgood as [Hop Hcheck]. unfold serve_message in H.
  assert (∀ nm_type, nm_type = MSG_TYPE_NET_META_UPDATE → ∀ id x, m_Type x = nm_type → allowed net owner id x) as Hmeta.
  { intros ty -> id x Hx. by apply good_meta. }
  destruct (decide _) as [Hty|Hty].
  { apply (netmeta_keeps (allowed net owner)) in H as [Hk ->]; [|by apply Hmeta]. exists net.
    split_and!; [apply rtc_refl|done|done|by apply Hk|by intros t ?%elem_of_nil]. }
  destruct (decide _) as [Hty2|Hty2].
  { unfold handleIncomingRemoteOp in H. apply bind_Ok_inv in H as (np1 & H & [= -> <-]). exists net.
    split_and!; [apply rtc_refl|done|done| |].
    - destruct (m_Visited msg) as [v|] eqn:Hv; [|by injection H as <-].
      eapply keeps_broadcast; [|exact H|exact Hq]. intros id.
      apply (broadcast_good net owner (Some s)); [by rewrite Hv|exact Hgood].
    - cbn. intros t ->%list_elem_of_singleton ops E.
      destruct (Hop Hty2 ops E) as [?|(_ & s' & goal & [= <-] & ?)]; [by left|by right; exists goal]. }
  destruct (decide _) as [Hty3|Hty3].
  2:{ injection H as <- <-. exists net. split_and!; [apply rtc_refl|done|done|done|by intros t ?%elem_of_nil]. }
  unfold handleIncomingVersionCheck in H. destruct (newVersionCheckMsgContentFromJson _) as [c|] eqn:Hc.
  2:{ injection H as <- <-. exists net. split_and!; [apply rtc_refl|done|done|done|by intros t ?%elem_of_nil]. }
  destruct (newNetMetaUpdateMsg _ _ _ _) as [np1 update] eqn:Hu. unfold newNetMetaUpdateMsg, NewBroadcastMessage in Hu.
  cbn [new_loc] in Hu. injection Hu as <- <-. apply bind_Ok_inv in H as ([np2 ts2] & H1 & H).
  apply (netmeta_keeps (allowed net owner)) in H1 as [Hk Hts]; [|by apply Hmeta].
  assert (queues_ok (allowed net owner) np2) as Hq2.
  { apply Hk. apply (keeps_new_visited _ np {[s_id ses]}), Hq. }
  rewrite require_Some, bind_Ok in H.
  destruct (check_handler zero_json app (vc_VersionVector c)) as [reply should] eqn:Hh. destruct should.
  2:{ injection H as <- <-. exists net. rewrite Hts. split_and!; [apply rtc_refl|done|done|done|by intros t ?%elem_of_nil]. }
  injection H as <- <-. apply (check_handler_spec app m) in Hh as (v & ops & queueOps & Hv & HG & He); [|done].
  destruct (Hcheck Hty3 c v eq_refl Hv) as (a & Ha & Hasked).
  set (net' := mkNetwork (nw_models net) (nw_sent net) (nw_asked net)
    (mkReply a (ops ++ queueOps) (lg_Vector (dm_Log m)) :: nw_replies net)).
  assert (grows net net') as Hg by (split; [done..|by intros r ?; right]). exists net'. split_and!.
  - apply rtc_once. by eapply sync_answer.
  - exact Hg.
  - done.
  - eapply queues_ok_mono, Hq2. intros id x. by apply allowed_mono.
  - rewrite fmap_app, concat_app, Hts. cbn. intros t ->%list_elem_of_singleton. split; [|done].
    cbn. intros _ ops' E. right. split; [done|]. exists a, (lg_Vector (dm_Log m)). split; [exact Ha|].
    apply encode_decode in He; [|by eapply GetMissingOperations_ids, (ni_models _ _ Hids s m)].
    rewrite He in E. injection E as <-. by left.
Qed.

Lemma serves_linked w net s pe ses msg rest np' ts :
  linked w net → wd_peers w !! s = Some pe → pe_chan pe = msg :: rest →
  serve_message range order netMeta_toJson newNetMetaFromJson newVersionCheckMsgContentFromJson
    true (Some (check_handler zero_json (pe_app pe))) ses (pool_of pe) msg = Ok (np', ts) →
  ∃ net', linked (set_peer s (at_tasks (pe_tasks pe ++ concat (task_of <$> ts)) (at_chan rest (at_pool np' pe))) w) net'.
Proof using Lo P_wf P_operations.
  intros HL Hpe Hc H. destruct (lk_model _ _ HL _ _ Hpe) as (m & Hm & Hs).
  apply (serve_good net (wd_owner w) s m) in H as (net' & Hsteps & Hg & Hmodels & Hq & Hts); try done.
  - exists net'. eapply (linked_update w net s _ net' m); [done|done|done| |done|done|exact Hq| | |by left].
    + by rewrite Hmodels, insert_id.
    + intros x Hx. eapply good_mono, (lk_chan _ _ HL); [exact Hg|done|done|exact Hpe|]. rewrite Hc. by right.
    + intros t [Hin|Hin]%elem_of_app; [|by apply Hts].
      eapply task_ok_mono, (lk_tasks _ _ HL); [exact Hg|done|exact Hpe|exact Hin].
  - apply HL.
  - apply (lk_chan _ _ HL s pe); [done|]. rewrite Hc. by left.
  - exact (lk_queues _ _ HL _ _ Hpe).
Qed.

(** The task that an editor works on, and those it has afterwards. *)
Lemma task_at net owner w s pe before t0 after :
  linked w net → wd_peers w !! s = Some pe → pe_tasks pe = before ++ t0 :: after → owner = wd_owner w →
  task_ok net owner s t0.
Proof using.
  intros HL Hpe Ht ->. apply (lk_tasks _ _ HL s pe t0 Hpe). rewrite Ht. apply elem_of_app. right. by left.
Qed.

Lemma tasks_replaced pe before t0 t1 after t :
  pe_tasks pe = before ++ t0 :: after → t ∈ before ++ t1 :: after → t ∈ pe_tasks pe ∨ t = t1.
Proof using.
  intros Ht [Hin|[->|Hin]%elem_of_cons]%elem_of_app; [left|by right|left]; apply (tasks_left _ _ _ _ Ht), elem_of_app; auto.
Qed.

Lemma handles_linked w net s pe content before after ops :
  linked w net → wd_peers w !! s = Some pe → pe_tasks pe = before ++ Handling content :: after →
  RemoteOpHandler_start zero_op (pe_app pe) content = Ok ops →
  linked (set_peer s (at_tasks (before ++ Applying ops :: after) pe) w) net.
Proof using.
  intros HL Hpe Ht H. destruct (lk_model _ _ HL _ _ Hpe) as (m & Hm & _).
  pose proof (task_at net _ w s pe _ _ _ HL Hpe Ht eq_refl) as Hok. cbn in Hok.
  unfold RemoteOpHandler_start in H. rewrite Hm in H.
  eapply linked_set_same; [done|done|done|done|by left|].
  intros t Hin. destruct (tasks_replaced _ _ _ _ _ _ Ht Hin) as [?| ->]; [by left|right]. by apply Hok.
Qed.

Lemma applies_linked w net s pe op ops before after app' :
  linked w net → wd_peers w !! s = Some pe → pe_tasks pe = before ++ Applying (op :: ops) :: after →
  RemoteOpHandler_next (pe_app pe) op = Ok app' →
  ∃ net', linked (set_peer s (at_tasks (before ++ Applying ops :: after) (at_app app' pe)) w) net'.
Proof using.
  intros HL Hpe Ht H. destruct (lk_model _ _ HL _ _ Hpe) as (m & Hm & Hs).
  pose proof (task_at net _ w s pe _ _ _ HL Hpe Ht eq_refl) as Hok. cbn in Hok.
  destruct (handler_next_inv _ _ _ _ Hm H) as (m' & HA & ->).
  destruct (handed_applies net s m op ops m' Hok Hs HA) as (net' & Hsteps & Hg & Hmodels & Hrest).
  exists net'. eapply (linked_update w net s _ net' m'); [done|done|done|done|done|done| | | |by left].
  - change (queues_ok (allowed net' (wd_owner w)) (pool_of pe)).
    eapply queues_ok_mono, (lk_queues _ _ HL); [|exact Hpe]. intros id x. by apply allowed_mono.
  - intros x Hx. eapply good_mono, (lk_chan _ _ HL); [exact Hg|done|done|exact Hpe|exact Hx].
  - intros t Hin. destruct (tasks_replaced _ _ _ _ _ _ Ht Hin) as [Hin'| ->]; [|exact Hrest].
    eapply task_ok_mono, (lk_tasks _ _ HL); [exact Hg|done|exact Hpe|exact Hin'].
Qed.

Lemma replies_linked w net s pe msg id before after np' ok :
  linked w net → wd_peers w !! s = Some pe → pe_tasks pe = before ++ Replying msg id :: after →
  sendMessageToNodeWithId (pool_of pe) msg id = Ok (np', ok) →
  linked (set_peer s (at_tasks (before ++ after) (at_pool np' pe)) w) net.
Proof using.
  intros HL Hpe Ht H. pose proof (task_at net _ w s pe _ _ _ HL Hpe Ht eq_refl) as Hok. cbn in Hok.
  eapply linked_set_same; [done|done|done| |by left|].
  - intros Hq. by eapply keeps_send.
  - intros t Hin. left. by apply (tasks_left _ _ _ _ Ht).
Qed.

(** Nothing is said of an editor that is gone. *)
Lemma leaves_linked w net s :
  linked w net → linked (mkWorld (delete s (wd_peers w)) (wd_owner w) (wd_wire w)) net.
Proof using.
  assert (∀ t pe, delete s (wd_peers w) !! t = Some pe → wd_peers w !! t = Some pe) as Hd
    by (intros t pe [_ ?]%lookup_delete_Some; done).
  intros []. split; cbn [wd_peers wd_owner wd_wire]; eauto.
Qed.

Lemma world_step_linked w w' net : linked w net → world_step w w' → ∃ net', linked w' net'.
Proof using Lv Lo P_wf P_vector P_operations content_kept.
  intros HL Hstep. destruct Hstep.
  - exists net. by apply leaves_linked.
  - by eapply edits_linked.
  - eexists. by eapply prompts_linked.
  - by eapply turns_linked.
  - eexists. by eapply broadcasts_linked.
  - by eapply checks_linked.
  - by eapply greets_linked.
  - eexists. by eapply sends_linked.
  - eexists. by eapply receives_linked.
  - eexists. by eapply told_linked.
  - eexists. by eapply connects_linked.
  - by eapply serves_linked.
  - eexists. by eapply handles_linked.
  - by eapply applies_linked.
  - eexists. by eapply replies_linked.
Qed.

Lemma world_initial_linked w : world_initial w → (∀ s, is_Some (wd_peers w !! s) → P s) → ∃ net, linked w net.
Proof using.
  intros [Hwire Hpeers] HP.
  exists (mkNetwork (omap (λ pe, as_DocModel (pe_app pe)) (wd_peers w)) [] [] []).
  assert (∀ s m, omap (λ pe, as_DocModel (pe_app pe)) (wd_peers w) !! s = Some m → P s ∧
    ∃ width, 4 ≤ width ∧ NewDocumentModel s width true = Ok m) as Hnew.
  { intros s m. rewrite lookup_omap. intros (pe & Hpe & Hm)%bind_Some. split; [apply HP; by eexists|].
    destruct (Hpeers s pe Hpe) as (_ & _ & _ & (m1 & width & Hm1 & ? & ?) & _). exists width. by simplify_eq. }
  split; cbn [nw_models nw_sent nw_asked nw_replies].
  - apply sync_reachable_initial. split_and!; [done..|]. intros s m. cbn. rewrite lookup_omap.
    intros (pe & Hpe & Hm)%bind_Some. destruct (Hpeers s pe Hpe) as (Hw & _ & _ & (m1 & width & Hm1 & ? & ?) & _).
    split; [done|]. exists width. by simplify_eq.
  - split; cbn; [|constructor..]. intros s m (HPs & width & _ & Hm)%Hnew. unfold NewDocumentModel in Hm.
    apply bind_Ok_inv in Hm as (buf & _ & [= <-]). split; cbn; [done|constructor|apply empty_ids|constructor|apply empty_ids].
  - intros s pe Hpe. destruct (Hpeers s pe Hpe) as (_ & _ & _ & (m & width & Hm & _) & _). exists m. split; [done|].
    by rewrite lookup_omap, Hpe.
  - intros s pe Hpe. destruct (Hpeers s pe Hpe) as (_ & _ & _ & _ & Hids & Hnodes). split; [split|].
    + exact Hids.
    + intros l [n Hn]. by apply (Hnodes l n).
    + intros l n msg Hn. destruct (Hnodes l n Hn) as [_ ->]. by intros ?%elem_of_nil.
  - intros s pe msg Hpe. destruct (Hpeers s pe Hpe) as (_ & -> & _). by intros ?%elem_of_nil.
  - intros s pe t Hpe. destruct (Hpeers s pe Hpe) as (_ & _ & -> & _). by intros ?%elem_of_nil.
  - rewrite Hwire. by intros id wm ?%elem_of_nil.
Qed.

Abbreviation world_reachable := (world_reachable order range netMeta_toJson newNetMetaFromJson content_toJson
  newVersionCheckMsgContentFromJson atoi_error zero_json zero_op P).

Lemma world_reachable_linked w : world_reachable w → ∃ net, linked w net.
Proof using Lv Lo P_wf P_vector P_operations content_kept.
  intros (w0 & H0 & HP & Hsteps). destruct (world_initial_linked w0 H0 HP) as [net HL]. clear H0 HP. revert net HL.
  induction Hsteps as [|w1 w2 w3 Hstep _ IH]; intros net HL; [by exists net|].
  destruct (world_step_linked _ _ _ HL Hstep) as [net' HL']. by apply (IH net').
Qed.

(** ** Properties *)


End Network.
