(* ===== verification/EditorNetworkRun.v ===== *)
(** A run of the network of two editors: one types two letters, of which the
    first is broadcast and the second is asked for by the other. *)
From Stdlib Require Import Strings.String.
From S2P Require Import Prelude Json Common Version BufferOp Buffer Prompt Treedoc OperationLog OperationQueue DocumentModel DocumentWire EditorSystem EditorConverges EditorSync EditorCatchUp EditorIds NetMeta NodePool Session NetworkProps Handshake Conn Manager Threads Gui GuiProps GuiSync EditorNetwork EditorNetworkProps.

Open Scope Z_scope.

Section BinaryJson.
Context `{Countable A} (zero : A).
Definition binary_json : Json A := {|
  Marshal a := bits (encode a);
  Unmarshal b := match decode (unbits b) with Some a => (a, false) | None => (zero, true) end
|}.

Lemma binary_json_laws : @JsonLaws A binary_json (λ _, True).
Proof. intros a _. cbn. by rewrite unbits_bits, decode_encode. Qed.
End BinaryJson.

#[export] Instance NodeMeta_countable : Countable NodeMeta.
Proof. refine (inj_countable' (λ m, (Addr m, Left m)) (λ '(a, l), mkNodeMeta a l) _). by intros []. Defined.

Definition meta_text (m : NetMeta) : list byte := bits (encode m).
Definition text_meta (s : list byte) : option NetMeta := decode (unbits s).
Definition content_text (c : VersionCheckMsgContent) : list byte :=
  bits (encode (vc_Source c, vc_NetworkMeta c, vc_VersionVector c)).
Definition text_content (s : list byte) : option VersionCheckMsgContent :=
  match decode (unbits s) with Some (source, meta, vector) => Some (mkContent source meta vector) | None => None end.

Lemma content_text_kept c c' :
  text_content (content_text c) = Some c' → vc_Source c' = vc_Source c ∧ vc_VersionVector c' = vc_VersionVector c.
Proof. unfold text_content, content_text. rewrite unbits_bits, decode_encode. by intros [= <-]. Qed.

#[local] Instance vector_json : Json VersionVectorJson := binary_json ∅.
#[local] Instance operations_json : Json (list RemoteOperationJson) := binary_json [].

Abbreviation run_step := (world_step map_to_list map_to_list meta_text text_meta content_text text_content
  no_number zero_operation_json wire_op).

(** The first step of some kind that an editor can take. *)
Inductive world_command : Type :=
  | CEdit (s : SiteId) (ch : Z)
  | CBroadcast (s : SiteId)
  | CCheck (s : SiteId) (ses : session)
  | CSend (s : SiteId) (l : loc)
  | CReceive (s : SiteId) (i : nat)
  | CServe (s : SiteId) (ses : session)
  | CHandle (s : SiteId) (i : nat)
  | CApply (s : SiteId) (i : nat)
  | CReply (s : SiteId) (i : nat).

Definition got {A} (r : res A) : option A := match r with Ok a => Some a | _ => None end.
Lemma got_Some {A} (r : res A) a : got r = Some a → r = Ok a.
Proof. destruct r; by intros [= <-]. Qed.

Definition counters_fine (app : appState) : bool :=
  match as_DocModel app with
  | Some m => (dm_OpVersion m + 1 <? w32) && (dm_NodeIdClock m + 1 <? w32)
  | None => true
  end.

Definition world_exec (w : world) (c : world_command) : option world :=
  match c with
  | CEdit s ch =>
      pe ← wd_peers w !! s;
      match pe_screen pe, counters_fine (pe_app pe) with
      | Editing width height, true =>
          '(p', ef) ← got (DrawEditor_event (pe_app pe) width height (EventKey NoKey ch));
          Some (set_peer s (mkPeer (pr_app p') (pr_screen p') (pe_chan pe)
            (pe_tasks pe ++ (Broadcasting <$> option_list (ef_operation ef)))) w)
      | _, _ => None
      end
  | CBroadcast s =>
      pe ← wd_peers w !! s;
      match pe_tasks pe with
      | Broadcasting op :: after =>
          app' ← got (BroadcastRemote map_to_list zero_operation_json (pe_app pe) op);
          Some (set_peer s (at_tasks after (at_app app' pe)) w)
      | _ => None
      end
  | CCheck s ses =>
      pe ← wd_peers w !! s;
      guard (wd_owner w !! s_id ses = Some s);;
      '(np', goes_on) ← got (periodicallyCheckVersion map_to_list map_to_list content_text
        (GetOpsReceiveVersion (pe_app pe)) ses (pool_of pe));
      Some (set_peer s (at_pool np' pe) w)
  | CSend s l =>
      pe ← wd_peers w !! s;
      n ← np_nodes (pool_of pe) !! l;
      r ← got (take_message (pool_of pe) l);
      '(msg, np') ← r;
      wm ← got (pack (pool_of pe) msg);
      Some (post (n_id n) wm (set_peer s (at_pool np' pe) w))
  | CReceive s i =>
      pe ← wd_peers w !! s;
      '(id, wm) ← wd_wire w !! i;
      guard (wd_owner w !! id = Some s);;
      let '(np', msg) := unpack (pool_of pe) wm in
      Some (set_peer s (at_chan (pe_chan pe ++ [msg]) (at_pool np' pe)) w)
  | CServe s ses =>
      pe ← wd_peers w !! s;
      match pe_chan pe with
      | msg :: rest =>
          '(np', ts) ← got (serve_message map_to_list map_to_list meta_text text_meta text_content
            true (Some (check_handler zero_operation_json (pe_app pe))) ses (pool_of pe) msg);
          Some (set_peer s (at_tasks (pe_tasks pe ++ concat (task_of <$> ts)) (at_chan rest (at_pool np' pe))) w)
      | [] => None
      end
  | CHandle s i =>
      pe ← wd_peers w !! s;
      match pe_tasks pe !! i with
      | Some (Handling content) =>
          ops ← got (RemoteOpHandler_start wire_op (pe_app pe) content);
          Some (set_peer s (at_tasks (take i (pe_tasks pe) ++ Applying ops :: drop (S i) (pe_tasks pe)) pe) w)
      | _ => None
      end
  | CApply s i =>
      pe ← wd_peers w !! s;
      match pe_tasks pe !! i with
      | Some (Applying (op :: ops)) =>
          app' ← got (RemoteOpHandler_next (pe_app pe) op);
          Some (set_peer s (at_tasks (take i (pe_tasks pe) ++ Applying ops :: drop (S i) (pe_tasks pe)) (at_app app' pe)) w)
      | _ => None
      end
  | CReply s i =>
      pe ← wd_peers w !! s;
      match pe_tasks pe !! i with
      | Some (Replying msg id) =>
          '(np', ok) ← got (sendMessageToNodeWithId (pool_of pe) msg id);
          Some (set_peer s (at_tasks (take i (pe_tasks pe) ++ drop (S i) (pe_tasks pe)) (at_pool np' pe)) w)
      | _ => None
      end
  end.

Lemma counters_fine_left app : counters_fine app = true → counters_left app.
Proof.
  unfold counters_fine. intros H m Hm. rewrite Hm in H. apply andb_prop in H as [?%Z.ltb_lt ?%Z.ltb_lt]. done.
Qed.

Lemma world_exec_step w c w' : world_exec w c = Some w' → run_step w w'.
Proof.
  destruct c as [s ch|s|s ses|s l|s i|s ses|s i|s i|s i]; cbn [world_exec]; intros (pe & Hpe & H)%bind_Some.
  - destruct (pe_screen pe) as [|width height| |] eqn:Hs; [done| |done..].
    destruct (counters_fine (pe_app pe)) eqn:Hc; [|done].
    apply bind_Some in H as ([p' ef] & H1%got_Some & [= <-]).
    eapply world_edits; [done|exact Hs|by apply counters_fine_left| |exact H1]. done.
  - destruct (pe_tasks pe) as [|[op| | |] after] eqn:Ht; try discriminate H.
    apply bind_Some in H as (app' & H1%got_Some & [= <-]).
    change (at_tasks after) with (at_tasks ([] ++ after)). eapply world_broadcasts; [done|exact Ht|exact H1].
  - apply bind_Some in H as (Ho & _ & H). apply bind_Some in H as ([np' goes_on] & H1%got_Some & [= <-]).
    eapply world_checks; [done|exact Ho|exact H1].
  - apply bind_Some in H as (n & Hn & H). apply bind_Some in H as (r & H1%got_Some & H).
    apply bind_Some in H as ([msg np'] & -> & H). apply bind_Some in H as (wm & H2%got_Some & [= <-]).
    eapply world_sends; [done|exact Hn|exact H1|exact H2].
  - apply bind_Some in H as ([id wm] & Hi & H). apply bind_Some in H as (Ho & _ & H).
    destruct (unpack _ _) as [np' msg] eqn:Hu. injection H as <-.
    eapply world_receives; [done|by eapply list_elem_of_lookup_2|exact Ho|exact Hu].
  - destruct (pe_chan pe) as [|msg rest] eqn:Hc; [done|].
    apply bind_Some in H as ([np' ts] & H1%got_Some & [= <-]). by eapply world_serves.
  - destruct (pe_tasks pe !! i) as [[|content| |]|] eqn:Hi; try done.
    apply bind_Some in H as (ops & H1%got_Some & [= <-]).
    eapply world_handles; [done|symmetry; by apply take_drop_middle|exact H1].
  - destruct (pe_tasks pe !! i) as [[| |[|op ops]|]|] eqn:Hi; try done.
    apply bind_Some in H as (app' & H1%got_Some & [= <-]).
    eapply world_applies; [done|symmetry; by apply take_drop_middle|exact H1].
  - destruct (pe_tasks pe !! i) as [[| | |msg id]|] eqn:Hi; try done.
    apply bind_Some in H as ([np' ok] & H1%got_Some & [= <-]).
    eapply world_replies; [done|symmetry; by apply take_drop_middle|exact H1].
Qed.

Definition world_exec_all (w : world) (cs : list world_command) : option world :=
  foldl (λ r c, r ≫= λ w, world_exec w c) (Some w) cs.

Lemma world_exec_all_steps w cs w' : world_exec_all w cs = Some w' → rtc run_step w w'.
Proof.
  unfold world_exec_all. revert w. induction cs as [|c cs IH]; intros w; cbn [foldl]; [intros [= ->]; apply rtc_refl|].
  cbn [mbind option_bind]. destruct (world_exec w c) as [w1|] eqn:E.
  - intros H. eapply rtc_l; [by eapply world_exec_step|by apply IH].
  - intros H. exfalso. clear -H. induction cs as [|c cs IH]; [done|by apply IH].
Qed.

(** Two editors that are connected to each other. *)
Definition one_node (id addr : str) : nodePool :=
  mkPool ∅ {[id := 0%nat]} {[0%nat := mkNode nodeStateConnected id addr [] (Some 0%nat)]} ∅ [] 1.
Definition editor_at (s : SiteId) (width : Z) (own other : str) : peer :=
  mkPeer (mkApp STATE_DOCUMENT (Some (st_model (fresh_site s (width - 1)))) 0 []
            (mkManager own own (one_node other other) (Some (mkSession own own false))) None)
    (Editing width 5) [] [].
Definition two_editors : world :=
  mkWorld (<[site1 := editor_at site1 9 (txt "a") (txt "b")]> (<[site2 := editor_at site2 13 (txt "b") (txt "a")]> ∅))
    (<[txt "a" := site1]> (<[txt "b" := site2]> ∅)) [].

Definition run_a : session := mkSession (txt "a") (txt "a") false.
Definition run_b : session := mkSession (txt "b") (txt "b") false.
Definition network_run : list world_command :=
  [CEdit site1 97; CBroadcast site1; CSend site1 0; CReceive site2 0; CServe site2 run_b; CHandle site2 0; CApply site2 0;
   CEdit site1 98; CCheck site2 run_b; CSend site2 0; CReceive site1 1; CServe site1 run_a; CReply site1 1;
   CSend site1 0; CReceive site2 2; CServe site2 run_b; CHandle site2 1; CApply site2 1].

Definition final_world : world := default two_editors (world_exec_all two_editors network_run).
Definition final_peer (s : SiteId) : peer := default (editor_at s 9 [] []) (wd_peers final_world !! s).
Definition final_model (s : SiteId) : DocumentModel :=
  default (st_model (fresh_site s 8)) (as_DocModel (pe_app (final_peer s))).

Lemma one_node_wf id addr :
  (∀ i l, np_pool (one_node id addr) !! i = Some l → ∃ n, np_nodes (one_node id addr) !! l = Some n ∧ n_id n = i) ∧
  (∀ l n, np_nodes (one_node id addr) !! l = Some n → (l < np_next (one_node id addr))%nat ∧ n_outChan n = []).
Proof.
  cbn. split.
  - intros i l [<- <-]%lookup_singleton_Some. eexists. by rewrite lookup_singleton_eq.
  - intros l n [<- <-]%lookup_singleton_Some. split; [lia|done].
Qed.

Lemma two_editors_initial : world_initial two_editors.
Proof.
  assert (∀ s width own other, site_id_wf s → 5 ≤ width → NewDocumentModel s (width - 1) true = Ok (st_model (fresh_site s (width - 1))) →
    ∀ pe, editor_at s width own other = pe →
    site_id_wf s ∧ pe_chan pe = [] ∧ pe_tasks pe = [] ∧
    (∃ m width, as_DocModel (pe_app pe) = Some m ∧ 4 ≤ width ∧ NewDocumentModel s width true = Ok m) ∧
    (∀ id l, np_pool (pool_of pe) !! id = Some l → ∃ n, np_nodes (pool_of pe) !! l = Some n ∧ n_id n = id) ∧
    (∀ l n, np_nodes (pool_of pe) !! l = Some n → (l < np_next (pool_of pe))%nat ∧ n_outChan n = [])) as Hed.
  { intros s width own other Hs Hw Hn pe <-. split_and!; [done|done|done| |apply one_node_wf|apply one_node_wf].
    exists (st_model (fresh_site s (width - 1))), (width - 1). split_and!; [done|lia|exact Hn]. }
  split; [done|]. intros s pe Hs. cbn [two_editors wd_peers] in Hs.
  apply lookup_insert_Some in Hs as [[<- Hpe]|[_ [[<- Hpe]|[_ Hpe]]%lookup_insert_Some]].
  - apply (Hed site1 9 (txt "a") (txt "b")); [done|lia|vm_compute; reflexivity|exact Hpe].
  - apply (Hed site2 13 (txt "b") (txt "a")); [done|lia|vm_compute; reflexivity|exact Hpe].
  - by rewrite lookup_empty in Hpe.
Qed.

Lemma final_world_reachable :
  world_reachable map_to_list map_to_list meta_text text_meta content_text text_content
    no_number zero_operation_json wire_op site_id_wf final_world.
Proof.
  exists two_editors. split; [apply two_editors_initial|].
  split; [intros s [pe Hs]; by apply (wi_peers _ two_editors_initial s pe)|]. apply (world_exec_all_steps _ network_run).
  unfold final_world. destruct (world_exec_all two_editors network_run) as [w|] eqn:E; [done|exfalso].
  assert (match world_exec_all two_editors network_run with Some _ => true | None => false end = true) as Hs
    by (vm_compute; reflexivity).
  by rewrite E in Hs.
Qed.

Lemma final_lookup s :
  s = site1 ∨ s = site2 → wd_peers final_world !! s = Some (final_peer s) ∧
    as_DocModel (pe_app (final_peer s)) = Some (final_model s).
Proof.
  intros Hs.
  assert (match wd_peers final_world !! s with Some pe => match as_DocModel (pe_app pe) with Some _ => true | None => false end | None => false end = true) as Hn
    by (destruct Hs as [-> | ->]; vm_compute; reflexivity).
  unfold final_model, final_peer. destruct (wd_peers final_world !! s) as [pe|]; [|done]. split; [done|].
  cbn [default from_option id]. unfold id. cbv beta iota.
  destruct (as_DocModel (pe_app pe)); [reflexivity|discriminate Hn].
Qed.

Lemma same_document {A} {o o' : option A} {a b} : o = Some a → o = Some b → o' = Some b → o' = Some a.
Proof. congruence. Qed.


