(* ===== verification/Leader.v ===== *)
(** A leader and its followers on top of a key-value service
    (CPSC418/assignment3/node.go): values that survive unavailable keys, the
    election of a leader, the list of active nodes. *)
From Stdlib Require Import Strings.String.
From S2P Require Import Prelude GoText.

Open Scope Z_scope.

Abbreviation str := (list byte).
Definition word (s : String.string) : str := String.list_byte_of_string s.
Arguments word s%_string.

Definition blank : byte := x20.
Definition UNAVAILABLE : str := word "unavailable".
Definition LEADER : str := word "leader key".
Definition LEADER_KEY : str := word "leader key ".
Definition JOIN : str := word "join key".
Definition PING : str := word "ping".
Definition PONG : str := word "pong".

Definition wrap64 (z : Z) : Z := z `mod` 2 ^ 64.
Definition uInt64ToStr (n : Z) : str := FormatUint n.

(** ** The key-value service *)

(** The remote service: each call gives the value of the reply, or [None] for
    the error of a call that fails, and the state of the service after it. *)
Class KvService (K : Type) : Type := {
  service_get : K → str → option str * K;
  service_put : K → str → str → option str * K;
  service_test : K → str → str → str → option str * K
}.

Definition getVal `{KvService K} (kv : K) (key : str) := service_get kv key.
Definition putVal `{KvService K} (kv : K) (key value : str) := service_put kv key value.
Definition testPutVal `{KvService K} (kv : K) (key test value : str) :=
  service_test kv key test value.

(** ** Nonces *)

(** The nonce of each key. Its lock is held from the first call to the
    second: the operations of one process on a key do not overlap. *)
Abbreviation nonce_map := (gmap str Z).

Definition getNonceAndLock (nonceMap : nonce_map) (key : str) : Z * nonce_map :=
  match nonceMap !! key with
  | Some nonce => (nonce, nonceMap)
  | None => (0, <[key := 0]> nonceMap)
  end.

Definition setNonceAndUnlock (nonceMap : nonce_map) (key : str) (value : Z) : nonce_map :=
  <[key := value]> nonceMap.

Section Service.
Context {K : Type} `{KvService K}.

(** The loop of the three operations: [call] on the key with the current
    nonce, until it is not unavailable. *)
Fixpoint nonce_loop (fuel : nat) (call : K → str → option str * K) (key : str)
    (currentNonce : Z) (kv : K) : res (option str * Z * K) :=
  match fuel with
  | O => OutOfFuel
  | S fuel =>
      match call kv (key ++ uInt64ToStr currentNonce) with
      | (Some result, kv) =>
          if decide (result = UNAVAILABLE)
          then nonce_loop fuel call key (wrap64 (currentNonce + 1)) kv
          else Ok (Some result, currentNonce, kv)
      | (None, kv) => Ok (None, currentNonce, kv)
      end
  end.

Definition with_nonce (fuel : nat) (call : K → str → option str * K) (nonces : nonce_map)
    (kv : K) (key : str) : res (option str * nonce_map * K) :=
  let key := key ++ [blank] in
  let '(currentNonce, nonces) := getNonceAndLock nonces key in
  '(result, currentNonce, kv) ← nonce_loop fuel call key currentNonce kv;
  Ok (result, setNonceAndUnlock nonces key currentNonce, kv).

Definition getValU (fuel : nat) (nonces : nonce_map) (kv : K) (key : str) :=
  with_nonce fuel getVal nonces kv key.
Definition putValU (fuel : nat) (nonces : nonce_map) (kv : K) (key val : str) :=
  with_nonce fuel (λ kv k, putVal kv k val) nonces kv key.
Definition testPutValU (fuel : nat) (nonces : nonce_map) (kv : K) (key test val : str) :=
  with_nonce fuel (λ kv k, testPutVal kv k test val) nonces kv key.
End Service.

(** ** Lists of ids *)

(** [append(ids[:i], ids[i+1:]...)] moves the later ids of the array one place
    down: the result is the first [n-1] places of the array it leaves. *)
Fixpoint index_of (ids : list str) (id : str) : option nat :=
  match ids with
  | [] => None
  | v :: ids => if decide (v = id) then Some 0%nat else S <$> index_of ids id
  end.

(** The array behind [ids] after [removeId], from its start, and the length of
    the result; [array] is the array up to its capacity. *)
Definition removeId_array (array : list str) (n : nat) (id : str) : list str * nat :=
  match index_of (take n array) id with
  | Some i => (go_copy i array (drop (S i) (take n array)), (n - 1)%nat)
  | None => (array, n)
  end.

(** The ids that [removeId] returns. *)
Definition removeId (ids : list str) (id : str) : list str :=
  let '(array, n) := removeId_array ids (length ids) id in take n array.

Definition hasId (ids : list str) (id : str) : bool :=
  match index_of ids id with Some _ => true | None => false end.

(** ** Leaders *)

Record LeaderVal : Type := mkLeader {
  Era : Z;
  Nonce : Z;
  LVersion : Z;
  Id : str;
  Nodes : list str
}.

#[export] Instance LeaderVal_eq_dec : EqDecision LeaderVal.
Proof. solve_decision. Defined.

Definition LeaderValToString (leader : LeaderVal) : str :=
  uInt64ToStr (Era leader) ++ [blank] ++ uInt64ToStr (Nonce leader) ++ [blank] ++
  uInt64ToStr (LVersion leader) ++ [blank] ++ Id leader ++ [blank] ++ Join (Nodes leader) [blank].

Definition StringToLeaderVal (s : str) : res LeaderVal :=
  let result := Split s blank in
  r0 ← require IndexOutOfRange (result !! 0%nat);
  r1 ← require IndexOutOfRange (result !! 1%nat);
  r2 ← require IndexOutOfRange (result !! 2%nat);
  let era := (ParseUint max_uint64 r0).1 in
  let nonce := (ParseUint max_uint64 r1).1 in
  let pong := (ParseUint max_uint64 r2).1 in
  r4 ← require IndexOutOfRange (result !! 4%nat);
  r3 ← require IndexOutOfRange (result !! 3%nat);
  if decide (r4 = []) then Ok (mkLeader era nonce pong r3 [])
  else Ok (mkLeader era nonce pong r3 (drop 4 result)).

Definition compareLeaders (a b : LeaderVal) : Z :=
  if Era a <? Era b then -1
  else if Era a >? Era b then 1
  else if Nonce a <? Nonce b then 1
  else if Nonce a >? Nonce b then -1
  else if LVersion a <? LVersion b then -1
  else if LVersion a >? LVersion b then 1
  else 0.

(** What a process keeps: the nonces, the leader it knows, the ids it pongs. *)
Record process : Type := mkProcess {
  p_ID : str;
  p_nonces : nonce_map;
  p_currentLeader : LeaderVal;
  p_idToChannel : gset str
}.

(** The exit of [checkError], or the value. *)
Definition ok_or_exit {A B} (o : option A) (k : A → res (option B)) : res (option B) :=
  match o with Some a => k a | None => Ok None end.

Section Processes.
Context {K : Type} `{KvService K}.

(** The loop of [initLeader]. *)
Fixpoint init_loop (fuel : nat) (kv : K) (leaderRequest : LeaderVal)
    : res (option (str * LeaderVal) * K) :=
  match fuel with
  | O => OutOfFuel
  | S fuel =>
      match testPutVal kv (LEADER_KEY ++ uInt64ToStr (Nonce leaderRequest)) []
              (LeaderValToString leaderRequest) with
      | (None, kv) => Ok (None, kv)
      | (Some result, kv) =>
          if decide (result = UNAVAILABLE) then
            init_loop fuel kv (mkLeader (Era leaderRequest) (wrap64 (Nonce leaderRequest + 1))
              (LVersion leaderRequest) (Id leaderRequest) (Nodes leaderRequest))
          else Ok (Some (result, leaderRequest), kv)
      end
  end.

(** The result is the process and the ids of the pong routines it starts;
    [None] when it exits. *)
Definition initLeader (fuel : nat) (p : process) (kv : K)
    : res (option (process * list str) * K) :=
  let '(currentLeaderNonce, nonces) := getNonceAndLock (p_nonces p) LEADER_KEY in
  '(r, kv) ← init_loop fuel kv (mkLeader 0 currentLeaderNonce 0 (p_ID p) []);
  match r with
  | None => Ok (None, kv)
  | Some (result, leaderRequest) =>
      let nonces := setNonceAndUnlock nonces LEADER_KEY (Nonce leaderRequest) in
      currentLeader ← StringToLeaderVal result;
      if decide (Id currentLeader = p_ID p) then
        Ok (Some (mkProcess (p_ID p) nonces currentLeader
                    (p_idToChannel p ∪ list_to_set (Nodes currentLeader)),
                  Nodes currentLeader), kv)
      else Ok (Some (mkProcess (p_ID p) nonces currentLeader (p_idToChannel p), []), kv)
  end.

(** One turn of the loop of [becomeOrUpdateLeader]: go on with a request and
    a value to test, or stop with the value found and whether it is the
    request. *)
Inductive bid : Type :=
  | Again (leaderRequest : LeaderVal) (result : str)
  | Won (result : str) (leaderRequest : LeaderVal)
  | Lost (result : str) (leaderRequest : LeaderVal)
  | Exit.

Definition bid_once (lastLeader leaderRequest : LeaderVal) (result : str) (kv : K)
    : res (bid * K) :=
  let request := LeaderValToString leaderRequest in
  match testPutVal kv (LEADER_KEY ++ uInt64ToStr (Nonce leaderRequest)) result request with
  | (None, kv) => Ok (Exit, kv)
  | (Some result, kv) =>
      if decide (result = request) then Ok (Won result leaderRequest, kv)
      else if decide (result = UNAVAILABLE) then
        Ok (Again (mkLeader (Era leaderRequest) (wrap64 (Nonce leaderRequest + 1))
                     (LVersion leaderRequest) (Id leaderRequest) (Nodes leaderRequest)) result, kv)
      else if decide (result = []) then Ok (Again leaderRequest result, kv)
      else
        leader ← StringToLeaderVal result;
        if compareLeaders leader lastLeader >? 0 then Ok (Lost result leaderRequest, kv)
        else Ok (Again leaderRequest result, kv)
  end.

Fixpoint bid_loop (fuel : nat) (lastLeader leaderRequest : LeaderVal) (result : str) (kv : K)
    : res (bid * K) :=
  match fuel with
  | O => OutOfFuel
  | S fuel =>
      '(b, kv) ← bid_once lastLeader leaderRequest result kv;
      match b with
      | Again leaderRequest result => bid_loop fuel lastLeader leaderRequest result kv
      | _ => Ok (b, kv)
      end
  end.

(** The request that a process makes when it takes over. *)
Definition takeover_request (p : process) (lastLeader : LeaderVal) (nonce : Z) : LeaderVal :=
  mkLeader (wrap64 (Era lastLeader + 1)) nonce 0 (p_ID p) (removeId (Nodes lastLeader) (p_ID p)).

Definition becomeOrUpdateLeader (fuel : nat) (p : process) (lastLeader : LeaderVal) (kv : K)
    : res (option (process * list str) * K) :=
  let '(currentLeaderNonce, nonces) := getNonceAndLock (p_nonces p) LEADER_KEY in
  let leaderRequest := takeover_request p lastLeader currentLeaderNonce in
  '(b, kv) ← bid_loop fuel lastLeader leaderRequest [] kv;
  match b with
  | Won result leaderRequest =>
      currentLeader ← StringToLeaderVal result;
      Ok (Some (mkProcess (p_ID p) (setNonceAndUnlock nonces LEADER_KEY (Nonce leaderRequest))
                  currentLeader (p_idToChannel p ∪ list_to_set (Nodes leaderRequest)),
                Nodes leaderRequest), kv)
  | Lost result leaderRequest =>
      currentLeader ← StringToLeaderVal result;
      Ok (Some (mkProcess (p_ID p) (setNonceAndUnlock nonces LEADER_KEY (Nonce leaderRequest))
                  currentLeader (p_idToChannel p), []), kv)
  | _ => Ok (None, kv)
  end.

Definition with_leader (p : process) (nonces : nonce_map) (leader : LeaderVal) : process :=
  mkProcess (p_ID p) nonces leader (p_idToChannel p).

Definition updateLeader (fuel : nat) (p : process) (kv : K) : res (option process * K) :=
  '(leaderVal, nonces, kv) ← getValU fuel (p_nonces p) kv LEADER;
  match leaderVal with
  | None => Ok (None, kv)
  | Some leaderVal =>
      if decide (leaderVal = []) then Ok (Some (with_leader p nonces (p_currentLeader p)), kv)
      else
        leader ← StringToLeaderVal leaderVal;
        if compareLeaders leader (p_currentLeader p) >=? 0
        then Ok (Some (with_leader p nonces leader), kv)
        else Ok (Some (with_leader p nonces (p_currentLeader p)), kv)
  end.

(** The loop of [updateLeaderValue]. *)
Fixpoint update_loop (fuel : nat) (p : process) (nonces : nonce_map) (leader : LeaderVal)
    (result target : str) (kv : K) : res (option LeaderVal * nonce_map * K) :=
  match fuel with
  | O => OutOfFuel
  | S fuel' =>
      '(r, nonces, kv) ← testPutValU fuel nonces kv LEADER result target;
      match r with
      | None => Ok (None, nonces, kv)
      | Some result =>
          if decide (result = target) then Ok (Some leader, nonces, kv)
          else if decide (result = []) then update_loop fuel' p nonces leader result target kv
          else
            resultLeader ← StringToLeaderVal result;
            if compareLeaders resultLeader (p_currentLeader p) >? 0
            then Ok (Some resultLeader, nonces, kv)
            else update_loop fuel' p nonces leader result target kv
      end
  end.

Definition updateLeaderValue (fuel : nat) (p : process) (leader : LeaderVal) (kv : K)
    : res (option LeaderVal * nonce_map * K) :=
  update_loop fuel p (p_nonces p) leader (LeaderValToString (p_currentLeader p))
    (LeaderValToString leader) kv.

(** [leader.Nodes], which shares the array of [currentLeader.Nodes] until an
    [append] does not fit. *)
Inductive view : Type :=
  | Shared (array : list str) (n : nat)
  | Own (array : list str) (ids : list str).

Definition view_ids (v : view) : list str :=
  match v with Shared array n => take n array | Own _ ids => ids end.
Definition view_array (v : view) : list str :=
  match v with Shared array _ => array | Own array _ => array end.

Definition view_remove (v : view) (id : str) : view :=
  match v with
  | Shared array n => let '(array, n) := removeId_array array n id in Shared array n
  | Own array ids => Own array (removeId ids id)
  end.

Definition view_append (v : view) (id : str) : view :=
  match v with
  | Shared array n =>
      if decide (n < length array)%nat then Shared (<[n := id]> array) (S n)
      else Own array (array ++ [id])
  | Own array ids => Own array (ids ++ [id])
  end.

(** A node that asks to join: it is ponged and added once. *)
Definition join_one (acc : view * gset str * list str) (id : str)
    : view * gset str * list str :=
  let '(v, chans, started) := acc in
  if hasId (view_ids v) id then acc
  else (view_append v id, {[id]} ∪ chans, started ++ [id]).

(** One turn of [leaderRoutine]: [spare] are the places after
    [currentLeader.Nodes] in its array, [gone] the ids whose pong routine has
    sent a message, in the order of the loop over the map, [joinAddr] what
    the join routine has sent. *)
Definition leader_turn (fuel : nat) (p : process) (spare gone : list str)
    (joinAddr : option str) (kv : K) : res (option (process * list str) * K) :=
  let leader := p_currentLeader p in
  let v := Shared (Nodes leader ++ spare) (length (Nodes leader)) in
  let v := foldl view_remove v gone in
  let chans := p_idToChannel p ∖ list_to_set gone in
  let '(v, chans, started) :=
    match joinAddr with
    | Some joinAddr =>
        if decide (joinAddr ≠ [] ∧ joinAddr ≠ UNAVAILABLE)
        then foldl join_one (v, chans, []) (Split joinAddr blank)
        else (v, chans, [])
    | None => (v, chans, [])
    end in
  let current := mkLeader (Era leader) (Nonce leader) (LVersion leader) (Id leader)
                   (take (length (Nodes leader)) (view_array v)) in
  let leader := mkLeader (Era leader) (Nonce leader) (wrap64 (LVersion leader + 1)) (Id leader)
                  (view_ids v) in
  let p := mkProcess (p_ID p) (p_nonces p) current chans in
  '(updatedLeader, nonces, kv) ← updateLeaderValue fuel p leader kv;
  match updatedLeader with
  | None => Ok (None, kv)
  | Some updatedLeader => Ok (Some (with_leader p nonces updatedLeader, started), kv)
  end.

(** One turn of the inner loop of [joinRoutine]: the value found, and whether
    the join key is empty now, so that it was the last turn. *)
Definition join_once (fuel : nat) (nonces : nonce_map) (joinValue : str) (kv : K)
    : res (option (str * bool) * nonce_map * K) :=
  '(r, nonces, kv) ← testPutValU fuel nonces kv JOIN joinValue [];
  Ok (match r with
      | None => None
      | Some result => Some (if decide (result = []) then (joinValue, true) else (result, false))
      end, nonces, kv).

(** The loop: take the value of the join key and empty it. *)
Fixpoint join_loop (fuel : nat) (nonces : nonce_map) (joinValue : str) (kv : K)
    : res (option str * nonce_map * K) :=
  match fuel with
  | O => OutOfFuel
  | S fuel' =>
      '(r, nonces, kv) ← join_once fuel nonces joinValue kv;
      match r with
      | None => Ok (None, nonces, kv)
      | Some (joinValue, true) => Ok (Some joinValue, nonces, kv)
      | Some (joinValue, false) => join_loop fuel' nonces joinValue kv
      end
  end.

(** The inner loop of [pongRoutine] ([mine] is [PONG]) and [pingRoutine]
    ([mine] is [PING]): whether the other side counts as disconnected. *)
Fixpoint beat_loop (fuel : nat) (other mine id : str) (retry : Z) (nonces : nonce_map) (kv : K)
    : res (option bool * nonce_map * K) :=
  match fuel with
  | O => OutOfFuel
  | S fuel' =>
      '(r, nonces, kv) ← getValU fuel nonces kv id;
      match r with
      | None => Ok (None, nonces, kv)
      | Some s =>
          if bool_decide (s ≠ other) && (retry >=? 5) then Ok (Some true, nonces, kv)
          else if bool_decide (s = other) || bool_decide (s = []) then
            '(r, nonces, kv) ← putValU fuel nonces kv id mine;
            Ok (match r with None => None | Some _ => Some false end, nonces, kv)
          else beat_loop fuel' other mine id (retry + 1) nonces kv
      end
  end.

Definition pong (fuel : nat) (id : str) := beat_loop fuel PING PONG id 0.
Definition ping (fuel : nat) (ID : str) := beat_loop fuel PONG PING ID 0.

(** One call of [followerRoutine] that adds the own id to what was found in
    the join key: what is there now, and what this process wanted there. *)
Definition ask_once (fuel : nat) (ID result : str) (nonces : nonce_map) (kv : K)
    : res (option (str * str) * nonce_map * K) :=
  let newJoinAddr := if decide (result = []) then ID else result ++ [blank] ++ ID in
  '(r, nonces, kv) ← testPutValU fuel nonces kv JOIN result newJoinAddr;
  Ok (match r with None => None | Some result => Some (result, newJoinAddr) end, nonces, kv).

(** The loop [for result != newJoinAddr]. *)
Fixpoint ask_loop (fuel : nat) (ID result newJoinAddr : str) (nonces : nonce_map) (kv : K)
    : res (option nonce_map * K) :=
  match fuel with
  | O => OutOfFuel
  | S fuel' =>
      if decide (result = newJoinAddr) then Ok (Some nonces, kv)
      else
        '(r, nonces, kv) ← ask_once fuel ID result nonces kv;
        match r with
        | None => Ok (None, kv)
        | Some (result, newJoinAddr) => ask_loop fuel' ID result newJoinAddr nonces kv
        end
  end.

(** One turn of [followerRoutine]: [stopped] is whether the ping routine has
    sent a message. *)
Definition follower_turn (fuel : nat) (p : process) (stopped : bool) (kv : K)
    : res (option (process * list str) * K) :=
  if stopped then becomeOrUpdateLeader fuel p (p_currentLeader p) kv
  else
    '(o, kv) ← updateLeader fuel p kv;
    match o with
    | None => Ok (None, kv)
    | Some p =>
        if hasId (Nodes (p_currentLeader p)) (p_ID p) then Ok (Some (p, []), kv)
        else
          '(r, nonces, kv) ← ask_once fuel (p_ID p) [] (p_nonces p) kv;
          match r with
          | None => Ok (None, kv)
          | Some (result, newJoinAddr) =>
              '(o, kv) ← ask_loop fuel (p_ID p) result newJoinAddr nonces kv;
              Ok (match o with
                  | None => None
                  | Some nonces => Some (with_leader p nonces (p_currentLeader p), [])
                  end, kv)
          end
    end.
End Processes.
