(* ===== verification/LeaderProps.v ===== *)
(** The leader protocol: its values, its elections, the turns of a leader. *)
From Stdlib Require Import Strings.String.
From S2P Require Import Prelude GoText Leader.

Open Scope Z_scope.

(** ** Leaders as text *)

(** Ids have no blanks, numbers fit in 64 bits, and the first id of the list is
    not empty. *)
Definition leader_wf (l : LeaderVal) : Prop :=
  0 ≤ Era l < 2 ^ 64 ∧ 0 ≤ Nonce l < 2 ^ 64 ∧ 0 ≤ LVersion l < 2 ^ 64 ∧
  (blank ∉ Id l) ∧ Forall (λ id, blank ∉ id) (Nodes l) ∧ head (Nodes l) ≠ Some [].

Lemma uInt64_parse n :
  0 ≤ n < 2 ^ 64 → (ParseUint max_uint64 (uInt64ToStr n)).1 = n.
Proof.
  intros Hn. unfold uInt64ToStr. rewrite ParseUint_FormatUint; [done|unfold max_uint64; lia|].
  unfold max_uint64. lia.
Qed.

Lemma LeaderVal_fields l :
  leader_wf l →
  Split (LeaderValToString l) blank =
  uInt64ToStr (Era l) :: uInt64ToStr (Nonce l) :: uInt64ToStr (LVersion l) :: Id l ::
  match Nodes l with [] => [[]] | ns => ns end.
Proof.
  intros (He & Hn & Hv & Hid & Hns & _). unfold LeaderValToString.
  assert (∀ n, 0 ≤ n → blank ∉ uInt64ToStr n) as Hno by (intros; by apply FormatUint_no).
  cbn [app]. rewrite !Split_app by (apply Hno; lia). rewrite Split_app by done.
  do 4 f_equal. destruct (Nodes l) as [|n ns] eqn:E; [done|]. by apply Split_Join.
Qed.

Lemma StringToLeaderVal_ok l :
  leader_wf l → StringToLeaderVal (LeaderValToString l) = Ok l.
Proof.
  intros Hwf. unfold StringToLeaderVal. rewrite LeaderVal_fields by done.
  destruct Hwf as (He & Hn & Hv & _ & _ & Hh). destruct l as [e n v id ns]. cbn [Era Nonce LVersion Id Nodes] in *.
  destruct ns as [|x ns]; cbn -[ParseUint uInt64ToStr max_uint64 decide];
    rewrite !uInt64_parse by done; [done|].
  destruct (decide (x = [])) as [->|]; [by destruct Hh|done].
Qed.

Lemma LeaderValToString_inj l1 l2 :
  leader_wf l1 → leader_wf l2 → LeaderValToString l1 = LeaderValToString l2 → l1 = l2.
Proof.
  intros H1 H2 E. apply StringToLeaderVal_ok in H1, H2. rewrite E in H1. congruence.
Qed.

(** The text of a leader is neither empty nor the unavailable value. *)
Lemma LeaderValToString_digit l :
  0 ≤ Era l → ∃ b s, LeaderValToString l = b :: s ∧ is_digit b = true.
Proof.
  intros He. unfold LeaderValToString, uInt64ToStr.
  pose proof (FormatUint_not_nil (Era l)). pose proof (FormatUint_digits (Era l) He) as Hd.
  destruct (FormatUint (Era l)) as [|b s]; [done|]. apply Forall_cons in Hd as [Hd _].
  cbn [app]. eauto.
Qed.

Lemma LeaderValToString_not l :
  0 ≤ Era l → LeaderValToString l ≠ [] ∧ LeaderValToString l ≠ UNAVAILABLE.
Proof.
  intros He. destruct (LeaderValToString_digit l He) as (b & s & -> & Hb).
  split; [done|]. intros E. vm_compute in E. injection E as -> _. by vm_compute in Hb.
Qed.

(** ** The order of leaders *)

Definition newer (a b : LeaderVal) : Prop := compareLeaders a b > 0.

Lemma compareLeaders_spec a b :
  compareLeaders a b =
  match Era a ?= Era b with
  | Eq => match Nonce b ?= Nonce a with
          | Eq => match LVersion a ?= LVersion b with Eq => 0 | Lt => -1 | Gt => 1 end
          | Lt => -1 | Gt => 1
          end
  | Lt => -1 | Gt => 1
  end.
Proof.
  unfold compareLeaders.
  destruct (Z.compare_spec (Era a) (Era b)); [|by rewrite (proj2 (Z.ltb_lt _ _))|].
  - replace (Era a <? Era b) with false by lia. replace (Era a >? Era b) with false by lia.
    destruct (Z.compare_spec (Nonce b) (Nonce a)).
    + replace (Nonce a <? Nonce b) with false by lia. replace (Nonce a >? Nonce b) with false by lia.
      destruct (Z.compare_spec (LVersion a) (LVersion b)).
      * replace (LVersion a <? LVersion b) with false by lia.
        by replace (LVersion a >? LVersion b) with false by lia.
      * by replace (LVersion a <? LVersion b) with true by lia.
      * replace (LVersion a <? LVersion b) with false by lia.
        by replace (LVersion a >? LVersion b) with true by lia.
    + replace (Nonce a <? Nonce b) with false by lia. by replace (Nonce a >? Nonce b) with true by lia.
    + by replace (Nonce a <? Nonce b) with true by lia.
  - replace (Era a <? Era b) with false by lia. by replace (Era a >? Era b) with true by lia.
Qed.

(** ** Unavailable keys *)

Lemma nonce_loop_S {K} f (call : K → str → option str * K) key n kv :
  nonce_loop (S f) call key n kv =
  match call kv (key ++ uInt64ToStr n) with
  | (Some result, kv) =>
      if decide (result = UNAVAILABLE)
      then nonce_loop f call key (wrap64 (n + 1)) kv
      else Ok (Some result, n, kv)
  | (None, kv) => Ok (None, n, kv)
  end.
Proof. done. Qed.

Lemma nonce_loop_skips {K} (call : K → str → option str * K) key n (k : nat) kv r kv' :
  0 ≤ n → n + Z.of_nat k < 2 ^ 64 →
  (∀ i, 0 ≤ i < Z.of_nat k → call kv (key ++ uInt64ToStr (n + i)) = (Some UNAVAILABLE, kv)) →
  call kv (key ++ uInt64ToStr (n + Z.of_nat k)) = (Some r, kv') → r ≠ UNAVAILABLE →
  nonce_loop (S k) call key n kv = Ok (Some r, n + Z.of_nat k, kv').
Proof.
  revert n. induction k as [|k IH]; intros n Hn Hmax Hskip Hcall Hr; rewrite nonce_loop_S.
  - rewrite Z.add_0_r in Hcall. rewrite Hcall. rewrite decide_False by done. by rewrite Z.add_0_r.
  - pose proof (Hskip 0 ltac:(lia)) as H0. rewrite Z.add_0_r in H0. rewrite H0.
    rewrite decide_True by done. unfold wrap64. rewrite (Z.mod_small (n + 1)) by lia.
    rewrite IH; [|lia|lia| | |done].
    + do 3 f_equal. lia.
    + intros i Hi. rewrite <-Z.add_assoc. apply Hskip. lia.
    + rewrite <-Hcall. do 3 f_equal. lia.
Qed.

(** ** A service: a map of which some keys are unavailable for good *)

Record store : Type := mkStore {
  st_map : gmap str str;
  st_gone : gset str
}.

Definition st_val (kv : store) (key : str) : str := default [] (st_map kv !! key).

#[export] Instance store_service : KvService store := {|
  service_get kv key :=
    if decide (key ∈ st_gone kv) then (Some UNAVAILABLE, kv) else (Some (st_val kv key), kv);
  service_put kv key val :=
    if decide (key ∈ st_gone kv) then (Some UNAVAILABLE, kv)
    else (Some [], mkStore (<[key := val]> (st_map kv)) (st_gone kv));
  service_test kv key test val :=
    if decide (key ∈ st_gone kv) then (Some UNAVAILABLE, kv)
    else if decide (st_val kv key = test)
         then (Some val, mkStore (<[key := val]> (st_map kv)) (st_gone kv))
         else (Some (st_val kv key), kv)
|}.

Lemma store_test kv key test val :
  key ∉ st_gone kv →
  testPutVal kv key test val =
  if decide (st_val kv key = test)
  then (Some val, mkStore (<[key := val]> (st_map kv)) (st_gone kv))
  else (Some (st_val kv key), kv).
Proof. intros Hk. unfold testPutVal. simpl. by rewrite decide_False. Qed.

Lemma st_val_insert m g key val : st_val (mkStore (<[key := val]> m) g) key = val.
Proof. unfold st_val. simpl. by rewrite lookup_insert_eq. Qed.

(** ** Elections *)

(** Candidates that bid for the place of [lastLeader], in the order of a
    schedule, while the service loses no key; one that has finished does nothing
    more. *)
Definition elect_step (lastLeader : LeaderVal) (st : list bid * store) (i : nat)
    : res (list bid * store) :=
  let '(cands, kv) := st in
  match cands !! i with
  | Some (Again request result) =>
      '(b, kv) ← bid_once lastLeader request result kv;
      Ok (<[i := b]> cands, kv)
  | _ => Ok (cands, kv)
  end.

Definition elect (lastLeader : LeaderVal) (schedule : list nat) (st : list bid * store)
    : res (list bid * store) :=
  foldM (elect_step lastLeader) st schedule.

Section Election.
Context (last : LeaderVal) (reqs : list LeaderVal) (nonce : Z).
Hypothesis Hlast : leader_wf last.
Hypothesis Hreqs : Forall leader_wf reqs.
Hypothesis Hnonce : Forall (λ r, Nonce r = nonce) reqs.
Hypothesis Hera : Forall (λ r, Era r = Era last + 1) reqs.
Hypothesis Hnd : NoDup reqs.

Definition leader_key : str := LEADER_KEY ++ uInt64ToStr nonce.

(** A candidate that still bids. *)
Definition bidding (r : LeaderVal) (b : bid) : Prop :=
  ∃ result, b = Again r result ∧ (result = [] ∨ result = LeaderValToString last).

Definition undecided (cands : list bid) (kv : store) : Prop :=
  st_val kv leader_key = LeaderValToString last ∧
  Forall2 bidding reqs cands.

Definition decided (w : LeaderVal) (cands : list bid) (kv : store) : Prop :=
  st_val kv leader_key = LeaderValToString w ∧ w ∈ reqs ∧
  Forall2 (λ r b, if decide (r = w) then b = Won (LeaderValToString w) w
                  else b = Lost (LeaderValToString w) r ∨ bidding r b) reqs cands.

Definition election_ok (st : list bid * store) : Prop :=
  (leader_key ∉ st_gone st.2) ∧ (undecided st.1 st.2 ∨ ∃ w, decided w st.1 st.2).

Lemma request_newer r : r ∈ reqs → compareLeaders r last > 0.
Proof using Hera.
  intros Hr. rewrite Forall_forall in Hera. rewrite compareLeaders_spec, (Hera r Hr).
  by rewrite (proj2 (Z.compare_gt_iff _ _)) by lia.
Qed.

Lemma last_same : compareLeaders last last = 0.
Proof using. rewrite compareLeaders_spec. by rewrite !Z.compare_refl. Qed.

Lemma bid_undecided r result kv :
  r ∈ reqs → leader_key ∉ st_gone kv → st_val kv leader_key = LeaderValToString last →
  result = [] ∨ result = LeaderValToString last →
  bid_once last r result kv =
  if decide (result = LeaderValToString last)
  then Ok (Won (LeaderValToString r) r,
           mkStore (<[leader_key := LeaderValToString r]> (st_map kv)) (st_gone kv))
  else Ok (Again r (LeaderValToString last), kv).
Proof using Hlast Hreqs Hnonce Hera.
  intros Hr Hk Hv Hres. unfold bid_once.
  rewrite Forall_forall in Hnonce, Hreqs, Hera. rewrite (Hnonce r Hr).
  change (LEADER_KEY ++ uInt64ToStr nonce) with leader_key.
  rewrite store_test by done. rewrite Hv.
  destruct (decide (LeaderValToString last = result)) as [E|E].
  - rewrite decide_True by done. by rewrite decide_True by done.
  - rewrite (decide_False (P := result = _)) by done.
    destruct (LeaderValToString_not last) as [N1 N2]; [by destruct Hlast as [[? _] _]|].
    rewrite decide_False.
    2:{ intros E1. apply LeaderValToString_inj in E1; [|done|auto].
        specialize (Hera r Hr). rewrite <-E1 in Hera. lia. }
    rewrite !decide_False by done. rewrite StringToLeaderVal_ok, bind_Ok by done.
    by rewrite last_same.
Qed.

Lemma bid_decided r w result kv :
  r ∈ reqs → w ∈ reqs → r ≠ w → leader_key ∉ st_gone kv →
  st_val kv leader_key = LeaderValToString w →
  result = [] ∨ result = LeaderValToString last →
  bid_once last r result kv = Ok (Lost (LeaderValToString w) r, kv).
Proof using Hlast Hreqs Hnonce Hera.
  intros Hr Hw Hne Hk Hv Hres. unfold bid_once.
  pose proof (request_newer w Hw) as Hnew.
  rewrite Forall_forall in Hnonce, Hreqs, Hera. rewrite (Hnonce r Hr).
  change (LEADER_KEY ++ uInt64ToStr nonce) with leader_key.
  rewrite store_test by done. rewrite Hv.
  destruct (LeaderValToString_not w) as [N1 N2].
  { specialize (Hreqs w Hw). by destruct Hreqs as [[? _] _]. }
  rewrite decide_False.
  2:{ intros E. destruct Hres as [->|E']; [done|]. rewrite E' in E.
      apply LeaderValToString_inj in E; [|auto|done].
      specialize (Hera w Hw). rewrite E in Hera. lia. }
  rewrite decide_False.
  2:{ intros E. apply LeaderValToString_inj in E; [congruence|auto|auto]. }
  rewrite !decide_False by done. rewrite StringToLeaderVal_ok, bind_Ok by auto.
  by replace (_ >? 0) with true by lia.
Qed.

Lemma Forall2_insert_r {A B} (P : A → B → Prop) la lb i a b :
  Forall2 P la lb → la !! i = Some a → P a b → Forall2 P la (<[i := b]> lb).
Proof using.
  intros H Ha Hb. rewrite <-(list_insert_id la i a Ha). by apply Forall2_insert.
Qed.

Lemma elect_step_ok st i :
  election_ok st → ∃ st', elect_step last st i = Ok st' ∧ election_ok st'.
Proof using Hlast Hreqs Hnonce Hera Hnd.
  destruct st as [cands kv]. intros [Hk H]. cbn [fst snd] in *. unfold elect_step.
  destruct (cands !! i) as [b|] eqn:Hb; [|by eexists; split].
  destruct b as [r result|? ?|? ?|]; try (by eexists; split).
  destruct H as [[Hv Hc]|(w & Hv & Hw & Hc)].
  - destruct (Forall2_lookup_r _ _ _ _ _ Hc Hb) as (r' & Hr & result' & E & Hres). simplify_eq.
    apply list_elem_of_lookup_2 in Hr as Hin.
    rewrite bid_undecided by done.
    destruct (decide _) as [E|E]; rewrite bind_Ok; (eexists; split; [done|]); (split; [done|]).
    + right. exists r'. cbn [fst snd]. split; [apply st_val_insert|]. split; [done|].
      apply Forall2_same_length_lookup_2; [by rewrite length_insert; apply Forall2_length in Hc|].
      intros j r b Hj Hbj. destruct (decide (j = i)) as [->|Hji].
      * rewrite list_lookup_insert_eq in Hbj by (by eapply lookup_lt_Some). simplify_eq.
        by rewrite decide_True.
      * rewrite list_lookup_insert_ne in Hbj by done. rewrite decide_False.
        -- right. by eapply Forall2_lookup_lr.
        -- intros ->. by apply Hji, (NoDup_lookup reqs _ _ r').
    + left. split; [done|]. cbn [fst snd]. eapply Forall2_insert_r; [done|done|].
      eexists. split; [done|by right].
  - destruct (Forall2_lookup_r _ _ _ _ _ Hc Hb) as (r' & Hr & Hcase).
    apply list_elem_of_lookup_2 in Hr as Hin.
    destruct (decide (r' = w)) as [->|Hne]; [done|].
    destruct Hcase as [?|(result' & E & Hres)]; [done|]. simplify_eq.
    rewrite (bid_decided r' w) by done. rewrite bind_Ok. eexists. split; [done|]. split; [done|].
    right. exists w. split; [done|]. split; [done|]. cbn [fst].
    eapply Forall2_insert_r; [done|done|]. rewrite decide_False by done. by left.
Qed.

Lemma elect_ok schedule st :
  election_ok st → ∃ st', elect last schedule st = Ok st' ∧ election_ok st'.
Proof using Hlast Hreqs Hnonce Hera Hnd.
  unfold elect. revert st; induction schedule as [|i schedule IH]; intros st H; cbn [foldM]; [eauto|].
  destruct (elect_step_ok st i H) as (st1 & -> & H1). rewrite bind_Ok. by apply IH.
Qed.

Lemma election_starts kv :
  leader_key ∉ st_gone kv → st_val kv leader_key = LeaderValToString last →
  election_ok (map (λ r, Again r []) reqs, kv).
Proof using.
  intros Hk Hv. split; [done|]. left. split; [done|]. cbn [fst].
  apply Forall2_fmap_r, Forall_Forall2_diag, Forall_true. intros r. exists []. auto.
Qed.
End Election.

(** ** The list of active nodes *)

Lemma index_of_Some ids id i :
  index_of ids id = Some i → ids !! i = Some id ∧ id ∉ take i ids.
Proof.
  revert i; induction ids as [|v ids IH]; intros i H; simpl in H; [done|].
  destruct (decide (v = id)) as [->|Hne]; simplify_eq/=; [set_solver|].
  destruct (index_of ids id) as [j|] eqn:E; simplify_eq/=.
  destruct (IH j eq_refl) as [H1 H2]. split; [done|]. set_solver.
Qed.

Lemma index_of_None ids id : index_of ids id = None ↔ id ∉ ids.
Proof.
  induction ids as [|v ids IH]; simpl; [set_solver|].
  destruct (decide (v = id)) as [->|Hne]; [set_solver|].
  destruct (index_of ids id); simpl; set_solver.
Qed.

(** The list without the first occurrence of an id. *)
Definition without (ids : list str) (id : str) : list str :=
  match index_of ids id with
  | Some i => take i ids ++ drop (S i) ids
  | None => ids
  end.

Lemma removeId_array_spec array n id :
  (n ≤ length array)%nat →
  let '(array', n') := removeId_array array n id in
  length array' = length array ∧ (n' ≤ n)%nat ∧ take n' array' = without (take n array) id.
Proof.
  intros Hn. unfold removeId_array, without.
  destruct (index_of (take n array) id) as [i|] eqn:E; [|done].
  apply index_of_Some in E as [Hi _].
  assert (i < n)%nat as Hin.
  { apply lookup_lt_Some in Hi. rewrite length_take in Hi. lia. }
  unfold go_copy. rewrite !length_drop, length_take, take_take.
  replace ((n `min` length array - S i) `min` (length array - i))%nat with (n - S i)%nat by lia.
  rewrite (take_ge (drop (S i) (take n array))) by (rewrite length_drop, length_take; lia).
  split; [|split; [lia|]].
  - rewrite !length_app, length_take, !length_drop, length_take. lia.
  - replace (i `min` n)%nat with i by lia.
    rewrite take_app. rewrite (take_ge (take i array)) by (rewrite length_take; lia).
    f_equal. rewrite length_take. rewrite take_app_le
      by (rewrite length_drop, length_take; lia).
    apply take_ge. rewrite length_drop, length_take. lia.
Qed.

Lemma removeId_without ids id : removeId ids id = without ids id.
Proof.
  unfold removeId. pose proof (removeId_array_spec ids (length ids) id ltac:(lia)) as H.
  destruct (removeId_array ids (length ids) id) as [array n].
  destruct H as (_ & _ & ->). by rewrite firstn_all.
Qed.

(** The nodes of a view do not depend on what it shares. *)
Definition view_wf (m : nat) (v : view) : Prop :=
  (m ≤ length (view_array v))%nat ∧
  match v with Shared array n => (n ≤ length array)%nat | Own _ _ => True end.

Lemma view_remove_ok m v id :
  view_wf m v → view_wf m (view_remove v id) ∧ view_ids (view_remove v id) = without (view_ids v) id.
Proof.
  destruct v as [array n|array ids]; intros [Hm Hn]; simpl in *.
  - pose proof (removeId_array_spec array n id Hn) as H.
    destruct (removeId_array array n id) as [array' n']. destruct H as (H1 & H2 & H3).
    split; [|done]. split; simpl; lia.
  - by rewrite removeId_without.
Qed.

Lemma view_append_ok m v id :
  view_wf m v → view_wf m (view_append v id) ∧ view_ids (view_append v id) = view_ids v ++ [id].
Proof.
  destruct v as [array n|array ids]; intros [Hm Hn]; simpl in *; [|done].
  destruct (decide (n < length array)%nat) as [Hlt|Hge]; simpl.
  - split; [split; simpl; rewrite length_insert; lia|].
    rewrite (take_S_r _ _ id); [|by rewrite list_lookup_insert_eq].
    by rewrite take_insert_ge.
  - split; [done|]. by rewrite take_ge by lia.
Qed.

(** The nodes that are added: each once, in their order. *)
Fixpoint added (ids joiners : list str) : list str :=
  match joiners with
  | [] => []
  | id :: joiners => if decide (id ∈ ids) then added ids joiners
                     else id :: added (ids ++ [id]) joiners
  end.

Lemma hasId_elem ids id : hasId ids id = bool_decide (id ∈ ids).
Proof.
  unfold hasId. destruct (index_of ids id) eqn:E.
  - symmetry. apply bool_decide_eq_true. destruct (decide (id ∈ ids)); [done|].
    apply index_of_None in n0. congruence.
  - symmetry. apply bool_decide_eq_false. by apply index_of_None.
Qed.

Lemma join_loop_ok m joiners v chans started :
  view_wf m v →
  let r := foldl join_one (v, chans, started) joiners in
  view_wf m r.1.1 ∧ view_ids r.1.1 = view_ids v ++ added (view_ids v) joiners ∧
  r.2 = started ++ added (view_ids v) joiners.
Proof.
  revert v chans started; induction joiners as [|id joiners IH]; intros v chans started Hwf.
  - simpl. by rewrite !app_nil_r.
  - cbn [foldl added]. unfold join_one at 2 4 6. rewrite hasId_elem.
    case_bool_decide as Hin; destruct (decide (id ∈ view_ids v)); try done.
    + by apply IH.
    + destruct (view_append_ok m v id Hwf) as [Hwf' E].
      destruct (IH (view_append v id) ({[id]} ∪ chans) (started ++ [id]) Hwf') as (H1 & H2 & H3).
      cbn zeta. rewrite H2, H3, E. split; [done|]. by rewrite <-!app_assoc.
Qed.

Lemma remove_loop_ok m gone v :
  view_wf m v →
  view_wf m (foldl view_remove v gone) ∧
  view_ids (foldl view_remove v gone) = foldl without (view_ids v) gone.
Proof.
  revert v; induction gone as [|id gone IH]; intros v Hwf; simpl; [done|].
  destruct (view_remove_ok m v id Hwf) as [Hwf' E].
  destruct (IH _ Hwf') as [H1 H2]. by rewrite H2, E.
Qed.

(** ** The turn of a leader *)

(** The version of a leader can be read off its text. *)
Lemma LeaderValToString_version l1 l2 :
  0 ≤ Era l1 → 0 ≤ Nonce l1 → 0 ≤ LVersion l1 < 2 ^ 64 →
  0 ≤ Era l2 → 0 ≤ Nonce l2 → 0 ≤ LVersion l2 < 2 ^ 64 →
  LeaderValToString l1 = LeaderValToString l2 → LVersion l1 = LVersion l2.
Proof.
  intros He1 Hn1 Hv1 He2 Hn2 Hv2 E. apply (f_equal (λ s, Split s blank !! 2%nat)) in E.
  assert (∀ l, 0 ≤ Era l → 0 ≤ Nonce l → 0 ≤ LVersion l →
    Split (LeaderValToString l) blank !! 2%nat = Some (uInt64ToStr (LVersion l))) as Hf.
  { intros l He Hn Hv. unfold LeaderValToString. cbn [app].
    rewrite !Split_app by (by apply FormatUint_no). done. }
  cbn beta in E. rewrite !Hf in E by lia. injection E as E.
  rewrite <-(uInt64_parse (LVersion l1)), <-(uInt64_parse (LVersion l2)) by done. by rewrite E.
Qed.

Definition value_key (nonces : nonce_map) (key : str) : str :=
  key ++ [blank] ++ uInt64ToStr (default 0 (nonces !! (key ++ [blank]))).

Lemma testPutValU_ok fuel nonces kv key test val :
  value_key nonces key ∉ st_gone kv → val ≠ UNAVAILABLE → st_val kv (value_key nonces key) ≠ UNAVAILABLE →
  ∃ nonces', testPutValU (S fuel) nonces kv key test val =
    Ok (Some (if decide (st_val kv (value_key nonces key) = test) then val
              else st_val kv (value_key nonces key)), nonces',
        if decide (st_val kv (value_key nonces key) = test)
        then mkStore (<[value_key nonces key := val]> (st_map kv)) (st_gone kv) else kv) ∧
    value_key nonces' key = value_key nonces key.
Proof.
  intros Hk Hval Hst. unfold testPutValU, with_nonce.
  assert (∃ nonces1, getNonceAndLock nonces (key ++ [blank]) =
    (default 0 (nonces !! (key ++ [blank])), nonces1)) as [nonces1 ->].
  { unfold getNonceAndLock. destruct (nonces !! (key ++ [blank])); simpl; eauto. }
  cbn [nonce_loop]. rewrite <-app_assoc. fold (value_key nonces key). rewrite store_test by done.
  destruct (decide (st_val kv (value_key nonces key) = test)); rewrite decide_False by done;
    rewrite bind_Ok; (eexists; split; [done|]); unfold value_key, setNonceAndUnlock;
    by rewrite lookup_insert_eq.
Qed.

(** A loop of updates without other writers: at most two turns. *)
Lemma update_loop_ok fuel p nonces leader old result kv :
  leader_wf old →
  value_key nonces LEADER ∉ st_gone kv →
  st_val kv (value_key nonces LEADER) = LeaderValToString old →
  0 ≤ Era leader → 0 ≤ Nonce leader → 0 ≤ LVersion leader < 2 ^ 64 →
  LVersion leader ≠ LVersion old → compareLeaders old (p_currentLeader p) = 0 →
  ∃ nonces' kv', update_loop (S (S fuel)) p nonces leader result (LeaderValToString leader) kv =
      Ok (Some leader, nonces', kv') ∧
    value_key nonces' LEADER = value_key nonces LEADER ∧
    st_val kv' (value_key nonces LEADER) = LeaderValToString leader.
Proof.
  intros Hold Hk Hv He Hn Hver Hne Hcmp.
  pose proof Hold as ([Heo _] & [Hno _] & Hvo & _).
  destruct (LeaderValToString_not leader He) as [N1 N2].
  destruct (LeaderValToString_not old Heo) as [O1 O2].
  assert (LeaderValToString old ≠ LeaderValToString leader) as Hdiff.
  { intros E. apply Hne. symmetry. by apply LeaderValToString_version. }
  cbn [update_loop].
  destruct (testPutValU_ok (S fuel) nonces kv LEADER result (LeaderValToString leader))
    as (nonces1 & -> & E1); [done|done|by rewrite Hv|].
  rewrite bind_Ok, Hv. destruct (decide (LeaderValToString old = result)) as [Hr|Hr].
  - rewrite decide_True by done. eexists _, _. split; [done|]. split; [done|].
    apply st_val_insert.
  - rewrite decide_False by done. rewrite decide_False by done.
    rewrite StringToLeaderVal_ok, bind_Ok, Hcmp by done. cbn [Z.gtb Z.compare].
    destruct (testPutValU_ok fuel nonces1 kv LEADER (LeaderValToString old)
      (LeaderValToString leader)) as (nonces2 & -> & E2); [by rewrite E1|done|by rewrite E1, Hv|].
    rewrite bind_Ok, E1, Hv.
    rewrite !(decide_True (P := LeaderValToString old = LeaderValToString old)) by done.
    rewrite decide_True by done.
    eexists _, _. split; [done|]. split; [congruence|]. apply st_val_insert.
Qed.

(** ** Properties *)

(** A leader value survives its text: ids without blanks, the first of
    which is not empty, and numbers of 64 bits come back as they were. *)
Theorem leader_roundtrip l : leader_wf l → StringToLeaderVal (LeaderValToString l) = Ok l.
Proof. apply StringToLeaderVal_ok. Qed.

Definition sample_leader : LeaderVal := mkLeader 3 0 7 (word "a") [word "b"; word "c"].

Lemma sample_leader_wf : leader_wf sample_leader.
Proof.
  unfold leader_wf. cbn [sample_leader Era Nonce LVersion Id Nodes]. split_and!;
    apply (bool_decide_unpack _); by vm_compute.
Qed.

Lemma leader_roundtrip_witness :
  StringToLeaderVal (LeaderValToString sample_leader) = Ok sample_leader.
Proof. apply (leader_roundtrip sample_leader sample_leader_wf). Defined.

(** The three operations on values skip the unavailable keys: they act on
    the key with the first nonce that is available and remember it. *)
Theorem unavailable_keys_are_skipped {K} (call : K → str → option str * K) nonces key (k : nat)
    kv r kv' :
  let n := default 0 (nonces !! (key ++ [blank])) in
  0 ≤ n → n + Z.of_nat k < 2 ^ 64 →
  (∀ i, 0 ≤ i < Z.of_nat k →
     call kv ((key ++ [blank]) ++ uInt64ToStr (n + i)) = (Some UNAVAILABLE, kv)) →
  call kv ((key ++ [blank]) ++ uInt64ToStr (n + Z.of_nat k)) = (Some r, kv') →
  r ≠ UNAVAILABLE →
  ∃ nonces', with_nonce (S k) call nonces kv key = Ok (Some r, nonces', kv') ∧
    nonces' !! (key ++ [blank]) = Some (n + Z.of_nat k).
Proof.
  intros n Hn Hmax Hskip Hcall Hr. unfold with_nonce.
  assert (∃ nonces1, getNonceAndLock nonces (key ++ [blank]) = (n, nonces1)) as [nonces1 ->].
  { unfold getNonceAndLock, n. destruct (nonces !! (key ++ [blank])); simpl; eauto. }
  rewrite (nonce_loop_skips call _ n k kv r kv') by done. rewrite bind_Ok.
  eexists. split; [done|]. apply lookup_insert_eq.
Qed.

Lemma unavailable_keys_are_skipped_witness :
  ∃ nonces', getValU 2 ∅ (mkStore {[word "x 1" := word "v"]} {[word "x 0"]}) (word "x") =
    Ok (Some (word "v"), nonces', mkStore {[word "x 1" := word "v"]} {[word "x 0"]}) ∧
    nonces' !! (word "x ") = Some 1.
Proof.
  destruct (unavailable_keys_are_skipped getVal ∅ (word "x") 1
    (mkStore {[word "x 1" := word "v"]} {[word "x 0"]}) (word "v")
    (mkStore {[word "x 1" := word "v"]} {[word "x 0"]})) as (nonces' & E & H);
    [done|done| |by vm_compute|done|].
  - intros i Hi. assert (i = 0) as -> by lia. by vm_compute.
  - exists nonces'. split; [exact E|exact H].
Defined.

(** C26: An election has one outcome, whatever the interleaving of the
    candidates, when all of them replace the same old leader, which is what the
    service holds, and bid at the same nonce, and the service does not lose the
    key while they bid ([election_can_split] shows what happens then): until
    someone wins the service still names the old leader; then it names the
    winner, and every candidate that has finished follows the same winner. *)
Theorem election_agrees old reqs nonce kv schedule :
  leader_wf old → Forall leader_wf reqs → Forall (λ r, Nonce r = nonce) reqs →
  Forall (λ r, Era r = Era old + 1) reqs → NoDup reqs →
  (leader_key nonce ∉ st_gone kv) → st_val kv (leader_key nonce) = LeaderValToString old →
  ∃ cands kv', elect old schedule (map (λ r, Again r []) reqs, kv) = Ok (cands, kv') ∧
    length cands = length reqs ∧
    ((st_val kv' (leader_key nonce) = LeaderValToString old ∧
      ∀ i b, cands !! i = Some b → ∃ r s, b = Again r s) ∨
     ∃ w, w ∈ reqs ∧ st_val kv' (leader_key nonce) = LeaderValToString w ∧
       ∀ i r b, reqs !! i = Some r → cands !! i = Some b →
         (r = w → b = Won (LeaderValToString w) w) ∧
         (r ≠ w → b = Lost (LeaderValToString w) r ∨ ∃ s, b = Again r s)).
Proof.
  intros Hold Hreqs Hnonce Hera Hnd Hk Hv.
  destruct (elect_ok old reqs nonce Hold Hreqs Hnonce Hera Hnd schedule
    (map (λ r, Again r []) reqs, kv)) as ([cands kv'] & E & _ & H).
  { by apply election_starts. }
  exists cands, kv'. split; [done|].
  destruct H as [[Hv' Hc]|(w & Hv' & Hw & Hc)]; cbn [fst snd] in *.
  - split; [by apply Forall2_length in Hc|]. left. split; [done|]. intros i b Hb.
    destruct (Forall2_lookup_r _ _ _ _ _ Hc Hb) as (r & _ & s & -> & _). eauto.
  - split; [by apply Forall2_length in Hc|]. right. exists w. split; [done|]. split; [done|].
    intros i r b Hr Hb. pose proof (Forall2_lookup_lr _ _ _ _ _ _ Hc Hr Hb) as Hcase.
    cbn beta in Hcase. destruct (decide (r = w)) as [E1|E1]; [by subst r|]. split; [done|]. intros _.
    destruct Hcase as [->|(s & -> & _)]; eauto.
Qed.

Definition sample_bids : list LeaderVal := [mkLeader 4 0 0 (word "b") []; mkLeader 4 0 0 (word "c") []].

Lemma sample_bids_wf : Forall leader_wf sample_bids.
Proof.
  apply Forall_forall. intros r Hr. unfold sample_bids in Hr.
  rewrite !elem_of_cons, elem_of_nil in Hr. destruct_or!; subst;
    unfold leader_wf; cbn [Era Nonce LVersion Id Nodes]; split_and!;
    apply (bool_decide_unpack _); by vm_compute.
Qed.

Lemma election_agrees_witness :
  ∃ cands kv', elect sample_leader [0; 1; 1; 0]%nat
      (map (λ r, Again r []) sample_bids,
       mkStore {[leader_key 0 := LeaderValToString sample_leader]} ∅) = Ok (cands, kv') ∧
    length cands = 2%nat.
Proof.
  destruct (election_agrees sample_leader sample_bids 0
    (mkStore {[leader_key 0 := LeaderValToString sample_leader]} ∅) [0; 1; 1; 0]%nat
    sample_leader_wf sample_bids_wf) as (cands & kv' & E & Hl & _).
  - by repeat constructor.
  - by repeat constructor.
  - apply (bool_decide_unpack _). by vm_compute.
  - cbn [st_gone]. set_solver.
  - unfold st_val. cbn [st_map]. by rewrite lookup_singleton_eq.
  - exists cands, kv'. split; [exact E|exact Hl].
Defined.

(** When the key becomes unavailable after someone has won, the next candidate
    bids at the next nonce, where there is no leader: both have won. *)
Lemma election_can_split :
  match elect sample_leader [0; 0]%nat
      (map (λ r, Again r []) sample_bids, mkStore {[leader_key 0 := LeaderValToString sample_leader]} ∅) with
  | Ok (cands, kv) =>
      match elect sample_leader [1; 1; 1; 1]%nat (cands, mkStore (st_map kv) {[leader_key 0]}) with
      | Ok ([Won _ r1; Won _ r2], _) => r1 = mkLeader 4 0 0 (word "b") [] ∧ r2 = mkLeader 4 1 0 (word "c") []
      | _ => False
      end
  | _ => False
  end.
Proof. vm_compute. split; reflexivity. Qed.

(** In one turn a leader drops the nodes that are gone, adds those that ask
    to join, each once, and publishes the result under the next version, even
    though dropping a node in place changes the list it remembers as current,
    so that its first attempt to publish may fail. *)
Theorem leader_turn_updates fuel p spare gone joinAddr kv :
  let leader := p_currentLeader p in
  let key := value_key (p_nonces p) LEADER in
  let ids := foldl without (Nodes leader) gone in
  let joiners := if decide (joinAddr ≠ [] ∧ joinAddr ≠ UNAVAILABLE)
                 then added ids (Split joinAddr blank) else [] in
  let leader' := mkLeader (Era leader) (Nonce leader) (LVersion leader + 1) (Id leader)
                   (ids ++ joiners) in
  leader_wf leader → LVersion leader + 1 < 2 ^ 64 →
  (key ∉ st_gone kv) → st_val kv key = LeaderValToString leader →
  ∃ p' kv', leader_turn (S (S fuel)) p spare gone (Some joinAddr) kv =
      Ok (Some (p', joiners), kv') ∧
    p_currentLeader p' = leader' ∧ st_val kv' key = LeaderValToString leader'.
Proof.
  intros leader key ids joiners leader' Hwf Hver Hk Hv. unfold leader_turn.
  fold leader. set (v0 := Shared (Nodes leader ++ spare) (length (Nodes leader))).
  assert (view_wf (length (Nodes leader)) v0) as Hwf0
    by (split; simpl; rewrite length_app; lia).
  assert (view_ids v0 = Nodes leader) as Hv0 by (simpl; apply take_app_length).
  destruct (remove_loop_ok _ gone v0 Hwf0) as [Hwf1 E1]. rewrite Hv0 in E1. fold ids in E1.
  assert (∃ v chans,
    (if decide (joinAddr ≠ [] ∧ joinAddr ≠ UNAVAILABLE)
     then foldl join_one (foldl view_remove v0 gone, p_idToChannel p ∖ list_to_set gone, [])
            (Split joinAddr blank)
     else (foldl view_remove v0 gone, p_idToChannel p ∖ list_to_set gone, [])) =
    (v, chans, joiners) ∧ view_ids v = ids ++ joiners) as (v & chans & -> & Eids).
  { unfold joiners. destruct (decide _).
    - pose proof (join_loop_ok _ (Split joinAddr blank) _
        (p_idToChannel p ∖ list_to_set gone) [] Hwf1) as (_ & H2 & H3). cbn zeta in *.
      destruct (foldl join_one _ _) as [[v chans] started]. cbn [fst snd] in *.
      exists v, chans. rewrite E1 in H2, H3. by rewrite H2, H3.
    - exists (foldl view_remove v0 gone), (p_idToChannel p ∖ list_to_set gone).
      by rewrite E1, app_nil_r. }
  rewrite Eids. destruct Hwf as (He & Hn & Hv' & Hrest).
  unfold wrap64. rewrite Z.mod_small by lia. fold leader'. unfold updateLeaderValue.
  edestruct (update_loop_ok fuel (mkProcess (p_ID p) (p_nonces p)
      (mkLeader (Era leader) (Nonce leader) (LVersion leader) (Id leader)
        (take (length (Nodes leader)) (view_array v))) chans) (p_nonces p) leader' leader)
    as (nonces' & kv' & -> & _ & Hst); cbn [leader' Era Nonce LVersion p_currentLeader];
    try done; try lia.
  { rewrite compareLeaders_spec. cbn [Era Nonce LVersion]. by rewrite !Z.compare_refl. }
  rewrite bind_Ok. eexists _, kv'. split; [done|]. split; [done|exact Hst].
Qed.

Definition sample_process : process := mkProcess (word "a") ∅ sample_leader ∅.

Lemma leader_turn_updates_witness :
  ∃ p' kv', leader_turn 2 sample_process [] [word "b"] (Some (word "d c d"))
      (mkStore {[value_key ∅ LEADER := LeaderValToString sample_leader]} ∅) =
      Ok (Some (p', [word "d"]), kv') ∧
    p_currentLeader p' = mkLeader 3 0 8 (word "a") [word "c"; word "d"].
Proof.
  destruct (leader_turn_updates 0 sample_process [] [word "b"] (word "d c d")
    (mkStore {[value_key ∅ LEADER := LeaderValToString sample_leader]} ∅))
    as (p' & kv' & E & H & _).
  - apply sample_leader_wf.
  - done.
  - cbn [st_gone]. set_solver.
  - unfold st_val. cbn [st_map sample_process p_nonces p_currentLeader].
    by rewrite lookup_singleton_eq.
  - exists p', kv'. split; [exact E|]. rewrite H. by vm_compute.
Defined.
