(* ===== verification/JoinProtocol.v ===== *)
(** Joining the active nodes: processes add their ids to one key of the
    service, others take them from it, and all their calls interleave
    (CPSC418/assignment3/node.go). The service does not lose the key here. *)
From Stdlib Require Import Strings.String.
From S2P Require Import Prelude GoText Leader LeaderProps.

Open Scope Z_scope.

(** A process that asks: what it last found in the key while it is in
    [followerRoutine]'s loop. *)
Record joiner : Type := mkJoiner {
  jo_ID : str;
  jo_nonces : nonce_map;
  jo_found : option str
}.

(** A [joinRoutine] with its [joinValue], and the value that it sends to its
    leader: it waits in [msg <- joinValue], a channel without a buffer, until
    the leader receives it. *)
Record taker : Type := mkTaker {
  tk_nonces : nonce_map;
  tk_joinValue : str;
  tk_msg : option str
}.

(** The service and all the processes. The history: the values that the
    routines took from the key, those that leaders received, and the ids that
    were added, each with the number of values taken before. *)
Record join_system : Type := mkJoinSystem {
  js_kv : store;
  js_joiners : list joiner;
  js_takers : list taker;
  js_taken : list str;
  js_received : list str;
  js_added : list (str * nat)
}.

(** The calls that a test takes while no key is unavailable. *)
Definition calls : nat := 1.

(** The next call of joiner [i]: it starts with an empty key in mind, and is
    done when it finds what it wanted. *)
Definition joiner_call (i : nat) (sys : join_system) : res join_system :=
  match js_joiners sys !! i with
  | None => Ok sys
  | Some jo =>
      '(r, nonces, kv) ← ask_once calls (jo_ID jo) (default [] (jo_found jo)) (jo_nonces jo) (js_kv sys);
      Ok (match r with
          | None => sys
          | Some (result, newJoinAddr) =>
              let finished := bool_decide (result = newJoinAddr) in
              mkJoinSystem kv
                (<[i := mkJoiner (jo_ID jo) nonces (if finished then None else Some result)]> (js_joiners sys))
                (js_takers sys) (js_taken sys) (js_received sys)
                (if finished then js_added sys ++ [(jo_ID jo, length (js_taken sys))] else js_added sys)
          end)
  end.

(** The next call of taker [i], unless it waits for its leader: it waits with
    what it took unless that is empty. *)
Definition taker_call (i : nat) (sys : join_system) : res join_system :=
  match js_takers sys !! i with
  | Some (mkTaker nonces joinValue None) =>
      '(r, nonces, kv) ← join_once calls nonces joinValue (js_kv sys);
      Ok (match r with
          | None => sys
          | Some (joinValue, true) =>
              let msg := if decide (joinValue = []) then None else Some joinValue in
              mkJoinSystem kv (js_joiners sys) (<[i := mkTaker nonces [] msg]> (js_takers sys))
                (js_taken sys ++ option_list msg) (js_received sys) (js_added sys)
          | Some (joinValue, false) =>
              mkJoinSystem kv (js_joiners sys) (<[i := mkTaker nonces joinValue None]> (js_takers sys))
                (js_taken sys) (js_received sys) (js_added sys)
          end)
  | _ => Ok sys
  end.

(** The leader of taker [i] receives. *)
Definition leader_receives (i : nat) (sys : join_system) : join_system :=
  match js_takers sys !! i with
  | Some (mkTaker nonces joinValue (Some v)) =>
      mkJoinSystem (js_kv sys) (js_joiners sys) (<[i := mkTaker nonces joinValue None]> (js_takers sys))
        (js_taken sys) (js_received sys ++ [v]) (js_added sys)
  | _ => sys
  end.

Inductive call : Type := Joins (i : nat) | Takes (i : nat) | Receives (i : nat).

Definition join_call (sys : join_system) (c : call) : res join_system :=
  match c with
  | Joins i => joiner_call i sys
  | Takes i => taker_call i sys
  | Receives i => Ok (leader_receives i sys)
  end.

(** Any number of calls in any order. *)
Definition join_calls (sys : join_system) (schedule : list call) : res join_system := foldM join_call sys schedule.

Definition join_start (kv : store) (ids : list str) (takers : nat) : join_system :=
  mkJoinSystem kv ((λ id, mkJoiner id ∅ None) <$> ids) (replicate takers (mkTaker ∅ [] None)) [] [] [].

Definition join_key : str := value_key ∅ JOIN.

(** ** Lists of ids in a text *)

Definition id_wf (id : str) : Prop := id ≠ [] ∧ (blank ∉ id) ∧ id ≠ UNAVAILABLE.

(** The ids that [strings.Split] finds, which are some of [ids]; or nothing. *)
Definition lists (ids : list str) (s : str) : Prop := s = [] ∨ Forall (λ id, id ∈ ids) (Split s blank).

Lemma Split_some s sep : Split s sep ≠ [].
Proof. destruct s as [|b s]; [done|]. cbn [Split]. case_decide; [done|]. by destruct (Split s sep). Qed.

Lemma Split_snoc s sep t : sep ∉ t → Split (s ++ [sep] ++ t) sep = Split s sep ++ [t].
Proof.
  intros Ht. induction s as [|b s IH].
  - cbn [app Split]. rewrite decide_True by done. by rewrite Split_single.
  - change ((b :: s) ++ [sep] ++ t) with (b :: (s ++ [sep] ++ t)). cbn [Split]. rewrite IH.
    case_decide; [done|]. pose proof (Split_some s sep). by destruct (Split s sep).
Qed.

(** An id that was added before [k] values were taken is still in the key, or
    in a value taken since then. *)
Definition kept (v : str) (sent : list str) (p : str * nat) : Prop :=
  (p.2 ≤ length sent)%nat ∧
  ((v ≠ [] ∧ p.1 ∈ Split v blank) ∨ ∃ d, d ∈ drop p.2 sent ∧ p.1 ∈ Split d blank).

Lemma kept_sent v v' sent d p :
  kept v sent p → (v ≠ [] → (v' ≠ [] ∧ ∀ id, id ∈ Split v blank → id ∈ Split v' blank) ∨ d = v) →
  kept v' (sent ++ [d]) p.
Proof.
  intros [Hl H] Hv. split; [rewrite length_app; lia|]. rewrite drop_app_le by lia.
  destruct H as [[Hne Hin]|(d' & Hd & Hin)].
  - destruct (Hv Hne) as [[? ?]| ->]; [left; auto|]. right. exists v. split; [set_solver|done].
  - right. exists d'. split; [set_solver|done].
Qed.

Lemma kept_value v v' sent p :
  kept v sent p → (v ≠ [] → v' ≠ [] ∧ ∀ id, id ∈ Split v blank → id ∈ Split v' blank) → kept v' sent p.
Proof. intros [Hl H] Hv. split; [done|]. destruct H as [[Hne Hin]|H]; [left|by right]. destruct (Hv Hne). auto. Qed.

Section Join.
Context (ids : list str).
Hypothesis Hids : Forall id_wf ids.

Lemma lists_available s : lists ids s → s ≠ UNAVAILABLE.
Proof using Hids.
  intros [E|H] E2; [by rewrite E in E2|]. subst s. change (Split UNAVAILABLE blank) with [UNAVAILABLE] in H.
  apply Forall_inv in H. rewrite Forall_forall in Hids. by destruct (Hids _ H) as (_ & _ & ?).
Qed.

(** What a joiner wants in the key. *)
Lemma wanted_lists id s :
  id ∈ ids → lists ids s →
  let new := if decide (s = []) then id else s ++ [blank] ++ id in
  lists ids new ∧ new ≠ [] ∧ id ∈ Split new blank ∧ ∀ id', s ≠ [] → id' ∈ Split s blank → id' ∈ Split new blank.
Proof using Hids.
  intros Hid Hs new. pose proof Hids as Hw. rewrite Forall_forall in Hw. destruct (Hw _ Hid) as (Hne & Hb & _).
  subst new. case_decide as Hd.
  - rewrite Split_single by done. split_and!; [|done|set_solver|done]. right. rewrite Split_single by done. by repeat constructor.
  - rewrite Split_snoc by done. split_and!; [|by intros [? _]%app_nil|set_solver|set_solver].
    destruct Hs as [?|Hs]; [done|]. right. rewrite Split_snoc by done. apply Forall_app. by repeat constructor.
Qed.

(** ** The invariant *)

Record join_ok (sys : join_system) : Prop := {
  jk_key : join_key ∉ st_gone (js_kv sys);
  jk_value : lists ids (st_val (js_kv sys) join_key);
  jk_joiners : Forall (λ jo, jo_ID jo ∈ ids ∧ value_key (jo_nonces jo) JOIN = join_key ∧
    lists ids (default [] (jo_found jo))) (js_joiners sys);
  jk_takers : Forall (λ tk, value_key (tk_nonces tk) JOIN = join_key ∧ lists ids (tk_joinValue tk)) (js_takers sys);
  jk_taken : Forall (lists ids) (js_taken sys);
  jk_received : js_taken sys ≡ₚ js_received sys ++ omap tk_msg (js_takers sys);
  jk_added : Forall (kept (st_val (js_kv sys) join_key) (js_taken sys)) (js_added sys)
}.

(** A test of the key, whatever the process. *)
Lemma test_key kv nonces test val :
  join_key ∉ st_gone kv → value_key nonces JOIN = join_key → lists ids (st_val kv join_key) → val ≠ UNAVAILABLE →
  ∃ nonces', value_key nonces' JOIN = join_key ∧
    testPutValU calls nonces kv JOIN test val =
    Ok (Some (if decide (st_val kv join_key = test) then val else st_val kv join_key), nonces',
        if decide (st_val kv join_key = test)
        then mkStore (<[join_key := val]> (st_map kv)) (st_gone kv) else kv).
Proof using Hids.
  intros Hk Hn Hv Hval. destruct (testPutValU_ok 0 nonces kv JOIN test val) as (nonces' & E & En);
    rewrite ?Hn; [done|done|by apply lists_available|].
  rewrite Hn in *. by exists nonces'.
Qed.

Lemma joiner_call_ok i sys jo :
  join_ok sys → js_joiners sys !! i = Some jo →
  let v := st_val (js_kv sys) join_key in
  let found := default [] (jo_found jo) in
  let new := if decide (found = []) then jo_ID jo else found ++ [blank] ++ jo_ID jo in
  ∃ sys', joiner_call i sys = Ok sys' ∧ join_ok sys' ∧
    (v = found ∨ v = new → js_added sys' = js_added sys ++ [(jo_ID jo, length (js_taken sys))]) ∧
    (v ≠ found → v ≠ new → js_added sys' = js_added sys ∧ st_val (js_kv sys') join_key = v ∧
       ∃ nonces', js_joiners sys' !! i = Some (mkJoiner (jo_ID jo) nonces' (Some v))).
Proof using Hids.
  intros [K1 K2 K3 K4 K5 KR K6] Hi v found new. pose proof (Forall_lookup_1 _ _ _ _ K3 Hi) as (Hid & Hn & Hf).
  destruct (wanted_lists (jo_ID jo) found Hid Hf) as (Wl & Wne & Win & Wmore). fold new in Wl, Wne, Win, Wmore.
  unfold joiner_call. rewrite Hi. unfold ask_once. fold found. fold new.
  destruct (test_key (js_kv sys) (jo_nonces jo) found new K1 Hn K2 (lists_available _ Wl)) as (nonces' & En & Et).
  rewrite Et, !bind_Ok. fold v. clear Et.
  assert (∀ f, lists ids (default [] f) → Forall (λ jo, jo_ID jo ∈ ids ∧ value_key (jo_nonces jo) JOIN = join_key ∧
    lists ids (default [] (jo_found jo))) (<[i := mkJoiner (jo_ID jo) nonces' f]> (js_joiners sys))) as Hins.
  { intros f Hfl. by apply Forall_insert. }
  assert (i < length (js_joiners sys))%nat as Hlt by by eapply lookup_lt_Some.
  destruct (decide (v = found)) as [Ev|Ev].
  - rewrite bool_decide_eq_true_2 by done. eexists. split; [done|]. split; [|split; [done|intros Hno; by destruct Hno]].
    split; cbn [js_kv js_joiners js_takers js_taken js_received js_added st_gone]; try done; rewrite ?st_val_insert; [done|apply Hins; by left|].
    apply Forall_app. split.
    + eapply Forall_impl; [exact K6|]. intros p Hp. eapply kept_value; [exact Hp|]. fold v. rewrite Ev. auto.
    + constructor; [|done]. split; [done|]. by left.
  - destruct (decide (v = new)) as [Evn|Evn].
    + rewrite bool_decide_eq_true_2 by done. eexists. split; [done|]. split; [|split; [done|intros _ Hno; by destruct Hno]].
      split; cbn [js_kv js_joiners js_takers js_taken js_received js_added st_gone]; try done; [apply Hins; by left|].
      apply Forall_app. split; [done|]. constructor; [|done]. split; [done|]. left. fold v. rewrite Evn. by split.
    + rewrite bool_decide_eq_false_2 by done. eexists. split; [done|]. split; [|split; [by intros [?|?]|]].
      * split; cbn [js_kv js_joiners js_takers js_taken js_received js_added st_gone]; try done. by apply Hins.
      * intros _ _. split; [done|]. split; [done|]. exists nonces'. cbn. by rewrite list_lookup_insert_eq.
Qed.

(** One taker changes what it waits with. *)
Lemma takers_msg l i tk tk' :
  l !! i = Some tk →
  omap tk_msg (<[i := tk']> l) ++ option_list (tk_msg tk) ≡ₚ omap tk_msg l ++ option_list (tk_msg tk').
Proof using.
  intros Hi. rewrite <-(take_drop_middle l i tk Hi) at 2. rewrite insert_take_drop by by eapply lookup_lt_Some.
  rewrite !omap_app. cbn [omap list_omap]. destruct (tk_msg tk), (tk_msg tk'); cbn [option_list app]; solve_Permutation.
Qed.

(** Where the values go that were taken. *)
Lemma received_keeps sys i nonces joinValue tk' taken :
  js_taken sys ≡ₚ js_received sys ++ omap tk_msg (js_takers sys) →
  js_takers sys !! i = Some (mkTaker nonces joinValue None) →
  taken = js_taken sys ++ option_list (tk_msg tk') →
  taken ≡ₚ js_received sys ++ omap tk_msg (<[i := tk']> (js_takers sys)).
Proof using.
  intros HR Hi ->. pose proof (takers_msg _ _ _ tk' Hi) as E. cbn [tk_msg option_list] in E. rewrite app_nil_r in E.
  by rewrite HR, E, app_assoc.
Qed.

Lemma taker_call_ok i sys nonces joinValue :
  join_ok sys → js_takers sys !! i = Some (mkTaker nonces joinValue None) →
  let v := st_val (js_kv sys) join_key in
  let msg := if decide (joinValue = []) then None else Some joinValue in
  ∃ sys', taker_call i sys = Ok sys' ∧ join_ok sys' ∧ js_received sys' = js_received sys ∧
    (v = [] ∨ v = joinValue → st_val (js_kv sys') join_key = [] ∧ js_taken sys' = js_taken sys ++ option_list msg ∧
       ∃ nonces', js_takers sys' !! i = Some (mkTaker nonces' [] msg)) ∧
    (v ≠ [] → v ≠ joinValue → st_val (js_kv sys') join_key = v ∧ js_taken sys' = js_taken sys ∧
       ∃ nonces', js_takers sys' !! i = Some (mkTaker nonces' v None)).
Proof using Hids.
  intros [K1 K2 K3 K4 K5 KR K6] Hi v msg. pose proof (Forall_lookup_1 _ _ _ _ K4 Hi) as (Hn & Hj). cbn in Hn, Hj.
  unfold taker_call. rewrite Hi. unfold join_once.
  destruct (test_key (js_kv sys) nonces joinValue [] K1 Hn K2 ltac:(discriminate)) as (nonces' & En & Et).
  rewrite Et, !bind_Ok. fold v. clear Et.
  assert (∀ jv m, lists ids jv → Forall (λ tk, value_key (tk_nonces tk) JOIN = join_key ∧ lists ids (tk_joinValue tk))
    (<[i := mkTaker nonces' jv m]> (js_takers sys))) as Hins by (intros jv m Hl; by apply Forall_insert).
  assert (i < length (js_takers sys))%nat as Hlt by by eapply lookup_lt_Some.
  assert (Forall (lists ids) (js_taken sys ++ option_list msg)) as Htaken.
  { apply Forall_app. split; [done|]. subst msg. case_decide; [apply Forall_nil_2|by apply Forall_singleton]. }
  (* The key is empty, and it held what the routine waits with, or nothing. *)
  assert (∀ kv, join_key ∉ st_gone kv → st_val kv join_key = [] → v = joinValue ∨ v = [] →
    join_ok (mkJoinSystem kv (js_joiners sys) (<[i := mkTaker nonces' [] msg]> (js_takers sys))
      (js_taken sys ++ option_list msg) (js_received sys) (js_added sys))) as Hempty.
  { intros kv Hk Hkv Hv. split; cbn [js_kv js_joiners js_takers js_taken js_received js_added]; try done;
      [by left|apply Hins; by left|by eapply received_keeps|].
    eapply Forall_impl; [exact K6|]. intros p Hp. rewrite Hkv. subst msg.
    case_decide as Hd; cbn [option_list]; [rewrite app_nil_r; eapply kept_value|eapply kept_sent]; try exact Hp; fold v.
    - intros Hne. destruct Hv as [Hv|Hv]; congruence.
    - intros Hne. destruct Hv as [Hv|Hv]; [by right|done]. }
  destruct (decide (v = joinValue)) as [Ev|Ev]; [rewrite decide_True by done|destruct (decide (v = [])) as [E0|E0]].
  - eexists. split; [done|]. split; [apply Hempty; [done|apply st_val_insert|by left]|]. split; [done|]. split; [|done].
    intros _. cbn [js_kv js_taken js_takers]. rewrite st_val_insert. split_and!; [done..|]. exists nonces'.
    by rewrite list_lookup_insert_eq.
  - eexists. split; [done|]. split; [apply Hempty; [done|exact E0|by right]|]. split; [done|]. split; [|done].
    intros _. cbn [js_kv js_taken js_takers]. split_and!; [done..|]. exists nonces'. by rewrite list_lookup_insert_eq.
  - eexists. split; [done|]. split; [|split; [done|split; [by intros [?|?]|]]].
    + split; cbn [js_kv js_joiners js_takers js_taken js_received js_added st_gone]; try done; [by apply Hins|].
      eapply received_keeps; [done..|]. cbn [tk_msg option_list]. by rewrite app_nil_r.
    + intros _ _. split_and!; [done..|]. exists nonces'. cbn. by rewrite list_lookup_insert_eq.
Qed.

(** The leader receives what its routine waits with. *)
Lemma leader_receives_ok i sys : join_ok sys → join_ok (leader_receives i sys).
Proof using.
  intros Hok. unfold leader_receives. destruct (js_takers sys !! i) as [[nonces jv [v|]]|] eqn:Hi; try done.
  destruct Hok as [K1 K2 K3 K4 K5 KR K6].
  split; cbn [js_kv js_joiners js_takers js_taken js_received js_added]; try done.
  - apply Forall_insert; [done|]. by apply (Forall_lookup_1 _ _ _ _ K4 Hi).
  - pose proof (takers_msg _ _ _ (mkTaker nonces jv None) Hi) as E. cbn [tk_msg option_list] in E.
    rewrite app_nil_r in E. rewrite KR, <-E. solve_Permutation.
Qed.

Lemma join_call_ok sys c : join_ok sys → ∃ sys', join_call sys c = Ok sys' ∧ join_ok sys'.
Proof using Hids.
  intros Hok. destruct c as [i|i|i]; cbn [join_call].
  - destruct (js_joiners sys !! i) as [jo|] eqn:E.
    + destruct (joiner_call_ok i sys jo Hok E) as (sys' & ? & ? & _). by exists sys'.
    + exists sys. unfold joiner_call. by rewrite E.
  - destruct (js_takers sys !! i) as [[nonces jv [v|]]|] eqn:E; [exists sys; unfold taker_call; by rewrite E| |].
    + destruct (taker_call_ok i sys nonces jv Hok E) as (sys' & ? & ? & _). by exists sys'.
    + exists sys. unfold taker_call. by rewrite E.
  - eexists. split; [done|]. by apply leader_receives_ok.
Qed.

Lemma join_calls_ok sys schedule : join_ok sys → ∃ sys', join_calls sys schedule = Ok sys' ∧ join_ok sys'.
Proof using Hids.
  unfold join_calls. revert sys. induction schedule as [|c schedule IH]; intros sys Hok; cbn [foldM]; [by exists sys|].
  destruct (join_call_ok sys c Hok) as (sys1 & -> & Hok1). rewrite bind_Ok. by apply IH.
Qed.

Lemma join_start_ok kv takers :
  join_key ∉ st_gone kv → st_val kv join_key = [] → join_ok (join_start kv ids takers).
Proof using.
  intros Hk Hv. split; cbn [join_start js_kv js_joiners js_takers js_taken js_received js_added]; try done; [by left|..].
  - apply Forall_fmap, Forall_forall. intros id Hid. split; [done|]. split; [done|]. by left.
  - apply Forall_replicate. split; [done|]. by left.
  - assert (∀ n, omap tk_msg (replicate n (mkTaker ∅ [] None)) = []) as ->; [|done].
    intros n. by induction n.
Qed.

(** Two calls of one process. *)
Lemma two_calls sys c sys1 sys2 :
  join_call sys c = Ok sys1 → join_call sys1 c = Ok sys2 → join_calls sys (replicate 2 c) = Ok sys2.
Proof using. intros E1 E2. unfold join_calls. cbn [replicate foldM]. by rewrite E1, bind_Ok, E2. Qed.

Lemma one_call sys c sys1 : join_call sys c = Ok sys1 → join_calls sys (replicate 1 c) = Ok sys1.
Proof using. intros E1. unfold join_calls. cbn [replicate foldM]. by rewrite E1. Qed.

Lemma joiner_finishes sys i jo :
  join_ok sys → js_joiners sys !! i = Some jo → ∃ n sys', (1 ≤ n ≤ 2)%nat ∧
    join_calls sys (replicate n (Joins i)) = Ok sys' ∧
    js_added sys' = js_added sys ++ [(jo_ID jo, length (js_taken sys))].
Proof using Hids.
  intros Hok Hjo. destruct (joiner_call_ok i sys jo Hok Hjo) as (sys1 & E1 & Hok1 & Hyes & Hno).
  set (v := st_val (js_kv sys) join_key) in *. set (found := default [] (jo_found jo)) in *.
  set (new := if decide (found = []) then jo_ID jo else found ++ [blank] ++ jo_ID jo) in *.
  destruct (decide (v = found ∨ v = new)) as [Ef|Ef].
  - exists 1%nat, sys1. split; [lia|]. split; [by apply one_call|auto].
  - destruct (Hno ltac:(tauto) ltac:(tauto)) as (Hadd & Hv1 & nonces' & Hjo1).
    destruct (joiner_call_ok i sys1 _ Hok1 Hjo1) as (sys2 & E2 & _ & Hyes2 & _).
    exists 2%nat, sys2. split; [lia|]. split; [by eapply two_calls|].
    cbn [jo_found default jo_ID] in Hyes2. rewrite Hyes2 by (left; exact Hv1). rewrite Hadd.
    assert (js_taken sys1 = js_taken sys) as ->; [|done].
    clear -E1. unfold joiner_call in E1. destruct (js_joiners sys !! i); [|congruence].
    apply bind_Ok_inv in E1 as ([[r nonces] kv'] & _ & [= <-]). destruct r as [[? ?]|]; done.
Qed.

(** A routine that waits makes no call. *)
Lemma waiting_takes sys i tk v n :
  js_takers sys !! i = Some tk → tk_msg tk = Some v → join_calls sys (replicate n (Takes i)) = Ok sys.
Proof using.
  intros Hi Hm. destruct tk as [nonces jv msg]. cbn in Hm. subst msg. unfold join_calls.
  induction n as [|n IH]; cbn [replicate foldM join_call]; [done|]. unfold taker_call at 1. rewrite Hi. exact IH.
Qed.

Lemma waiting_received sys i tk v :
  js_takers sys !! i = Some tk → tk_msg tk = Some v → js_received (leader_receives i sys) = js_received sys ++ [v].
Proof using. intros Hi Hm. unfold leader_receives. rewrite Hi. destruct tk. cbn in Hm. by subst. Qed.

Lemma taker_finishes sys i nonces jv :
  join_ok sys → js_takers sys !! i = Some (mkTaker nonces jv None) → ∃ n sys', (1 ≤ n ≤ 2)%nat ∧
    join_calls sys (replicate n (Takes i)) = Ok sys' ∧ st_val (js_kv sys') join_key = [] ∧
    let v := st_val (js_kv sys) join_key in
    (v ≠ [] → js_taken sys' = js_taken sys ++ [v] ∧
       (∃ tk', js_takers sys' !! i = Some tk' ∧ tk_msg tk' = Some v) ∧
       join_calls sys' (replicate n (Takes i)) = Ok sys' ∧
       js_received (leader_receives i sys') = js_received sys ++ [v]).
Proof using Hids.
  intros Hok Htk. set (v := st_val (js_kv sys) join_key). cbv zeta.
  assert (∀ n sys' nonces' msg, js_received sys' = js_received sys → msg = Some v → js_taken sys' = js_taken sys ++ option_list msg →
    js_takers sys' !! i = Some (mkTaker nonces' [] msg) →
    js_taken sys' = js_taken sys ++ [v] ∧ (∃ tk', js_takers sys' !! i = Some tk' ∧ tk_msg tk' = Some v) ∧
    join_calls sys' (replicate n (Takes i)) = Ok sys' ∧
    js_received (leader_receives i sys') = js_received sys ++ [v]) as Hwaits.
  { intros n sys' nonces' msg Hr -> Ht Hi. split_and!; [done|by eexists|by eapply waiting_takes|].
    rewrite <-Hr. by eapply waiting_received. }
  destruct (taker_call_ok i sys nonces jv Hok Htk) as (sys1 & E1 & Hok1 & Hr1 & Hyes & Hno). fold v in Hyes, Hno.
  destruct (decide (v = [] ∨ v = jv)) as [Ef|Ef].
  - destruct (Hyes Ef) as (Hv1 & Hs & nonces' & Hi1).
    exists 1%nat, sys1. split; [lia|]. split; [by apply one_call|]. split; [done|]. intros Hne.
    destruct Ef as [?|Ef]; [done|]. eapply Hwaits; [exact Hr1| |exact Hs|exact Hi1]. rewrite decide_False; congruence.
  - destruct (Hno ltac:(tauto) ltac:(tauto)) as (Hv1 & Hs1 & nonces' & Hi1).
    destruct (taker_call_ok i sys1 _ _ Hok1 Hi1) as (sys2 & E2 & _ & Hr2 & Hyes2 & _).
    destruct Hyes2 as (Hv2 & Hs2 & nonces2 & Hi2); [right; exact Hv1|].
    exists 2%nat, sys2. split; [lia|]. split; [by eapply two_calls|]. split; [done|]. intros Hne.
    eapply Hwaits; [congruence| |rewrite Hs2, Hs1; reflexivity|exact Hi2]. by rewrite decide_False.
Qed.

(** C28: No request to join disappears between the processes, as long as the
    service does not lose the key. However the calls of any number of processes
    that ask and of routines that take interleave, and whenever leaders receive,
    an id that was added to the key is still there or in a value that some
    routine took from it since; each value that was taken was received by a
    leader or is held by the routine that took it and waits in [msg <-] for its
    leader (for ever, when that no longer leads); and all of them are ids of
    processes that ask. *)
Theorem join_requests_are_kept kv takers schedule :
  join_key ∉ st_gone kv → st_val kv join_key = [] →
  ∃ sys, join_calls (join_start kv ids takers) schedule = Ok sys ∧
    Forall (kept (st_val (js_kv sys) join_key) (js_taken sys)) (js_added sys) ∧
    js_taken sys ≡ₚ js_received sys ++ omap tk_msg (js_takers sys) ∧
    Forall (lists ids) (js_taken sys) ∧ lists ids (st_val (js_kv sys) join_key).
Proof using Hids.
  intros Hk Hv. destruct (join_calls_ok (join_start kv ids takers) schedule) as (sys & E & [_ K2 _ _ K5 KR K6]).
  { by apply join_start_ok. }
  by exists sys.
Qed.

(** C29: A process that is left alone is done with the key, as long as the
    service does not lose it. Whatever state the others left, a process that
    asks has added its id after at most two calls of its own; and a routine that
    does not wait for its leader empties the key after at most two of its own,
    and then waits with what was in it, until its leader receives that. (It
    makes no call while it waits.) *)
Theorem join_calls_finish kv takers schedule sys i :
  join_key ∉ st_gone kv → st_val kv join_key = [] →
  join_calls (join_start kv ids takers) schedule = Ok sys →
  (∀ jo, js_joiners sys !! i = Some jo → ∃ n sys', (1 ≤ n ≤ 2)%nat ∧
     join_calls sys (replicate n (Joins i)) = Ok sys' ∧
     js_added sys' = js_added sys ++ [(jo_ID jo, length (js_taken sys))]) ∧
  (∀ tk, js_takers sys !! i = Some tk → tk_msg tk = None → ∃ n sys', (1 ≤ n ≤ 2)%nat ∧
     join_calls sys (replicate n (Takes i)) = Ok sys' ∧ st_val (js_kv sys') join_key = [] ∧
     let v := st_val (js_kv sys) join_key in
     (v ≠ [] → js_taken sys' = js_taken sys ++ [v] ∧
        (∃ tk', js_takers sys' !! i = Some tk' ∧ tk_msg tk' = Some v) ∧
        join_calls sys' (replicate n (Takes i)) = Ok sys' ∧
        js_received (leader_receives i sys') = js_received sys ++ [v])).
Proof using Hids.
  intros Hk Hv Hrun. assert (join_ok sys) as Hok.
  { destruct (join_calls_ok (join_start kv ids takers) schedule) as (sys1 & E & Hok); [by apply join_start_ok|congruence]. }
  set (v := st_val (js_kv sys) join_key). split.
  - intros jo Hjo. by apply joiner_finishes.
  - intros [nonces jv msg] Htk Hmsg. cbn in Hmsg. subst msg. by eapply taker_finishes.
Qed.
End Join.

Definition sample_ids : list str := [word "n1"; word "n2"].
Definition empty_store : store := mkStore ∅ ∅.
Definition sample_calls : list call := [Joins 0; Takes 0; Joins 1; Joins 1].
Definition joined_system : join_system :=
  or_else (join_start empty_store sample_ids 1) (join_calls (join_start empty_store sample_ids 1) sample_calls).

Lemma sample_ids_wf : Forall id_wf sample_ids.
Proof. repeat constructor; try discriminate; apply (bool_decide_eq_false_1 _); vm_compute; reflexivity. Qed.

Lemma join_requests_are_kept_witness :
  ∃ sys, join_calls (join_start empty_store sample_ids 1) (sample_calls ++ [Takes 0; Takes 0; Receives 0]) = Ok sys ∧
    js_taken sys ≡ₚ js_received sys ++ omap tk_msg (js_takers sys).
Proof.
  destruct (join_requests_are_kept sample_ids sample_ids_wf empty_store 1 (sample_calls ++ [Takes 0; Takes 0; Receives 0]))
    as (sys & E & _ & Hk & _).
  - apply (bool_decide_eq_false_1 _). vm_compute. reflexivity.
  - vm_compute. reflexivity.
  - exists sys. split; [exact E|exact Hk].
Defined.

Lemma join_calls_finish_witness :
  ∃ n sys', join_calls joined_system (replicate n (Takes 0)) = Ok sys' ∧ st_val (js_kv sys') join_key = [].
Proof.
  destruct (join_calls_finish sample_ids sample_ids_wf empty_store 1 sample_calls joined_system 0) as [_ H].
  - apply (bool_decide_eq_false_1 _). vm_compute. reflexivity.
  - vm_compute. reflexivity.
  - apply or_else_Ok. vm_compute. reflexivity.
  - assert (length (js_takers joined_system) = 1%nat) as Hl by (vm_compute; reflexivity).
    destruct (lookup_lt_is_Some_2 (js_takers joined_system) 0) as [tk E]; [rewrite Hl; apply Nat.lt_0_1|].
    assert ((tk_msg <$> js_takers joined_system) = [None]) as Hm by (vm_compute; reflexivity).
    assert (tk_msg tk = None) as Hn.
    { assert ((tk_msg <$> js_takers joined_system) !! 0%nat = Some (tk_msg tk)) as Hf by (rewrite list_lookup_fmap, E; reflexivity).
      rewrite Hm in Hf. injection Hf as <-. reflexivity. }
    destruct (H tk E Hn) as (n & sys' & _ & Hr & Hv & _). exists n, sys'. split; [exact Hr|exact Hv].
Defined.
