(* ===== verification/LeaderRoles.v ===== *)
(** One process of the leader protocol with its routines: the main loop, the
    leader and the follower, and the routines they start, which talk to them
    over channels (CPSC418/assignment3/node.go). *)
From Stdlib Require Import Strings.String.
From S2P Require Import Prelude GoText Leader LeaderProps.

Open Scope Z_scope.

(** ** What the turns do to the ids *)

Section Turns.
Context {K : Type} `{KvService K} (fuel : nat).

Lemma initLeader_ids p kv p' started kv' :
  initLeader fuel p kv = Ok (Some (p', started), kv') →
  p_ID p' = p_ID p ∧ p_idToChannel p' = p_idToChannel p ∪ list_to_set started.
Proof.
  unfold initLeader. destruct (getNonceAndLock _ _) as [n nonces]. intros E.
  apply bind_Ok_inv in E as ([[[result req]|] kv1] & _ & E); [|done].
  apply bind_Ok_inv in E as (leader & _ & E). destruct (decide _); simplify_eq/=; set_solver.
Qed.

Lemma becomeOrUpdateLeader_ids p last kv p' started kv' :
  becomeOrUpdateLeader fuel p last kv = Ok (Some (p', started), kv') →
  p_ID p' = p_ID p ∧ p_idToChannel p' = p_idToChannel p ∪ list_to_set started.
Proof.
  unfold becomeOrUpdateLeader. destruct (getNonceAndLock _ _) as [n nonces]. intros E.
  apply bind_Ok_inv in E as ([b kv1] & _ & E). destruct b; try done;
    apply bind_Ok_inv in E as (leader & _ & E); simplify_eq/=; set_solver.
Qed.

Lemma updateLeader_ids p kv p' kv' :
  updateLeader fuel p kv = Ok (Some p', kv') →
  p_ID p' = p_ID p ∧ p_idToChannel p' = p_idToChannel p.
Proof.
  unfold updateLeader. intros E. apply bind_Ok_inv in E as ([[[v|] nonces] kv1] & _ & E); [|done].
  destruct (decide _); [by simplify_eq|]. apply bind_Ok_inv in E as (leader & _ & E).
  by destruct (_ >=? _); simplify_eq.
Qed.

Lemma follower_turn_ids p stopped kv p' started kv' :
  follower_turn fuel p stopped kv = Ok (Some (p', started), kv') →
  p_ID p' = p_ID p ∧ p_idToChannel p' = p_idToChannel p ∪ list_to_set started.
Proof.
  unfold follower_turn. destruct stopped; [apply becomeOrUpdateLeader_ids|]. intros E.
  apply bind_Ok_inv in E as ([[p1|] kv1] & E1 & E); [|done]. apply updateLeader_ids in E1 as [E1 E2].
  destruct (hasId _ _); [simplify_eq/=; set_solver|].
  apply bind_Ok_inv in E as ([[[[result want]|] nonces] kv2] & _ & E); [|done].
  apply bind_Ok_inv in E as ([[nonces'|] kv3] & _ & E); simplify_eq/=. set_solver.
Qed.

Lemma join_one_ids ids v chans started :
  let '(_, chans', started') := foldl join_one (v, chans, started) ids in
  ∃ more, started' = started ++ more ∧ chans' = chans ∪ list_to_set more.
Proof.
  revert v chans started. induction ids as [|id ids IH]; intros v chans started; cbn [foldl].
  { exists []. rewrite app_nil_r. set_solver. }
  cbn [join_one]. destruct (hasId _ _); [apply IH|].
  specialize (IH (view_append v id) ({[id]} ∪ chans) (started ++ [id])).
  destruct (foldl _ _ ids) as [[v' chans'] started']. destruct IH as (more & -> & ->).
  exists (id :: more). rewrite <-app_assoc. split; [done|]. set_solver.
Qed.

Lemma leader_turn_ids p spare gone joinAddr kv p' started kv' :
  leader_turn fuel p spare gone joinAddr kv = Ok (Some (p', started), kv') →
  p_ID p' = p_ID p ∧ p_idToChannel p' = (p_idToChannel p ∖ list_to_set gone) ∪ list_to_set started.
Proof.
  unfold leader_turn. set (v := foldl view_remove _ gone). set (chans := p_idToChannel p ∖ _).
  set (j := match joinAddr with Some _ => _ | None => _ end).
  assert (let '(_, chans', started') := j in chans' = chans ∪ list_to_set started') as Hj.
  { unfold j. destruct joinAddr as [a|]; [|set_solver]. destruct (decide _); [|set_solver].
    pose proof (join_one_ids (Split a blank) v chans []) as Hj.
    destruct (foldl join_one _ _) as [[? ?] ?]. destruct Hj as (more & -> & ->). done. }
  destruct j as [[v' chans'] started']. intros E.
  apply bind_Ok_inv in E as ([[[l|] nonces] kv1] & _ & E); [|done]. by simplify_eq/=.
Qed.
End Turns.

(** ** The routines *)

(** A routine, with the number of its channel. A [joinRoutine] holds the value
    that it took from the join key and will send; the others will send that
    the other side is gone, or not. *)
Inductive routine : Type :=
  | JoinRoutine (currentId : str) (chan : nat) (joinValue : option str)
  | PingRoutine (chan : nat) (gone : bool)
  | PongRoutine (id currentId : str) (chan : nat) (gone : bool).

(** Where [main] is: at the top of its loop, in [leaderRoutine] or in
    [followerRoutine] with the channel of the routine it started, or out. *)
Inductive main_at : Type :=
  | MainLoop
  | Leading (currentId : str) (chan : nat)
  | Following (chan : nat)
  | Exited.

(** [rn_chans] are the channels of [idToChannel]; [rn_next] numbers the next
    channel. *)
Record running : Type := mkRunning {
  rn_process : process;
  rn_main : main_at;
  rn_routines : list routine;
  rn_chans : gmap str nat;
  rn_next : nat
}.

(** [idToChannel[id] = make(chan string); go pongRoutine(id, leaderId, ...)]
    for some ids. *)
Definition start_pong (leaderId : str) (acc : list routine * gmap str nat * nat) (id : str)
    : list routine * gmap str nat * nat :=
  let '(routines, chans, next) := acc in
  (routines ++ [PongRoutine id leaderId next false], <[id := next]> chans, S next).

Definition start_pongs (leaderId : str) (ids : list str) (routines : list routine) (chans : gmap str nat) (next : nat) :=
  foldl (start_pong leaderId) (routines, chans, next) ids.

(** The process after a turn, which started pong routines. *)
Definition after_turn (p : process) (main : main_at) (leaderId : str) (started : list str)
    (routines : list routine) (chans : gmap str nat) (next : nat) : running :=
  let '(routines, chans, next) := start_pongs leaderId started routines chans next in
  mkRunning p main routines chans next.

(** The values that routines are ready to send. *)
Definition join_ready (r : running) (chan : nat) (joinValue : str) : Prop :=
  ∃ currentId, JoinRoutine currentId chan (Some joinValue) ∈ rn_routines r.
Definition pong_ready (r : running) (id : str) : Prop :=
  ∃ currentId chan, rn_chans r !! id = Some chan ∧ PongRoutine id currentId chan true ∈ rn_routines r.

(** The routines after the leader received from the join routine on a channel
    and from the pong routines of some ids: the latter return. *)
Definition joined (chan : nat) (r : routine) : routine :=
  match r with
  | JoinRoutine currentId c (Some _) => if decide (c = chan) then JoinRoutine currentId c None else r
  | _ => r
  end.
Definition received_from (chans : gmap str nat) (gone : list str) (r : routine) : Prop :=
  match r with
  | PongRoutine id _ chan true => id ∈ gone ∧ chans !! id = Some chan
  | _ => False
  end.
#[export] Instance received_from_dec chans gone r : Decision (received_from chans gone r).
Proof. destruct r as [| |id cid chan []]; cbn; apply _. Defined.

Definition pinged (chan : nat) (r : routine) : routine :=
  match r with
  | PingRoutine c true => if decide (c = chan) then PingRoutine c false else r
  | _ => r
  end.

Section Roles.
Context {K : Type} `{KvService K} (fuel : nat).

Definition current (r : running) : LeaderVal := p_currentLeader (rn_process r).
Definition own_id (r : running) : str := p_ID (rn_process r).

(** The state of routine [i], or that it returned. *)
Definition set_routine (i : nat) (new : option routine) (p : process) (r : running) : running :=
  mkRunning p (rn_main r)
    (match new with Some x => <[i := x]> (rn_routines r) | None => delete i (rn_routines r) end)
    (rn_chans r) (rn_next r).

Definition with_nonces (nonces : nonce_map) (p : process) : process :=
  mkProcess (p_ID p) nonces (p_currentLeader p) (p_idToChannel p).

(** All routines end with the process. *)
Definition exits (r : running) : running :=
  mkRunning (rn_process r) Exited [] (rn_chans r) (rn_next r).

Definition returns_to_main (r : running) : running :=
  mkRunning (rn_process r) MainLoop (rn_routines r) (rn_chans r) (rn_next r).

(** The loop of [main]. *)
Inductive main_step (kv : K) (r : running) : K → running → Prop :=
  | main_leads :
      rn_main r = MainLoop → Id (current r) = own_id r →
      main_step kv r kv (mkRunning (rn_process r) (Leading (Id (current r)) (rn_next r))
        (rn_routines r ++ [JoinRoutine (Id (current r)) (rn_next r) None]) (rn_chans r) (S (rn_next r)))
  | main_follows :
      rn_main r = MainLoop → Id (current r) ≠ own_id r →
      main_step kv r kv (mkRunning (rn_process r) (Following (rn_next r))
        (rn_routines r ++ [PingRoutine (rn_next r) false]) (rn_chans r) (S (rn_next r))).

(** [leaderRoutine]: it returns, or takes a turn, in which it receives what has
    come to the channels. What becomes ready while the turn is under way may
    come too late for it. *)
Inductive leader_step (kv : K) (r : running) : K → running → Prop :=
  | leader_returns currentId chan :
      rn_main r = Leading currentId chan → Id (current r) ≠ currentId →
      leader_step kv r kv (returns_to_main r)
  | leader_turns currentId chan spare gone joinAddr kv' p started :
      rn_main r = Leading currentId chan → Id (current r) = currentId →
      NoDup gone → (∀ id, id ∈ gone → pong_ready r id) →
      (∀ joinValue, joinAddr = Some joinValue → join_ready r chan joinValue) →
      leader_turn fuel (rn_process r) spare gone joinAddr kv = Ok (Some (p, started), kv') →
      leader_step kv r kv' (after_turn p (rn_main r) (Id (current r)) started
        (filter (λ x, ¬ received_from (rn_chans r) gone x)
           (match joinAddr with Some _ => joined chan <$> rn_routines r | None => rn_routines r end))
        (foldr delete (rn_chans r) gone) (rn_next r))
  | leader_exits currentId chan spare gone joinAddr kv' :
      rn_main r = Leading currentId chan → Id (current r) = currentId →
      leader_turn fuel (rn_process r) spare gone joinAddr kv = Ok (None, kv') →
      leader_step kv r kv' (exits r).

(** [followerRoutine] likewise. *)
Inductive follower_step (kv : K) (r : running) : K → running → Prop :=
  | follower_returns chan :
      rn_main r = Following chan → Id (current r) = own_id r →
      follower_step kv r kv (returns_to_main r)
  | follower_turns chan (stopped : bool) kv' p started :
      rn_main r = Following chan → Id (current r) ≠ own_id r →
      (stopped = true → PingRoutine chan true ∈ rn_routines r) →
      follower_turn fuel (rn_process r) stopped kv = Ok (Some (p, started), kv') →
      follower_step kv r kv' (after_turn p (rn_main r) (own_id r) started
        (if stopped then pinged chan <$> rn_routines r else rn_routines r) (rn_chans r) (rn_next r))
  | follower_exits chan stopped kv' :
      rn_main r = Following chan → Id (current r) ≠ own_id r →
      follower_turn fuel (rn_process r) stopped kv = Ok (None, kv') →
      follower_step kv r kv' (exits r).

(** [joinRoutine]: it returns, or takes what is in the join key. *)
Inductive join_step (kv : K) (r : running) : K → running → Prop :=
  | join_returns i currentId chan :
      rn_routines r !! i = Some (JoinRoutine currentId chan None) → Id (current r) ≠ currentId →
      join_step kv r kv (set_routine i None (rn_process r) r)
  | join_takes i currentId chan joinValue nonces kv' :
      rn_routines r !! i = Some (JoinRoutine currentId chan None) → Id (current r) = currentId →
      join_loop fuel (p_nonces (rn_process r)) [] kv = Ok (Some joinValue, nonces, kv') →
      join_step kv r kv' (set_routine i
        (Some (JoinRoutine currentId chan (if decide (joinValue = []) then None else Some joinValue)))
        (with_nonces nonces (rn_process r)) r)
  | join_exits i currentId chan nonces kv' :
      rn_routines r !! i = Some (JoinRoutine currentId chan None) → Id (current r) = currentId →
      join_loop fuel (p_nonces (rn_process r)) [] kv = Ok (None, nonces, kv') →
      join_step kv r kv' (exits r).

(** [pingRoutine]: after the message it goes on. *)
Inductive ping_step (kv : K) (r : running) : K → running → Prop :=
  | ping_returns i chan :
      rn_routines r !! i = Some (PingRoutine chan false) → Id (current r) = own_id r →
      ping_step kv r kv (set_routine i None (rn_process r) r)
  | ping_beats i chan gone nonces kv' :
      rn_routines r !! i = Some (PingRoutine chan false) → Id (current r) ≠ own_id r →
      ping fuel (own_id r) (p_nonces (rn_process r)) kv = Ok (Some gone, nonces, kv') →
      ping_step kv r kv' (set_routine i (Some (PingRoutine chan gone)) (with_nonces nonces (rn_process r)) r)
  | ping_exits i chan nonces kv' :
      rn_routines r !! i = Some (PingRoutine chan false) → Id (current r) ≠ own_id r →
      ping fuel (own_id r) (p_nonces (rn_process r)) kv = Ok (None, nonces, kv') →
      ping_step kv r kv' (exits r).

(** [pongRoutine]: it returns after the message, when the leader has received
    it ([received_from]). *)
Inductive pong_step (kv : K) (r : running) : K → running → Prop :=
  | pong_returns i id currentId chan :
      rn_routines r !! i = Some (PongRoutine id currentId chan false) → Id (current r) ≠ currentId →
      pong_step kv r kv (set_routine i None (rn_process r) r)
  | pong_beats i id currentId chan gone nonces kv' :
      rn_routines r !! i = Some (PongRoutine id currentId chan false) → Id (current r) = currentId →
      pong fuel id (p_nonces (rn_process r)) kv = Ok (Some gone, nonces, kv') →
      pong_step kv r kv' (set_routine i (Some (PongRoutine id currentId chan gone)) (with_nonces nonces (rn_process r)) r)
  | pong_exits i id currentId chan nonces kv' :
      rn_routines r !! i = Some (PongRoutine id currentId chan false) → Id (current r) = currentId →
      pong fuel id (p_nonces (rn_process r)) kv = Ok (None, nonces, kv') →
      pong_step kv r kv' (exits r).

(** One of them, or another process that uses the service. *)
Inductive role_step (kv : K) (r : running) : K → running → Prop :=
  | by_main kv' r' : main_step kv r kv' r' → role_step kv r kv' r'
  | by_leader kv' r' : leader_step kv r kv' r' → role_step kv r kv' r'
  | by_follower kv' r' : follower_step kv r kv' r' → role_step kv r kv' r'
  | by_join kv' r' : join_step kv r kv' r' → role_step kv r kv' r'
  | by_ping kv' r' : ping_step kv r kv' r' → role_step kv r kv' r'
  | by_pong kv' r' : pong_step kv r kv' r' → role_step kv r kv' r'
  | by_others kv' : role_step kv r kv' r.

Definition roles_step (s s' : K * running) : Prop := role_step s.1 s.2 s'.1 s'.2.

(** The process after [initLeader]. *)
Definition starts (ID : str) (kv : K) (s : K * running) : Prop :=
  ∃ p started, initLeader fuel (mkProcess ID ∅ (mkLeader 0 0 0 [] []) ∅) kv = Ok (Some (p, started), s.1) ∧
    s.2 = after_turn p MainLoop ID started [] ∅ 0.
Definition runs (ID : str) (kv : K) (s : K * running) : Prop :=
  ∃ s0, starts ID kv s0 ∧ rtc roles_step s0 s.
End Roles.

(** A routine without what it is ready to send. *)
Definition tag (x : routine) : routine :=
  match x with
  | JoinRoutine currentId chan _ => JoinRoutine currentId chan None
  | PingRoutine chan _ => PingRoutine chan false
  | PongRoutine id currentId chan _ => PongRoutine id currentId chan false
  end.

Definition routine_chan (x : routine) : nat :=
  match x with JoinRoutine _ chan _ | PingRoutine chan _ | PongRoutine _ _ chan _ => chan end.

(** The id for which a routine runs is the one of this process. *)
Definition runs_for (own : str) (x : routine) : Prop :=
  match x with
  | JoinRoutine currentId _ _ | PongRoutine _ currentId _ _ => currentId = own
  | PingRoutine _ _ => True
  end.

(** Only [x] can be the routine of its channel. *)
Definition only (x : routine) (next : nat) (tags : list routine) : Prop :=
  (routine_chan x < next)%nat ∧ ∀ y, y ∈ tags → routine_chan y = routine_chan x → y = x.

Record connected (own : str) (main : main_at) (tags : list routine) (chans : gmap str nat) (next : nat)
    : Prop := {
  cn_routines : Forall (λ x, (routine_chan x < next)%nat ∧ runs_for own x) tags;
  cn_NoDup : NoDup (routine_chan <$> tags);
  cn_ids : ∀ id chan, chans !! id = Some chan → only (PongRoutine id own chan false) next tags;
  cn_main : match main with
            | Leading currentId chan => currentId = own ∧ only (JoinRoutine own chan None) next tags
            | Following chan => only (PingRoutine chan false) next tags
            | _ => True
            end
}.

Definition well_run (r : running) : Prop :=
  connected (p_ID (rn_process r)) (rn_main r) (tag <$> rn_routines r) (rn_chans r) (rn_next r) ∧
  dom (rn_chans r) = p_idToChannel (rn_process r).

Lemma only_weaken x next next' tags tags' :
  only x next tags → (next ≤ next')%nat → (∀ y, y ∈ tags' → y ∈ tags ∨ (next ≤ routine_chan y)%nat) →
  only x next' tags'.
Proof.
  intros [Hx Honly] Hle Hsub. split; [lia|]. intros y Hy E. destruct (Hsub y Hy) as [?|?]; [auto|lia].
Qed.

Lemma fmap_sublist {A B} (f : A → B) (l l' : list A) :
  l `sublist_of` l' → f <$> l `sublist_of` f <$> l'.
Proof. induction 1; cbn; by constructor. Qed.

Lemma connected_sub own main main' tags tags' chans chans' next :
  connected own main tags chans next → tags' `sublist_of` tags → chans' ⊆ chans →
  main' = main ∨ main' = MainLoop ∨ main' = Exited →
  connected own main' tags' chans' next.
Proof.
  intros [Hr Hnd Hids Hmain] Hs Hc Hm.
  assert (∀ y, y ∈ tags' → y ∈ tags ∨ (next ≤ routine_chan y)%nat) as Hin
    by (intros y Hy; left; by eapply elem_of_sublist).
  assert (∀ x, only x next tags → only x next tags') as Honly by (intros; by eapply only_weaken).
  split.
  - rewrite Forall_forall in *. intros y Hy. by eapply Hr, elem_of_sublist.
  - eapply sublist_NoDup; [exact Hnd|]. by apply fmap_sublist.
  - intros id chan E. eapply Honly, Hids, lookup_weaken; done.
  - destruct Hm as [->|[->| ->]]; [|done..]. destruct main; naive_solver.
Qed.

(** A routine with a new channel. *)
Lemma connected_add own main tags chans next x :
  connected own main tags chans next → routine_chan x = next → runs_for own x →
  connected own main (tags ++ [x]) chans (S next).
Proof.
  intros [Hr Hnd Hids Hmain] Hx Hown.
  assert (∀ y, only y next tags → only y (S next) (tags ++ [x])) as Honly.
  { intros y Hy. eapply only_weaken; [done|lia|]. intros z [?| ->%list_elem_of_singleton]%elem_of_app; [by left|right; lia]. }
  split.
  - apply Forall_app. split; [|constructor; [split; [lia|done]|constructor]].
    eapply Forall_impl; [exact Hr|]. intros y [? ?]. split; [lia|done].
  - rewrite fmap_app, NoDup_app. split_and!; [done| |apply NoDup_singleton].
    intros c Hc ->%list_elem_of_singleton. apply list_elem_of_fmap in Hc as (y & E & Hy).
    rewrite Forall_forall in Hr. destruct (Hr y Hy). lia.
  - intros id chan E. by apply Honly, Hids.
  - destruct main; naive_solver.
Qed.

Lemma connected_only own main tags chans next x :
  connected own main tags chans next → routine_chan x = next → only x (S next) (tags ++ [x]).
Proof.
  intros [Hr _ _ _] Hx. split; [lia|]. intros y [Hy| ->%list_elem_of_singleton]%elem_of_app E; [|done].
  rewrite Forall_forall in Hr. destruct (Hr y Hy). lia.
Qed.

(** The routines of a turn. *)
Lemma connected_start_pongs own ids main routines chans next :
  connected own main (tag <$> routines) chans next →
  let '(routines', chans', next') := start_pongs own ids routines chans next in
  connected own main (tag <$> routines') chans' next' ∧ dom chans' = dom chans ∪ list_to_set ids.
Proof.
  unfold start_pongs. revert routines chans next. induction ids as [|id ids IH]; intros routines chans next Hc; cbn [foldl].
  { split; [done|]. set_solver. }
  cbn [start_pong]. specialize (IH (routines ++ [PongRoutine id own next false]) (<[id := next]> chans) (S next)).
  destruct (foldl _ _ ids) as [[routines' chans'] next'].
  destruct IH as [H1 H2]; [|split; [done|]; rewrite H2, dom_insert_L; set_solver].
  rewrite fmap_app. cbn [fmap list_fmap tag].
  pose proof (connected_add own main _ chans next (PongRoutine id own next false) Hc eq_refl eq_refl) as [H1 H2 H3 H4].
  split; [done..| |done]. intros id' chan E.
  destruct (decide (id' = id)) as [->|Hne].
  - rewrite lookup_insert_eq in E. simplify_eq. by eapply connected_only.
  - rewrite lookup_insert_ne in E by done. by apply H3.
Qed.

Lemma after_turn_well_run p main own started routines chans next :
  p_ID p = own → connected own main (tag <$> routines) chans next →
  p_idToChannel p = dom chans ∪ list_to_set started →
  well_run (after_turn p main own started routines chans next).
Proof.
  intros Hp Hc Hd. unfold after_turn.
  pose proof (connected_start_pongs own started main routines chans next Hc) as Hs.
  destruct (start_pongs own started routines chans next) as [[routines' chans'] next'].
  destruct Hs as [H1 H2]. split; cbn; [by rewrite Hp|congruence].
Qed.

Lemma set_routine_well_run i x new p r :
  well_run r → rn_routines r !! i = Some x →
  (∀ y, new = Some y → tag y = tag x) →
  p_ID p = p_ID (rn_process r) → p_idToChannel p = p_idToChannel (rn_process r) →
  well_run (set_routine i new p r).
Proof.
  intros [Hc Hd] Hx Hnew Hp Hk. unfold set_routine, well_run. cbn. rewrite Hp, Hk. split; [|done].
  eapply connected_sub; [exact Hc| |done|by left]. destruct new as [y|].
  - rewrite list_fmap_insert, (Hnew y eq_refl), list_insert_id; [done|]. by rewrite list_lookup_fmap, Hx.
  - apply fmap_sublist, sublist_delete.
Qed.


(** A routine that [main] starts with the next channel. *)
Lemma start_well_run main x r :
  well_run r → tag x = x → routine_chan x = rn_next r → runs_for (p_ID (rn_process r)) x →
  match main with
  | Leading currentId chan => currentId = p_ID (rn_process r) ∧ x = JoinRoutine currentId chan None
  | Following chan => x = PingRoutine chan false
  | _ => True
  end →
  well_run (mkRunning (rn_process r) main (rn_routines r ++ [x]) (rn_chans r) (S (rn_next r))).
Proof.
  intros [Hc Hd] Ht Hx Hf Hm. split; [|done]. cbn. rewrite fmap_app. cbn. rewrite Ht.
  pose proof (connected_only _ _ _ _ _ x Hc Hx) as Honly.
  destruct (connected_add _ _ _ _ _ _ Hc Hx Hf) as [H1 H2 H3 _]. split; [done..|].
  destruct main; [done| | |done].
  - by destruct Hm as [-> ->].
  - by subst x.
Qed.

Lemma tag_map (f : routine → routine) (routines : list routine) :
  (∀ x, tag (f x) = tag x) → tag <$> (f <$> routines) = tag <$> routines.
Proof. intros Hf. rewrite <-list_fmap_compose. apply list_fmap_ext. intros i x _. apply Hf. Qed.

Lemma tag_joined chan x : tag (joined chan x) = tag x.
Proof. destruct x as [? ? []| |]; cbn; try done. by case_decide. Qed.

Lemma tag_pinged chan x : tag (pinged chan x) = tag x.
Proof. destruct x as [|? []|]; cbn; try done. by case_decide. Qed.

Lemma dom_deletes (gone : list str) (chans : gmap str nat) :
  dom (foldr delete chans gone) = dom chans ∖ list_to_set gone.
Proof. induction gone as [|id gone IH]; cbn; [set_solver|]. rewrite dom_delete_L, IH. set_solver. Qed.

Lemma deletes_subset (gone : list str) (chans : gmap str nat) : foldr delete chans gone ⊆ chans.
Proof.
  induction gone as [|id gone IH]; cbn; [done|]. etrans; [apply delete_subseteq|exact IH].
Qed.

Lemma with_nonces_same nonces p :
  p_ID (with_nonces nonces p) = p_ID p ∧ p_idToChannel (with_nonces nonces p) = p_idToChannel p.
Proof. done. Qed.

Lemma well_run_main main routines r :
  well_run r → main = MainLoop ∨ main = Exited → (tag <$> routines) `sublist_of` (tag <$> rn_routines r) →
  well_run (mkRunning (rn_process r) main routines (rn_chans r) (rn_next r)).
Proof. intros [Hc Hd] Hm Hs. split; [|done]. eapply connected_sub; [done..|tauto]. Qed.

Section Invariant.
Context {K : Type} `{KvService K} (fuel : nat).

Lemma role_step_well_run kv r kv' r' : well_run r → role_step fuel kv r kv' r' → well_run r'.
Proof using.
  intros Hr Hstep. pose proof Hr as [Hc Hd]. pose proof (cn_main _ _ _ _ _ Hc) as Hmain.
  destruct Hstep as
    [kv' r' [Hm Hl|Hm Hl]
    |kv' r' [cid c Hm Hl|cid c spare gone a kv1 p started Hm Hl Hnd _ _ E|cid c spare gone a kv1 Hm Hl E]
    |kv' r' [c Hm Hl|c stopped kv1 p started Hm Hl _ E|c stopped kv1 Hm Hl E]
    |kv' r' [i cid c Hx Hl|i cid c w nonces kv1 Hx Hl E|i cid c nonces kv1 Hx Hl E]
    |kv' r' [i c Hx Hl|i c gone nonces kv1 Hx Hl E|i c nonces kv1 Hx Hl E]
    |kv' r' [i id cid c Hx Hl|i id cid c gone nonces kv1 Hx Hl E|i id cid c nonces kv1 Hx Hl E]
    |kv'];
    lazymatch goal with
    | |- well_run (exits _) => apply well_run_main; [done|by right|apply sublist_nil_l]
    | |- well_run (returns_to_main _) => apply well_run_main; [done|by left|done]
    | |- well_run (set_routine _ _ _ _) =>
        eapply set_routine_well_run; [done|done|intros y Ey; by simplify_eq/=|done..]
    | _ => idtac
    end.
  - by apply start_well_run.
  - by apply start_well_run.
  - apply leader_turn_ids in E as [Hp Hk]. rewrite Hm in Hmain. destruct Hmain as [-> _].
    rewrite Hl. apply after_turn_well_run; [done| |by rewrite Hk, dom_deletes, Hd].
    rewrite Hm in Hc. rewrite Hm. eapply connected_sub; [exact Hc| |apply deletes_subset|by left].
    etrans; [apply fmap_sublist, sublist_filter|].
    destruct a; [by rewrite tag_map by (intros; apply tag_joined)|done].
  - apply follower_turn_ids in E as [Hp Hk]. apply after_turn_well_run; [done| |by rewrite Hk, Hd].
    eapply connected_sub; [exact Hc| |done|by left].
    destruct stopped; [by rewrite tag_map by (intros; apply tag_pinged)|done].
  - done.
Qed.

Lemma starts_well_run ID kv s : starts fuel ID kv s → well_run s.2.
Proof using.
  intros (p & started & E & ->). apply initLeader_ids in E as [Hp Hk]. cbn in Hp, Hk.
  apply after_turn_well_run; [done| |rewrite Hk; set_solver].
  split; cbn; [constructor|constructor| |done]. intros id c Hl. by rewrite lookup_empty in Hl.
Qed.

Lemma roles_well_run s s' : rtc (roles_step fuel) s s' → well_run s.2 → well_run s'.2.
Proof using. induction 1 as [|s s1 s' Hstep _ IH]; [done|]. intros Hs. eapply IH, role_step_well_run; done. Qed.

Lemma runs_well_run ID kv s : runs fuel ID kv s → well_run s.2.
Proof using. intros (s0 & H0 & Hsteps). eapply roles_well_run; [done|]. by eapply starts_well_run. Qed.

Lemma role_step_ID kv r kv' r' : role_step fuel kv r kv' r' → p_ID (rn_process r') = p_ID (rn_process r).
Proof using.
  assert (∀ p main own started routines chans next,
    p_ID (rn_process (after_turn p main own started routines chans next)) = p_ID p) as Hafter.
  { intros. unfold after_turn. by destruct (start_pongs _ _ _ _ _) as [[? ?] ?]. }
  destruct 1 as [? ? []|? ? [|? ? ? ? ? ? ? ? ? ? ? ? ? E|]|? ? [|? ? ? ? ? ? ? ? E|]|? ? []|? ? []|? ? []|]; try done.
  - apply leader_turn_ids in E as [Hp _]. by rewrite Hafter.
  - apply follower_turn_ids in E as [Hp _]. by rewrite Hafter.
Qed.

Lemma runs_ID ID kv s : runs fuel ID kv s → p_ID (rn_process s.2) = ID.
Proof using.
  intros (s0 & (p & started & E & Hs0) & Hsteps).
  assert (p_ID (rn_process s0.2) = ID) as <-.
  { apply initLeader_ids in E as [Hp _]. rewrite Hs0. unfold after_turn. by destruct (start_pongs _ _ _ _ _) as [[? ?] ?]. }
  clear E Hs0. induction Hsteps as [|s0 s1 s Hstep _ IH]; [done|]. rewrite IH. by eapply role_step_ID.
Qed.

(** ** What a routine took when its leadership ended *)

Lemma start_pongs_keeps own ids routines chans next x :
  x ∈ routines → x ∈ (start_pongs own ids routines chans next).1.1.
Proof using.
  unfold start_pongs. revert routines chans next. induction ids as [|id ids IH]; intros routines chans next Hx; [done|].
  cbn. apply IH. set_solver.
Qed.

Lemma after_turn_keeps p main own started routines chans next x :
  x ∈ routines → x ∈ rn_routines (after_turn p main own started routines chans next).
Proof using.
  intros Hx. unfold after_turn. pose proof (start_pongs_keeps own started routines chans next x Hx) as Hs.
  by destruct (start_pongs own started routines chans next) as [[? ?] ?].
Qed.

Lemma after_turn_main p main own started routines chans next :
  rn_main (after_turn p main own started routines chans next) = main.
Proof using. unfold after_turn. by destruct (start_pongs _ _ _ _ _) as [[? ?] ?]. Qed.

Lemma set_routine_keeps i y new p r x :
  rn_routines r !! i = Some y → y ≠ x → x ∈ rn_routines r → x ∈ rn_routines (set_routine i new p r).
Proof using.
  intros Hy Hne [j Hj]%list_elem_of_lookup_1. assert (j ≠ i) by congruence.
  apply list_elem_of_lookup_2 with (if decide (new = None) then if decide (j < i)%nat then j else (j - 1)%nat else j).
  unfold set_routine. cbn [rn_routines]. destruct new as [z|].
  - rewrite decide_False by done. by rewrite list_lookup_insert_ne.
  - rewrite decide_True by done. destruct (decide _).
    + by rewrite list_lookup_delete_lt.
    + rewrite list_lookup_delete_ge by lia. by replace (S (j - 1)) with j by lia.
Qed.

(** A join routine that holds a value and whose channel nobody reads. *)
Definition unheard (currentId : str) (chan : nat) (joinValue : str) (r : running) : Prop :=
  rn_main r = Exited ∨
  ((chan < rn_next r)%nat ∧ (∀ c, rn_main r ≠ Leading c chan) ∧
   JoinRoutine currentId chan (Some joinValue) ∈ rn_routines r).

Lemma start_pongs_next own ids routines chans next : (next ≤ (start_pongs own ids routines chans next).2)%nat.
Proof using.
  unfold start_pongs. revert routines chans next. induction ids as [|id ids IH]; intros routines chans next; [done|].
  cbn. etrans; [|apply IH]. lia.
Qed.

Lemma after_turn_next p main own started routines chans next :
  (next ≤ rn_next (after_turn p main own started routines chans next))%nat.
Proof using.
  unfold after_turn. pose proof (start_pongs_next own started routines chans next) as Hs.
  by destruct (start_pongs own started routines chans next) as [[? ?] ?].
Qed.

Lemma after_turn_unheard cid chan v p main own started routines chans next :
  (chan < next)%nat → (∀ c, main ≠ Leading c chan) → JoinRoutine cid chan (Some v) ∈ routines →
  unheard cid chan v (after_turn p main own started routines chans next).
Proof using.
  intros Hc Hm Hx. right. split_and!; [|by rewrite after_turn_main|by apply after_turn_keeps].
  eapply Nat.lt_le_trans; [exact Hc|apply after_turn_next].
Qed.

Lemma set_routine_unheard cid chan v i y new p r :
  unheard cid chan v r → rn_routines r !! i = Some y → y ≠ JoinRoutine cid chan (Some v) →
  unheard cid chan v (set_routine i new p r).
Proof using.
  intros [?|(Hc & Hm & Hx)] Hy Hne; [by left|right]. split_and!; [done..|]. by eapply set_routine_keeps.
Qed.

Lemma role_step_unheard cid chan v kv r kv' r' :
  unheard cid chan v r → role_step fuel kv r kv' r' → unheard cid chan v r'.
Proof using.
  intros Hr Hstep.
  destruct Hstep as
    [kv' r' [Hm Hl|Hm Hl]
    |kv' r' [cid' c Hm Hl|cid' c spare gone a kv1 p started Hm Hl Hnd _ _ E|cid' c spare gone a kv1 Hm Hl E]
    |kv' r' [c Hm Hl|c stopped kv1 p started Hm Hl _ E|c stopped kv1 Hm Hl E]
    |kv' r' [i cid' c Hx Hl|i cid' c w nonces kv1 Hx Hl E|i cid' c nonces kv1 Hx Hl E]
    |kv' r' [i c Hx Hl|i c gone nonces kv1 Hx Hl E|i c nonces kv1 Hx Hl E]
    |kv' r' [i id cid' c Hx Hl|i id cid' c gone nonces kv1 Hx Hl E|i id cid' c nonces kv1 Hx Hl E]
    |kv'];
    lazymatch goal with
    | |- unheard _ _ _ (set_routine _ _ _ _) => by eapply set_routine_unheard
    | |- unheard _ _ _ (exits _) => by left
    | _ => try (destruct Hr as [?|(Hc & Hn & Hin)]; [congruence|])
    end.
  - right. split_and!; [cbn; lia|cbn; intros c' [= _ E]; lia|set_solver].
  - right. split_and!; [cbn; lia|done|set_solver].
  - by right.
  - apply after_turn_unheard; [done|done|].
    apply list_elem_of_filter. split; [by intros []|]. destruct a; [|done].
    apply list_elem_of_fmap. exists (JoinRoutine cid chan (Some v)). split; [|done].
    cbn. rewrite decide_False; [done|]. intros ->. by apply (Hn cid').
  - by right.
  - apply after_turn_unheard; [done|done|]. destruct stopped; [|done].
    apply list_elem_of_fmap. by exists (JoinRoutine cid chan (Some v)).
  - exact Hr.
Qed.

(** C27: The channels of the process connect it to the right routines: no two
    routines share one, a message on the channel of an id is from a routine that
    pongs that id for this process, and the leader and the follower hear the
    routine that they started. *)
Theorem channels_connect_their_routines ID kv s (Hruns : runs fuel ID kv s) :
  NoDup (routine_chan <$> rn_routines s.2) ∧
  dom (rn_chans s.2) = p_idToChannel (rn_process s.2) ∧
  (∀ x, x ∈ rn_routines s.2 →
     runs_for ID x ∧
     (∀ id, rn_chans s.2 !! id = Some (routine_chan x) → ∃ gone, x = PongRoutine id ID (routine_chan x) gone) ∧
     (∀ cid, rn_main s.2 = Leading cid (routine_chan x) → cid = ID ∧ ∃ v, x = JoinRoutine ID (routine_chan x) v) ∧
     (rn_main s.2 = Following (routine_chan x) → ∃ gone, x = PingRoutine (routine_chan x) gone)).
Proof using.
  pose proof (runs_ID _ _ _ Hruns) as HID. destruct (runs_well_run _ _ _ Hruns) as [[Hr Hnd Hids Hmain] Hd].
  rewrite HID in *. rewrite <-list_fmap_compose in Hnd.
  assert (∀ x, routine_chan (tag x) = routine_chan x) as Hchan by (by intros []).
  split_and!; [|done|].
  - erewrite list_fmap_ext; [exact Hnd|]. intros i x _. cbn. by rewrite Hchan.
  - intros x Hx. apply (list_elem_of_fmap_2 tag) in Hx as Ht. rewrite Forall_forall in Hr.
    destruct (Hr _ Ht) as [_ Hfor]. split_and!.
    + by destruct x.
    + intros id E. destruct (Hids _ _ E) as [_ Honly]. specialize (Honly _ Ht (Hchan x)).
      destruct x; simplify_eq/=; eauto.
    + intros cid E. rewrite E in Hmain. destruct Hmain as [-> [_ Honly]]. split; [done|].
      specialize (Honly _ Ht (Hchan x)). destruct x; simplify_eq/=; eauto.
    + intros E. rewrite E in Hmain. destruct Hmain as [_ Honly].
      specialize (Honly _ Ht (Hchan x)). destruct x; simplify_eq/=; eauto.
Qed.

(** What a join routine has taken from the join key reaches the leadership
    that started the routine, or nobody: once the process leads no more, or
    leads again, the routine keeps it for ever, and the nodes have to ask
    again. *)
Theorem taken_requests_are_stuck ID kv s cid chan v s' (Hruns : runs fuel ID kv s)
    (Hin : JoinRoutine cid chan (Some v) ∈ rn_routines s.2) (Hmain : ∀ c, rn_main s.2 ≠ Leading c chan)
    (Hsteps : rtc (roles_step fuel) s s') :
  rn_main s'.2 = Exited ∨
  (JoinRoutine cid chan (Some v) ∈ rn_routines s'.2 ∧ ∀ c, rn_main s'.2 ≠ Leading c chan).
Proof using.
  assert (unheard cid chan v s.2) as Hs.
  { destruct (runs_well_run _ _ _ Hruns) as [Hc _]. right. split_and!; [|done|done].
    pose proof (cn_routines _ _ _ _ _ Hc) as Hr. rewrite Forall_forall in Hr.
    apply (list_elem_of_fmap_2 tag) in Hin. by destruct (Hr _ Hin). }
  assert (unheard cid chan v s'.2) as [?|(_ & ? & ?)]; [|by left|by right].
  clear Hruns Hin Hmain. induction Hsteps as [|s s1 s' Hstep _ IH]; [done|].
  apply IH. by eapply role_step_unheard.
Qed.
End Invariant.

(** ** A run *)

Definition sample_ID : str := word "n1".
Definition no_store : store := mkStore ∅ ∅.
Definition put_key (key value : str) (kv : store) : store :=
  mkStore (<[key ++ [blank] ++ uInt64ToStr 0 := value]> (st_map kv)) (st_gone kv).

Definition succeeds {A} (x : res (option A * store)) : bool :=
  match x with Ok (Some _, _) => true | _ => false end.
Definition outcome {A} (d : A) (x : res (option A * store)) : A * store :=
  match x with Ok (Some a, kv) => (a, kv) | _ => (d, no_store) end.

Lemma outcome_ok {A} (d : A) (x : res (option A * store)) :
  succeeds x = true → x = Ok (Some ((outcome d x).1), (outcome d x).2).
Proof. destruct x as [[[a|] kv]| |]; done. Qed.

Definition no_process : process * list str := (mkProcess sample_ID ∅ (mkLeader 0 0 0 [] []) ∅, []).
Definition take_now (p : process) (kv : store) : res (option (str * nonce_map) * store) :=
  match join_loop 5 (p_nonces p) [] kv with
  | Ok (Some v, nonces, kv) => Ok (Some (v, nonces), kv)
  | Ok (None, _, kv) => Ok (None, kv)
  | Panic p => Panic p
  | OutOfFuel => OutOfFuel
  end.

(** The process starts and leads; a node asks to join; the join routine takes
    the request. *)
Definition r_start := outcome no_process (initLeader 5 no_process.1 no_store).
Definition r_kv := put_key JOIN (word "n2") r_start.2.
Definition r_take := outcome ([], ∅) (take_now r_start.1.1 r_kv).
Definition r_process := with_nonces r_take.1.2 r_start.1.1.

(** The leader adds the node; or it finds another leader. *)
Definition r_added := outcome no_process (leader_turn 5 r_process [] [] (Some (word "n2")) r_take.2).
Definition r_other := put_key LEADER (LeaderValToString (mkLeader 1 0 0 (word "n3") [])) r_take.2.
Definition r_deposed := outcome no_process (leader_turn 5 r_process [] [] None r_other).

Definition s_taken : store * running :=
  (r_take.2, mkRunning r_process (Leading sample_ID 0) [JoinRoutine sample_ID 0 (Some (word "n2"))] ∅ 1).
Definition s_added : store * running :=
  (r_added.2, mkRunning r_added.1.1 (Leading sample_ID 0)
    [JoinRoutine sample_ID 0 None; PongRoutine (word "n2") sample_ID 1 false] {[word "n2" := 1%nat]} 2).
Definition s_deposed : store * running :=
  (r_deposed.2, mkRunning r_deposed.1.1 MainLoop [JoinRoutine sample_ID 0 (Some (word "n2"))] ∅ 1).
Definition s_follows : store * running :=
  (r_deposed.2, mkRunning r_deposed.1.1 (Following 1)
    [JoinRoutine sample_ID 0 (Some (word "n2")); PingRoutine 1 false] ∅ 2).

Lemma runs_step ID kv s s' : runs 5 ID kv s → roles_step 5 s s' → runs 5 ID kv s'.
Proof. intros (s0 & H0 & Hs) Hstep. exists s0. split; [exact H0|]. eapply rtc_r; [exact Hs|exact Hstep]. Qed.

Lemma main_leads_as ID kv r :
  rn_main r = MainLoop → Id (current r) = ID → own_id r = ID →
  roles_step 5 (kv, r) (kv, mkRunning (rn_process r) (Leading ID (rn_next r))
    (rn_routines r ++ [JoinRoutine ID (rn_next r) None]) (rn_chans r) (S (rn_next r))).
Proof. intros Hm Hl Ho. rewrite <-Hl. apply by_main, main_leads; [exact Hm|exact (eq_trans Hl (eq_sym Ho))]. Qed.

Definition r_starts (main : main_at) : running := mkRunning r_start.1.1 main [] ∅ 0.
Definition r_leads : running :=
  mkRunning r_start.1.1 (Leading sample_ID 0) [JoinRoutine sample_ID 0 None] ∅ 1.

Lemma s_start_starts : starts 5 sample_ID no_store (r_start.2, r_starts MainLoop).
Proof.
  exists r_start.1.1, r_start.1.2. split.
  - rewrite <-surjective_pairing. apply (outcome_ok no_process). vm_compute. reflexivity.
  - assert (r_start.1.2 = []) as -> by (vm_compute; reflexivity). reflexivity.
Qed.

Lemma take_now_Ok p kv v nonces kv' :
  take_now p kv = Ok (Some (v, nonces), kv') → join_loop 5 (p_nonces p) [] kv = Ok (Some v, nonces, kv').
Proof.
  unfold take_now. destruct (join_loop _ _ _ _) as [[[[w|] n] k]| |]; intros E; by simplify_eq.
Qed.

Lemma s_taken_step : roles_step 5 (r_kv, r_leads) s_taken.
Proof.
  assert (take_now r_start.1.1 r_kv = Ok (Some (r_take.1.1, r_take.1.2), r_take.2)) as E.
  { rewrite <-surjective_pairing. apply (outcome_ok ([], ∅)). vm_compute. reflexivity. }
  apply take_now_Ok in E.
  assert (r_take.1.1 = word "n2") as Hv by (vm_compute; reflexivity). rewrite Hv in E.
  exact (by_join 5 _ _ _ _ (join_takes 5 r_kv r_leads 0 sample_ID 0 (word "n2") r_take.1.2 r_take.2 eq_refl
    ltac:(vm_compute; reflexivity) E)).
Qed.

Lemma s_taken_runs : runs 5 sample_ID no_store s_taken.
Proof.
  exists (r_start.2, r_starts MainLoop). split; [exact s_start_starts|].
  apply rtc_l with (r_start.2, r_leads);
    [exact (main_leads_as sample_ID r_start.2 (r_starts MainLoop) eq_refl
       ltac:(vm_compute; reflexivity) ltac:(vm_compute; reflexivity))|].
  apply rtc_l with (r_kv, r_leads); [exact (by_others 5 r_start.2 r_leads r_kv)|].
  apply rtc_once. exact s_taken_step.
Qed.

(** The leader adds the node and pongs it. *)
Lemma s_added_step : roles_step 5 s_taken s_added.
Proof.
  assert (Id (p_currentLeader r_process) = sample_ID) as Hid by (vm_compute; reflexivity).
  assert (leader_turn 5 r_process [] [] (Some (word "n2")) r_take.2 = Ok (Some (r_added.1.1, [word "n2"]), r_added.2)) as E.
  { assert (r_added.1.2 = [word "n2"]) as <- by (vm_compute; reflexivity).
    rewrite <-surjective_pairing. apply (outcome_ok no_process). vm_compute. reflexivity. }
  refine (by_leader 5 _ _ _ _ (leader_turns 5 r_take.2 s_taken.2 sample_ID 0 [] [] (Some (word "n2")) r_added.2 r_added.1.1
    [word "n2"] eq_refl Hid _ _ _ E)).
  - constructor.
  - intros id Hid'. inversion Hid'.
  - intros v [= <-]. exists sample_ID. by left.
Qed.

(** It finds another leader, and returns with the request still in the
    routine. *)
Lemma s_deposed_step : rtc (roles_step 5) s_taken s_deposed.
Proof.
  assert (Id (p_currentLeader r_process) = sample_ID) as Hid by (vm_compute; reflexivity).
  assert (leader_turn 5 r_process [] [] None r_other = Ok (Some (r_deposed.1.1, []), r_deposed.2)) as E.
  { assert (r_deposed.1.2 = []) as <- by (vm_compute; reflexivity).
    rewrite <-surjective_pairing. apply (outcome_ok no_process). vm_compute. reflexivity. }
  set (turned := mkRunning r_deposed.1.1 (Leading sample_ID 0) [JoinRoutine sample_ID 0 (Some (word "n2"))] ∅ 1).
  apply rtc_l with (r_other, s_taken.2); [exact (by_others 5 r_take.2 s_taken.2 r_other)|].
  apply rtc_l with (r_deposed.2, turned).
  - refine (by_leader 5 _ _ _ _ (leader_turns 5 r_other s_taken.2 sample_ID 0 [] [] None r_deposed.2 r_deposed.1.1 [] eq_refl Hid _ _ _ E)).
    + constructor.
    + intros id Hid'. inversion Hid'.
    + done.
  - apply rtc_once. refine (by_leader 5 _ _ _ _ (leader_returns 5 r_deposed.2 turned sample_ID 0 eq_refl _)).
    intros Hl. by vm_compute in Hl.
Qed.

Lemma s_follows_step : roles_step 5 s_deposed s_follows.
Proof. refine (by_main 5 _ _ _ _ (main_follows r_deposed.2 s_deposed.2 eq_refl _)). intros Hl. by vm_compute in Hl. Qed.

Lemma channels_connect_their_routines_witness :
  rn_routines s_added.2 = [JoinRoutine sample_ID 0 None; PongRoutine (word "n2") sample_ID 1 false] ∧
  NoDup (routine_chan <$> rn_routines s_added.2) ∧
  dom (rn_chans s_added.2) = p_idToChannel (rn_process s_added.2).
Proof.
  destruct (channels_connect_their_routines 5 sample_ID no_store s_added) as (Hnd & Hd & _).
  - exact (runs_step _ _ _ _ s_taken_runs s_added_step).
  - split; [reflexivity|split; [exact Hnd|exact Hd]].
Defined.

Lemma taken_requests_are_stuck_witness :
  rn_main s_follows.2 = Exited ∨
  JoinRoutine sample_ID 0 (Some (word "n2")) ∈ rn_routines s_follows.2.
Proof.
  destruct (taken_requests_are_stuck 5 sample_ID no_store s_deposed sample_ID 0 (word "n2") s_follows)
    as [Hm|[Hx _]].
  - destruct s_taken_runs as (s0 & H0 & Hs). exists s0. split; [exact H0|].
    etransitivity; [exact Hs|exact s_deposed_step].
  - by left.
  - done.
  - apply rtc_once. exact s_follows_step.
  - left. exact Hm.
  - right. exact Hx.
Defined.
