(* ===== verification/UnitTests.v ===== *)
(** The unit tests of the project (buffer/buffer_test.go,
    documentmanager/operationlog_test.go and operationqueue_test.go,
    version/version_test.go, treedoc/treedoc2_test.go), run on the model: each
    test is translated with its calls and assertions in their order, and each
    example evaluates it to its end.

    [assertEqual] ends a test as [t.Fatalf] does. The test of the maximal size,
    which is commented out in the source, is left out. *)
From Stdlib Require Import Strings.String.
From S2P Require Import Prelude Common Version BufferOp.
From S2P Require Buffer Treedoc OperationLog OperationQueue.

Open Scope Z_scope.

Definition bytes (s : String.string) : list byte := String.list_byte_of_string s.
Arguments bytes s%_string.

Definition assertEqual {A} `{EqDecision A} (exp got : A) : res () :=
  if decide (exp = got) then Ok () else Panic ExplicitPanic.

Definition A_ID : SiteId := StringToSiteId (bytes "aaaaaaaaaaaaaaaa").
Definition B_ID : SiteId := StringToSiteId (bytes "bbbbbbbbbbbbbbbb").
Definition C_ID : SiteId := StringToSiteId (bytes "cccccccccccccccc").

Definition NewTestVector (a b c : Z) : VersionVector :=
  IncrementTo (IncrementTo (IncrementTo NewVector A_ID a) B_ID b) C_ID c.

(** ** The text buffer *)
Module BufferTest.
Import Buffer.

Definition test_layout (s : list byte) (numberOfLines : Z) : res Buffer :=
  buf ← StringToBuffer s 10;
  str ← ToString buf;
  _ ← assertEqual s str;
  _ ← assertEqual (zlen s) (bf_numberOfChars buf);
  _ ← assertEqual numberOfLines (bf_numberOfLines buf);
  Ok buf.

Definition line_end : list byte := [char_newline].

Definition string_to_buffer : res () :=
  _ ← test_layout (bytes "abc abc" ++ line_end ++ bytes "def def") 2;
  _ ← test_layout (bytes "abc abc" ++ line_end ++ bytes "def def def") 3;
  _ ← test_layout (bytes "abc abc" ++ line_end ++ [char_tab] ++ bytes "def def") 3;
  buf ← test_layout (bytes "abc abcabcabc") 2;
  line ← require NilPointer (Lines buf !! 0%nat);
  next ← require NilPointer (Lines buf !! 1%nat);
  _ ← assertEqual (bytes "abc ") line;
  _ ← assertEqual (bytes "abcabcabc" ++ line_end) next;
  _ ← test_layout (bytes "abcabcabcabcabcabcabcabcabcabcabcdef") 4;
  Ok ().

Example TestStringToBuffer : string_to_buffer = Ok ().
Proof. vm_compute. reflexivity. Qed.
End BufferTest.

(** ** Version vectors *)
Module VersionTest.

Definition increment : res () :=
  let v := Increment NewVector A_ID in
  assertEqual 1 (Get v A_ID).

Example TestIncrement : increment = Ok ().
Proof. vm_compute. reflexivity. Qed.

Definition increment_to : res () :=
  let v := IncrementTo NewVector A_ID 5 in
  _ ← assertEqual 5 (Get v A_ID);
  let v := IncrementTo v A_ID 2 in
  assertEqual 5 (Get v A_ID).

Example TestIncrementTo : increment_to = Ok ().
Proof. vm_compute. reflexivity. Qed.

Definition assert_vector (a b c : Z) (v : VersionVector) : res () :=
  _ ← assertEqual a (Get v A_ID);
  _ ← assertEqual b (Get v B_ID);
  assertEqual c (Get v C_ID).

Definition merge_ : res () :=
  let v1 := NewTestVector 5 2 1 in
  let vc := Copy v1 in
  let v2 := IncrementTo (IncrementTo NewVector A_ID 3) B_ID 6 in
  let v1 := Merge v1 v2 in
  _ ← assert_vector 5 6 1 v1;
  let v2 := Merge v2 vc in
  assert_vector 5 6 1 v2.

Example TestMerge : merge_ = Ok ().
Proof. vm_compute. reflexivity. Qed.

Definition assert_compare (r r' : order) (v1 v2 : VersionVector) : res () :=
  _ ← assertEqual r (Compare v1 v2);
  assertEqual r' (Compare v2 v1).

(** [IncrementTo] with zero leaves no entry, so that a counter that the test
    does not touch can be written as zero. *)
Definition compare_ : res () :=
  _ ← assert_compare EQUAL EQUAL (NewTestVector 5 2 1) (NewTestVector 5 2 1);
  _ ← assert_compare GREATER_THAN LESS_THAN (NewTestVector 5 2 1) (NewTestVector 5 2 0);
  _ ← assert_compare LESS_THAN GREATER_THAN (NewTestVector 5 2 0) (NewTestVector 5 2 1);
  _ ← assert_compare CONFLICT CONFLICT (NewTestVector 5 2 1) (NewTestVector 4 2 3);
  _ ← assert_compare CONFLICT CONFLICT (NewTestVector 5 0 0) (NewTestVector 0 0 3);
  assert_compare CONFLICT CONFLICT (NewTestVector 6 2 0) (NewTestVector 0 2 1).

Example TestCompare : compare_ = Ok ().
Proof. vm_compute. reflexivity. Qed.
End VersionTest.

(** ** The operation log *)
Module LogTest.
Import OperationLog.

(** [treedoc.Operation{Id: treedoc.NewNodeId(id, clock)}]. *)
Definition op_of (id : SiteId) (clock : Z) : Treedoc.Operation :=
  Treedoc.mkOperation Treedoc.NO_OPERATION Treedoc.zero_id 0 (Treedoc.NewNodeId id clock) 0 x00.

Definition log_op (log : OperationLog) (id : SiteId) (version : Z) : OperationLog :=
  Write log id version (op_of id version).

(** A call of [Write] and what the log is afterwards. *)
Definition write_and_assert (log : OperationLog)
    (step : SiteId * Z * (Z * VersionVector)) : res OperationLog :=
  let '(id, version, (size, vector)) := step in
  let log := log_op log id version in
  _ ← assertEqual size (zlen (lg_Log log));
  _ ← assertEqual vector (lg_Vector log);
  Ok log.

Definition log_write : res () :=
  _ ← foldM write_and_assert NewLog
    [(A_ID, 1, (1, NewTestVector 1 0 0)); (A_ID, 2, (2, NewTestVector 2 0 0));
     (B_ID, 1, (3, NewTestVector 2 1 0)); (C_ID, 1, (4, NewTestVector 2 1 1));
     (B_ID, 2, (5, NewTestVector 2 2 1)); (A_ID, 3, (6, NewTestVector 3 2 1))];
  Ok ().

Example TestLogWrite : log_write = Ok ().
Proof. vm_compute. reflexivity. Qed.

Definition assert_ids (ids : list Treedoc.NodeId) (result : list RemoteOperation) : res () :=
  assertEqual ids (take (length ids) (map (λ op, Treedoc.op_Id (ro_Op op)) result)).

Definition get_missing_operations : res () :=
  let log := foldl (λ log '(id, version), log_op log id version) NewLog
               [(A_ID, 1); (A_ID, 2); (B_ID, 1); (C_ID, 1); (B_ID, 2); (A_ID, 3)] in
  let node := Treedoc.NewNodeId in
  _ ← assertEqual 6 (zlen (lg_Log log));
  result ← log_GetMissingOperations log (NewTestVector 2 1 0);
  _ ← assertEqual 3 (zlen result);
  _ ← assert_ids [node C_ID 1; node B_ID 2; node A_ID 3] result;
  result ← log_GetMissingOperations log (NewTestVector 1 3 0);
  _ ← assertEqual 3 (zlen result);
  _ ← assert_ids [node A_ID 2; node C_ID 1; node A_ID 3] result;
  result ← log_GetMissingOperations log (NewTestVector 0 0 0);
  _ ← assertEqual 6 (zlen result);
  assert_ids [node A_ID 1; node A_ID 2; node B_ID 1] result.

Example TestGetMissingOperations : get_missing_operations = Ok ().
Proof. vm_compute. reflexivity. Qed.
End LogTest.

(** ** The operation queue *)
Module QueueTest.
Import OperationLog OperationQueue.

(** [RemoteOperation{Vector: vector, Id: id, Version: version}]. *)
Definition remote (vector : VersionVector) (id : SiteId) (version : Z) : RemoteOperation :=
  mkRemoteOperation vector id version
    (Treedoc.mkOperation Treedoc.NO_OPERATION Treedoc.zero_id 0 Treedoc.zero_id 0 x00).

(** A call of [Enqueue] with the vector of the site, the number of operations
    that it returns, and the size of the queue where the test looks at it. *)
Definition enqueue (q : OperationQueue) (elem : RemoteOperation) (vector : VersionVector)
    (delivered : Z) (size : option Z) : res (list RemoteOperation * OperationQueue) :=
  '(result, q, _) ← Enqueue q elem vector;
  _ ← assertEqual delivered (zlen result);
  _ ← match size with Some size => assertEqual size (Size q) | None => Ok () end;
  Ok (result, q).

Definition enqueue_waiting (q : OperationQueue) (elem : RemoteOperation) : res OperationQueue :=
  '(_, q) ← enqueue q elem (NewTestVector 0 0 0) 0 None;
  Ok q.

Definition assert_result (exp : list (SiteId * Z)) (result : list RemoteOperation) : res () :=
  assertEqual exp (map (λ op, (ro_Id op, ro_Version op)) result).

Definition enqueue1 : res () :=
  let zero := NewTestVector 0 0 0 in
  '(_, q) ← enqueue NewQueue (remote (NewTestVector 1 0 0) A_ID 2) zero 0 (Some 1);
  '(_, q) ← enqueue q (remote (NewTestVector 2 0 0) A_ID 3) zero 0 (Some 2);
  '(_, q) ← enqueue q (remote (NewTestVector 3 0 0) A_ID 4) zero 0 (Some 3);
  '(_, q) ← enqueue q (remote (NewTestVector 5 0 0) B_ID 1) zero 0 (Some 4);
  '(result, q) ← enqueue q (remote (NewTestVector 0 0 0) A_ID 1) zero 4 (Some 1);
  assert_result [(A_ID, 1); (A_ID, 2); (A_ID, 3); (A_ID, 4)] result.

Example TestEnqueue1 : enqueue1 = Ok ().
Proof. vm_compute. reflexivity. Qed.

Definition enqueue2 : res () :=
  q ← foldM enqueue_waiting NewQueue
    [remote (NewTestVector 1 0 0) A_ID 2; remote (NewTestVector 2 0 0) A_ID 3;
     remote (NewTestVector 3 0 0) A_ID 4; remote (NewTestVector 2 0 0) B_ID 1];
  '(result, q) ← enqueue q (remote (NewTestVector 0 0 0) A_ID 1) (NewTestVector 0 0 0) 5 (Some 0);
  assert_result [(A_ID, 1); (A_ID, 2); (A_ID, 3); (A_ID, 4); (B_ID, 1)] result.

Example TestEnqueue2 : enqueue2 = Ok ().
Proof. vm_compute. reflexivity. Qed.

Definition enqueue3 : res () :=
  '(_, q) ← enqueue NewQueue (remote (NewTestVector 0 0 0) A_ID 1) (NewTestVector 0 0 0) 1 None;
  '(_, q) ← enqueue q (remote (NewTestVector 1 0 0) A_ID 2) (NewTestVector 1 0 0) 1 None;
  '(_, q) ← enqueue q (remote (NewTestVector 2 0 0) A_ID 3) (NewTestVector 2 0 0) 1 None;
  '(_, q) ← enqueue q (remote (NewTestVector 3 0 0) A_ID 4) (NewTestVector 3 0 0) 1 None;
  '(_, q, _) ← Enqueue q (remote (NewTestVector 2 0 0) B_ID 1) (NewTestVector 4 0 0);
  assertEqual 0 (Size q).

Example TestEnqueue3 : enqueue3 = Ok ().
Proof. vm_compute. reflexivity. Qed.

Definition enqueue4 : res () :=
  q ← foldM enqueue_waiting NewQueue
    [remote (NewTestVector 1 0 0) A_ID 2; remote (NewTestVector 2 0 0) A_ID 3;
     remote (NewTestVector 3 0 0) A_ID 4; remote (NewTestVector 4 2 1) A_ID 5;
     remote (NewTestVector 0 2 0) C_ID 1; remote (NewTestVector 2 0 0) B_ID 1];
  '(_, q) ← enqueue q (remote (NewTestVector 0 0 0) A_ID 1) (NewTestVector 0 0 0) 5 (Some 2);
  '(result, q) ← enqueue q (remote (NewTestVector 2 0 0) B_ID 2) (NewTestVector 4 1 0) 3 (Some 0);
  assert_result [(B_ID, 2); (C_ID, 1); (A_ID, 5)] result.

Example TestEnqueue4 : enqueue4 = Ok ().
Proof. vm_compute. reflexivity. Qed.

Definition enqueue_duplicates : res () :=
  let zero := NewTestVector 0 0 0 in
  '(_, q) ← enqueue NewQueue (remote (NewTestVector 1 0 0) A_ID 2) zero 0 (Some 1);
  '(_, q) ← enqueue q (remote (NewTestVector 1 0 1) A_ID 2) zero 0 (Some 2);
  '(_, q) ← enqueue q (remote (NewTestVector 1 0 2) A_ID 2) zero 0 (Some 3);
  '(_, q) ← enqueue q (remote (NewTestVector 0 0 0) C_ID 1) zero 1 (Some 3);
  '(_, q) ← enqueue q (remote (NewTestVector 0 0 1) C_ID 2) (NewTestVector 0 0 1) 1 (Some 3);
  '(_, q) ← enqueue q (remote (NewTestVector 0 0 0) A_ID 1) (NewTestVector 0 0 2) 2 (Some 0);
  Ok ().

Example TestEnqueueDuplicateOperations : enqueue_duplicates = Ok ().
Proof. vm_compute. reflexivity. Qed.

Definition missing_queue_elem : res () :=
  q ← foldM (λ q '(elem, vector), '(_, q, _) ← Enqueue q elem vector; Ok q) NewQueue
    [(remote (NewTestVector 0 0 0) A_ID 1, NewTestVector 0 0 0);
     (remote (NewTestVector 1 1 0) B_ID 2, NewTestVector 1 0 0);
     (remote (NewTestVector 2 0 0) A_ID 3, NewTestVector 1 0 0);
     (remote (NewTestVector 3 0 0) A_ID 4, NewTestVector 1 0 0);
     (remote (NewTestVector 3 2 0) C_ID 1, NewTestVector 1 0 0)];
  _ ← assertEqual 4 (Size q);
  let result := queue_GetMissingOperations q (NewTestVector 2 2 0) in
  _ ← assertEqual 3 (zlen result);
  let count id := zlen (filter (λ op, ro_Id op = id) result) in
  _ ← assertEqual 2 (count A_ID);
  _ ← assertEqual 0 (count B_ID);
  assertEqual 1 (count C_ID).

Example TestGetMissingQueueElem : missing_queue_elem = Ok ().
Proof. vm_compute. reflexivity. Qed.
End QueueTest.

(** ** The tree document *)
Module TreedocTest.
Import Treedoc.

Definition newId (id : list byte) : NodeId := go_copy 0 (replicate 20 x00) id.
Definition A_ID0 : NodeId := newId (bytes "aaaaaaaaaaaaaaaa0000").
Definition A_ID1 : NodeId := newId (bytes "aaaaaaaaaaaaaaaa0001").
Definition A_ID2 : NodeId := newId (bytes "aaaaaaaaaaaaaaaa0002").
Definition A_ID3 : NodeId := newId (bytes "aaaaaaaaaaaaaaaa0003").
Definition B_ID0 : NodeId := newId (bytes "bbbbbbbbbbbbbbbb0000").
Definition B_ID1 : NodeId := newId (bytes "bbbbbbbbbbbbbbbb0001").
Definition C_ID0 : NodeId := newId (bytes "cccccccccccccccc0000").
Definition C_ID1 : NodeId := newId (bytes "cccccccccccccccc0001").
Definition D_ID0 : NodeId := newId (bytes "dddddddddddddddd0000").

(** The operations of the tests; a field that is not named is zero. *)
Definition root (ch : byte) (id : NodeId) : Operation :=
  mkOperation INSERT_ROOT zero_id 0 id 0 ch.
Definition new (ch : byte) (parent : NodeId) (parentN : Z) (id : NodeId) : Operation :=
  mkOperation INSERT_NEW parent parentN id 0 ch.
Definition insert_at (ch : byte) (id : NodeId) (n : Z) : Operation :=
  mkOperation INSERT zero_id 0 id n ch.
Definition delete_at (id : NodeId) (n : Z) : Operation :=
  mkOperation DELETE zero_id 0 id n x00.

Definition apply (d : Document) (op : Operation) : res Document :=
  '(d, _) ← ApplyOperation d op; Ok d.

Definition NewTestDoc : res Document :=
  foldM apply NewDocument
    [root x61 A_ID0; root x62 B_ID0; new x63 A_ID0 0 C_ID0; new x64 A_ID0 1 C_ID1;
     new x65 C_ID1 1 D_ID0; insert_at x66 C_ID0 1; insert_at x67 C_ID1 1; insert_at x68 C_ID1 2].

Definition assert_doc (str : list byte) (d : Document) : res () :=
  s ← DocToString d;
  _ ← assertEqual str s;
  assertEqual (zlen str) (dc_Size d).

Definition assert_height (height : Z) (d : Document) : res () :=
  h ← DocHeight d; assertEqual height h.

Definition assert_stat (x y : Z) (d : Document) : res () :=
  stat ← DocStat d; assertEqual (x, y) stat.

Definition insert : res () :=
  let d := NewDocument in
  _ ← assert_height (-1) d;
  _ ← assertEqual 0 (dc_Size d);
  d ← foldM apply d [root x61 A_ID0; root x62 B_ID0];
  _ ← assert_doc (bytes "ab") d;
  _ ← assert_height 0 d;
  d ← foldM apply d [new x63 A_ID0 0 C_ID0; new x64 A_ID0 1 C_ID1; new x65 C_ID1 1 D_ID0];
  _ ← assert_doc (bytes "cadeb") d;
  _ ← assert_height 2 d;
  d ← foldM apply d [insert_at x66 C_ID0 1; insert_at x67 C_ID1 1; insert_at x68 C_ID1 2];
  _ ← assert_doc (bytes "cfadeghb") d;
  _ ← assert_height 2 d;
  d ← foldM apply NewDocument [root x63 C_ID0; root x61 A_ID0; root x62 B_ID0];
  assert_doc (bytes "abc") d.

Example TestInsert : insert = Ok ().
Proof. vm_compute. reflexivity. Qed.

Definition insert_disambiguator : res () :=
  d ← foldM apply NewDocument [root x63 C_ID0; root x61 A_ID0; root x62 B_ID0];
  _ ← assert_doc (bytes "abc") d;
  d ← foldM apply d [new x63 C_ID0 1 C_ID1; new x61 C_ID0 1 A_ID1; new x62 C_ID0 1 B_ID1];
  assert_doc (bytes "abcabc") d.

Example TestInsertDisambiguator : insert_disambiguator = Ok ().
Proof. vm_compute. reflexivity. Qed.

Definition delete_ : res () :=
  d ← NewTestDoc;
  d ← foldM apply d [delete_at C_ID1 1; delete_at C_ID0 0];
  _ ← assert_doc (bytes "fadehb") d;
  assert_stat 6 2 d.

Example TestDelete : delete_ = Ok ().
Proof. vm_compute. reflexivity. Qed.

(** Two documents get two operations each, and show the same. *)
Definition apply_both (str : list byte) (ds : Document * Document) (ops : list Operation)
    : res (Document * Document) :=
  d1 ← foldM apply ds.1 ops;
  d2 ← foldM apply ds.2 (reverse ops);
  _ ← assert_doc str d1;
  _ ← assert_doc str d2;
  Ok (d1, d2).

Definition insert_insert : res () :=
  ds ← apply_both (bytes "ab") (NewDocument, NewDocument) [root x61 A_ID0; root x62 B_ID0];
  ds ← apply_both (bytes "cadb") ds [new x63 A_ID0 0 C_ID0; new x64 A_ID0 1 C_ID1];
  ds ← apply_both (bytes "cadefb") ds [insert_at x65 C_ID1 1; insert_at x66 C_ID1 2];
  Ok ().

Example TestInsertInsert : insert_insert = Ok ().
Proof. vm_compute. reflexivity. Qed.

Definition delete_delete : res () :=
  d ← NewTestDoc;
  let turn d :=
    d ← apply d (delete_at C_ID1 1);
    s ← DocToString d;
    _ ← assertEqual (bytes "cfadehb") s;
    _ ← assert_stat 7 1 d;
    Ok d in
  d ← turn d;
  _ ← turn d;
  Ok ().

Example TestDeleteDelete : delete_delete = Ok ().
Proof. vm_compute. reflexivity. Qed.

(** [str[:i] + str[i+1:]] and [str[:i] + ch + str[i:]]. *)
Definition cut (str : list byte) (i : nat) : list byte := take i str ++ drop (S i) str.
Definition within (str : list byte) (i : nat) (ch : byte) : list byte :=
  take i str ++ ch :: drop i str.

(** A deletion, and the text, the size and the counts afterwards. *)
Definition delete_and_assert (dead : Z) (s : Document * list byte) (i : nat)
    : res (Document * list byte) :=
  let '(d, str) := s in
  '(d, _) ← DeletePos d (Z.of_nat i);
  let str := cut str i in
  _ ← assert_doc str d;
  _ ← assert_stat (zlen str) dead d;
  Ok (d, str).

Definition delete_pos : res () :=
  let str := bytes "cfadeghb" in
  _ ← foldM (λ _ i, d ← NewTestDoc; _ ← delete_and_assert 1 (d, str) i; Ok ()) () (seq 0 8);
  _ ← foldM (λ _ '(i, j),
        d ← NewTestDoc;
        s ← delete_and_assert 1 (d, str) i;
        _ ← delete_and_assert 2 s j;
        Ok ()) () (list_prod (seq 0 7) (seq 0 6));
  d ← NewTestDoc;
  _ ← assert_doc str d;
  '(d, s) ← delete_and_assert 1 (d, str) 0;
  _ ← assertEqual (bytes "fadeghb") s;
  '(_, s) ← delete_and_assert 2 (d, s) 4;
  assertEqual (bytes "fadehb") s.

Example TestDeletePos : delete_pos = Ok ().
Proof. vm_compute. reflexivity. Qed.

(** [ApplyOperation] with the operation for the buffer that it returns. *)
Definition apply_and_assert (d : Document) (step : Operation * (BufferOp.OpType * Z))
    : res Document :=
  let '(op, exp) := step in
  '(d, bufOp) ← ApplyOperation d op;
  _ ← assertEqual exp (bo_Type bufOp, bo_Pos bufOp);
  Ok d.

Definition buffer_operation_return : res () :=
  let at_ pos := (BufferOp.REMOTE_INSERT, pos) in
  d ← NewTestDoc;
  _ ← foldM apply_and_assert d
    [(delete_at C_ID1 1, (BufferOp.DELETE, 5)); (delete_at C_ID0 0, (BufferOp.DELETE, 0))];
  _ ← foldM apply_and_assert NewDocument
    [(root x61 A_ID0, at_ 0); (root x62 B_ID0, at_ 1);
     (new x63 A_ID0 0 C_ID0, at_ 0); (new x64 A_ID0 1 C_ID1, at_ 2);
     (new x65 C_ID1 1 D_ID0, at_ 3); (insert_at x66 C_ID0 1, at_ 1);
     (insert_at x67 C_ID1 1, at_ 5); (insert_at x68 C_ID1 2, at_ 6)];
  let four := [(root x61 A_ID0, at_ 0); (insert_at x61 A_ID0 1, at_ 1);
               (insert_at x61 A_ID0 2, at_ 2); (insert_at x61 A_ID0 3, at_ 3)] in
  let more := [(insert_at x62 A_ID1 1, at_ 2); (insert_at x63 B_ID1 1, at_ 4)] in
  d ← foldM apply_and_assert NewDocument
    (four ++ [(new x62 A_ID0 1 A_ID1, at_ 1); (new x63 A_ID0 1 B_ID1, at_ 2)]);
  _ ← assert_doc (bytes "abcaaa") d;
  _ ← foldM apply_and_assert d more;
  d ← foldM apply_and_assert NewDocument
    (four ++ [(new x63 A_ID0 1 B_ID1, at_ 1); (new x62 A_ID0 1 A_ID1, at_ 1)]);
  _ ← assert_doc (bytes "abcaaa") d;
  _ ← foldM apply_and_assert d more;
  Ok ().

Example TestBufferOperationReturn : buffer_operation_return = Ok ().
Proof. vm_compute. reflexivity. Qed.

(** An insertion, and the text and the size afterwards. *)
Definition insert_and_assert (id : NodeId) (ch : byte) (s : Document * list byte) (i : nat)
    : res (Document * list byte) :=
  let '(d, str) := s in
  '(d, _) ← InsertPos d id (Z.of_nat i) ch;
  let str := within str i ch in
  _ ← assert_doc str d;
  Ok (d, str).

Definition insert_pos : res () :=
  let str := bytes "cfadeghb" in
  _ ← foldM (λ _ i, d ← NewTestDoc; _ ← insert_and_assert A_ID2 x7a (d, str) i; Ok ()) () (seq 0 9);
  foldM (λ _ '(i, j),
    d ← NewTestDoc;
    s ← insert_and_assert A_ID2 x7a (d, str) i;
    _ ← insert_and_assert A_ID3 x79 s j;
    Ok ()) () (list_prod (seq 0 9) (seq 0 10)).

Example TestInsertPos : insert_pos = Ok ().
Proof. vm_compute. reflexivity. Qed.

(** [InsertPos] with the type of the operation that it returns, and the text,
    the size and the height afterwards. *)
Definition insert_expecting (d : Document)
    (step : NodeId * Z * byte * (list byte * OpType * Z)) : res Document :=
  let '(id, pos, ch, (str, ty, height)) := step in
  '(d, op) ← InsertPos d id pos ch;
  _ ← assert_doc str d;
  _ ← assertEqual ty (op_Type op);
  _ ← assert_height height d;
  Ok d.

Definition insert_all (steps : list (NodeId * Z * byte)) : res Document :=
  foldM (λ d '(id, pos, ch), '(d, _) ← InsertPos d id pos ch; Ok d) NewDocument steps.

Definition insert_pos_op_return : res () :=
  _ ← assert_height (-1) NewDocument;
  _ ← foldM insert_expecting NewDocument
    [(A_ID0, 0, x7a, (bytes "z", INSERT_ROOT, 0)); (A_ID1, 1, x79, (bytes "zy", INSERT, 0));
     (A_ID1, 2, x78, (bytes "zyx", INSERT, 0)); (A_ID1, 2, x61, (bytes "zyax", INSERT_NEW, 1));
     (A_ID2, 3, x62, (bytes "zyabx", INSERT, 1));
     (A_ID2, 0, x63, (bytes "czyabx", INSERT_NEW, 1));
     (A_ID2, 3, x64, (bytes "czydabx", INSERT_NEW, 2))];
  let four := [(A_ID0, 0, x7a); (A_ID0, 1, x7a); (A_ID0, 2, x7a); (A_ID0, 3, x7a)] in
  d ← insert_all (four ++ [(A_ID1, 1, x79); (B_ID1, 1, x78)]);
  _ ← assert_height 2 d;
  _ ← assert_doc (bytes "zxyzzz") d;
  d ← insert_all (four ++ [(B_ID1, 1, x78); (A_ID1, 1, x79)]);
  _ ← assert_height 2 d;
  assert_doc (bytes "zyxzzz") d.

Example TestInsertPosOpReturn : insert_pos_op_return = Ok ().
Proof. vm_compute. reflexivity. Qed.
End TreedocTest.
